(* ===== verification/_CoqProject ===== *)
-Q . S2P
Prelude.v
Tree.v
VsockBuffer.v
Netbuf.v
NetbufHeap.v
Sglist.v
Vring.v
VringUse.v
Vsock.v
VsockTable.v
VsockLogic.v
VsockCore.v
VsockSocket.v
VsockStream.v
QuietDriver.v
VsockSystem.v
VsockProps.v
VirtioMmio.v
VirtioVsock.v
VirtioLogic.v
VirtioTx.v
VirtioDriver.v
VirtioRx.v
VirtioWork.v
VirtioSetup.v
VirtioSample.v
Suspend.v
VirtioProps.v
Bitmap.v
Fmap.v
FmapThreads.v
Fdtab.v
PosixSocket.v
PosixLogic.v
PosixProps.v
Sched.v
SchedLogic.v
SchedOps.v
SchedProps.v
Buddy.v
BuddyLogic.v
BuddyOps.v
BuddyProps.v
