(* ===== verification/Prelude.v ===== *)
(** * A verification library for the vsock stack of netperf on Unikraft

    The repository runs netperf as a unikernel over AF_VSOCK sockets.  This
    library models the code on the path of the data under
    src/unikraft-vsock/unikraft and proves it correct, from the application's
    socket calls down to the descriptors of the virtqueues.

    ** The parts and the files that model them

    - [Prelude]: integers of a fixed width ([wrap], [swrap]), memory as lists
      ([zget], [zput], [slice], [memread]), the state monad [M] whose outcomes are
      [Done], [Abort] (a failed UK_ASSERT, an access through NULL or to freed or
      foreign memory) and [OutOfFuel], and its total correctness [wp].
    - [Tree]: include/uk/tree.h, the rank-balanced trees behind UK_RB_*.
    - [VsockBuffer]: the ring buffer of lib/ukvsockdev/vsock.c.
    - [Netbuf], [NetbufHeap]: lib/uknetdev/netbuf.c and netbuf.h, and the packet
      header of drivers/virtio/vsock/include/virtio/virtio_vsock.h.
    - [Sglist]: lib/uksglist.
    - [Vring], [VringUse]: drivers/virtio/ring, a split virtqueue and the device
      at its other end.
    - [Vsock]: lib/ukvsockdev/vsock.c and vsockdev.c, one definition per function,
      named like it, over a record of driver operations ([uk_vsockdev_ops]).
    - [VsockTable], [VsockLogic], [VsockCore], [VsockSocket], [VsockStream]: the
      invariant [core_inv] of the socket layer, the program logic [cwp] and the
      specification of each function for every driver that satisfies the class
      [Driver].  [VsockSystem] and [VsockProps] state the properties on whole
      states, [QuietDriver] is the smallest driver.
    - [VirtioMmio]: drivers/virtio/mmio/virtio_mmio.c, drivers/virtio/bus and the
      register access of virtio_config.h.
    - [VirtioVsock], [VirtioWork], [VirtioSetup]: drivers/virtio/vsock/virtio_vsock.c,
      the operations, the two workers, and the probe with feature negotiation and
      set-up of the queues, with the queue handlers of lib/ukvsockdev/vsockdev.c.
      [VirtioLogic], [VirtioTx], [VirtioDriver], [VirtioRx] prove that the driver
      satisfies [Driver]; [VirtioProps] has the properties of the socket layer and
      the driver together, [VirtioSample] an environment in which they are
      exercised.  [Suspend] has the order between a run that stops where it gives up
      the CPU and one that goes on, by which safety is carried from the second to the
      first.
    - [Bitmap]: lib/ukbitops, the searches and updates of bitmaps.
    - [Fmap], [FmapThreads]: lib/posix-fdtab/fmap.h, the lock-free map of
      descriptors, as one call at a time and as threads that interleave at every
      atomic access.
    - [Fdtab]: the descriptor table of lib/posix-fdtab/fdtab.c with the open file
      descriptions of lib/posix-fd, the files of lib/ukfile with their finalizers
      and their reference counts (include/uk/refcount.h, weak_refcount.h).
    - [PosixSocket]: lib/posix-socket, the socket files, the dispatch to the drivers
      of the families (socket_driver.h), the vsock behind an AF_INET stream, the
      blocking loops and the system calls.  [PosixLogic] joins it with the table of
      descriptors and the socket layer, [PosixProps] has its properties.
    - [Sched]: the cooperative scheduler lib/ukschedcoop, the threads and wait
      queues of lib/uksched and the semaphores of lib/uklock, on one processor.
      [SchedLogic] has the invariant [sched_inv] and the scheduler itself,
      [SchedOps] the other operations, [SchedProps] the transition system and its
      properties.
    - [Buddy]: the page allocator lib/ukallocbbuddy/bbuddy.c.  [BuddyLogic] has the
      arithmetic of aligned blocks, the bitmaps of allocated pages and the invariant
      [buddy_inv], [BuddyOps] the specification of each operation, [BuddyProps] a
      client that allocates and releases, and the properties.

    ** How the code is translated

    A C function is a Rocq definition of the same name; its early returns are the
    branches of conditionals in the same order.  Objects reached through pointers
    are entries of finite maps addressed by identifiers, NULL is [None], and
    freeing removes the entry, so a use after free is an [Abort].  Arrays are
    lists with checked accesses.  Structs are records; embedded structs found with
    __containerof are pairs of the core's and the driver's part.  Integers are [Z]
    with the wrap-around of their C type written out where it can occur.  Debug
    output is left out.

    What is not in the repository, or is hardware, is a parameter with a class of
    laws: memory allocation ([Allocator]: a block lies in the address space and has
    the requested size, or there is none), address translation ([PageMap],
    [Mapped]), the device's side of a ring ([DeviceStep]), the migration hook
    ([Migration]), interrupt registration and the memory of rings ([Platform]).
    The registers of a device are an arbitrary function of the history of accesses.
    The drivers of other socket families are parameters too ([OtherDriver]), and so
    is what the rest of the file layer does with a file ([FileEnv]).  Every such
    class has an instance in [VirtioSample] or beside its definition.

    Code that runs with interrupts disabled is one computation.  In [Sched] the
    sections between two such points are the steps of a transition system, so that
    wake-ups from interrupts come between any two of them, also between the choice
    of a thread and the switch to it ([s_next]).

    The socket layer and the driver give up the CPU in two places: in the blocking
    transmit of control packets while the transmit queue is full, and in the workers
    between two packets.  [uk_sched_yield] is an argument of the definitions.  The
    theorems about a whole stack put [wait_for_room] there: the run ends where it
    waits, and it fails if the queue is not full.  A sequence of runs is thus an
    interleaving of threads at the points where the workers yield, and no claim is made
    about what a call does after it has waited and other threads have changed the
    sockets; [close_race] shows that this can go wrong.  The class [Progress], a
    scheduler under which the device alone acts, is used inside proofs only.

    ** What the theorems show

    - Safety: [stack_safe], from the probe of the device on, for every sequence of
      calls of the application, sections of the workers, interrupts and steps of the
      device, up to the points where a call waits for room in the transmit queue;
      [system_safe], the same for the socket layer on any driver that keeps to
      [Driver]; [xmit_retry_turn], when the driver waits; [close_race], what may go
      wrong then; [interrupt_wakes]: an interrupt wakes the worker of every queue with
      work.
    - The data: [stream_in_order], [send_outcome], [packet_delivered]: bytes go from
      one socket's send to its peer's receive buffer and to the peer's application
      unchanged and in order, and a sender stays within the window its peer has
      announced.
    - Descriptors: [fmap_linearizable], the map of descriptors takes effect at one
      point of each call under every interleaving; [fdtab_safe] and
      [socket_layers_safe], the descriptions, files and sockets that exist are
      exactly those that are referred to.
    - AF_INET over vsock: [socket_create_outcome], [inet_bind_name]; [recv_wakes],
      [recv_misses_eof] and [send_spins] on the blocking calls.
    - Threads: [sched_returns] and [sched_wf], no operation of the scheduler fails
      and its queues agree with the flags of the threads in every reachable state;
      [no_starvation], [no_lost_wakeup] and [idle_wakes], every thread that can run
      gets the processor, semaphores lose no wake-up, the idle thread does not
      oversleep; [schedule_outcome], the choice of the next thread;
      [terminate_sleeper_dangles] and [block_newcomer_lost], two uses the scheduler
      does not support.
    - Pages: [client_partition], every history of allocations and releases is served
      and keeps the pages split between the free ones and the blocks held;
      [palloc_complete], an allocation fails only when no aligned block of free pages
      is big enough; [history_independent], the free lists are determined by the
      pages held; [addmem_outcome], what a new region adds.
    - The calls: one [_outcome] theorem per call of the socket layer, on every
      branch, errors included.
    - The structures: the tree refines a set and is balanced, the virtqueue returns
      every buffer once and loses no wake-up, scatter/gather lists describe exactly
      the bytes of the buffers, netbuf chains are freed exactly, headers round trip.
    - Errors: [no_memory_no_effect].

    ** Bounds

    Loops whose bound is data (chains, rings, trees, ports) recurse on it or on
    fuel that the theorems show to be enough: the port search tries 2^16 + 1
    ports, as the number of bound sockets is assumed to be at most 65535 where a
    port is to be found; the blocking transmit has one turn per descriptor, which is
    enough when only the device acts while it waits, and [xmit_retry_turn] describes
    each turn for every number of them.
    The workers' loops run as long as packets arrive, so for them the theorems
    state safety for every number of iterations.  A send is at most 65491 bytes
    ([max_payload]), the largest payload whose packet fits the 16-bit length of
    a netbuf; a larger one fails an assertion of the driver.
    The retry loops of the descriptor map run a given number of turns when one call
    runs at a time, where one turn is enough; with threads a turn is a step and
    there is no bound.  The counts of semaphores and the execution times of threads
    are unbounded integers; deadlines wrap as in the code.
    In the page allocator trimming has fuel for 64 chunks, as every turn clears a bit
    of a 64-bit number, releasing has one turn per page, and merging at most 51; a
    region must not wrap around the address space, nor overlap the ones before.

    ** What is not modelled

    The platform, architecture and boot code, the other drivers and the file
    systems are not on the path of the data.  Of the stack itself the PCI transport,
    the loop of the dispatcher threads (a run of a worker stands for one of its
    iterations), socketpair, and the file locks and event queues of lib/ukfile
    are not modelled: a thread that waits for events tests them after every turn of
    the other threads, the way a change of the events wakes it is left out.  Of the scheduler, stacks, register contexts, thread-local
    storage, the tables of callbacks, the statistics, mutexes and readers-writer
    locks are left out; of the page allocator the statistics, [errno] and the optional
    check of its lists, and it is not joined to the class [Allocator], whose blocks come
    from the heap above it; the models of the socket layer and the driver run between
    two yields and do not use the transition system of [SchedProps].  The properties
    of descriptors and socket files are those of a build without file finalizers
    ([file_finalizers] shows what happens with them).  The list of
    components in the manifest says of each directory what is modelled. *)

From Stdlib Require Import ZArith Lia.
From stdpp Require Import prelude gmap.

#[global] Open Scope Z_scope.

(** ** Machine integers *)

(** Unsigned [w]-bit wrap-around. *)
Definition wrap (w z : Z) : Z := z mod 2 ^ w.

Abbreviation u8 := (wrap 8).
Abbreviation u16 := (wrap 16).
Abbreviation u32 := (wrap 32).
Abbreviation u64 := (wrap 64).

(** Conversion of a bit pattern to a signed [w]-bit integer. *)
Definition swrap (w z : Z) : Z :=
  let m := wrap w z in if m <? 2 ^ (w - 1) then m else m - 2 ^ w.

Abbreviation s16 := (swrap 16).
Abbreviation s32 := (swrap 32).

(** A single bit, and the test of a flag. *)
Definition UK_BIT (n : Z) : Z := Z.shiftl 1 n.
Definition flag_set (v f : Z) : bool := negb (Z.land v f =? 0).

Definition POWER_OF_2 (v : Z) : bool := negb (v =? 0) && (Z.land v (v - 1) =? 0).

Lemma wrap_range w z : 0 <= w -> 0 <= wrap w z < 2 ^ w.
Proof. intros. apply Z.mod_pos_bound. apply Z.pow_pos_nonneg; lia. Qed.

Lemma wrap_small w z : 0 <= z < 2 ^ w -> wrap w z = z.
Proof. apply Z.mod_small. Qed.

Lemma wrap_wrap w z : 0 <= w -> wrap w (wrap w z) = wrap w z.
Proof. intros. apply Z.mod_mod. apply Z.pow_nonzero; lia. Qed.

Lemma wrap_add_l w a b : 0 <= w -> wrap w (wrap w a + b) = wrap w (a + b).
Proof. intros. apply Z.add_mod_idemp_l. apply Z.pow_nonzero; lia. Qed.

Lemma swrap_range w z : 0 < w -> - 2 ^ (w - 1) <= swrap w z < 2 ^ (w - 1).
Proof.
  intros Hw. unfold swrap. pose proof (wrap_range w z ltac:(lia)).
  replace (2 ^ w) with (2 * 2 ^ (w - 1)) in *
    by (rewrite <- Z.pow_succ_r by lia; f_equal; lia).
  case_match; lia.
Qed.

Lemma swrap_small w z : 0 < w -> 0 <= z < 2 ^ (w - 1) -> swrap w z = z.
Proof.
  intros Hw Hz. unfold swrap.
  assert (2 ^ w = 2 * 2 ^ (w - 1))
    by (rewrite <- Z.pow_succ_r by lia; f_equal; lia).
  rewrite wrap_small by lia. case_match; lia.
Qed.

(** Rewriting away a wrap whose argument is in range. *)
Ltac unwrap :=
  repeat (rewrite wrap_small in * by lia); repeat (rewrite wrap_small by lia).

(** ** Error numbers (lib/nolibc/include/errno.h) *)

Definition ENOENT : Z := 2.
Definition ENXIO : Z := 6.
Definition EAGAIN : Z := 11.
Definition ENOMEM : Z := 12.
Definition EFAULT : Z := 14.
Definition ENODEV : Z := 19.
Definition EINVAL : Z := 22.
Definition ENOTTY : Z := 25.
Definition EFBIG : Z := 27.
Definition ENOSPC : Z := 28.
Definition EPIPE : Z := 32.
Definition ERANGE : Z := 34.
Definition ENOMSG : Z := 42.
Definition ENOPROTOOPT : Z := 92.
Definition EPROTONOSUPPORT : Z := 93.
Definition ESOCKTNOSUPPORT : Z := 94.
Definition EOPNOTSUPP : Z := 95.
Definition ENOTSUP : Z := 95.
Definition EAFNOSUPPORT : Z := 97.
Definition EADDRINUSE : Z := 98.
Definition EADDRNOTAVAIL : Z := 99.
Definition ENOBUFS : Z := 105.
Definition EISCONN : Z := 106.
Definition ENOTCONN : Z := 107.
Definition ECONNREFUSED : Z := 111.
Definition EALREADY : Z := 114.
Definition EINPROGRESS : Z := 115.

(** ** Outcomes and the state monad of the C functions

    A C function that reads and writes the state [S] and returns an [A] is a
    value of [M S A].  [Abort] is a failed [UK_ASSERT] or an access through an
    invalid pointer; [OutOfFuel] is a loop that has not returned yet when the
    number of iterations granted to it is spent. *)

Inductive outcome (A : Type) : Type :=
  | Done (a : A)
  | Abort
  | OutOfFuel.
Arguments Done {A} a.
Arguments Abort {A}.
Arguments OutOfFuel {A}.

Definition M (S A : Type) : Type := S -> outcome (A * S).

#[global] Instance M_ret {S} : MRet (M S) := fun A a s => Done (a, s).
#[global] Instance M_bind {S} : MBind (M S) := fun A B f m s =>
  match m s with
  | Done (a, s') => f a s'
  | Abort => Abort
  | OutOfFuel => OutOfFuel
  end.

Definition gets {S A} (f : S -> A) : M S A := fun s => Done (f s, s).
Definition modify {S} (f : S -> S) : M S unit := fun s => Done (tt, f s).
Definition abort {S A} : M S A := fun _ => Abort.
Definition out_of_fuel {S A} : M S A := fun _ => OutOfFuel.
Definition UK_ASSERT {S} (b : bool) : M S unit :=
  fun s => if b then Done (tt, s) else Abort.
(** Dereferencing a pointer: the object, or [Abort] when there is none. *)
Definition deref {S A} (f : S -> option A) : M S A :=
  fun s => match f s with Some a => Done (a, s) | None => Abort end.

(** Total and partial correctness of a computation from a state. *)
Definition wp {S A} (m : M S A) (Q : A -> S -> Prop) (s : S) : Prop :=
  match m s with Done (a, s') => Q a s' | _ => False end.
Definition wlp {S A} (m : M S A) (Q : A -> S -> Prop) (s : S) : Prop :=
  match m s with Done (a, s') => Q a s' | _ => True end.

(** The computation does not fail: it returns with [Q] or is still running. *)
Definition wsafe {S A} (m : M S A) (Q : A -> S -> Prop) (s : S) : Prop :=
  match m s with Done (a, s') => Q a s' | Abort => False | OutOfFuel => True end.

Section wp.
Context {S : Type}.

Lemma wp_ret {A} (a : A) Q (s : S) : wp (mret a) Q s <-> Q a s.
Proof. done. Qed.
Lemma wlp_ret {A} (a : A) Q (s : S) : wlp (mret a) Q s <-> Q a s.
Proof. done. Qed.
Lemma wp_gets {A} (f : S -> A) Q (s : S) : Q (f s) s -> wp (gets f) Q s.
Proof. done. Qed.
Lemma wp_modify (f : S -> S) (Q : unit -> S -> Prop) s : Q tt (f s) -> wp (modify f) Q s.
Proof. done. Qed.
Lemma wp_assert (b : bool) (Q : unit -> S -> Prop) s : b = true -> Q tt s -> wp (UK_ASSERT b) Q s.
Proof. by intros ->. Qed.

Lemma wp_bind {A B} (m : M S A) (f : A -> M S B) Q s :
  wp (m ≫= f) Q s <-> wp m (fun a s' => wp (f a) Q s') s.
Proof.
  unfold wp, mbind, M_bind. by destruct (m s) as [[a s']| |].
Qed.
Lemma wlp_bind {A B} (m : M S A) (f : A -> M S B) Q s :
  wlp (m ≫= f) Q s <-> wlp m (fun a s' => wlp (f a) Q s') s.
Proof.
  unfold wlp, mbind, M_bind. by destruct (m s) as [[a s']| |].
Qed.

Lemma wp_mono {A} (m : M S A) (P Q : A -> S -> Prop) s :
  (forall a s', P a s' -> Q a s') -> wp m P s -> wp m Q s.
Proof. unfold wp. intros H. destruct (m s) as [[a s']| |]; auto. Qed.
Lemma wlp_mono {A} (m : M S A) (P Q : A -> S -> Prop) s :
  (forall a s', P a s' -> Q a s') -> wlp m P s -> wlp m Q s.
Proof. unfold wlp. intros H. destruct (m s) as [[a s']| |]; auto. Qed.
Lemma wlp_run {A} (m : M S A) (Q : A -> S -> Prop) s :
  (forall a s', m s = Done (a, s') -> Q a s') -> wlp m Q s.
Proof. unfold wlp. destruct (m s) as [[a s']| |]; auto. Qed.
Lemma wlp_then {A B} (m : M S A) (f : A -> M S B) Q s :
  (forall a s', wlp (f a) Q s') -> wlp (m ≫= f) Q s.
Proof. intros H. apply wlp_bind, wlp_run. intros a s' _. apply H. Qed.

Lemma wsafe_bind {A B} (m : M S A) (f : A -> M S B) Q s :
  wsafe (m ≫= f) Q s <-> wsafe m (fun a s' => wsafe (f a) Q s') s.
Proof. unfold wsafe, mbind, M_bind. by destruct (m s) as [[a s']| |]. Qed.
Lemma wsafe_wp {A} (m : M S A) (P Q : A -> S -> Prop) s :
  wp m P s -> (forall a s', P a s' -> Q a s') -> wsafe m Q s.
Proof. unfold wp, wsafe. intros H HQ. destruct (m s) as [[a s']| |]; auto. Qed.
Lemma wsafe_mono {A} (m : M S A) (P Q : A -> S -> Prop) s :
  (forall a s', P a s' -> Q a s') -> wsafe m P s -> wsafe m Q s.
Proof. unfold wsafe. intros H. destruct (m s) as [[a s']| |]; auto. Qed.

Lemma wp_deref {A} (f : S -> option A) Q s a : f s = Some a -> Q a s -> wp (deref f) Q s.
Proof. unfold wp, deref. by intros ->. Qed.

Lemma wlp_and {A} (m : M S A) (P Q : A -> S -> Prop) s :
  wlp m P s -> wlp m Q s -> wlp m (fun a s' => P a s' /\ Q a s') s.
Proof. unfold wlp. destruct (m s) as [[a s']| |]; auto. Qed.
Lemma wp_wlp {A} (m : M S A) (P Q : A -> S -> Prop) s :
  wp m P s -> wlp m Q s -> wp m (fun a s' => P a s' /\ Q a s') s.
Proof. unfold wp, wlp. destruct (m s) as [[a s']| |]; auto. Qed.

Lemma wp_elim {A} (m : M S A) Q s :
  wp m Q s <-> exists a s', m s = Done (a, s') /\ Q a s'.
Proof.
  unfold wp. destruct (m s) as [[a s']| |]; naive_solver.
Qed.
Lemma wlp_elim {A} (m : M S A) Q s :
  wlp m Q s <-> forall a s', m s = Done (a, s') -> Q a s'.
Proof.
  unfold wlp. destruct (m s) as [[a s']| |]; naive_solver.
Qed.

Lemma bind_done {A B} (m : M S A) (f : A -> M S B) s r :
  (m ≫= f) s = Done r <-> exists a s', m s = Done (a, s') /\ f a s' = Done r.
Proof.
  unfold mbind, M_bind. destruct (m s) as [[a s']| |]; naive_solver.
Qed.
End wp.

(** [wp_step] unfolds the binds and the primitive actions of a goal. *)
Ltac wp_step :=
  repeat first
    [ rewrite wp_bind | rewrite wlp_bind | rewrite wp_ret | rewrite wlp_ret
    | progress unfold gets, modify, UK_ASSERT, deref, abort, out_of_fuel ].

(** ** Sequences *)

Lemma NoDup_app_cons_inj {A} (x : A) l1 l2 k1 k2 :
  NoDup (l1 ++ x :: l2) -> l1 ++ x :: l2 = k1 ++ x :: k2 -> l1 = k1 /\ l2 = k2.
Proof.
  intros Hnd Heq. assert (NoDup (k1 ++ x :: k2)) as Hnd' by congruence.
  apply NoDup_app in Hnd as (_ & H1 & _). apply NoDup_app in Hnd' as (_ & H2 & _).
  destruct (not_elem_of_app_cons_inv_l x x l1 l2 k1 k2) as (? & _ & ?); [| |done..];
    intros Hin; [apply (H2 x Hin)|apply (H1 x Hin)]; left.
Qed.

(** ** Arrays of bytes: reading and writing a range *)

Definition zlen {A} (l : list A) : Z := Z.of_nat (length l).

(** The [n] elements of [l] from index [off]. *)
Definition slice {A} (off n : Z) (l : list A) : list A :=
  take (Z.to_nat n) (drop (Z.to_nat off) l).

(** [memcpy] of [src] into the array [l] at index [off]. *)
Definition splice {A} (off : Z) (src l : list A) : list A :=
  take (Z.to_nat off) l ++ src ++ drop (Z.to_nat off + length src) l.

Section slices.
Context {A : Type}.
Implicit Types l src : list A.

Lemma zlen_cons x l : zlen (x :: l) = zlen l + 1.
Proof. unfold zlen. cbn. lia. Qed.
Lemma zlen_nonneg l : 0 <= zlen l.
Proof. unfold zlen. lia. Qed.

Lemma zlen_drop n l : 0 <= n <= zlen l -> zlen (drop (Z.to_nat n) l) = zlen l - n.
Proof. unfold zlen. rewrite length_drop. lia. Qed.

Lemma zlen_app l1 l2 : zlen (l1 ++ l2) = zlen l1 + zlen l2.
Proof. unfold zlen. rewrite length_app. lia. Qed.

Lemma zlen_slice off n l :
  0 <= off -> 0 <= n -> off + n <= zlen l -> zlen (slice off n l) = n.
Proof.
  unfold zlen, slice. intros. rewrite length_take, length_drop. lia.
Qed.

Lemma zlen_splice off src l :
  0 <= off -> off + zlen src <= zlen l -> zlen (splice off src l) = zlen l.
Proof.
  unfold zlen, splice. intros.
  rewrite !length_app, length_take, length_drop. lia.
Qed.

Lemma slice_all l : slice 0 (zlen l) l = l.
Proof. unfold slice, zlen. rewrite drop_0, Nat2Z.id. by apply take_ge. Qed.

Lemma slice_nil off n : slice off n ([] : list A) = [].
Proof. unfold slice. by rewrite drop_nil, take_nil. Qed.

Lemma slice_0 off l : slice off 0 l = [].
Proof. done. Qed.

(** Lookup in a slice and in a spliced array. *)
Lemma lookup_slice off n l i :
  slice off n l !! i =
    if decide (Z.of_nat i < n) then l !! (Z.to_nat off + i)%nat else None.
Proof.
  unfold slice. case_decide.
  - rewrite lookup_take_lt by lia. by rewrite lookup_drop.
  - rewrite lookup_take_ge by lia. done.
Qed.

Lemma lookup_splice off src l i :
  0 <= off -> off + zlen src <= zlen l ->
  splice off src l !! i =
    if decide (off <= Z.of_nat i < off + zlen src)
    then src !! (i - Z.to_nat off)%nat else l !! i.
Proof.
  unfold splice, zlen. intros Ho Hl.
  destruct (decide (Z.of_nat i < off)).
  - rewrite lookup_app_l by (rewrite length_take; lia).
    rewrite lookup_take_lt by lia. by rewrite decide_False by lia.
  - rewrite lookup_app_r by (rewrite length_take; lia).
    rewrite length_take.
    destruct (decide (Z.of_nat i < off + Z.of_nat (length src))).
    + rewrite lookup_app_l by lia. rewrite decide_True by lia.
      f_equal. lia.
    + rewrite lookup_app_r by lia. rewrite lookup_drop.
      rewrite decide_False by lia. f_equal. lia.
Qed.

(** Consecutive slices join. *)
Lemma slice_app off n m l :
  0 <= off -> 0 <= n -> 0 <= m ->
  slice off n l ++ slice (off + n) m l = slice off (n + m) l.
Proof.
  intros. unfold slice.
  rewrite !Z2Nat.inj_add by lia. rewrite <- drop_drop.
  by rewrite take_take_drop.
Qed.

Lemma slice_take off n m l :
  0 <= n <= m -> take (Z.to_nat n) (slice off m l) = slice off n l.
Proof. intros. unfold slice. rewrite take_take. f_equal. lia. Qed.

Lemma slice_drop off n m l :
  0 <= off -> 0 <= n <= m -> drop (Z.to_nat n) (slice off m l) = slice (off + n) (m - n) l.
Proof.
  intros. unfold slice. rewrite skipn_firstn_comm, drop_drop.
  f_equal; [lia|]. f_equal. lia.
Qed.

(** What was written is read back, and the rest is untouched. *)
Lemma slice_splice_eq off src l :
  0 <= off -> off + zlen src <= zlen l -> slice off (zlen src) (splice off src l) = src.
Proof.
  intros. apply list_eq. intros i. rewrite lookup_slice, lookup_splice by done.
  unfold zlen in *. repeat case_decide; try lia.
  - f_equal. lia.
  - symmetry. apply lookup_ge_None. lia.
Qed.

Lemma slice_splice_ne off src l o n :
  0 <= off -> off + zlen src <= zlen l -> 0 <= o -> 0 <= n ->
  (o + n <= off \/ off + zlen src <= o) ->
  slice o n (splice off src l) = slice o n l.
Proof.
  intros. apply list_eq. intros i. rewrite !lookup_slice, lookup_splice by done.
  repeat case_decide; try lia; done.
Qed.
End slices.

Create Rewrite HintDb zlen.
#[global] Hint Rewrite @zlen_app : zlen.

Lemma filter_all {A} (P : A -> Prop) `{forall x, Decision (P x)} (l : list A) :
  Forall P l -> filter P l = l.
Proof. induction 1; [done|]. rewrite filter_cons_True by done. by f_equal. Qed.

(** ** Checked copies

    [memcpy] into an array and a read of a range of it; [None] when the range
    is not inside the array. *)

Definition memcpy {A} (off : Z) (src dst : list A) : option (list A) :=
  if (0 <=? off) && (off + zlen src <=? zlen dst) then Some (splice off src dst) else None.

Definition memread {A} (off n : Z) (l : list A) : option (list A) :=
  if (0 <=? off) && (0 <=? n) && (off + n <=? zlen l) then Some (slice off n l) else None.

Lemma memcpy_Some {A} off (src dst : list A) :
  0 <= off -> off + zlen src <= zlen dst -> memcpy off src dst = Some (splice off src dst).
Proof. intros. unfold memcpy. destruct (_ && _) eqn:Hb; [done|lia]. Qed.

Lemma memread_Some {A} off n (l : list A) :
  0 <= off -> 0 <= n -> off + n <= zlen l -> memread off n l = Some (slice off n l).
Proof. intros. unfold memread. destruct (_ && _) eqn:Hb; [done|lia]. Qed.

(** Taking a remainder that wraps at most once. *)
Lemma mod_once a c : 0 <= a < 2 * c -> a mod c = if a <? c then a else a - c.
Proof.
  intros. destruct (Z.ltb_spec a c).
  - apply Z.mod_small. lia.
  - symmetry. apply (Z.mod_unique_pos _ _ 1); lia.
Qed.

Lemma zlen_concat_cons {A} (x : list A) l : zlen (concat (x :: l)) = zlen x + zlen (concat l).
Proof. cbn. apply zlen_app. Qed.

#[global] Arguments memcpy : simpl never.
#[global] Arguments memread : simpl never.
#[global] Arguments wrap : simpl never.
#[global] Arguments zlen : simpl never.
#[global] Arguments slice : simpl never.
#[global] Arguments splice : simpl never.
