(* ===== verification/Tree.v ===== *)
(** * Rank-balanced trees (include/uk/tree.h)

    The [UK_RB_*] operations that the socket table uses, on an inductive tree.
    A node holds two bits, "the edge to the left (right) child is long", which
    the C code keeps in the two low bits of the node's parent pointer.  A C
    pointer into the tree is a zipper: a subtree together with the frames that
    lead from it to the root, so the loops that climb parent pointers become
    recursions on the list of frames.  [None] is an access through NULL. *)

From stdpp Require Import prelude gmap sorting.
From S2P Require Import Prelude.

Inductive dir : Set := Lft | Rgt.

Section tree.
Context {A : Type}.

Inductive tree : Type :=
  | E
  | T (bl br : bool) (l : tree) (x : A) (r : tree).

(** The elements in order. *)
Fixpoint elems (t : tree) : list A :=
  match t with E => [] | T _ _ l x r => elems l ++ x :: elems r end.

(** A node given in the direction [d]: first the bit and the child on side
    [d], last those on the other side. *)
Definition node (d : dir) (b_d b_o : bool) (t_d : tree) (x : A) (t_o : tree) : tree :=
  match d with Lft => T b_d b_o t_d x t_o | Rgt => T b_o b_d t_o x t_d end.

Definition view (d : dir) (t : tree) : option (bool * bool * tree * A * tree) :=
  match t with
  | E => None
  | T bl br l x r =>
      Some match d with Lft => (bl, br, l, x, r) | Rgt => (br, bl, r, x, l) end
  end.

(** One step up: the side the hole is on, the bit of the edge to the hole, the
    bit of the other edge, the element of the parent and the sibling. *)
Record frame : Type := Frame {
  f_dir : dir;
  f_elm : bool;
  f_sib : bool;
  f_x : A;
  f_t : tree
}.

Definition plug1 (t : tree) (f : frame) : tree :=
  node (f_dir f) (f_elm f) (f_sib f) t (f_x f) (f_t f).

Definition plug (path : list frame) (t : tree) : tree := fold_left plug1 path t.

(** [RB_DO_INSERT_COLOR]: the rank of the tree at [elm] grew. *)
Fixpoint do_insert_color (elm : tree) (path : list frame) : option tree :=
  match path with
  | [] => Some elm
  | f :: up =>
      let d := f_dir f in
      if f_elm f then
        (* shorten the parent-elm edge to rebalance *)
        Some (plug up (node d false (f_sib f) elm (f_x f) (f_t f)))
      else if negb (f_sib f) then
        (* the other edge becomes long, retry from parent *)
        do_insert_color (node d false true elm (f_x f) (f_t f)) up
      else
        '(e_e, e_s, w, ex, e_t) ← view d elm;
        if (e_e : bool) then
          (* rotate child over elm, then over parent *)
          '(c_e, c_s, x, cx, y) ← view d e_t;
          let elm' := node d (negb e_e) (if (c_e : bool) then negb e_s else e_s) w ex x in
          let par' := node d c_s false y (f_x f) (f_t f) in
          Some (plug up (node d false false elm' cx par'))
        else
          (* rotate elm over parent *)
          Some (plug up (node d false false w ex (node d false false e_t (f_x f) (f_t f))))
  end.

(** The loop of [RB_REMOVE_COLOR]: the rank of the tree at [elm] shrank. *)
Fixpoint remove_color_loop (elm : tree) (path : list frame) : option tree :=
  match path with
  | [] => Some elm
  | f :: up =>
      let d := f_dir f in
      if negb (f_elm f) then
        (* lengthen the parent-elm edge to rebalance *)
        Some (plug up (node d true (f_sib f) elm (f_x f) (f_t f)))
      else if f_sib f then
        (* shorten other edge, retry from parent *)
        remove_color_loop (node d true false elm (f_x f) (f_t f)) up
      else
        '(s_e, s_s, t_e, sx, t_s) ← view d (f_t f);
        if (s_e : bool) && (s_s : bool) then
          (* shorten edges descending from sib, retry *)
          remove_color_loop
            (node d (f_elm f) (f_sib f) elm (f_x f) (node d false false t_e sx t_s)) up
        else if (s_s : bool) then
          (* rotate elm* over sib, then over parent *)
          '(c_e, c_s, x, cx, y) ← view d t_e;
          let par' := node d (negb (f_elm f))
                        (if (c_e : bool) then negb (f_sib f) else f_sib f) elm (f_x f) x in
          let sib' := node d (if (c_s : bool) then negb s_e else s_e) (negb s_s) y sx t_s in
          Some (plug up (node d true true par' cx sib'))
        else
          (* rotate sib over parent, demoting parent when its new child is low *)
          let par' := node d (if (s_e : bool) then negb (f_elm f) else f_elm f) (f_sib f)
                        elm (f_x f) t_e in
          Some (plug up (node d s_e (negb s_s) par' sx t_s))
  end.

(** [RB_REMOVE_COLOR]: deleting a leaf that is an only child first demotes its
    parent, which has become a leaf. *)
Definition remove_color (elm : tree) (path : list frame) : option tree :=
  match path with
  | [] => Some elm
  | f :: up =>
      match elm, f_t f with
      | E, E => remove_color_loop (node (f_dir f) false false E (f_x f) E) up
      | _, _ => remove_color_loop elm path
      end
  end.

(** Assigning a parent pointer without bits. *)
Definition clear_bits (t : tree) : tree :=
  match t with E => E | T _ _ l x r => T false false l x r end.

(** The leftmost node below (and including) a node, with its right child. *)
Fixpoint leftmost (bl br : bool) (l : tree) (x : A) (r : tree) (path : list frame)
    : A * tree * list frame :=
  match l with
  | E => (x, r, path)
  | T bl' br' l' x' r' => leftmost bl' br' l' x' r' (Frame Lft bl br x r :: path)
  end.

(** The removal of the node [T bl br l x r] at [path]: [RB_REMOVE]. *)
Definition remove_at (bl br : bool) (l r : tree) (path : list frame) : option tree :=
  match l, r with
  | T _ _ _ _ _, T bl' br' l' x' r' =>
      let '(x_in, child, path_in) := leftmost bl' br' l' x' r' [] in
      remove_color (clear_bits child) (path_in ++ Frame Rgt br bl x_in l :: path)
  | _, _ =>
      let child := match r with E => l | _ => r end in
      remove_color (clear_bits child) path
  end.

Section identity.
Context `{EqDecision A}.

(** The node that holds [x]: its bits, its children and its frames.  The C
    code reaches it by its address. *)
Fixpoint locate (x : A) (t : tree) (path : list frame)
    : option (bool * bool * tree * tree * list frame) :=
  match t with
  | E => None
  | T bl br l y r =>
      if decide (y = x) then Some (bl, br, l, r, path)
      else match locate x l (Frame Lft bl br y r :: path) with
           | Some res => Some res
           | None => locate x r (Frame Rgt br bl y l :: path)
           end
  end.

Definition RB_REMOVE (x : A) (t : tree) : option tree :=
  '(bl, br, l, r, path) ← locate x t [];
  remove_at bl br l r path.

(** The nearest ancestor reached through a child on side [d]. *)
Fixpoint climb (d : dir) (path : list frame) : option A :=
  match path with
  | [] => None
  | f :: up =>
      match d, f_dir f with
      | Lft, Lft | Rgt, Rgt => Some (f_x f)
      | _, _ => climb d up
      end
  end.

(** The last element on the way down side [d]. *)
Fixpoint extreme (d : dir) (t : tree) : option A :=
  match t with
  | E => None
  | T _ _ l x r =>
      match extreme d match d with Lft => l | Rgt => r end with
      | Some y => Some y
      | None => Some x
      end
  end.

Definition RB_NEXT (x : A) (t : tree) : option (option A) :=
  '(_, _, _, r, path) ← locate x t [];
  Some match r with E => climb Lft path | _ => extreme Lft r end.

Definition RB_PREV (x : A) (t : tree) : option (option A) :=
  '(_, _, l, _, path) ← locate x t [];
  Some match l with E => climb Rgt path | _ => extreme Rgt l end.
End identity.

Definition RB_MIN (t : tree) : option A := extreme Lft t.

Section compare.
Context {K : Type} (cmp : K -> K -> Z) (key : A -> K).

Fixpoint RB_FIND (k : K) (t : tree) : option A :=
  match t with
  | E => None
  | T _ _ l x r =>
      let comp := cmp k (key x) in
      if comp <? 0 then RB_FIND k l
      else if 0 <? comp then RB_FIND k r
      else Some x
  end.

(** The walk of [RB_INSERT]: the equal element met, or the frames down to the
    NULL link where the new element goes. *)
Fixpoint insert_walk (x : A) (t : tree) (path : list frame) : A + list frame :=
  match t with
  | E => inr path
  | T bl br l y r =>
      let comp := cmp (key x) (key y) in
      if comp <? 0 then insert_walk x l (Frame Lft bl br y r :: path)
      else if 0 <? comp then insert_walk x r (Frame Rgt br bl y l :: path)
      else inl y
  end.

(** [RB_INSERT]: the element already there, if any, and the tree. *)
Definition RB_INSERT (x : A) (t : tree) : option (option A * tree) :=
  match insert_walk x t [] with
  | inl y => Some (Some y, t)
  | inr path =>
      t' ← do_insert_color (T false false E x E) path;
      Some (None, t')
  end.

Definition RB_REINSERT `{EqDecision A} (x : A) (t : tree) : option (option A * tree) :=
  p ← RB_PREV x t;
  n ← RB_NEXT x t;
  let before := match p with Some y => 0 <=? cmp (key y) (key x) | None => false end in
  let after := match n with Some y => 0 <=? cmp (key x) (key y) | None => false end in
  if before || after then t' ← RB_REMOVE x t; RB_INSERT x t'
  else Some (None, t).
End compare.

(** ** The elements in order *)

Lemma elems_node d b_d b_o t_d x t_o :
  elems (node d b_d b_o t_d x t_o) =
    match d with
    | Lft => elems t_d ++ x :: elems t_o
    | Rgt => elems t_o ++ x :: elems t_d
    end.
Proof. by destruct d. Qed.

Lemma elems_plug1_proper f t t' :
  elems t = elems t' -> elems (plug1 t f) = elems (plug1 t' f).
Proof. unfold plug1. rewrite !elems_node. by intros ->. Qed.

Lemma elems_plug_proper path t t' :
  elems t = elems t' -> elems (plug path t) = elems (plug path t').
Proof.
  revert t t'. induction path as [|f path IH]; intros t t' H; [done|].
  apply IH. by apply elems_plug1_proper.
Qed.

Lemma view_node d t b_d b_o t_d x t_o :
  view d t = Some (b_d, b_o, t_d, x, t_o) <-> t = node d b_d b_o t_d x t_o.
Proof. destruct t, d; naive_solver. Qed.

Lemma view_elems d t b_d b_o t_d x t_o :
  view d t = Some (b_d, b_o, t_d, x, t_o) ->
  elems t = match d with
            | Lft => elems t_d ++ x :: elems t_o
            | Rgt => elems t_o ++ x :: elems t_d
            end.
Proof. intros ->%view_node. apply elems_node. Qed.

(** The elements before and after the hole of a path. *)
Fixpoint before (path : list frame) : list A :=
  match path with
  | [] => []
  | f :: up => before up ++ match f_dir f with Lft => [] | Rgt => elems (f_t f) ++ [f_x f] end
  end.
Fixpoint after (path : list frame) : list A :=
  match path with
  | [] => []
  | f :: up => match f_dir f with Lft => f_x f :: elems (f_t f) | Rgt => [] end ++ after up
  end.

Lemma elems_plug path t : elems (plug path t) = before path ++ elems t ++ after path.
Proof.
  revert t. induction path as [|f path IH]; intros t; cbn.
  { by rewrite app_nil_r. }
  unfold plug in IH. rewrite IH. unfold plug1. rewrite elems_node.
  destruct (f_dir f); by rewrite <- ?app_assoc.
Qed.

Lemma before_app p q : before (p ++ q) = before q ++ before p.
Proof. induction p; cbn; [by rewrite app_nil_r|]. by rewrite IHp, app_assoc. Qed.
Lemma after_app p q : after (p ++ q) = after p ++ after q.
Proof. induction p; cbn; [done|]. by rewrite IHp, app_assoc. Qed.

(** Closes a goal that two trees around the same hole hold the same elements. *)
Ltac solve_elems :=
  simplify_eq; apply elems_plug_proper; unfold plug1; rewrite ?elems_node;
  repeat match goal with
    | H : view _ _ = Some _ |- _ => rewrite (view_elems _ _ _ _ _ _ _ H); clear H
    end;
  match goal with |- context [f_dir ?f] => destruct (f_dir f) end;
  repeat (rewrite <- app_assoc; cbn); done.

(** Rebalancing keeps the sequence of elements. *)
Lemma do_insert_color_elems elm path t :
  do_insert_color elm path = Some t -> elems t = elems (plug path elm).
Proof.
  revert elm t. induction path as [|f up IH]; intros elm t H; cbn in *; [congruence|].
  destruct (f_elm f); [solve_elems|]. destruct (f_sib f); cbn in H.
  - destruct (view (f_dir f) elm) as [[[[[[] e_s] w] ex] e_t]|] eqn:Hv; cbn in H.
    + destruct (view (f_dir f) e_t) as [[[[[c_e c_s] x] cx] y]|] eqn:Hc; cbn in H;
        [solve_elems|done].
    + solve_elems.
    + done.
  - rewrite (IH _ _ H). solve_elems.
Qed.

Lemma remove_color_loop_elems elm path t :
  remove_color_loop elm path = Some t -> elems t = elems (plug path elm).
Proof.
  revert elm t. induction path as [|f up IH]; intros elm t H; cbn in *; [congruence|].
  destruct (f_elm f); cbn in H; [|solve_elems].
  destruct (f_sib f); [rewrite (IH _ _ H); solve_elems|].
  destruct (view (f_dir f) (f_t f)) as [[[[[s_e s_s] t_e] sx] t_s]|] eqn:Hv; [|done].
  destruct s_e, s_s; cbn in H.
  - rewrite (IH _ _ H). solve_elems.
  - solve_elems.
  - destruct (view (f_dir f) t_e) as [[[[[c_e c_s] x] cx] y]|] eqn:Hc; cbn in H;
      [solve_elems|done].
  - solve_elems.
Qed.

Lemma remove_color_elems elm path t :
  remove_color elm path = Some t -> elems t = elems (plug path elm).
Proof.
  destruct path as [|f up]; [cbn; congruence|]. unfold remove_color.
  destruct elm; [|apply remove_color_loop_elems].
  destruct (f_t f) eqn:Ht; [|apply remove_color_loop_elems].
  intros ->%remove_color_loop_elems. apply (elems_plug_proper up). unfold plug1.
  by rewrite !elems_node, Ht.
Qed.

Lemma elems_clear_bits t : elems (clear_bits t) = elems t.
Proof. by destruct t. Qed.

Lemma leftmost_elems bl br l x r path x_in child path_in :
  leftmost bl br l x r path = (x_in, child, path_in) ->
  before path_in = before path /\
  x_in :: elems child ++ after path_in = (elems l ++ x :: elems r) ++ after path.
Proof.
  revert bl br x r path. induction l as [|bl' br' l' IHl x' r' _]; intros bl br x r path H; cbn in H.
  - by simplify_eq.
  - destruct (IHl _ _ _ _ _ H) as [-> ->]. cbn. rewrite app_nil_r. split; [done|].
    by repeat (rewrite <- app_assoc; cbn).
Qed.

Lemma remove_at_elems bl br l r path t :
  remove_at bl br l r path = Some t ->
  elems t = before path ++ (elems l ++ elems r) ++ after path.
Proof.
  unfold remove_at. intros H.
  assert (forall c, remove_color (clear_bits c) path = Some t ->
            elems t = before path ++ elems c ++ after path) as Hone.
  { intros c ->%remove_color_elems. by rewrite elems_plug, elems_clear_bits. }
  destruct l as [|bl1 br1 l1 x1 r1]; [destruct r; by rewrite (Hone _ H)|].
  destruct r as [|bl' br' l' x' r']; [rewrite (Hone _ H); by rewrite app_nil_r|].
  destruct (leftmost bl' br' l' x' r' []) as [[x_in child] path_in] eqn:Hl.
  apply remove_color_elems in H. rewrite H, elems_plug, elems_clear_bits.
  apply leftmost_elems in Hl as [Hb Ha]. cbn [before after] in Hb, Ha.
  rewrite app_nil_r in Ha. rewrite before_app, after_app, Hb, app_nil_r.
  change (elems (T bl' br' l' x' r')) with (elems l' ++ x' :: elems r').
  rewrite <- Ha. cbn [before after f_dir f_t f_x app].
  by repeat (rewrite <- app_assoc; cbn [app]).
Qed.

Section identity_facts.
Context `{EqDecision A}.

Lemma locate_Some x t path bl br l r path' :
  locate x t path = Some (bl, br, l, r, path') ->
  plug path' (T bl br l x r) = plug path t.
Proof.
  revert path. induction t as [|bl0 br0 l0 IHl y r0 IHr]; intros path H; cbn in H; [done|].
  case_decide; [by simplify_eq|].
  destruct (locate x l0 _) eqn:Hl; simplify_eq.
  - by rewrite (IHl _ Hl).
  - by rewrite (IHr _ H).
Qed.

Lemma locate_None x t path : locate x t path = None <-> x ∉ elems t.
Proof.
  revert path. induction t as [|bl br l IHl y r IHr]; intros path; cbn; [set_solver|].
  rewrite elem_of_app, elem_of_cons. case_decide; [naive_solver|].
  destruct (locate x l _) eqn:Hl.
  - assert (x ∈ elems l); [|naive_solver].
    destruct (decide (x ∈ elems l)) as [|Hn]; [done|].
    apply (IHl (Frame Lft bl br y r :: path)) in Hn. congruence.
  - apply IHl in Hl. rewrite IHr. naive_solver.
Qed.

Lemma locate_elems x t bl br l r path :
  locate x t [] = Some (bl, br, l, r, path) ->
  elems t = before path ++ elems l ++ x :: elems r ++ after path.
Proof.
  intros H%locate_Some. cbn in H. rewrite <- H, elems_plug. cbn.
  by rewrite <- app_assoc.
Qed.

(** [RB_REMOVE] takes the element out of the sequence. *)
Lemma RB_REMOVE_elems x t t' :
  RB_REMOVE x t = Some t' ->
  exists l1 l2, elems t = l1 ++ x :: l2 /\ elems t' = l1 ++ l2.
Proof.
  unfold RB_REMOVE. destruct (locate x t []) as [[[[[bl br] l] r] path]|] eqn:Hl; [|done].
  cbn. intros Hr%remove_at_elems. apply locate_elems in Hl.
  exists (before path ++ elems l), (elems r ++ after path).
  by rewrite Hl, Hr, <- !app_assoc.
Qed.

Lemma extreme_elems d t :
  extreme d t = match d with Lft => head (elems t) | Rgt => last (elems t) end.
Proof.
  induction t as [|bl br l IHl x r IHr]; [by destruct d|]. cbn. destruct d.
  - rewrite IHl. by destruct (elems l).
  - rewrite IHr, last_app_cons. destruct (last (elems r)) eqn:Hr.
    + rewrite last_cons, Hr. done.
    + apply last_None in Hr. by rewrite Hr.
Qed.

Lemma climb_elems d path :
  climb d path = match d with Lft => head (after path) | Rgt => last (before path) end.
Proof.
  induction path as [|f up IH]; cbn; [by destruct d|].
  destruct d, (f_dir f); cbn; rewrite ?app_nil_r; try done.
  by rewrite app_assoc, last_snoc.
Qed.

(** The successor and the predecessor in the sequence. *)
Lemma RB_NEXT_elems x t l1 l2 :
  NoDup (elems t) -> elems t = l1 ++ x :: l2 -> RB_NEXT x t = Some (head l2).
Proof.
  intros Hnd Ht. unfold RB_NEXT.
  destruct (locate x t []) as [[[[[bl br] l] r] path]|] eqn:Hl.
  2: { apply locate_None in Hl. rewrite Ht in Hl. set_solver. }
  cbn. apply locate_elems in Hl. rewrite app_assoc in Hl. rewrite Ht in Hl, Hnd.
  apply NoDup_app_cons_inj in Hl as [-> ->]; [|done].
  f_equal. rewrite climb_elems, extreme_elems.
  destruct r as [|? ? r1 ? r2]; cbn; [done|]. by destruct (elems r1).
Qed.

Lemma RB_PREV_elems x t l1 l2 :
  NoDup (elems t) -> elems t = l1 ++ x :: l2 -> RB_PREV x t = Some (last l1).
Proof.
  intros Hnd Ht. unfold RB_PREV.
  destruct (locate x t []) as [[[[[bl br] l] r] path]|] eqn:Hl.
  2: { apply locate_None in Hl. rewrite Ht in Hl. set_solver. }
  cbn. apply locate_elems in Hl. rewrite app_assoc in Hl. rewrite Ht in Hl, Hnd.
  apply NoDup_app_cons_inj in Hl as [-> ->]; [|done].
  f_equal. rewrite climb_elems, extreme_elems.
  destruct l as [|? ? r1 ? r2]; cbn; [by rewrite app_nil_r|].
  by rewrite app_assoc, !last_app_cons.
Qed.
End identity_facts.

(** ** Rank balance

    [wavl n t]: every rank difference of [t] is 1 or 2 as its bits say, the
    rank of [t] is [n] (NULL has rank 0), and a leaf has rank 1. *)

Definition edge (b : bool) : nat := if b then 2 else 1.

Inductive wavl : nat -> tree -> Prop :=
  | wavl_E : wavl 0 E
  | wavl_T n nl nr bl br l x r :
      wavl nl l -> wavl nr r ->
      n = (nl + edge bl)%nat -> n = (nr + edge br)%nat ->
      (l = E -> r = E -> n = 1%nat) ->
      wavl n (T bl br l x r).

(** [wpath k path n]: a tree of rank [k] in the hole makes a tree of rank [n]. *)
Inductive wpath : nat -> list frame -> nat -> Prop :=
  | wpath_nil k : wpath k [] k
  | wpath_cons k m n ns f up :
      wavl ns (f_t f) ->
      m = (k + edge (f_elm f))%nat -> m = (ns + edge (f_sib f))%nat ->
      (k = 0%nat -> f_t f = E -> m = 1%nat) ->
      wpath m up n -> wpath k (f :: up) n.

Lemma wavl_0 n t : wavl n t -> (n = 0%nat <-> t = E).
Proof. intros [|? ? ? [] ?]; cbn; naive_solver lia. Qed.

Lemma wavl_node n d b_d b_o t_d x t_o :
  wavl n (node d b_d b_o t_d x t_o) <->
  exists nd no, wavl nd t_d /\ wavl no t_o /\
    n = (nd + edge b_d)%nat /\ n = (no + edge b_o)%nat /\
    (t_d = E -> t_o = E -> n = 1%nat).
Proof.
  split.
  - destruct d; intros H; inversion H; subst; naive_solver.
  - intros (nd & no & ? & ? & ? & ? & ?). destruct d; econstructor; eauto.
Qed.

Lemma wpath_app k m n p q : wpath k p m -> wpath m q n -> wpath k (p ++ q) n.
Proof. induction 1; cbn; [done|]. intros. econstructor; eauto. Qed.

Lemma wpath_plug k n path t : wpath k path n -> wavl k t -> wavl n (plug path t).
Proof.
  intros Hp. revert t. induction Hp as [|k m n ns f up Hs Hm Hm' Hl _ IH]; intros t Ht; [done|].
  apply (IH (plug1 t f)). apply wavl_node. exists k, ns. repeat split; try done.
  intros H1 H2. apply Hl; [|done]. by apply (wavl_0 _ _ Ht).
Qed.

Lemma wavl_plug n path t :
  wavl n (plug path t) -> exists k, wavl k t /\ wpath k path n.
Proof.
  revert t n. induction path as [|f up IH]; intros t n H; [eauto using wpath_nil|].
  apply IH in H as (m & (k & ns & Hk & Hs & ? & ? & Hl)%wavl_node & Hp).
  exists k. split; [done|]. econstructor; eauto.
  intros ? ?. apply Hl; [|done]. by apply (wavl_0 _ _ Hk).
Qed.

Lemma wavl_view n d t :
  (0 < n)%nat -> wavl n t ->
  exists b_d b_o t_d x t_o nd no,
    view d t = Some (b_d, b_o, t_d, x, t_o) /\ wavl nd t_d /\ wavl no t_o /\
    n = (nd + edge b_d)%nat /\ n = (no + edge b_o)%nat /\
    (t_d = E -> t_o = E -> n = 1%nat).
Proof.
  intros Hn Ht. destruct t as [|bl br l x r]; [inversion Ht; lia|].
  destruct (view d (T bl br l x r)) as [[[[[b_d b_o] t_d] y] t_o]|] eqn:Hv; [|done].
  pose proof Hv as Hv'. apply view_node in Hv'. rewrite Hv' in Ht.
  apply wavl_node in Ht as (nd & no & ?). naive_solver.
Qed.

Lemma wavl_eq n m t : wavl m t -> m = n -> wavl n t.
Proof. by intros H <-. Qed.

Lemma wavl_node_intro d b_d b_o t_d x t_o nd no :
  wavl nd t_d -> wavl no t_o -> (nd + edge b_d = no + edge b_o)%nat ->
  (t_d = E -> t_o = E -> nd + edge b_d = 1)%nat ->
  wavl (nd + edge b_d) (node d b_d b_o t_d x t_o).
Proof. intros. apply wavl_node. by exists nd, no. Qed.

(** Builds the balance of a node from that of its children. *)
Ltac build_wavl :=
  lazymatch goal with
  | |- wavl _ (node _ _ _ _ _ _) =>
      eapply wavl_node_intro; [build_wavl|build_wavl| |intros ? ?]
  | |- wavl _ E => exact wavl_E
  | |- _ => eassumption
  end.
Ltac wavl_lia :=
  repeat match goal with
    | H : node ?d _ _ _ _ _ = E |- _ => destruct d; discriminate H
    | H : ?t = E, Hw : wavl ?n ?t |- _ => apply (wavl_0 _ _ Hw) in H
    | H : wavl ?n E |- _ => assert (n = 0%nat) as ? by (by apply (wavl_0 _ _ H)); clear H
    end; cbn [edge] in *; try lia.
Ltac solve_wavl :=
  try (eapply wpath_plug; [eassumption|]); eapply wavl_eq; [build_wavl|..]; wavl_lia.

(** A tree that has just grown is a new leaf or has one long edge. *)
Definition grown (t : tree) : Prop :=
  match t with
  | E => False
  | T bl br l _ r => (l = E /\ r = E /\ bl = false /\ br = false) \/ bl = negb br
  end.

Lemma do_insert_color_wavl k path n elm :
  wpath k path n -> wavl (S k) elm -> grown elm ->
  exists t, do_insert_color elm path = Some t /\ (wavl n t \/ wavl (S n) t).
Proof.
  intros Hp. revert elm. induction Hp as [|k m n ns f up Hs Hm Hm' Hl Hup IH]; intros elm He Hg.
  { eexists. split; [done|]. by right. }
  cbn. destruct (f_elm f).
  { eexists. split; [done|]. left. solve_wavl. }
  destruct (f_sib f); cbn.
  2: { apply IH; [solve_wavl|]. unfold grown. destruct (f_dir f); cbn; by right. }
  destruct (wavl_view (S k) (f_dir f) elm) as
    (e_e & e_s & w & ex & e_t & nw & nt & Hv & Hw & Ht & H1 & H2 & H3); [lia|done|].
  rewrite Hv. cbn.
  assert (e_s = negb e_e) as ->.
  { apply view_node in Hv as ->. destruct (f_dir f), e_e, e_s; cbn in *; try done;
      destruct Hg as [(-> & -> & ? & ?)|?]; try done; cbn in *;
      exfalso; wavl_lia. }
  destruct e_e; cbn in *.
  - destruct (wavl_view nt (f_dir f) e_t) as
      (c_e & c_s & x & cx & y & nx & ny & Hc & Hx & Hy & H4 & H5 & H6); [lia|done|].
    rewrite Hc. cbn. eexists. split; [done|]. left.
    destruct c_e, c_s; solve_wavl.
  - eexists. split; [done|]. left. solve_wavl.
Qed.

Lemma remove_color_loop_wavl k path n elm :
  wpath (S k) path n -> wavl k elm ->
  match path with f :: _ => elm = E -> f_t f <> E | [] => True end ->
  exists t, remove_color_loop elm path = Some t /\ (wavl n t \/ wavl (pred n) t).
Proof.
  intros Hp. remember (S k) as k' eqn:Hk. revert k elm Hk.
  induction Hp as [k0|k' m n ns f up Hs Hm Hm' Hl Hup IH]; intros k elm -> He Hne.
  { eexists. split; [done|]. by right. }
  assert (k = 0%nat -> ns <> 0%nat) as Hne'.
  { rewrite (wavl_0 _ _ He), (wavl_0 _ _ Hs). exact Hne. }
  cbn. destruct (f_elm f); cbn.
  2: { eexists. split; [done|]. left. solve_wavl. }
  destruct (f_sib f); cbn in *.
  { apply (IH (k + 2)%nat); [lia|solve_wavl|]. destruct up; [done|]. by destruct (f_dir f). }
  destruct (wavl_view ns (f_dir f) (f_t f)) as
    (s_e & s_s & t_e & sx & t_s & ne & nt & Hv & He' & Ht' & H1 & H2 & H3); [lia|done|].
  rewrite Hv. cbn. destruct s_e, s_s; cbn in *.
  - apply (IH (k + 2)%nat); [lia|solve_wavl|]. destruct up; [done|]. by destruct (f_dir f).
  - eexists. split; [done|]. left. solve_wavl.
  - destruct (wavl_view ne (f_dir f) t_e) as
      (c_e & c_s & x & cx & y & nx & ny & Hc & Hx & Hy & H4 & H5 & H6); [lia|done|].
    rewrite Hc. cbn. eexists. split; [done|]. left. destruct c_e, c_s; solve_wavl.
  - eexists. split; [done|]. left. solve_wavl.
Qed.

Lemma remove_color_wavl k path n elm :
  wpath (S k) path n -> wavl k elm ->
  exists t, remove_color elm path = Some t /\ (wavl n t \/ wavl (pred n) t).
Proof.
  intros Hp He. destruct path as [|f up].
  { inversion Hp; subst. eexists. split; [done|]. by right. }
  unfold remove_color. pose proof (remove_color_loop_wavl k (f :: up) n elm Hp He) as Hloop.
  destruct elm; [|by apply Hloop]. destruct (f_t f) eqn:Hft; [|by apply Hloop].
  inversion Hp as [|? m ? ns ? ? Hs Hm Hm' Hl Hup]; subst. rewrite Hft in *.
  assert (m_eq : (S k + edge (f_elm f))%nat = 2%nat).
  { wavl_lia. destruct (f_elm f), (f_sib f); cbn in *; lia. }
  rewrite m_eq in *. destruct (remove_color_loop_wavl 1 up n (node (f_dir f) false false E (f_x f) E))
    as (t & ? & ?); [done|solve_wavl| |eauto].
  destruct up; [done|]. by destruct (f_dir f).
Qed.

Lemma wavl_clear_bits k t : (k <= 1)%nat -> wavl k t -> wavl k (clear_bits t).
Proof.
  intros Hk Ht. destruct Ht as [|n nl nr bl br l x r Hl Hr H1 H2 Hlf]; [constructor|].
  destruct bl, br; cbn in *; [lia..|]. econstructor; eauto.
Qed.

Lemma leftmost_wavl bl br l x r path x_in child path_in k n :
  leftmost bl br l x r path = (x_in, child, path_in) ->
  wavl k (T bl br l x r) -> wpath k path n ->
  exists k_in b1 b2, wavl k_in (T b1 b2 E x_in child) /\ wpath k_in path_in n.
Proof.
  revert bl br x r path k. induction l as [|bl' br' l' IHl x' r' _];
    intros bl br x r path k H Hw Hp; cbn in H.
  { simplify_eq. eauto. }
  inversion Hw as [|? nl nr ? ? ? ? ? Hl Hr H1 H2 Hlf]; subst.
  eapply IHl; [exact H|exact Hl|]. econstructor; eauto.
  cbn. intros Hz. apply (wavl_0 _ _ Hl) in Hz. done.
Qed.

(** Below a node with a NULL child the ranks are at most 2. *)
Lemma wavl_one_child k bl br l x r :
  wavl k (T bl br l x r) -> l = E \/ r = E ->
  exists c, wavl c (match r with E => l | _ => r end) /\ k = S c /\ (c <= 1)%nat.
Proof.
  intros Hw Hor. inversion Hw as [|? nl nr ? ? ? ? ? Hl Hr H1 H2 Hlf]; subst.
  destruct Hor as [-> | ->].
  - assert (nl = 0%nat) as -> by by apply (wavl_0 _ _ Hl).
    exists nr. destruct r as [|]; [|split; [done|]].
    + assert (nr = 0%nat) as -> by by apply (wavl_0 _ _ Hr). rewrite Hlf by done. eauto using wavl_E.
    + pose proof (wavl_0 _ _ Hr) as [Hz _]. assert (nr <> 0%nat) by naive_solver.
      destruct bl, br; cbn in *; lia.
  - assert (nr = 0%nat) as -> by by apply (wavl_0 _ _ Hr).
    exists nl. split; [done|]. destruct l as [|].
    + assert (nl = 0%nat) as -> by by apply (wavl_0 _ _ Hl). rewrite Hlf by done. lia.
    + pose proof (wavl_0 _ _ Hl) as [Hz _]. assert (nl <> 0%nat) by naive_solver.
      destruct bl, br; cbn in *; lia.
Qed.

Lemma remove_at_wavl bl br l x r path n :
  wavl n (plug path (T bl br l x r)) ->
  exists t n', remove_at bl br l r path = Some t /\ wavl n' t.
Proof.
  intros (k & Hk & Hp)%wavl_plug.
  assert (forall k' p e, wpath (S k') p n -> wavl k' e ->
            exists t n', remove_color e p = Some t /\ wavl n' t) as Hfix.
  { intros k' p e ? ?. destruct (remove_color_wavl k' p n e) as (? & ? & [?|?]); eauto. }
  assert (l = E \/ r = E ->
    exists t n', remove_color (clear_bits match r with E => l | _ => r end) path = Some t
      /\ wavl n' t) as Hone.
  { intros (c & Hc & -> & ?)%(wavl_one_child _ _ _ _ _ _ Hk).
    eapply Hfix; eauto using wavl_clear_bits. }
  unfold remove_at. destruct l as [|bl1 br1 l1 x1 r1]; [apply Hone; by left|].
  destruct r as [|bl' br' l' x' r']; [apply Hone; by right|].
  destruct (leftmost bl' br' l' x' r' []) as [[x_in child] path_in] eqn:Hl.
  inversion Hk as [|? nl nr ? ? ? ? ? Hwl Hwr H1 H2 _]; subst.
  eapply leftmost_wavl in Hl as (k_in & b1 & b2 & Hin & Hpin); [|exact Hwr|apply wpath_nil].
  apply wavl_one_child in Hin as (c & Hc & -> & ?); [|by left].
  apply (Hfix c).
  - eapply wpath_app; [exact Hpin|]. econstructor; eauto. done.
  - apply wavl_clear_bits; [done|]. by destruct child.
Qed.

(** ** Search *)

Section search.
Context {K : Type} (cmp : K -> K -> Z) (key : A -> K).

Lemma RB_FIND_Some k t x :
  RB_FIND cmp key k t = Some x -> x ∈ elems t /\ cmp k (key x) = 0.
Proof.
  induction t as [|bl br l IHl y r IHr]; cbn; [done|].
  rewrite elem_of_app, elem_of_cons.
  repeat case_match; [naive_solver..|]. intros [= ->]. split; [naive_solver|lia].
Qed.

(** A search key is monotone on a sequence when its comparison with the
    elements goes from "greater" over "equal" to "less". *)
Definition monotone (k : K) (l : list A) : Prop :=
  StronglySorted (fun x y => Z.sgn (cmp k (key y)) <= Z.sgn (cmp k (key x))) l.

Lemma RB_FIND_None k t :
  monotone k (elems t) -> RB_FIND cmp key k t = None ->
  forall y, y ∈ elems t -> cmp k (key y) <> 0.
Proof.
  induction t as [|bl br l IHl x r IHr]; cbn; [set_solver|].
  intros Hm Hf y. apply StronglySorted_app in Hm as (Hc & Hl & [Hall Hr]%StronglySorted_cons).
  rewrite Forall_forall in Hall.
  rewrite elem_of_app, elem_of_cons. case_match; [|case_match; [|done]].
  - intros [?|[->|Hy]]; [by apply IHl|lia|]. specialize (Hall y Hy). lia.
  - intros [Hy|[->|?]]; [|lia|by apply IHr].
    assert (Hx : x ∈ x :: elems r) by constructor. specialize (Hc y x Hy Hx). lia.
Qed.

(** The comparison of the elements' own keys is a strict order. *)
Class KeyOrder : Prop := {
  ko_flip x y : cmp (key x) (key y) < 0 <-> 0 < cmp (key y) (key x);
  ko_trans x y z : cmp (key x) (key y) < 0 -> cmp (key y) (key z) < 0 ->
    cmp (key x) (key z) < 0
}.

Definition ordered (l : list A) : Prop :=
  StronglySorted (fun x y => cmp (key x) (key y) < 0) l.

Context `{!KeyOrder}.

Lemma ordered_NoDup l : ordered l -> NoDup l.
Proof.
  induction 1 as [|x l Hl IH Hx]; constructor; [|done].
  intros Hin. rewrite Forall_forall in Hx. specialize (Hx x Hin).
  pose proof (proj1 (ko_flip x x) Hx). lia.
Qed.

Lemma ordered_app l1 l2 :
  ordered (l1 ++ l2) <->
    ordered l1 /\ ordered l2 /\
    (forall x y, x ∈ l1 -> y ∈ l2 -> cmp (key x) (key y) < 0).
Proof. unfold ordered. rewrite StronglySorted_app. naive_solver. Qed.

Lemma ordered_cons x l :
  ordered (x :: l) <-> ordered l /\ (forall y, y ∈ l -> cmp (key x) (key y) < 0).
Proof. unfold ordered. rewrite StronglySorted_cons, Forall_forall. naive_solver. Qed.

Lemma ordered_delete l1 x l2 : ordered (l1 ++ x :: l2) -> ordered (l1 ++ l2).
Proof. rewrite !ordered_app, ordered_cons. set_solver. Qed.

(** Where the walk of an insertion ends. *)
Lemma insert_walk_spec x t path :
  ordered (before path ++ elems t ++ after path) ->
  (forall y, y ∈ before path -> cmp (key y) (key x) < 0) ->
  (forall y, y ∈ after path -> cmp (key x) (key y) < 0) ->
  match insert_walk cmp key x t path with
  | inl y => y ∈ elems t /\ cmp (key x) (key y) = 0
  | inr path' =>
      plug path' E = plug path t /\
      (forall y, y ∈ before path' -> cmp (key y) (key x) < 0) /\
      (forall y, y ∈ after path' -> cmp (key x) (key y) < 0)
  end.
Proof.
  revert path. induction t as [|bl br l IHl y r IHr]; intros path Ho Hb Ha; [done|].
  cbn [insert_walk elems] in *.
  assert (Hord : forall z, (z ∈ elems l -> cmp (key z) (key y) < 0) /\
                           (z ∈ elems r -> cmp (key y) (key z) < 0)).
  { rewrite !ordered_app, ordered_cons in Ho. set_solver. }
  destruct (Z.ltb_spec (cmp (key x) (key y)) 0);
    [|destruct (Z.ltb_spec 0 (cmp (key x) (key y)))].
  - opose proof* (IHl (Frame Lft bl br y r :: path)) as IH; cbn [before after f_dir f_x f_t].
    + by rewrite app_nil_r, <-?app_assoc in *.
    + by rewrite app_nil_r.
    + intros z. rewrite elem_of_app, elem_of_cons. intros [[->|Hz]|Hz]; [lia| |by apply Ha].
      eapply ko_trans; [|by apply Hord]. lia.
    + case_match; [set_solver|done].
  - opose proof* (IHr (Frame Rgt br bl y l :: path)) as IH; cbn [before after f_dir f_x f_t].
    + by rewrite <-?app_assoc in *.
    + intros z. rewrite !elem_of_app, list_elem_of_singleton.
      intros [Hz|[Hz| ->]]; [by apply Hb| |apply ko_flip; lia].
      eapply ko_trans; [by apply Hord|]. apply ko_flip. lia.
    + done.
    + case_match; [set_solver|done].
  - split; [set_solver|lia].
Qed.

(** The outcome of an insertion: the tree is untouched and an element with an
    equal key is returned, or the new element is put at its place in the order
    and the tree stays balanced. *)
Inductive inserted (x : A) (t : tree) : option A -> tree -> Prop :=
  | inserted_found y :
      y ∈ elems t -> cmp (key x) (key y) = 0 -> inserted x t (Some y) t
  | inserted_new l1 l2 t' :
      elems t = l1 ++ l2 -> elems t' = l1 ++ x :: l2 ->
      (forall y, y ∈ elems t -> cmp (key x) (key y) <> 0) ->
      inserted x t None t'.

Definition balanced (t : tree) : Prop := exists n, wavl n t.

Lemma RB_INSERT_total x t :
  ordered (elems t) -> balanced t ->
  exists y t', RB_INSERT cmp key x t = Some (y, t') /\ inserted x t y t' /\
    balanced t' /\ ordered (elems t').
Proof.
  intros Ho [n Hn]. unfold RB_INSERT.
  opose proof* (insert_walk_spec x t []) as Hw; [by rewrite app_nil_r|set_solver..|].
  destruct (insert_walk cmp key x t []) as [y|path].
  { exists (Some y), t. repeat split; [|by exists n|done]. destruct Hw. by apply inserted_found. }
  destruct Hw as (Hp & Hb & Ha). cbn in Hp. subst t.
  apply wavl_plug in Hn as (k & Hk & Hpath).
  assert (k = 0%nat) as -> by by apply (wavl_0 _ _ Hk).
  destruct (do_insert_color_wavl 0 path n (T false false E x E)) as (t' & Ht & Hbal);
    [done|by repeat econstructor|by left|].
  rewrite Ht. exists None, t'. rewrite elems_plug in Ho.
  apply do_insert_color_elems in Ht. rewrite elems_plug in Ht. cbn in *.
  repeat split.
  - eapply inserted_new; [by rewrite elems_plug|done|].
    intros y. rewrite elems_plug. cbn. rewrite elem_of_app.
    intros [?%Hb%ko_flip|?%Ha]; lia.
  - destruct Hbal; eexists; eauto.
  - rewrite Ht, !ordered_app, ordered_cons in *. set_solver.
Qed.
End search.

Section membership.
Context `{EqDecision A}.

Lemma RB_REMOVE_total x t :
  x ∈ elems t -> balanced t ->
  exists t' l1 l2, RB_REMOVE x t = Some t' /\ balanced t' /\
    elems t = l1 ++ x :: l2 /\ elems t' = l1 ++ l2.
Proof.
  intros Hx [n Hn].
  assert (exists t', RB_REMOVE x t = Some t' /\ balanced t') as (t' & Ht & Hb).
  { unfold RB_REMOVE.
    destruct (locate x t []) as [[[[[bl br] l] r] path]|] eqn:Hl; [|by apply locate_None in Hl].
    apply locate_Some in Hl. cbn in Hl. subst t.
    apply remove_at_wavl in Hn as (t' & n' & ? & ?). exists t'. split; [done|by exists n']. }
  destruct (RB_REMOVE_elems x t t' Ht) as (l1 & l2 & ? & ?). by exists t', l1, l2.
Qed.

Lemma RB_MIN_elems t : RB_MIN t = head (elems t).
Proof. apply extreme_elems. Qed.

Section reinsert.
Context {K : Type} (cmp : K -> K -> Z) (key : A -> K) `{!KeyOrder cmp key}.

(** An element between neighbours that keep their distance is at its place. *)
Lemma ordered_between x l1 l2 :
  ordered cmp key (l1 ++ l2) ->
  (forall y, last l1 = Some y -> cmp (key y) (key x) < 0) ->
  (forall y, head l2 = Some y -> cmp (key x) (key y) < 0) ->
  ordered cmp key (l1 ++ x :: l2).
Proof.
  rewrite !ordered_app, ordered_cons. intros (H1 & H2 & H12) Hl Hh.
  assert (Hr : forall y, y ∈ l2 -> cmp (key x) (key y) < 0).
  { destruct l2 as [|z l2]; [set_solver|]. apply ordered_cons in H2 as [_ H2].
    intros y [->|Hy]%elem_of_cons; [by apply Hh|].
    apply (ko_trans _ _ _ z); [by apply Hh|by apply H2]. }
  assert (Hf : forall y, y ∈ l1 -> cmp (key y) (key x) < 0).
  { destruct l1 as [|z l1 _] using rev_ind; [set_solver|].
    specialize (Hl z (last_snoc _ _)). apply ordered_app in H1 as (_ & _ & H1).
    intros y [Hy|Hy]%elem_of_app; [|set_solver].
    apply (ko_trans _ _ _ z); [|done]. apply H1; set_solver. }
  set_solver.
Qed.

Lemma RB_REINSERT_total x t l1 l2 :
  elems t = l1 ++ x :: l2 -> x ∉ l1 ++ l2 -> ordered cmp key (l1 ++ l2) -> balanced t ->
  exists y t', RB_REINSERT cmp key x t = Some (y, t') /\
    balanced t' /\ ordered cmp key (elems t') /\
    match y with
    | None => elems t' ≡ₚ elems t
    | Some y => y ∈ l1 ++ l2 /\ cmp (key x) (key y) = 0 /\ elems t' = l1 ++ l2
    end.
Proof.
  intros Ht Hx Ho Hb. unfold RB_REINSERT.
  assert (Hnd : NoDup (elems t)).
  { rewrite Ht, <- Permutation_middle. constructor; [done|]. by eapply ordered_NoDup. }
  rewrite (RB_PREV_elems x t l1 l2), (RB_NEXT_elems x t l1 l2) by done. cbn -[Z.leb].
  destruct (_ || _) eqn:Hn.
  - destruct (RB_REMOVE_total x t) as (t1 & m1 & m2 & -> & Hb1 & Hm & Ht1); [rewrite Ht; set_solver|done|].
    rewrite Ht in Hm, Hnd. apply NoDup_app_cons_inj in Hm as [<- <-]; [|done].
    destruct (RB_INSERT_total cmp key x t1) as (y & t' & Hi & Hins & Hb' & Ho');
      [by rewrite Ht1|done|].
    cbn. rewrite Hi. exists y, t'. split_and!; [done..|].
    destruct Hins as [y Hy Hc|k1 k2 t' E1 E2 _]; [by rewrite <- Ht1|].
    by rewrite E2, Ht, <- !Permutation_middle, <- Ht1, <- E1.
  - exists None, t. apply orb_false_iff in Hn as [Hn1 Hn2]. split_and!; [done..| |done].
    rewrite Ht. apply ordered_between; [done|..].
    + intros y Hy. rewrite Hy in Hn1. lia.
    + intros y Hy. rewrite Hy in Hn2. lia.
Qed.
End reinsert.
End membership.

(** ** Height *)

Fixpoint height (t : tree) : nat :=
  match t with E => 0 | T _ _ l _ r => S (Nat.max (height l) (height r)) end.

Lemma wavl_height n t : wavl n t -> (height t <= n)%nat.
Proof. induction 1; cbn; [done|]. destruct bl, br; cbn in *; lia. Qed.

(** A tree of rank [2k] or [2k - 1] has at least [2^k - 1] elements. *)
Lemma wavl_size n t k :
  wavl n t -> (2 * k <= S n)%nat -> (2 ^ k <= S (length (elems t)))%nat.
Proof.
  intros Hw. revert k. induction Hw as [|n nl nr bl br l x r Hl IHl Hr IHr H1 H2 _]; intros k Hk.
  { assert (k = 0%nat) as -> by lia. cbn. lia. }
  destruct k as [|k]; [cbn; lia|]. cbn [elems Nat.pow]. rewrite length_app, length_cons.
  assert (2 ^ k <= S (length (elems l)))%nat by (apply IHl; destruct bl; cbn in *; lia).
  assert (2 ^ k <= S (length (elems r)))%nat by (apply IHr; destruct br; cbn in *; lia).
  lia.
Qed.

(** The bound the comment of tree.h claims: height at most 2 lg (size + 1). *)
Lemma balanced_height t :
  balanced t -> (height t <= 2 * Nat.log2 (S (length (elems t))))%nat.
Proof.
  intros [n Hn]. pose proof (wavl_height n t Hn) as Hh.
  assert (Hd : (S n = 2 * (S n / 2) + S n mod 2)%nat) by (apply Nat.div_mod; lia).
  pose proof (Nat.mod_upper_bound (S n) 2 ltac:(lia)) as Hm.
  pose proof (wavl_size n t (S n / 2) Hn ltac:(lia)) as Hs%Nat.log2_le_mono.
  rewrite Nat.log2_pow2 in Hs by lia. lia.
Qed.

End tree.

(** ** Histories

    Any sequence of insertions and removals that starts with an empty head,
    against a reference that keeps the members in a plain list. *)

Section history.
Context {A K : Type} `{EqDecision A} (cmp : K -> K -> Z) (key : A -> K).

Inductive tree_op : Type := Insert (x : A) | Remove (x : A).

Definition exec (o : tree_op) (t : tree) : option tree :=
  match o with
  | Insert x => '(_, t') ← RB_INSERT cmp key x t; Some t'
  | Remove x => RB_REMOVE x t
  end.

(** An equal key keeps the older element; only members may be removed. *)
Definition spec (o : tree_op) (s : list A) : option (list A) :=
  match o with
  | Insert x =>
      Some (if decide (Exists (fun y => cmp (key x) (key y) = 0) s) then s else x :: s)
  | Remove x => if decide (x ∈ s) then Some (filter (fun y => y <> x) s) else None
  end.

Definition run {S} (f : tree_op -> S -> option S) (ops : list tree_op) (s : S) : option S :=
  foldr (fun o k s => s' ← f o s; k s') Some ops s.

Context `{!KeyOrder cmp key}.

Definition represents (t : tree) (s : list A) : Prop :=
  elems t ≡ₚ s /\ ordered cmp key (elems t) /\ balanced t.

Lemma exec_spec o t s s' :
  represents t s -> spec o s = Some s' -> exists t', exec o t = Some t' /\ represents t' s'.
Proof.
  intros (Hp & Ho & Hb). destruct o as [x|x]; cbn.
  - intros [= <-].
    destruct (RB_INSERT_total cmp key x t) as (y & t' & -> & Hi & ? & ?); [done..|].
    exists t'. split; [done|]. split; [|done]. destruct Hi as [y Hy Hc|l1 l2 t' E1 E2 Hn].
    + rewrite decide_True; [done|]. apply Exists_exists. exists y. by rewrite <- Hp.
    + rewrite decide_False.
      * by rewrite E2, <- Permutation_middle, <- E1, Hp.
      * rewrite Exists_exists. intros (y & Hy & Hc). rewrite <- Hp in Hy. by eapply Hn.
  - case_decide as Hx; [|done]. intros [= <-]. rewrite <- Hp in Hx.
    destruct (RB_REMOVE_total x t) as (t' & l1 & l2 & -> & ? & E1 & E2); [done..|].
    exists t'. split; [done|]. unfold represents. rewrite E2. split_and!; [..|done].
    + rewrite <- Hp, E1, <- Permutation_middle.
      apply (ordered_NoDup cmp key) in Ho. rewrite E1, <- Permutation_middle in Ho.
      apply NoDup_cons in Ho as [Hni _].
      rewrite filter_cons_False by naive_solver.
      symmetry. rewrite filter_all; [done|]. apply Forall_forall. by intros y Hy ->.
    + rewrite E1 in Ho. by eapply ordered_delete.
Qed.

Lemma run_spec ops t s s' :
  represents t s -> run spec ops s = Some s' ->
  exists t', run exec ops t = Some t' /\ represents t' s'.
Proof.
  revert t s. induction ops as [|o ops IH]; intros t s Hr; cbn.
  { intros [= <-]. by exists t. }
  destruct (spec o s) as [s1|] eqn:Hs; [|done]. cbn. intros Hrun.
  destruct (exec_spec o t s s1) as (t1 & -> & ?); [done..|]. by apply (IH t1 s1).
Qed.

Lemma represents_empty : represents E [].
Proof. split_and!; [done|constructor|]. exists 0%nat. constructor. Qed.

(** C29: The weak AVL tree of tree.h implements a set ordered by the keys.  Every
    sequence of insertions and removals of members that starts from an empty
    head runs to the end, and yields a tree that holds exactly the members the
    reference list holds, in the order of their keys, and is balanced. *)
Theorem tree_refines_set ops s :
  run spec ops [] = Some s -> exists t, run exec ops E = Some t /\ represents t s.
Proof.
  apply run_spec, represents_empty.
Qed.

(** After any such sequence of operations, a search key that orders the
    members finds a member with an equal key if there is one and only then, and
    the descent takes at most 2 lg (size + 1) steps, the bound tree.h states. *)
Theorem tree_search ops s t k :
  run spec ops [] = Some s -> run exec ops E = Some t -> monotone cmp key k (elems t) ->
  (match RB_FIND cmp key k t with
   | Some x => x ∈ s /\ cmp k (key x) = 0
   | None => forall x, x ∈ s -> cmp k (key x) <> 0
   end) /\
  (height t <= 2 * Nat.log2 (S (length s)))%nat.
Proof.
  intros Hs Ht Hm. destruct (run_spec ops E [] s) as (t' & Ht' & Hp & Ho & Hb);
    [apply represents_empty|done|].
  rewrite Ht in Ht'. injection Ht' as <-. split.
  - destruct (RB_FIND cmp key k t) as [x|] eqn:Hf.
    + apply RB_FIND_Some in Hf. by rewrite Hp in Hf.
    + intros x Hx. rewrite <- Hp in Hx. by eapply RB_FIND_None.
  - rewrite <- Hp. by apply balanced_height.
Qed.
End history.
Arguments tree_op : clear implicits.

(** The integers in their order. *)
#[export] Instance Z_sub_order : KeyOrder Z.sub (@id Z).
Proof. split; unfold id; lia. Qed.

Definition sample_ops : list (tree_op Z) :=
  Insert <$> [5; 2; 8; 1; 9; 3; 7; 4; 6; 5].

Lemma tree_refines_set_witness :
  exists t, run (exec Z.sub id) (sample_ops ++ [Remove 5; Remove 1; Remove 9; Insert 1]) E = Some t /\
    represents Z.sub id t [1; 6; 4; 7; 3; 8; 2].
Proof. apply (tree_refines_set Z.sub id). vm_compute. reflexivity. Defined.

Lemma tree_search_witness :
  match run (exec Z.sub id) sample_ops E with
  | Some t =>
      RB_FIND Z.sub id 7 t = Some 7 /\ RB_FIND Z.sub id 10 t = None /\
      (height t <= 2 * Nat.log2 (S 9))%nat
  | None => False
  end.
Proof.
  destruct (run (exec Z.sub id) sample_ops E) as [t|] eqn:Ht; [|vm_compute in Ht; discriminate].
  assert (Hs : run (spec Z.sub id) sample_ops [] = Some [6; 4; 7; 3; 9; 1; 8; 2; 5]) by reflexivity.
  pose proof (tree_search Z.sub id sample_ops _ t 7 Hs Ht) as H7.
  vm_compute in Ht. injection Ht as <-.
  split; [reflexivity|]. split; [reflexivity|]. apply H7.
  vm_compute. repeat constructor; discriminate.
Defined.
