(* ===== verification/VsockBuffer.v ===== *)
(** * The receive buffer of a socket (struct uk_vsock_buffer)

    The ring buffer of lib/ukvsockdev/vsock.c and its inline accessors of
    lib/ukvsockdev/include/uk/vsock.h.  Every [memcpy] is checked against the
    bounds of its arrays; [None] is an access out of bounds (or a division by
    a zero capacity).  A netbuf chain is the list of the payloads of its
    elements.  The theorems relate the ring to the sequence of bytes it holds:
    it is a bounded FIFO queue. *)

From stdpp Require Import prelude gmap.
From S2P Require Import Prelude.

Record uk_vsock_buffer : Type := mk_buffer {
  b_buf : list Z;
  b_head : Z;
  b_count : Z;
  b_capacity : Z;
  b_total_processed : Z
}.

(** [mem] is what [uk_malloc] returned: the bytes of the block, or NULL. *)
Definition uk_vsock_buffer_init (mem : option (list Z)) (bufsize : Z)
    : Z * option uk_vsock_buffer :=
  match mem with
  | None => (- ENOMEM, None)
  | Some buf => (0, Some (mk_buffer buf 0 0 bufsize 0))
  end.

(** The memory is given back: the buffer has no bytes any more. *)
Definition uk_vsock_buffer_destroy (b : uk_vsock_buffer) : option (Z * uk_vsock_buffer) :=
  match b_buf b with
  | [] => None
  | _ => Some (0, mk_buffer [] (b_head b) (b_count b) (b_capacity b) (b_total_processed b))
  end.

Definition uk_vsock_buffer_capacity (b : uk_vsock_buffer) : Z := b_capacity b.
Definition uk_vsock_buffer_is_empty (b : uk_vsock_buffer) : bool := b_count b =? 0.
Definition uk_vsock_total_processed (b : uk_vsock_buffer) : Z := b_total_processed b.
Definition uk_vsock_free_space (b : uk_vsock_buffer) : Z := u64 (b_capacity b - b_count b).

(** The first loop of append: does the whole chain fit? *)
Fixpoint append_fits (b : uk_vsock_buffer) (nbs : list (list Z)) (appended : Z) : bool :=
  match nbs with
  | [] => true
  | nb :: nbs =>
      let appended := u64 (appended + zlen nb) in
      if u64 (b_capacity b - b_count b) <? appended then false
      else append_fits b nbs appended
  end.

(** The second loop: copy every element, wrapping at the end of the array. *)
Fixpoint append_copy (b : uk_vsock_buffer) (buf : list Z) (nbs : list (list Z)) (appended : Z)
    : option (list Z * Z) :=
  match nbs with
  | [] => Some (buf, appended)
  | nb :: nbs =>
      if b_capacity b =? 0 then None
      else
        let write_pos := u64 (b_head b + b_count b + appended) mod b_capacity b in
        let to_copy := Z.min (zlen nb) (u64 (b_capacity b - write_pos)) in
        fst_part ← memread 0 to_copy nb;
        buf ← memcpy write_pos fst_part buf;
        buf ← (if to_copy <? zlen nb
               then snd_part ← memread to_copy (zlen nb - to_copy) nb; memcpy 0 snd_part buf
               else Some buf);
        append_copy b buf nbs (u64 (appended + zlen nb))
  end.

Definition uk_vsock_buffer_append (b : uk_vsock_buffer) (nbs : list (list Z))
    : option (Z * uk_vsock_buffer) :=
  if append_fits b nbs 0 then
    '(buf, appended) ← append_copy b (b_buf b) nbs 0;
    Some (0, mk_buffer buf (b_head b) (u64 (b_count b + appended)) (b_capacity b)
               (b_total_processed b))
  else Some (- ENOSPC, b).

(** The return value and the bytes copied to [out]. *)
Definition uk_vsock_buffer_read (b : uk_vsock_buffer) (size : Z) : option (Z * list Z) :=
  let size := Z.min size (b_count b) in
  let start := b_head b in
  let end_ := u64 (start + size) in
  let to_copy := u64 (Z.min end_ (b_capacity b) - Z.min start (b_capacity b)) in
  out1 ← (if 0 <? to_copy then memread start to_copy (b_buf b) else Some []);
  out2 ← (if b_capacity b <? end_
          then memread 0 (u64 (end_ - start - to_copy)) (b_buf b) else Some []);
  Some (u64 (end_ - start), out1 ++ out2).

(** [None] is the failed assertion (or the division by zero). *)
Definition uk_vsock_buffer_consume (b : uk_vsock_buffer) (size : Z) : option uk_vsock_buffer :=
  if (b_count b <? size) || (b_capacity b =? 0) then None
  else Some (mk_buffer (b_buf b) (u64 (b_head b + size) mod b_capacity b)
               (u64 (b_count b - size)) (b_capacity b)
               (u64 (b_total_processed b + size))).

(** ** The invariant and the bytes held *)

(** The capacity is an allocation size, far below the address space. *)
Definition buffer_wf (b : uk_vsock_buffer) : Prop :=
  0 < b_capacity b < 2 ^ 62 /\ zlen (b_buf b) = b_capacity b /\
  0 <= b_head b < b_capacity b /\ 0 <= b_count b <= b_capacity b /\
  0 <= b_total_processed b < 2 ^ 64.

(** The bytes in the order in which they will be read. *)
Definition contents (b : uk_vsock_buffer) : list Z :=
  slice (b_head b) (b_count b) (b_buf b ++ b_buf b).

Section buffer.
Implicit Types b : uk_vsock_buffer.

Lemma lookup_contents b i :
  buffer_wf b ->
  contents b !! i =
    if decide (Z.of_nat i < b_count b)
    then b_buf b !! Z.to_nat ((b_head b + Z.of_nat i) mod b_capacity b) else None.
Proof.
  intros (Hc & Hl & Hh & Hn & _). unfold contents. rewrite lookup_slice.
  case_decide as Hi; [|done]. rewrite mod_once by lia. unfold zlen in Hl.
  destruct (Z.ltb_spec (b_head b + Z.of_nat i) (b_capacity b)).
  - rewrite lookup_app_l by lia. f_equal. lia.
  - rewrite lookup_app_r by lia. f_equal. lia.
Qed.

Lemma zlen_contents b : buffer_wf b -> zlen (contents b) = b_count b.
Proof.
  intros (? & ? & ? & ? & _). unfold contents. apply zlen_slice; [lia..|].
  rewrite zlen_app. lia.
Qed.

(** What a copy of [nb] behind [n] bytes does to the array. *)
Definition ring_write b (buf : list Z) (n : Z) (nb : list Z) : list Z :=
  let p := (b_head b + n) mod b_capacity b in
  let k := Z.min (zlen nb) (b_capacity b - p) in
  splice 0 (slice k (zlen nb - k) nb) (splice p (slice 0 k nb) buf).

(** The same ring with another array and another count. *)
Definition with_bytes b (buf : list Z) (n : Z) : uk_vsock_buffer :=
  mk_buffer buf (b_head b) n (b_capacity b) (b_total_processed b).

Lemma ring_write_contents b buf n nb :
  buffer_wf (with_bytes b buf n) -> n + zlen nb <= b_capacity b ->
  buffer_wf (with_bytes b (ring_write b buf n nb) (n + zlen nb)) /\
  contents (with_bytes b (ring_write b buf n nb) (n + zlen nb)) =
    contents (with_bytes b buf n) ++ nb.
Proof.
  intros Hwf Hn. pose proof Hwf as (Hc & Hl & Hh & Hcnt & Ht). cbn in Hc, Hl, Hh, Hcnt, Ht.
  unfold ring_write. rewrite mod_once by lia.
  set (p := if _ <? _ then _ else _). set (k := Z.min _ _).
  assert (Hp : 0 <= p < b_capacity b) by (subst p; case_match; lia).
  pose proof (zlen_nonneg nb) as Hnb.
  assert (Hk : zlen (slice 0 k nb) = k) by (apply zlen_slice; lia).
  assert (Hk' : zlen (slice k (zlen nb - k) nb) = zlen nb - k) by (apply zlen_slice; lia).
  assert (Hs : zlen (splice p (slice 0 k nb) buf) = b_capacity b)
    by (rewrite zlen_splice; lia).
  assert (Hwf' : buffer_wf (with_bytes b (splice 0 (slice k (zlen nb - k) nb)
                     (splice p (slice 0 k nb) buf)) (n + zlen nb))).
  { unfold buffer_wf. cbn. split_and!; try lia. rewrite zlen_splice; lia. }
  split; [done|]. apply list_eq. intros i.
  pose proof (zlen_contents _ Hwf) as Hlen. unfold zlen in Hlen. cbn in Hlen.
  rewrite lookup_contents by done. cbn [with_bytes b_buf b_head b_count b_capacity].
  rewrite !lookup_splice by lia. rewrite Hk, Hk', !lookup_slice.
  destruct (decide (Z.of_nat i < n)).
  - rewrite lookup_app_l, lookup_contents by (done || lia). cbn.
    rewrite mod_once by lia. subst p k.
    rewrite !(decide_True (P := Z.of_nat i < _)) by lia.
    repeat case_match; try lia; done.
  - rewrite lookup_app_r by lia. case_decide as Hi.
    + rewrite mod_once by lia. subst p k.
      repeat case_match; try lia; f_equal; lia.
    + symmetry. apply lookup_ge_None. unfold zlen in *. lia.
Qed.
Lemma append_fits_spec b nbs a :
  buffer_wf b -> Forall (fun nb => zlen nb < 2 ^ 16) nbs ->
  0 <= a <= b_capacity b - b_count b ->
  append_fits b nbs a = (a + zlen (concat nbs) <=? b_capacity b - b_count b).
Proof.
  intros (Hc & _ & _ & Hn & _) Hall. revert a.
  induction Hall as [|nb nbs Hnb Hall IH]; intros a Ha; cbn [append_fits].
  { symmetry. apply Z.leb_le. unfold zlen. cbn. lia. }
  rewrite zlen_concat_cons. pose proof (zlen_nonneg nb). pose proof (zlen_nonneg (concat nbs)).
  rewrite !wrap_small by lia. case_match; [lia|]. rewrite IH by lia. lia.
Qed.

Lemma append_copy_spec b buf nbs a :
  buffer_wf (with_bytes b buf (b_count b + a)) -> 0 <= a -> 0 <= b_count b ->
  b_count b + a + zlen (concat nbs) <= b_capacity b ->
  exists buf', append_copy b buf nbs a = Some (buf', a + zlen (concat nbs)) /\
    let b' := with_bytes b buf' (b_count b + (a + zlen (concat nbs))) in
    buffer_wf b' /\ contents b' = contents (with_bytes b buf (b_count b + a)) ++ concat nbs.
Proof.
  revert buf a. induction nbs as [|nb nbs IH]; intros buf a Hwf Ha Hc Hfit.
  { exists buf. unfold zlen. cbn. by rewrite Z.add_0_r, app_nil_r. }
  pose proof Hwf as (Hcap & Hl & Hh & Hcnt & _). cbn in Hcap, Hl, Hh, Hcnt.
  rewrite zlen_concat_cons in *. pose proof (zlen_nonneg nb). pose proof (zlen_nonneg (concat nbs)).
  destruct (ring_write_contents b buf (b_count b + a) nb Hwf) as [Hwf' Hcon]; [lia|].
  destruct (IH (ring_write b buf (b_count b + a) nb) (a + zlen nb)) as (buf' & Hcopy & Hb' & Hcon');
    [by rewrite Z.add_assoc|lia..|].
  exists buf'. cbv zeta in *. rewrite !Z.add_assoc in *. split; [|by rewrite Hcon', Hcon, <- app_assoc].
  cbn [append_copy]. destruct (Z.eqb_spec (b_capacity b) 0); [lia|].
  rewrite (wrap_small 64 (b_head b + _ + _)) by lia.
  pose proof (Z.mod_pos_bound (b_head b + b_count b + a) (b_capacity b)).
  unfold ring_write in Hcopy. rewrite !Z.add_assoc in Hcopy.
  set (p := (_ + _ + _) mod _) in *. rewrite (wrap_small 64 (_ - p)) by lia.
  set (k := Z.min _ _) in *. rewrite (wrap_small 64 (a + _)) by lia.
  assert (Hk : zlen (slice 0 k nb) = k) by (apply zlen_slice; lia).
  assert (Hs : zlen (splice p (slice 0 k nb) buf) = b_capacity b) by (rewrite zlen_splice; lia).
  rewrite (memread_Some 0 k) by lia. cbn. rewrite memcpy_Some by lia. cbn.
  destruct (Z.ltb_spec k (zlen nb)) as [Hlt|Hge].
  - assert (Hk' : zlen (slice k (zlen nb - k) nb) = zlen nb - k) by (apply zlen_slice; lia).
    rewrite memread_Some by lia. cbn. rewrite memcpy_Some by lia. done.
  - assert (Hnil : slice k (zlen nb - k) nb = []).
    { replace (zlen nb - k) with 0 by lia. apply slice_0. }
    rewrite Hnil in Hcopy. done.
Qed.
(** The outcome of an append: the chain is behind the older bytes, or it does
    not fit and the buffer is untouched. *)
Lemma uk_vsock_buffer_append_spec b nbs :
  buffer_wf b -> Forall (fun nb => zlen nb < 2 ^ 16) nbs ->
  exists rc b', uk_vsock_buffer_append b nbs = Some (rc, b') /\ buffer_wf b' /\
    b_capacity b' = b_capacity b /\ b_total_processed b' = b_total_processed b /\
    if zlen (concat nbs) <=? b_capacity b - b_count b
    then rc = 0 /\ contents b' = contents b ++ concat nbs
    else rc = - ENOSPC /\ b' = b.
Proof.
  intros Hwf Hall. pose proof Hwf as (Hc & Hl & Hh & Hn & Ht).
  unfold uk_vsock_buffer_append. rewrite append_fits_spec, Z.add_0_l by (done || lia).
  destruct (Z.leb_spec (zlen (concat nbs)) (b_capacity b - b_count b)).
  2: { exists (- ENOSPC), b. done. }
  pose proof (zlen_nonneg (concat nbs)).
  assert (Hb : with_bytes b (b_buf b) (b_count b + 0) = b)
    by (unfold with_bytes; rewrite Z.add_0_r; by destruct b).
  destruct (append_copy_spec b (b_buf b) nbs 0) as (buf' & -> & Hwf' & Hcon);
    [by rewrite Hb|lia..|].
  rewrite Hb in Hcon. cbn. rewrite Z.add_0_l in *. rewrite wrap_small by lia.
  eexists 0, _. split; [done|]. split; [exact Hwf'|]. split_and!; [done..|exact Hcon].
Qed.

Lemma uk_vsock_buffer_read_spec b size :
  buffer_wf b -> 0 <= size < 2 ^ 64 ->
  uk_vsock_buffer_read b size =
    Some (Z.min size (b_count b), slice 0 (Z.min size (b_count b)) (contents b)).
Proof.
  intros (Hc & Hl & Hh & Hn & _) Hs. unfold uk_vsock_buffer_read.
  set (n := Z.min size (b_count b)). rewrite (wrap_small 64 (_ + n)) by lia.
  set (k := Z.min _ _ - Z.min _ _). rewrite (wrap_small 64 k) by lia.
  rewrite !wrap_small by lia.
  assert (H1 : (if 0 <? k then memread (b_head b) k (b_buf b) else Some []) =
               Some (slice (b_head b) k (b_buf b))).
  { destruct (Z.ltb_spec 0 k); [apply memread_Some; lia|].
    replace k with 0 by lia. by rewrite slice_0. }
  rewrite H1. cbn -[Z.ltb].
  assert (H2 : (if b_capacity b <? b_head b + n
                then memread 0 (b_head b + n - b_head b - k) (b_buf b) else Some []) =
               Some (slice 0 (n - k) (b_buf b))).
  { destruct (Z.ltb_spec (b_capacity b) (b_head b + n)).
    - rewrite memread_Some by lia. do 2 f_equal. lia.
    - replace (n - k) with 0 by lia. by rewrite slice_0. }
  rewrite H2. cbn. do 2 f_equal; [lia|]. apply list_eq. intros i.
  unfold contents. rewrite lookup_app, !lookup_slice. unfold zlen in Hl.
  destruct (decide (Z.of_nat i < k)).
  - rewrite (decide_True (P := Z.of_nat i < n)), (decide_True (P := _ < b_count b)) by lia.
    change (Z.to_nat 0 + i)%nat with i. rewrite lookup_app_l by lia.
    destruct (lookup_lt_is_Some_2 (b_buf b) (Z.to_nat (b_head b) + i)) as [x ->]; [lia|done].
  - assert (Hk : length (slice (b_head b) k (b_buf b)) = Z.to_nat k).
    { unfold slice. rewrite length_take, length_drop. lia. }
    rewrite Hk. repeat case_decide; try lia; try done.
    rewrite lookup_app_r by lia. f_equal. lia.
Qed.

Lemma uk_vsock_buffer_consume_spec b size :
  buffer_wf b -> 0 <= size <= b_count b ->
  exists b', uk_vsock_buffer_consume b size = Some b' /\ buffer_wf b' /\
    b_capacity b' = b_capacity b /\
    b_total_processed b' = u64 (b_total_processed b + size) /\
    contents b' = drop (Z.to_nat size) (contents b).
Proof.
  intros Hwf Hs. pose proof Hwf as (Hc & Hl & Hh & Hn & Ht). unfold uk_vsock_buffer_consume.
  destruct (_ || _) eqn:Hg; [lia|]. eexists. split; [done|].
  rewrite (wrap_small 64 (_ + size)), (wrap_small 64 (_ - size)) by lia.
  assert (Hwf' : buffer_wf (mk_buffer (b_buf b) ((b_head b + size) mod b_capacity b)
      (b_count b - size) (b_capacity b) (u64 (b_total_processed b + size)))).
  { unfold buffer_wf. cbn. pose proof (Z.mod_pos_bound (b_head b + size) (b_capacity b)).
    pose proof (wrap_range 64 (b_total_processed b + size)). lia. }
  split_and!; [done..|]. apply list_eq. intros i.
  rewrite lookup_drop, !lookup_contents by done. cbn [b_buf b_head b_count b_capacity].
  repeat case_decide; try lia; [|done].
  rewrite Z.add_mod_idemp_l by lia. do 3 f_equal. lia.
Qed.

(** Reading and consuming, as [vsock_recvfrom] does. *)
Lemma contents_split b n :
  contents b = slice 0 n (contents b) ++ drop (Z.to_nat n) (contents b).
Proof. unfold slice. by rewrite drop_0, take_drop. Qed.
End buffer.

(** ** The buffer as a byte stream

    Any interleaving of appends (the receive path of the driver) and of reads
    followed by a consume (the receive calls of the application). *)

Inductive buffer_op : Type :=
  | Append (nbs : list (list Z))
  | Recv (size : Z).

(** The new buffer, the bytes accepted and the bytes delivered. *)
Definition buffer_step (b : uk_vsock_buffer) (o : buffer_op)
    : option (uk_vsock_buffer * list Z * list Z) :=
  match o with
  | Append nbs =>
      '(rc, b') ← uk_vsock_buffer_append b nbs;
      Some (b', if rc =? 0 then concat nbs else [], [])
  | Recv size =>
      '(n, bytes) ← uk_vsock_buffer_read b size;
      b' ← uk_vsock_buffer_consume b n;
      Some (b', [], bytes)
  end.

Fixpoint buffer_run (b : uk_vsock_buffer) (ops : list buffer_op)
    : option (uk_vsock_buffer * list Z * list Z) :=
  match ops with
  | [] => Some (b, [], [])
  | o :: ops =>
      '(b1, acc1, del1) ← buffer_step b o;
      '(b2, acc2, del2) ← buffer_run b1 ops;
      Some (b2, acc1 ++ acc2, del1 ++ del2)
  end.

Definition buffer_op_ok (o : buffer_op) : Prop :=
  match o with
  | Append nbs => Forall (fun nb => zlen nb < 2 ^ 16) nbs
  | Recv size => 0 <= size < 2 ^ 64
  end.

Lemma buffer_step_spec b o :
  buffer_wf b -> buffer_op_ok o ->
  exists b' acc del, buffer_step b o = Some (b', acc, del) /\ buffer_wf b' /\
    b_capacity b' = b_capacity b /\ contents b ++ acc = del ++ contents b' /\
    b_total_processed b' = u64 (b_total_processed b + zlen del).
Proof.
  intros Hwf Ho. destruct o as [nbs|size]; cbn in Ho |- *.
  - destruct (uk_vsock_buffer_append_spec b nbs Hwf Ho) as (rc & b' & -> & ? & ? & Ht & Hc).
    cbn. eexists b', _, []. split; [done|]. rewrite Ht, Z.add_0_r.
    rewrite wrap_small by apply Hwf. split_and!; [done..| |done].
    case_match; destruct Hc as [-> Hc]; cbn; [done|by rewrite Hc, app_nil_r].
  - rewrite uk_vsock_buffer_read_spec by done. cbn.
    pose proof Hwf as (? & ? & ? & ? & ?). set (n := Z.min size (b_count b)).
    destruct (uk_vsock_buffer_consume_spec b n Hwf) as (b' & -> & ? & ? & Ht & Hc); [lia|].
    cbn. eexists b', [], _. split; [done|]. split_and!; [done..| |].
    + by rewrite app_nil_r, Hc, <- contents_split.
    + rewrite zlen_slice; [done|lia..|]. rewrite zlen_contents by done. lia.
Qed.

(** The receive buffer is a FIFO queue.  From any well-formed buffer, every
    sequence of appends and receives runs to the end without an access out of
    bounds or a failed assertion; the bytes delivered to the application
    followed by those still held are exactly the bytes held at first followed
    by the accepted ones, in order; and the processed-bytes counter advertised
    to the peer advances by the number of bytes delivered. *)
Theorem buffer_stream b ops :
  buffer_wf b -> Forall buffer_op_ok ops ->
  exists b' acc del, buffer_run b ops = Some (b', acc, del) /\ buffer_wf b' /\
    contents b ++ acc = del ++ contents b' /\
    b_total_processed b' = u64 (b_total_processed b + zlen del).
Proof.
  intros Hwf Hops. revert b Hwf. induction Hops as [|o ops Ho _ IH]; intros b Hwf; cbn.
  { exists b, [], []. split_and!; [done..|by rewrite app_nil_r|].
    rewrite Z.add_0_r, wrap_small; [done|apply Hwf]. }
  destruct (buffer_step_spec b o Hwf Ho) as (b1 & acc1 & del1 & -> & Hwf1 & _ & H1 & T1).
  cbn. destruct (IH b1 Hwf1) as (b2 & acc2 & del2 & -> & Hwf2 & H2 & T2).
  cbn. eexists b2, _, _. split_and!; [done..| |].
  - by rewrite app_assoc, H1, <- !app_assoc, H2.
  - rewrite T2, T1, zlen_app. unfold wrap. rewrite Z.add_mod_idemp_l by lia. f_equal. lia.
Qed.

Definition sample_buffer : uk_vsock_buffer := mk_buffer [0; 0; 0; 0] 0 0 4 0.

Lemma buffer_stream_witness :
  exists b' acc del,
    buffer_run sample_buffer [Append [[1; 2; 3]]; Recv 2; Append [[4]; [5; 6]]; Append [[7]]; Recv 9]
      = Some (b', acc, del) /\ buffer_wf b' /\
    contents sample_buffer ++ acc = del ++ contents b' /\
    b_total_processed b' = u64 (b_total_processed sample_buffer + zlen del).
Proof.
  apply buffer_stream.
  - unfold buffer_wf; cbn; unfold zlen; cbn; lia.
  - repeat constructor; cbn; unfold zlen; cbn; lia.
Defined.

(** An append is atomic: it returns 0 exactly when the whole chain fits in
    the free space, and otherwise returns -ENOSPC and leaves every byte, index
    and counter of the buffer as it was. *)
Theorem append_atomic b nbs :
  buffer_wf b -> Forall (fun nb => zlen nb < 2 ^ 16) nbs ->
  (zlen (concat nbs) <= uk_vsock_free_space b ->
     exists b', uk_vsock_buffer_append b nbs = Some (0, b') /\
       contents b' = contents b ++ concat nbs /\
       uk_vsock_free_space b' = uk_vsock_free_space b - zlen (concat nbs)) /\
  (uk_vsock_free_space b < zlen (concat nbs) ->
     uk_vsock_buffer_append b nbs = Some (- ENOSPC, b)).
Proof.
  intros Hwf Hall. pose proof Hwf as (? & ? & ? & ? & ?).
  destruct (uk_vsock_buffer_append_spec b nbs Hwf Hall) as (rc & b' & Ha & Hwf' & Hc & _ & H').
  unfold uk_vsock_free_space. rewrite (wrap_small 64 (_ - b_count b)) by lia. split; intros Hlen.
  - rewrite (proj2 (Z.leb_le _ _) Hlen) in H'. destruct H' as [-> Hcon].
    exists b'. split_and!; [done..|].
    assert (Hn : zlen (contents b') = b_count b + zlen (concat nbs)).
    { rewrite Hcon, zlen_app. by rewrite zlen_contents. }
    rewrite zlen_contents in Hn by done.
    pose proof (zlen_nonneg (concat nbs)). rewrite wrap_small; lia.
  - rewrite (proj2 (Z.leb_gt _ _) Hlen) in H'. destruct H' as [-> ->]. done.
Qed.

Lemma append_atomic_witness :
  uk_vsock_buffer_append (mk_buffer [9; 8; 7; 6] 3 2 4 5) [[1]; [2; 3]]
    = Some (- ENOSPC, mk_buffer [9; 8; 7; 6] 3 2 4 5).
Proof.
  apply append_atomic.
  - unfold buffer_wf; cbn; unfold zlen; cbn; lia.
  - repeat constructor; unfold zlen; cbn; lia.
  - unfold zlen; vm_compute; done.
Defined.
