(* ===== verification/Netbuf.v ===== *)
(** * Network buffers and the vsock packet header

    [struct uk_netbuf] of lib/uknetdev (netbuf.c, include/uk/netbuf.h): the
    layout computed by the allocation functions and the header operation, and
    the 44-byte packed header [struct virtio_vsock_hdr] of
    drivers/virtio/vsock/include/virtio/virtio_vsock.h with its little-endian
    encoding.  Addresses are [Z]; the bytes of the buffer area are kept with
    the netbuf.  A failed [UK_ASSERT] is [None]. *)

From stdpp Require Import prelude gmap.
From S2P Require Import Prelude.

(** ** The structure *)

Definition UK_NETBUF_F_PARTIAL_CSUM : Z := Z.shiftl 1 1.

(** [nb_next] and [nb_prev] are the chain links; [nb_mem] the [nb_buflen]
    bytes at [nb_buf]; [nb_owned] says that [_a] and [_b] are set, so that the
    last reference frees the block. *)
Record uk_netbuf : Type := mk_netbuf {
  nb_next : option positive;
  nb_prev : option positive;
  nb_flags : Z;
  nb_data : Z;
  nb_len : Z;
  nb_refcount : Z;
  nb_priv : Z;
  nb_buf : Z;
  nb_buflen : Z;
  nb_csum_start : Z;
  nb_dtor : option positive;
  nb_owned : bool;
  nb_mem : list Z
}.

(** ** Allocation *)

(** The size of the structure in the LP64 layout. *)
Definition sizeof_uk_netbuf : Z := 96.
Definition NETBUF_ADDR_ALIGNMENT : Z := 8.
Definition NETBUF_ADDR_ALIGN_UP (x : Z) : Z :=
  Z.ldiff (u64 (x + (NETBUF_ADDR_ALIGNMENT - 1))) (NETBUF_ADDR_ALIGNMENT - 1).
Definition NETBUF_ADDR_ALIGN_DOWN (x : Z) : Z := Z.ldiff x (NETBUF_ADDR_ALIGNMENT - 1).

Definition uk_netbuf_init_indir (buf buflen headroom priv : Z) (dtor : option positive)
    (mem : list Z) : option uk_netbuf :=
  if (negb (buf =? 0) || (buflen =? 0)) && (headroom <=? buflen)
  then Some (mk_netbuf None None 0 (u64 (buf + headroom)) 0 1 priv buf buflen 0 dtor false mem)
  else None.

(** The inner option is the C return value; [mem] and [bytes] are the block
    and its contents, of [size] bytes. *)
Definition uk_netbuf_prepare_buf (mem : Z) (bytes : list Z) (size headroom privlen : Z)
    (dtor : option positive) : option (option uk_netbuf) :=
  if mem =? 0 then None
  else
    let meta_len := NETBUF_ADDR_ALIGN_UP (u64 (sizeof_uk_netbuf + privlen)) in
    if NETBUF_ADDR_ALIGN_DOWN (u64 (mem + size)) <? meta_len then Some None
    else
      let m := u64 (NETBUF_ADDR_ALIGN_DOWN (u64 (mem + size)) - meta_len) in
      let buflen := u64 (m - mem) in
      nb ← uk_netbuf_init_indir mem buflen headroom
             (if 0 <? privlen then u64 (m + sizeof_uk_netbuf) else 0) dtor
             (slice 0 buflen bytes);
      Some (Some nb).

Definition netbuf_alloc_len (buflen privlen : Z) : Z :=
  u64 (NETBUF_ADDR_ALIGN_UP buflen + NETBUF_ADDR_ALIGN_UP (u64 (sizeof_uk_netbuf + privlen))).

(** [block] is what [uk_memalign] returned for [netbuf_alloc_len]: the address
    and the contents of the block, or NULL. *)
Definition uk_netbuf_alloc_buf (block : option (Z * list Z)) (buflen headroom privlen : Z)
    (dtor : option positive) : option (option uk_netbuf) :=
  if (0 <? buflen) && (headroom <=? buflen) then
    match block with
    | None => Some None
    | Some (mem, bytes) =>
        m ← uk_netbuf_prepare_buf mem bytes (netbuf_alloc_len buflen privlen) headroom
              privlen dtor;
        Some match m with
             | None => None
             | Some nb =>
                 Some (mk_netbuf (nb_next nb) (nb_prev nb) (nb_flags nb) (nb_data nb)
                         (nb_len nb) (nb_refcount nb) (nb_priv nb) (nb_buf nb)
                         (nb_buflen nb) (nb_csum_start nb) (nb_dtor nb) true (nb_mem nb))
             end
    end
  else None.

(** ** Payload and header *)

Definition set_nb_len (nb : uk_netbuf) (len : Z) : uk_netbuf :=
  mk_netbuf (nb_next nb) (nb_prev nb) (nb_flags nb) (nb_data nb) len (nb_refcount nb)
    (nb_priv nb) (nb_buf nb) (nb_buflen nb) (nb_csum_start nb) (nb_dtor nb) (nb_owned nb)
    (nb_mem nb).
Definition set_nb_mem (nb : uk_netbuf) (mem : list Z) : uk_netbuf :=
  mk_netbuf (nb_next nb) (nb_prev nb) (nb_flags nb) (nb_data nb) (nb_len nb) (nb_refcount nb)
    (nb_priv nb) (nb_buf nb) (nb_buflen nb) (nb_csum_start nb) (nb_dtor nb) (nb_owned nb) mem.

Definition uk_netbuf_headroom (nb : uk_netbuf) : Z := u64 (nb_data nb - nb_buf nb).
Definition uk_netbuf_tailroom (nb : uk_netbuf) : Z :=
  u64 (u64 (nb_buf nb + nb_buflen nb) - u64 (nb_data nb + nb_len nb)).

(** Moves the start of the payload by the signed 16-bit [len]. *)
Definition uk_netbuf_header (nb : uk_netbuf) (len : Z) : option (Z * uk_netbuf) :=
  if (nb_buf nb =? 0) || (nb_data nb =? 0) then None
  else if negb (bool_decide (nb_prev nb = None)) then None
  else if (swrap 64 (uk_netbuf_headroom nb) <? len) || (nb_len nb <? - len) then Some (- ENOSPC, nb)
  else if 65535 <? len + nb_len nb then Some (- EFAULT, nb)
  else
    let csum := flag_set (nb_flags nb) UK_NETBUF_F_PARTIAL_CSUM in
    let drop_csum := (len <? 0) && (nb_csum_start nb <? - len) in
    let flags := if csum && drop_csum
                 then Z.ldiff (nb_flags nb) UK_NETBUF_F_PARTIAL_CSUM else nb_flags nb in
    let csum_start := if csum && negb drop_csum
                      then u16 (nb_csum_start nb + len) else nb_csum_start nb in
    Some (1, mk_netbuf (nb_next nb) (nb_prev nb) flags (u64 (nb_data nb - len))
               (u16 (nb_len nb + len)) (nb_refcount nb) (nb_priv nb) (nb_buf nb) (nb_buflen nb)
               csum_start (nb_dtor nb) (nb_owned nb) (nb_mem nb)).

(** Reading and writing through [data]. *)
Definition nb_read (nb : uk_netbuf) (n : Z) : option (list Z) :=
  memread (nb_data nb - nb_buf nb) n (nb_mem nb).
Definition nb_write (nb : uk_netbuf) (bytes : list Z) : option uk_netbuf :=
  mem ← memcpy (nb_data nb - nb_buf nb) bytes (nb_mem nb); Some (set_nb_mem nb mem).
Definition nb_payload (nb : uk_netbuf) : option (list Z) := nb_read nb (nb_len nb).

(** ** The packet header *)

Fixpoint le_bytes (n : nat) (z : Z) : list Z :=
  match n with O => [] | S n => u8 z :: le_bytes n (z / 2 ^ 8) end.
Definition le_val (l : list Z) : Z := foldr (fun b v => b + 2 ^ 8 * v) 0 l.

Record virtio_vsock_hdr : Type := mk_hdr {
  h_src_cid : Z;
  h_dst_cid : Z;
  h_src_port : Z;
  h_dst_port : Z;
  h_len : Z;
  h_type : Z;
  h_op : Z;
  h_flags : Z;
  h_buf_alloc : Z;
  h_fwd_cnt : Z
}.

Definition sizeof_hdr : Z := 44.

(** Storing every field; a store truncates to the width of the field. *)
Definition encode_hdr (h : virtio_vsock_hdr) : list Z :=
  le_bytes 8 (h_src_cid h) ++ le_bytes 8 (h_dst_cid h) ++
  le_bytes 4 (h_src_port h) ++ le_bytes 4 (h_dst_port h) ++ le_bytes 4 (h_len h) ++
  le_bytes 2 (h_type h) ++ le_bytes 2 (h_op h) ++ le_bytes 4 (h_flags h) ++
  le_bytes 4 (h_buf_alloc h) ++ le_bytes 4 (h_fwd_cnt h).

(** Loading every field at its offset. *)
Definition decode_hdr (l : list Z) : virtio_vsock_hdr :=
  mk_hdr (le_val (slice 0 8 l)) (le_val (slice 8 8 l)) (le_val (slice 16 4 l))
    (le_val (slice 20 4 l)) (le_val (slice 24 4 l)) (le_val (slice 28 2 l))
    (le_val (slice 30 2 l)) (le_val (slice 32 4 l)) (le_val (slice 36 4 l))
    (le_val (slice 40 4 l)).

(** Each field is in the range of its C type. *)
Definition hdr_ok (h : virtio_vsock_hdr) : Prop :=
  0 <= h_src_cid h < 2 ^ 64 /\ 0 <= h_dst_cid h < 2 ^ 64 /\
  0 <= h_src_port h < 2 ^ 32 /\ 0 <= h_dst_port h < 2 ^ 32 /\ 0 <= h_len h < 2 ^ 32 /\
  0 <= h_type h < 2 ^ 16 /\ 0 <= h_op h < 2 ^ 16 /\ 0 <= h_flags h < 2 ^ 32 /\
  0 <= h_buf_alloc h < 2 ^ 32 /\ 0 <= h_fwd_cnt h < 2 ^ 32.

Definition is_byte (b : Z) : Prop := 0 <= b < 2 ^ 8.

(** ** Facts *)

Lemma length_le_bytes n z : length (le_bytes n z) = n.
Proof. revert z. induction n as [|n IH]; intros z; cbn; [done|]. by rewrite IH. Qed.

Lemma le_bytes_byte n z : Forall is_byte (le_bytes n z).
Proof.
  revert z. induction n as [|n IH]; intros z; cbn; constructor; [|apply IH].
  apply wrap_range. lia.
Qed.

Lemma le_val_bytes n z : 0 <= z < 2 ^ (8 * Z.of_nat n) -> le_val (le_bytes n z) = z.
Proof.
  revert z. induction n as [|n IH]; intros z Hz; cbn.
  { cbn in Hz. lia. }
  fold (le_val (le_bytes n (z / 2 ^ 8))). rewrite IH.
  - unfold wrap. pose proof (Z.div_mod z (2 ^ 8)). lia.
  - replace (8 * Z.of_nat (S n)) with (8 + 8 * Z.of_nat n) in Hz by lia.
    rewrite Z.pow_add_r in Hz by lia. split; [apply Z.div_pos; lia|].
    apply Z.div_lt_upper_bound; lia.
Qed.

Lemma le_val_bytes_wrap n z : le_val (le_bytes n z) = wrap (8 * Z.of_nat n) z.
Proof.
  revert z. induction n as [|n IH]; intros z; cbn [le_bytes le_val foldr].
  { unfold wrap. change (2 ^ (8 * Z.of_nat 0)) with 1. by rewrite Z.mod_1_r. }
  fold (le_val (le_bytes n (z / 2 ^ 8))). rewrite IH. unfold wrap.
  replace (8 * Z.of_nat (S n)) with (8 + 8 * Z.of_nat n) by lia. rewrite Z.pow_add_r by lia.
  rewrite Z.rem_mul_r; [lia|lia|]. apply Z.pow_pos_nonneg; lia.
Qed.

Lemma le_bytes_val l : Forall is_byte l -> le_bytes (length l) (le_val l) = l.
Proof.
  induction 1 as [|b l Hb _ IH]; cbn; [done|]. fold (le_val l). unfold is_byte in Hb.
  f_equal.
  - unfold wrap. rewrite Z.mul_comm, Z.mod_add by lia. by apply Z.mod_small.
  - rewrite Z.mul_comm, Z.div_add, Z.div_small by lia. exact IH.
Qed.

Lemma slice_app_here {A} (l1 l2 l3 : list A) off n :
  off = zlen l1 -> n = zlen l2 -> slice off n (l1 ++ l2 ++ l3) = l2.
Proof.
  intros -> ->. unfold slice, zlen. rewrite !Nat2Z.id, drop_app_length.
  apply take_app_length.
Qed.

Lemma encode_hdr_length h : zlen (encode_hdr h) = sizeof_hdr.
Proof. unfold encode_hdr, zlen. by rewrite !length_app, !length_le_bytes. Qed.

Lemma decode_encode h : hdr_ok h -> decode_hdr (encode_hdr h) = h.
Proof.
  destruct h as [f1 f2 f3 f4 f5 f6 f7 f8 f9 f10].
  intros (H1 & H2 & H3 & H4 & H5 & H6 & H7 & H8 & H9 & H10).
  unfold decode_hdr. f_equal;
    [exact (le_val_bytes 8 f1 H1)|exact (le_val_bytes 8 f2 H2)|exact (le_val_bytes 4 f3 H3)
    |exact (le_val_bytes 4 f4 H4)|exact (le_val_bytes 4 f5 H5)|exact (le_val_bytes 2 f6 H6)
    |exact (le_val_bytes 2 f7 H7)|exact (le_val_bytes 4 f8 H8)|exact (le_val_bytes 4 f9 H9)
    |exact (le_val_bytes 4 f10 H10)].
Qed.

(** The header a receiver sees: every field truncated to its width. *)
Definition wire_hdr (h : virtio_vsock_hdr) : virtio_vsock_hdr :=
  mk_hdr (u64 (h_src_cid h)) (u64 (h_dst_cid h)) (u32 (h_src_port h)) (u32 (h_dst_port h))
    (u32 (h_len h)) (u16 (h_type h)) (u16 (h_op h)) (u32 (h_flags h)) (u32 (h_buf_alloc h))
    (u32 (h_fwd_cnt h)).
Lemma decode_encode_wire h : decode_hdr (encode_hdr h) = wire_hdr h.
Proof.
  destruct h as [f1 f2 f3 f4 f5 f6 f7 f8 f9 f10]. unfold decode_hdr, wire_hdr. f_equal;
    [exact (le_val_bytes_wrap 8 f1)|exact (le_val_bytes_wrap 8 f2)|exact (le_val_bytes_wrap 4 f3)
    |exact (le_val_bytes_wrap 4 f4)|exact (le_val_bytes_wrap 4 f5)|exact (le_val_bytes_wrap 2 f6)
    |exact (le_val_bytes_wrap 2 f7)|exact (le_val_bytes_wrap 4 f8)|exact (le_val_bytes_wrap 4 f9)
    |exact (le_val_bytes_wrap 4 f10)].
Qed.

Lemma le_bytes_slice k off n l :
  k = Z.to_nat n -> 0 <= off -> 0 <= n -> off + n <= zlen l -> Forall is_byte l ->
  le_bytes k (le_val (slice off n l)) = slice off n l.
Proof.
  intros -> Ho Hn Hl Hb. rewrite <- (le_bytes_val (slice off n l)) at 2.
  - f_equal. pose proof (zlen_slice off n l Ho Hn Hl) as H. unfold zlen in H. lia.
  - unfold slice. by apply Forall_take, Forall_drop.
Qed.

Lemma encode_decode l :
  zlen l = sizeof_hdr -> Forall is_byte l -> encode_hdr (decode_hdr l) = l.
Proof.
  unfold sizeof_hdr. intros Hl Hb. unfold encode_hdr, decode_hdr. cbn [h_src_cid h_dst_cid
    h_src_port h_dst_port h_len h_type h_op h_flags h_buf_alloc h_fwd_cnt].
  rewrite !le_bytes_slice by (done || lia).
  rewrite (slice_app 36 4 4), (slice_app 32 4 8), (slice_app 30 2 12), (slice_app 28 2 14),
    (slice_app 24 4 16), (slice_app 20 4 20), (slice_app 16 4 24), (slice_app 8 8 28),
    (slice_app 0 8 36) by lia.
  change (0 + (8 + 36)) with 44. change (8 + 36) with 44. rewrite <- Hl. apply slice_all.
Qed.

(** The wire format of the packet header loses nothing: storing the fields
    of any header and loading them back gives the same fields, and any 44
    bytes received are reproduced by storing the fields loaded from them. *)
Theorem hdr_roundtrip :
  (forall h, hdr_ok h -> zlen (encode_hdr h) = sizeof_hdr /\ decode_hdr (encode_hdr h) = h) /\
  (forall l, zlen l = sizeof_hdr -> Forall is_byte l -> encode_hdr (decode_hdr l) = l).
Proof.
  split.
  - intros h Hh. split; [apply encode_hdr_length|by apply decode_encode].
  - apply encode_decode.
Qed.

(** Alignment down and up to 8 bytes. *)
Lemma align_down x : NETBUF_ADDR_ALIGN_DOWN x = x - x mod 8.
Proof.
  unfold NETBUF_ADDR_ALIGN_DOWN, NETBUF_ADDR_ALIGNMENT. change (8 - 1) with (Z.ones 3).
  rewrite Z.ldiff_ones_r by lia. rewrite Z.shiftl_mul_pow2, Z.shiftr_div_pow2 by lia.
  change (2 ^ 3) with 8. pose proof (Z.div_mod x 8). lia.
Qed.

Lemma align_up x :
  0 <= x < 2 ^ 63 -> NETBUF_ADDR_ALIGN_UP x = x + (- x) mod 8.
Proof.
  intros Hx. change (NETBUF_ADDR_ALIGN_UP x) with (NETBUF_ADDR_ALIGN_DOWN (u64 (x + (8 - 1)))).
  rewrite wrap_small, align_down by lia. Z.to_euclidean_division_equations. lia.
Qed.

Lemma align_up_bounds x :
  0 <= x < 2 ^ 63 ->
  NETBUF_ADDR_ALIGN_UP x mod 8 = 0 /\ x <= NETBUF_ADDR_ALIGN_UP x < x + 8.
Proof. intros. rewrite align_up by done. Z.to_euclidean_division_equations. lia. Qed.

(** A netbuf in an 8-aligned block: the buffer starts at the block and has the
    rounded size, the structure follows it. *)
Lemma uk_netbuf_alloc_buf_spec mem bytes buflen headroom privlen dtor :
  0 < mem -> mem mod 8 = 0 -> 0 < buflen < 2 ^ 61 -> 0 <= privlen < 2 ^ 61 ->
  0 <= headroom <= buflen -> mem + netbuf_alloc_len buflen privlen < 2 ^ 64 ->
  uk_netbuf_alloc_buf (Some (mem, bytes)) buflen headroom privlen dtor =
    Some (Some (mk_netbuf None None 0 (mem + headroom) 0 1
      (if 0 <? privlen then mem + NETBUF_ADDR_ALIGN_UP buflen + sizeof_uk_netbuf else 0)
      mem (NETBUF_ADDR_ALIGN_UP buflen) 0 dtor true
      (slice 0 (NETBUF_ADDR_ALIGN_UP buflen) bytes))).
Proof.
  intros Hm Ha Hb Hp Hh Hsz. unfold uk_netbuf_alloc_buf.
  destruct (_ && _) eqn:Hg; [|lia]. clear Hg. unfold netbuf_alloc_len in *.
  rewrite (wrap_small 64 (sizeof_uk_netbuf + privlen)) in * by (unfold sizeof_uk_netbuf; lia).
  destruct (align_up_bounds buflen) as [U1 U2]; [lia|].
  destruct (align_up_bounds (sizeof_uk_netbuf + privlen)) as [V1 V2]; [unfold sizeof_uk_netbuf; lia|].
  set (up := NETBUF_ADDR_ALIGN_UP buflen) in *.
  set (meta := NETBUF_ADDR_ALIGN_UP (_ + privlen)) in *. unfold sizeof_uk_netbuf in V2.
  rewrite (wrap_small 64 (up + meta)) in * by lia. unfold uk_netbuf_prepare_buf.
  destruct (Z.eqb_spec mem 0); [lia|].
  rewrite (wrap_small 64 (sizeof_uk_netbuf + privlen)) by (unfold sizeof_uk_netbuf; lia).
  fold meta. rewrite (wrap_small 64 (mem + _)) by lia. rewrite align_down.
  assert (Hz : (mem + (up + meta)) mod 8 = 0) by (Z.to_euclidean_division_equations; lia).
  rewrite Hz, Z.sub_0_r. destruct (Z.ltb_spec (mem + (up + meta)) meta); [lia|].
  replace (mem + (up + meta) - meta) with (mem + up) by lia.
  rewrite (wrap_small 64 (mem + up)) by lia. replace (mem + up - mem) with up by lia.
  rewrite (wrap_small 64 up) by lia. unfold uk_netbuf_init_indir.
  destruct (_ && _) eqn:Hg; [|lia]. cbn.
  rewrite (wrap_small 64 (mem + headroom)), (wrap_small 64 (mem + up + _))
    by (unfold sizeof_uk_netbuf; lia). done.
Qed.

(** A netbuf allocated in a block of the requested alignment of 8 bytes has
    a buffer of at least the requested length, with the headroom in front of
    an empty payload, and the structure with its private area lies behind the
    buffer and inside the block: the two never overlap. *)
Theorem alloc_buf_layout mem bytes buflen headroom privlen dtor :
  0 < mem -> mem mod 8 = 0 -> 0 < buflen < 2 ^ 61 -> 0 <= privlen < 2 ^ 61 ->
  0 <= headroom <= buflen -> mem + netbuf_alloc_len buflen privlen < 2 ^ 64 ->
  exists nb, uk_netbuf_alloc_buf (Some (mem, bytes)) buflen headroom privlen dtor = Some (Some nb) /\
    nb_buf nb = mem /\ buflen <= nb_buflen nb /\
    nb_buflen nb + sizeof_uk_netbuf + privlen <= netbuf_alloc_len buflen privlen /\
    (0 < privlen -> nb_priv nb = mem + nb_buflen nb + sizeof_uk_netbuf) /\
    uk_netbuf_headroom nb = headroom /\ uk_netbuf_tailroom nb = nb_buflen nb - headroom.
Proof.
  intros Hm Ha Hb Hp Hh Hsz. rewrite uk_netbuf_alloc_buf_spec by done. eexists. split; [done|].
  destruct (align_up_bounds buflen) as [U1 U2]; [lia|].
  destruct (align_up_bounds (sizeof_uk_netbuf + privlen)) as [V1 V2]; [unfold sizeof_uk_netbuf; lia|].
  unfold netbuf_alloc_len in *.
  rewrite (wrap_small 64 (sizeof_uk_netbuf + privlen)) in * by (unfold sizeof_uk_netbuf; lia).
  unfold uk_netbuf_headroom, uk_netbuf_tailroom. cbn.
  set (up := NETBUF_ADDR_ALIGN_UP buflen) in *.
  set (meta := NETBUF_ADDR_ALIGN_UP (_ + privlen)) in *. unfold sizeof_uk_netbuf in *.
  rewrite (wrap_small 64 (up + meta)) in * by lia.
  rewrite (wrap_small 64 (mem + up)), (wrap_small 64 (mem + headroom + 0)) by lia.
  rewrite !wrap_small by lia. split_and!; try lia. intros. case_match; lia.
Qed.

Lemma alloc_buf_layout_witness :
  exists nb, uk_netbuf_alloc_buf (Some (4096, repeat 0 256)) 100 44 0 None = Some (Some nb) /\
    nb_buf nb = 4096 /\ 100 <= nb_buflen nb /\
    nb_buflen nb + sizeof_uk_netbuf + 0 <= netbuf_alloc_len 100 0 /\
    (0 < 0 -> nb_priv nb = 4096 + nb_buflen nb + sizeof_uk_netbuf) /\
    uk_netbuf_headroom nb = 44 /\ uk_netbuf_tailroom nb = nb_buflen nb - 44.
Proof. apply alloc_buf_layout; vm_compute; intuition congruence. Defined.

(** Making room for a header in front of the payload. *)
Lemma uk_netbuf_header_push nb len :
  0 < nb_buf nb -> 0 < len < 2 ^ 15 -> nb_buf nb + len <= nb_data nb < 2 ^ 64 ->
  nb_data nb - nb_buf nb < 2 ^ 63 ->
  nb_prev nb = None -> nb_flags nb = 0 -> 0 <= nb_len nb -> nb_len nb + len <= 65535 ->
  uk_netbuf_header nb len =
    Some (1, mk_netbuf (nb_next nb) (nb_prev nb) 0 (nb_data nb - len) (nb_len nb + len)
      (nb_refcount nb) (nb_priv nb) (nb_buf nb) (nb_buflen nb) (nb_csum_start nb) (nb_dtor nb)
      (nb_owned nb) (nb_mem nb)).
Proof.
  intros Hb Hl Hd Hr Hp Hf Hn Hs. unfold uk_netbuf_header, uk_netbuf_headroom.
  rewrite Hp, Hf. cbn. rewrite (wrap_small 64 (nb_data nb - nb_buf nb)) by lia.
  rewrite swrap_small by lia. destruct (_ || _) eqn:G1; [lia|]. clear G1.
  destruct (_ || _) eqn:G2; [lia|]. clear G2. destruct (Z.ltb_spec 65535 (len + nb_len nb)); [lia|].
  rewrite !wrap_small by lia. done.
Qed.
