(* ===== verification/NetbufHeap.v ===== *)
(** * Netbuf chains

    The operations of lib/uknetdev on chains of netbufs: connecting, appending,
    disconnecting, referencing and releasing, on a heap of netbufs linked by
    their [next] and [prev] fields.  [None] is a failed [UK_ASSERT] or a
    dereference of NULL or of a freed netbuf. *)

From stdpp Require Import prelude gmap.
From S2P Require Import Prelude Netbuf.

Abbreviation heap := (gmap positive uk_netbuf).

Definition set_nb_next (nb : uk_netbuf) (n : option positive) : uk_netbuf :=
  mk_netbuf n (nb_prev nb) (nb_flags nb) (nb_data nb) (nb_len nb) (nb_refcount nb)
    (nb_priv nb) (nb_buf nb) (nb_buflen nb) (nb_csum_start nb) (nb_dtor nb) (nb_owned nb)
    (nb_mem nb).
Definition set_nb_prev (nb : uk_netbuf) (p : option positive) : uk_netbuf :=
  mk_netbuf (nb_next nb) p (nb_flags nb) (nb_data nb) (nb_len nb) (nb_refcount nb)
    (nb_priv nb) (nb_buf nb) (nb_buflen nb) (nb_csum_start nb) (nb_dtor nb) (nb_owned nb)
    (nb_mem nb).
Definition set_nb_refcount (nb : uk_netbuf) (r : Z) : uk_netbuf :=
  mk_netbuf (nb_next nb) (nb_prev nb) (nb_flags nb) (nb_data nb) (nb_len nb) r
    (nb_priv nb) (nb_buf nb) (nb_buflen nb) (nb_csum_start nb) (nb_dtor nb) (nb_owned nb)
    (nb_mem nb).

(** A store to a field of the netbuf [m]. *)
Definition update (h : heap) (m : positive) (f : uk_netbuf -> uk_netbuf) : option heap :=
  nb ← h !! m; Some (<[m := f nb]> h).
(** The same through a pointer that may be NULL: nothing happens. *)
Definition update_if (h : heap) (m : option positive) (f : uk_netbuf -> uk_netbuf) : option heap :=
  match m with None => Some h | Some m => update h m f end.

Definition uk_netbuf_connect (h : heap) (headtail tail : positive) : option heap :=
  nh ← h !! headtail;
  nt ← h !! tail;
  if bool_decide (nb_next nh = None) && bool_decide (nb_prev nt = None) then
    h ← update h headtail (fun nb => set_nb_next nb (Some tail));
    update h tail (fun nb => set_nb_prev nb (Some headtail))
  else None.

(** [UK_NETBUF_CHAIN_FOREACH]: the netbufs from [m] on; [n] bounds the walk. *)
Fixpoint chain_walk (h : heap) (m : option positive) (n : nat) : option (list positive) :=
  match m with
  | None => Some []
  | Some m =>
      match n with
      | O => None
      | S n => nb ← h !! m; l ← chain_walk h (nb_next nb) n; Some (m :: l)
      end
  end.
Definition uk_netbuf_chain_last (h : heap) (m : positive) : option (option positive) :=
  l ← chain_walk h (Some m) (size h); Some (last l).

Definition uk_netbuf_append (h : heap) (head tail : positive) : option heap :=
  nh ← h !! head;
  nt ← h !! tail;
  if bool_decide (nb_prev nh = None) && bool_decide (nb_prev nt = None) then
    headtail ← uk_netbuf_chain_last h head;
    headtail ← headtail;
    h ← update h headtail (fun nb => set_nb_next nb (Some tail));
    update h tail (fun nb => set_nb_prev nb (Some headtail))
  else None.

(** The rest of the chain and the heap. *)
Definition uk_netbuf_disconnect (h : heap) (m : positive) : option (option positive * heap) :=
  nb ← h !! m;
  h ← update_if h (nb_prev nb) (fun p => set_nb_next p (nb_next nb));
  nb ← h !! m;
  h ← update_if h (nb_next nb) (fun n => set_nb_prev n (nb_prev nb));
  h ← update h m (fun nb => set_nb_next (set_nb_prev nb None) None);
  Some (nb_next nb, h).

Definition uk_netbuf_ref_single (h : heap) (m : positive) : option heap :=
  update h m (fun nb => set_nb_refcount nb (u32 (nb_refcount nb + 1))).
Definition uk_netbuf_ref (h : heap) (m : positive) : option heap :=
  l ← chain_walk h (Some m) (size h);
  foldl (fun h m => h ← h; uk_netbuf_ref_single h m) (Some h) l.

Section free.
(** A destructor of the user: what it does to the heap. *)
Context (dtor : positive -> positive -> heap -> option heap).

Definition uk_netbuf_free_single (h : heap) (m : positive) : option heap :=
  nb ← h !! m;
  let old := nb_refcount nb in
  if old <=? 0 then None
  else
    h ← update h m (fun nb => set_nb_refcount nb (old - 1));
    if old =? 1 then
      '(_, h) ← uk_netbuf_disconnect h m;
      h ← match nb_dtor nb with Some d => dtor d m h | None => Some h end;
      Some (if nb_owned nb then delete m h else h)
    else Some h.

Fixpoint free_loop (h : heap) (m : option positive) (n : nat) : option heap :=
  match m with
  | None => Some h
  | Some m =>
      match n with
      | O => None
      | S n =>
          nb ← h !! m;
          h ← uk_netbuf_free_single h m;
          free_loop h (nb_next nb) n
      end
  end.
Definition uk_netbuf_free (h : heap) (m : positive) : option heap :=
  nb ← h !! m;
  if bool_decide (nb_prev nb = None) then free_loop h (Some m) (size h) else None.
End free.

(** ** Chains *)

(** The first element of a segment, or what is behind an empty one; the last
    one, or what is before. *)
Definition first_or (e : option positive) (l : list positive) : option positive :=
  match l with [] => e | m :: _ => Some m end.
Fixpoint last_or (p : option positive) (l : list positive) : option positive :=
  match l with [] => p | m :: l => last_or (Some m) l end.

(** [segment h p l e]: the netbufs [l] are linked in both directions, from the
    one before the first, [p], to the one behind the last, [e]. *)
Fixpoint segment (h : heap) (p : option positive) (l : list positive) (e : option positive) : Prop :=
  match l with
  | [] => True
  | m :: l =>
      (exists nb, h !! m = Some nb /\ nb_prev nb = p /\ nb_next nb = first_or e l) /\
      segment h (Some m) l e
  end.
(** A whole chain. *)
Definition chain (h : heap) (l : list positive) : Prop := NoDup l /\ segment h None l None.

Lemma last_or_snoc p l x : last_or p (l ++ [x]) = Some x.
Proof. revert p. induction l; cbn; auto. Qed.

Lemma segment_app h p l1 l2 e :
  segment h p (l1 ++ l2) e <->
  segment h p l1 (first_or e l2) /\ segment h (last_or p l1) l2 e.
Proof.
  revert p. induction l1 as [|m l1 IH]; intros p; cbn; [tauto|].
  rewrite IH. destruct l1; cbn; tauto.
Qed.

Lemma segment_frame h h' p l e :
  (forall m, m ∈ l -> h' !! m = h !! m) -> segment h p l e -> segment h' p l e.
Proof.
  revert p. induction l as [|m l IH]; intros p Hf; cbn; [done|].
  rewrite Hf by left. intros [? ?]. split; [done|]. apply IH; [|done]. intros m' ?. apply Hf. by right.
Qed.

Lemma last_or_elem l x : last_or None l = Some x -> x ∈ l.
Proof.
  destruct l as [|y l _] using rev_ind; [done|]. rewrite last_or_snoc. intros [= ->].
  apply elem_of_app. right. by left.
Qed.
Lemma first_or_elem l x : first_or None l = Some x -> x ∈ l.
Proof. destruct l; [done|]. intros [= ->]. by left. Qed.

(** A netbuf without its links; heaps that differ in links only. *)
Definition unlinked (nb : uk_netbuf) : uk_netbuf := set_nb_next (set_nb_prev nb None) None.
Definition same_payload (h h' : heap) : Prop := forall m, unlinked <$> h !! m = unlinked <$> h' !! m.

#[export] Instance same_payload_equiv : Equivalence same_payload.
Proof. split; [done|by intros h h' H m|intros h1 h2 h3 H1 H2 m; by rewrite H1]. Qed.

Lemma same_payload_insert (h : heap) m nb nb' :
  h !! m = Some nb -> unlinked nb' = unlinked nb -> same_payload h (<[m := nb']> h).
Proof.
  intros Hm Hu x. destruct (decide (x = m)) as [->|].
  - rewrite lookup_insert_eq, Hm. cbn. by rewrite Hu.
  - by rewrite lookup_insert_ne.
Qed.

(** Storing behind the last netbuf of a segment, and before its first. *)
Lemma store_next h p l e e' :
  NoDup l -> segment h p l e ->
  exists h', update_if h (last_or None l) (fun nb => set_nb_next nb e') = Some h' /\
    segment h' p l e' /\ (forall m, Some m <> last_or None l -> h' !! m = h !! m) /\ same_payload h h'.
Proof.
  destruct l as [|x l _] using rev_ind; intros Hnd Hs; [by exists h|].
  apply segment_app in Hs as [Hl [(nb & Hx & Hp & Hn) _]].
  apply NoDup_app in Hnd as (_ & Hd & _). rewrite last_or_snoc. cbn. unfold update. rewrite Hx. cbn.
  eexists. split; [done|]. split; [|split; [|by eapply same_payload_insert]].
  - apply segment_app. split.
    + eapply segment_frame, Hl. intros m Hm. rewrite lookup_insert_ne; [done|].
      intros <-. apply (Hd x Hm). by left.
    + cbn. split; [|done]. eexists. rewrite lookup_insert_eq. split; [done|]. by cbn.
  - intros m Hm. apply lookup_insert_ne. congruence.
Qed.

Lemma store_prev h p p' l e :
  NoDup l -> segment h p l e ->
  exists h', update_if h (first_or None l) (fun nb => set_nb_prev nb p') = Some h' /\
    segment h' p' l e /\ (forall m, Some m <> first_or None l -> h' !! m = h !! m) /\ same_payload h h'.
Proof.
  destruct l as [|x l]; intros Hnd Hs; [by exists h|].
  destruct Hs as [(nb & Hx & Hp & Hn) Hl]. apply NoDup_cons in Hnd as [Hd _].
  cbn. unfold update. rewrite Hx. cbn.
  eexists. split; [done|]. split; [|split; [|by eapply same_payload_insert]].
  - split.
    + eexists. rewrite lookup_insert_eq. split; [done|]. by cbn.
    + eapply segment_frame, Hl. intros m Hm. rewrite lookup_insert_ne; [done|by intros ->].
  - intros m Hm. apply lookup_insert_ne. congruence.
Qed.

Lemma NoDup_middle {A} (l1 l2 : list A) x :
  NoDup (l1 ++ x :: l2) ->
  NoDup (l1 ++ l2) /\ NoDup l1 /\ NoDup l2 /\ (x ∉ l1) /\ (x ∉ l2) /\ forall y, y ∈ l1 -> y ∉ l2.
Proof.
  intros (H1 & Hd & [Hx H2]%NoDup_cons)%NoDup_app.
  split_and!; try done.
  - apply NoDup_app. split_and!; try done. intros y Hy Hy'. apply (Hd y Hy). by right.
  - intros Hx1. apply (Hd x Hx1). by left.
  - intros y Hy Hy'. apply (Hd y Hy). by right.
Qed.

Lemma disconnect_spec h l1 m l2 :
  chain h (l1 ++ m :: l2) ->
  exists nb h', h !! m = Some nb /\ uk_netbuf_disconnect h m = Some (first_or None l2, h') /\
    chain h' (l1 ++ l2) /\ h' !! m = Some (unlinked nb) /\
    (forall x, x ∉ l1 ++ m :: l2 -> h' !! x = h !! x) /\ same_payload h h'.
Proof.
  intros [Hnd Hs]. apply NoDup_middle in Hnd as (Hnd & Hn1 & Hn2 & Hm1 & Hm2 & Hd).
  apply segment_app in Hs as [Hs1 [(nb & Hm & Hp & Hn) Hs2]].
  pose proof (last_or_elem l1) as Hlast. pose proof (first_or_elem l2) as Hfirst.
  destruct (store_next h None l1 (Some m) (first_or None l2) Hn1 Hs1) as (h1 & E1 & Hs1' & F1 & P1).
  assert (Hh1 : forall x, x ∉ l1 -> h1 !! x = h !! x) by (intros x Hx; apply F1; naive_solver).
  assert (Hs2' : segment h1 (Some m) l2 None).
  { eapply segment_frame, Hs2. intros x Hx. apply Hh1. naive_solver. }
  destruct (store_prev h1 (Some m) (last_or None l1) l2 None Hn2 Hs2') as (h2 & E2 & Hs2'' & F2 & P2).
  assert (Hh2 : forall x, x ∉ l2 -> h2 !! x = h1 !! x) by (intros x Hx; apply F2; naive_solver).
  exists nb, (<[m := unlinked nb]> h2). split; [done|].
  assert (H2m : h2 !! m = Some nb) by by rewrite Hh2, Hh1.
  split_and!.
  - unfold uk_netbuf_disconnect. rewrite Hm. cbn. rewrite Hp, Hn, E1. cbn.
    rewrite Hh1, Hm by done. cbn. rewrite Hn, Hp, E2. cbn. unfold update. by rewrite H2m.
  - split; [done|]. apply segment_app. split.
    + eapply segment_frame, Hs1'. intros x Hx. rewrite lookup_insert_ne by by intros ->. naive_solver.
    + eapply segment_frame, Hs2''. intros x Hx. by rewrite lookup_insert_ne by by intros ->.
  - apply lookup_insert_eq.
  - intros x Hx. assert ((x ∉ l1) /\ x <> m /\ (x ∉ l2)) as (? & ? & ?) by set_solver.
    rewrite lookup_insert_ne, Hh2, Hh1; done.
  - etransitivity; [exact P1|]. etransitivity; [exact P2|]. by eapply same_payload_insert.
Qed.

Lemma chain_live h l m : chain h l -> m ∈ l -> is_Some (h !! m).
Proof.
  intros [_ Hs] (l1 & l2 & ->)%list_elem_of_split.
  apply segment_app in Hs as [_ [(nb & -> & _) _]]. eauto.
Qed.

Lemma chain_length h l : chain h l -> (length l <= size h)%nat.
Proof.
  intros Hc. pose proof Hc as [Hnd _]. rewrite <- size_dom, <- (size_list_to_set (C:=gset positive)) by done.
  apply subseteq_size. intros m Hm%elem_of_list_to_set. apply elem_of_dom. by eapply chain_live.
Qed.

Lemma chain_walk_spec h p l n :
  segment h p l None -> (length l <= n)%nat -> chain_walk h (first_or None l) n = Some l.
Proof.
  revert p n. induction l as [|m l IH]; intros p n Hs Hn; [by destruct n|].
  destruct n as [|n]; cbn in Hn; [lia|]. destruct Hs as [(nb & Hm & _ & Hnx) Hs].
  cbn. rewrite Hm. cbn. rewrite Hnx, (IH (Some m)); [done|done|lia].
Qed.

(** Appending one chain to another makes the chain of both, in order,
    linked in both directions; the payloads and all other netbufs stay as they
    were. *)
Theorem netbuf_append_chain h a l1 b l2 :
  chain h (a :: l1) -> chain h (b :: l2) -> (forall x, x ∈ a :: l1 -> x ∉ b :: l2) ->
  exists h', uk_netbuf_append h a b = Some h' /\ chain h' ((a :: l1) ++ b :: l2) /\
    (forall x, x ∉ a :: l1 -> x ∉ b :: l2 -> h' !! x = h !! x) /\ same_payload h h'.
Proof.
  intros H1 H2 Hd. pose proof (chain_length _ _ H1) as Hlen.
  pose proof H1 as [Hn1 Hs1]. pose proof H2 as [Hn2 Hs2].
  destruct (store_next h None (a :: l1) None (Some b) Hn1 Hs1) as (h1 & E1 & Hs1' & F1 & P1).
  pose proof (last_or_elem (a :: l1)) as Hlast.
  assert (Hh1 : forall x, x ∉ a :: l1 -> h1 !! x = h !! x) by (intros x Hx; apply F1; naive_solver).
  assert (Hs2' : segment h1 None (b :: l2) None).
  { eapply segment_frame, Hs2. intros x Hx. apply Hh1. naive_solver. }
  destruct (store_prev h1 None (last_or None (a :: l1)) (b :: l2) None Hn2 Hs2') as (h2 & E2 & Hs2'' & F2 & P2).
  assert (Hh2 : forall x, x ∉ b :: l2 -> h2 !! x = h1 !! x).
  { intros x Hx. apply F2. cbn. intros [= ->]. apply Hx. by left. }
  exists h2. split_and!.
  - unfold uk_netbuf_append. destruct Hs1 as [(na & Ha & Hpa & _) ?], Hs2 as [(nb & Hb & Hpb & _) _].
    rewrite Ha, Hb. cbn. rewrite Hpa, Hpb. cbn. unfold uk_netbuf_chain_last.
    rewrite (chain_walk_spec h None (a :: l1)) by (try apply H1; done).
    assert (exists x, last (a :: l1) = Some x /\ last_or None (a :: l1) = Some x) as (x & Hx & Hx').
    { clear. destruct l1 as [|x l _] using rev_ind; [by exists a|]. exists x.
      rewrite app_comm_cons, last_snoc, last_or_snoc. done. }
    rewrite Hx'  in *. cbn -[last]. rewrite Hx. cbn. cbn in E1. rewrite E1. cbn. exact E2.
  - split; [apply NoDup_app; split_and!; done|]. apply segment_app. split.
    + eapply segment_frame, Hs1'. intros x Hx. apply Hh2. naive_solver.
    + done.
  - intros x Hx Hx'. by rewrite Hh2, Hh1.
  - by etransitivity.
Qed.

(** ** Releasing *)

(** What a release leaves of a netbuf. *)
Definition released (nb : uk_netbuf) : option uk_netbuf :=
  if nb_refcount nb =? 1 then
    if nb_owned nb then None else Some (set_nb_refcount (unlinked nb) 0)
  else Some (set_nb_refcount nb (nb_refcount nb - 1)).
(** The netbufs of a chain with other references stay in it. *)
Definition kept (h : heap) (m : positive) : bool :=
  match h !! m with Some nb => negb (nb_refcount nb =? 1) | None => false end.
Definition releasable (nb : uk_netbuf) : Prop :=
  1 <= nb_refcount nb /\ (nb_refcount nb = 1 -> nb_dtor nb = None).

Section free_proof.
Context (dtor : positive -> positive -> heap -> option heap).

Lemma segment_refcount h p l e m nb r :
  h !! m = Some nb -> segment h p l e -> segment (<[m := set_nb_refcount nb r]> h) p l e.
Proof.
  intros Hm. revert p. induction l as [|x l IH]; intros p; cbn; [done|].
  intros [(nbx & Hx & ? & ?) Hs]. split; [|by apply IH].
  destruct (decide (x = m)) as [->|]; [|rewrite lookup_insert_ne by done; eauto].
  rewrite lookup_insert_eq. simplify_eq. by eexists.
Qed.

Lemma free_single_spec h l1 m l2 nb :
  chain h (l1 ++ m :: l2) -> h !! m = Some nb -> releasable nb ->
  exists h', uk_netbuf_free_single dtor h m = Some h' /\
    chain h' (l1 ++ (if kept h m then [m] else []) ++ l2) /\
    unlinked <$> h' !! m = unlinked <$> released nb /\
    (forall x, x ∉ l1 ++ m :: l2 -> h' !! x = h !! x) /\
    (forall x, x <> m -> unlinked <$> h !! x = unlinked <$> h' !! x).
Proof.
  intros Hc Hm [Hr Hdt]. unfold uk_netbuf_free_single, kept, released. rewrite Hm. cbn.
  destruct (Z.leb_spec (nb_refcount nb) 0); [lia|]. unfold update. rewrite Hm. cbn.
  set (h1 := <[m := set_nb_refcount nb (nb_refcount nb - 1)]> h).
  assert (Hc1 : chain h1 (l1 ++ m :: l2)) by (split; [apply Hc|by apply segment_refcount, Hc]).
  assert (Hne : forall x, x <> m -> h1 !! x = h !! x) by (intros; by apply lookup_insert_ne).
  assert (Hm1 : h1 !! m = Some (set_nb_refcount nb (nb_refcount nb - 1))) by apply lookup_insert_eq.
  assert (Hin : forall x, x ∉ l1 ++ m :: l2 -> x <> m) by set_solver.
  destruct (Z.eqb_spec (nb_refcount nb) 1) as [E|E]; cbn [negb app].
  - destruct (disconnect_spec h1 l1 m l2 Hc1) as (nb1 & h2 & Hm1' & -> & Hc2 & Hm2 & F & P).
    rewrite Hm1 in Hm1'. injection Hm1' as <-. cbn. rewrite Hdt by done. cbn.
    assert (Hout : forall x, x ∉ l1 ++ m :: l2 -> h2 !! x = h !! x) by (intros; rewrite F, Hne; auto).
    assert (Hp : forall x, x <> m -> unlinked <$> h !! x = unlinked <$> h2 !! x)
      by (intros; by rewrite <- P, Hne).
    destruct (nb_owned nb); (eexists; split; [done|]); cycle 1.
    { split_and!; try done. rewrite Hm2. by replace (nb_refcount nb - 1) with 0 by lia. }
    split_and!.
    + destruct Hc2 as [Hnd2 Hs2]. split; [done|]. eapply segment_frame, Hs2. intros x Hx.
      apply lookup_delete_ne. intros <-. destruct Hc as [Hnd _].
      rewrite <- Permutation_middle, NoDup_cons in Hnd. naive_solver.
    + by rewrite lookup_delete_eq.
    + intros x Hx. rewrite lookup_delete_ne by (intros <-; by apply (Hin m)). by apply Hout.
    + intros x Hx. rewrite lookup_delete_ne by congruence. by apply Hp.
  - exists h1. split_and!; try done; [by rewrite Hm1| |]; intros; by rewrite Hne by auto.
Qed.

Lemma kept_frame h h' l :
  (forall x, x ∈ l -> unlinked <$> h !! x = unlinked <$> h' !! x) ->
  List.filter (kept h) l = List.filter (kept h') l.
Proof.
  induction l as [|x l IH]; intros Hf; [done|]. cbn. rewrite IH by (intros; apply Hf; by right).
  enough (kept h x = kept h' x) as -> by done. specialize (Hf x ltac:(by left)). unfold kept.
  destruct (h !! x) as [nb|], (h' !! x) as [nb'|]; try done. cbn in Hf. injection Hf.
  intros. by replace (nb_refcount nb') with (nb_refcount nb).
Qed.

Lemma released_unlinked a b :
  unlinked a = unlinked b -> unlinked <$> released a = unlinked <$> released b.
Proof.
  destruct a, b. unfold unlinked, released. cbn. intros [= -> -> -> -> -> -> -> -> -> -> ->].
  by repeat case_match.
Qed.

Lemma releasable_unlinked a b : unlinked a = unlinked b -> releasable a -> releasable b.
Proof.
  destruct a, b. unfold unlinked, releasable. cbn. by intros [= -> -> -> -> -> -> -> -> -> -> ->].
Qed.

Lemma free_loop_spec h l1 l2 n :
  chain h (l1 ++ l2) -> (forall m nb, m ∈ l2 -> h !! m = Some nb -> releasable nb) ->
  (length l2 <= n)%nat ->
  exists h', free_loop dtor h (first_or None l2) n = Some h' /\
    chain h' (l1 ++ List.filter (kept h) l2) /\
    (forall m nb, m ∈ l2 -> h !! m = Some nb -> unlinked <$> h' !! m = unlinked <$> released nb) /\
    (forall x, x ∉ l1 ++ l2 -> h' !! x = h !! x) /\
    (forall x, x ∉ l2 -> unlinked <$> h !! x = unlinked <$> h' !! x).
Proof.
  revert h l1 n. induction l2 as [|m l2 IH]; intros h l1 n Hc Hr Hn.
  { exists h. split_and!; try done; [by destruct n|]. by intros ? ? ?%elem_of_nil. }
  destruct n as [|n]; cbn in Hn; [lia|]. destruct (chain_live h _ m Hc) as [nb Hm]; [set_solver|].
  pose proof Hc as [(_ & _ & _ & Hm1 & Hm2 & _)%NoDup_middle [_ [(nb' & Hm' & _ & Hnx) _]]%segment_app].
  rewrite Hm in Hm'. injection Hm' as <-. cbn. rewrite Hm. cbn.
  destruct (free_single_spec h l1 m l2 nb Hc Hm) as (h1 & -> & Hc1 & Hm1' & F1 & P1);
    [by eapply Hr; [left|]|]. cbn. rewrite Hnx.
  rewrite app_assoc in Hc1.
  assert (Hrel : forall x nbx, x ∈ l2 -> h1 !! x = Some nbx ->
    exists nb0, h !! x = Some nb0 /\ unlinked nb0 = unlinked nbx).
  { intros x nbx Hx Hnb. assert (x <> m) by by intros ->. specialize (P1 x ltac:(done)).
    rewrite Hnb in P1. destruct (h !! x) as [nb0|]; [|done]. exists nb0. cbn in P1. split; congruence. }
  destruct (IH h1 (l1 ++ (if kept h m then [m] else [])) n Hc1) as (h2 & E2 & Hc2 & R2 & F2 & P2); [|lia|].
  { intros x nbx Hx Hnb. destruct (Hrel x nbx Hx Hnb) as (nb0 & Hnb0 & Hu).
    eapply releasable_unlinked, (Hr x nb0); [done|by right|done]. }
  rewrite (kept_frame h1 h l2) in Hc2; [|intros x Hx; symmetry; apply P1; by intros ->].
  exists h2. split; [done|]. split_and!.
  - rewrite <- app_assoc in Hc2. by destruct (kept h m).
  - intros x nbx [->|Hx]%elem_of_cons Hnb.
    + rewrite Hm in Hnb. injection Hnb as <-. by rewrite <- P2, Hm1'.
    + assert (x <> m) by by intros ->. specialize (P1 x ltac:(done)). rewrite Hnb in P1.
      destruct (h1 !! x) as [nb1|] eqn:Hh1; [|done]. rewrite (R2 x nb1 Hx Hh1).
      apply released_unlinked. cbn in P1. congruence.
  - intros x Hx. rewrite F2, F1; [done|done|]. destruct (kept h m); set_solver.
  - intros x Hx. rewrite P1, P2 by set_solver. done.
Qed.

(** Releasing a chain visits each of its netbufs once: one whose last
    reference this was is unlinked and its memory freed if it owns it, one with
    other references keeps them, one fewer, and stays in a well-formed chain
    with the other survivors; no other netbuf changes. *)
Theorem netbuf_free_chain h m l :
  chain h (m :: l) -> (forall x nb, x ∈ m :: l -> h !! x = Some nb -> releasable nb) ->
  exists h', uk_netbuf_free dtor h m = Some h' /\
    chain h' (List.filter (kept h) (m :: l)) /\
    (forall x nb, x ∈ m :: l -> h !! x = Some nb ->
      unlinked <$> h' !! x = unlinked <$> released nb) /\
    (forall x, x ∉ m :: l -> h' !! x = h !! x).
Proof.
  intros Hc Hr. pose proof (chain_length _ _ Hc) as Hn.
  destruct (free_loop_spec h [] (m :: l) (size h) Hc Hr Hn) as (h' & E & Hc' & R & F & _).
  exists h'. split_and!; try done. unfold uk_netbuf_free.
  destruct Hc as [_ [(nb & Hm & Hp & _) _]]. rewrite Hm. cbn. by rewrite Hp.
Qed.
End free_proof.

Definition sample_nb (next prev : option positive) (refs : Z) : uk_netbuf :=
  mk_netbuf next prev 0 4096 10 refs 0 4096 64 0 None true [].
Definition sample_chain : heap :=
  <[1%positive := sample_nb (Some 2%positive) None 1]>
  (<[2%positive := sample_nb (Some 3%positive) (Some 1%positive) 2]>
  (<[3%positive := sample_nb None (Some 2%positive) 1]> {[4%positive := sample_nb None None 1]})).

Lemma netbuf_free_chain_witness :
  exists h', uk_netbuf_free (fun _ _ _ => None) sample_chain 1%positive = Some h' /\
    chain h' [2%positive] /\
    (forall x nb, x ∈ [1; 2; 3]%positive -> sample_chain !! x = Some nb ->
      unlinked <$> h' !! x = unlinked <$> released nb) /\
    (forall x, x ∉ [1; 2; 3]%positive -> h' !! x = sample_chain !! x).
Proof.
  apply (netbuf_free_chain (fun _ _ _ => None) sample_chain 1%positive [2; 3]%positive).
  - split; [repeat constructor; set_solver|]. repeat split; by eexists.
  - intros x nb Hx. repeat (apply elem_of_cons in Hx as [->|Hx]; [intros [= <-]; by split|]).
    by apply elem_of_nil in Hx.
Defined.

Lemma netbuf_append_chain_witness :
  exists h', uk_netbuf_append sample_chain 1%positive 4%positive = Some h' /\
    chain h' [1; 2; 3; 4]%positive /\
    (forall x, x ∉ [1; 2; 3]%positive -> x ∉ [4]%positive -> h' !! x = sample_chain !! x) /\
    same_payload sample_chain h'.
Proof.
  apply (netbuf_append_chain sample_chain 1%positive [2; 3]%positive 4%positive []).
  - split; [repeat constructor; set_solver|]. repeat split; by eexists.
  - split; [repeat constructor; set_solver|]. repeat split; by eexists.
  - set_solver.
Defined.
