(* ===== verification/Sglist.v ===== *)
(** * Scatter/gather lists (lib/uksglist)

    A [uk_sglist] is an array of physical segments of which the first
    [sg_nseg] are in use.  The functions of lib/uksglist/sglist.c are defined
    over the translation [uk_paging_virt_to_phys] and, for builds with virtual
    memory management, [uk_vma_advise] (constantly 0 without it).  [None] is
    an access outside the segment array.  The theorems compare a list with the
    sequence of physical byte addresses it describes. *)

From stdpp Require Import prelude gmap.
From S2P Require Import Prelude.

Definition PAGE_SHIFT : Z := 12.
Definition PAGE_SIZE : Z := 4096.
Definition page_off (x : Z) : Z := Z.land x (PAGE_SIZE - 1).
Definition trunc_page (x : Z) : Z := Z.ldiff x (PAGE_SIZE - 1).

Record uk_sglist_seg : Type := mk_seg { ss_paddr : Z; ss_len : Z }.

Record uk_sglist : Type := mk_sglist {
  sg_segs : list uk_sglist_seg;
  sg_refs : Z;
  sg_nseg : Z;
  sg_maxseg : Z
}.

Definition uk_sglist_init (maxsegs : Z) (segs : list uk_sglist_seg) : uk_sglist :=
  mk_sglist segs 1 0 maxsegs.
Definition uk_sglist_reset (sg : uk_sglist) : uk_sglist :=
  mk_sglist (sg_segs sg) (sg_refs sg) 0 (sg_maxseg sg).

(** Access to the array; negative and too large indices are out of bounds. *)
Definition seg_at (segs : list uk_sglist_seg) (i : Z) : option uk_sglist_seg :=
  if i <? 0 then None else segs !! Z.to_nat i.
Definition seg_put (segs : list uk_sglist_seg) (i : Z) (s : uk_sglist_seg)
    : option (list uk_sglist_seg) :=
  if (i <? 0) || (zlen segs <=? i) then None else Some (<[Z.to_nat i := s]> segs).

(** The error code, the list and the index of the current segment. *)
Definition sglist_append_range (sg : uk_sglist) (ss : Z) (paddr len : Z)
    : option (Z * uk_sglist * Z) :=
  s ← seg_at (sg_segs sg) ss;
  if u64 (ss_paddr s + ss_len s) =? paddr then
    segs ← seg_put (sg_segs sg) ss (mk_seg (ss_paddr s) (u64 (ss_len s + len)));
    Some (0, mk_sglist segs (sg_refs sg) (sg_nseg sg) (sg_maxseg sg), ss)
  else if sg_nseg sg =? sg_maxseg sg then Some (- EFBIG, sg, ss)
  else
    segs ← seg_put (sg_segs sg) (ss + 1) (mk_seg paddr len);
    Some (0, mk_sglist segs (sg_refs sg) (u16 (sg_nseg sg + 1)) (sg_maxseg sg), ss + 1).

Record sgsave : Type := mk_sgsave { sv_nseg : Z; sv_len : Z }.

Definition UK_SGLIST_SAVE (sg : uk_sglist) : option sgsave :=
  if 0 <? sg_nseg sg
  then s ← seg_at (sg_segs sg) (sg_nseg sg - 1); Some (mk_sgsave (sg_nseg sg) (ss_len s))
  else Some (mk_sgsave (sg_nseg sg) 0).

Definition UK_SGLIST_RESTORE (sg : uk_sglist) (sv : sgsave) : option uk_sglist :=
  if 0 <? sv_nseg sv
  then s ← seg_at (sg_segs sg) (sv_nseg sv - 1);
       segs ← seg_put (sg_segs sg) (sv_nseg sv - 1) (mk_seg (ss_paddr s) (sv_len sv));
       Some (mk_sglist segs (sg_refs sg) (sv_nseg sv) (sg_maxseg sg))
  else Some (mk_sglist (sg_segs sg) (sg_refs sg) (sv_nseg sv) (sg_maxseg sg)).

(** [&sg->sg_segs[i].ss_len] summed over the segments in use. *)
Definition uk_sglist_length (sg : uk_sglist) : Z :=
  fold_left (fun space s => u64 (space + ss_len s)) (take (Z.to_nat (sg_nseg sg)) (sg_segs sg)) 0.

Section sglist.
Context (uk_paging_virt_to_phys : Z -> Z) (uk_vma_advise : Z -> Z -> Z).
(** The segment array that [uk_malloc] provides for a list of [n] segments. *)
Context (malloc_segs : Z -> option (list uk_sglist_seg)).
Abbreviation v2p := uk_paging_virt_to_phys.

(** The loop over the pages behind the first one. *)
Fixpoint append_pages (fuel : nat) (sg : uk_sglist) (ss vaddr len : Z)
    : option (Z * uk_sglist) :=
  if len <=? 0 then Some (0, sg)
  else match fuel with
       | O => None
       | S fuel =>
           let seglen := Z.min len PAGE_SIZE in
           '(error, sg, ss) ← sglist_append_range sg ss (v2p vaddr) seglen;
           if negb (error =? 0) then Some (error, sg)
           else append_pages fuel sg ss (u64 (vaddr + seglen)) (len - seglen)
       end.

(** One page per iteration. *)
Definition pages_fuel (len : Z) : nat := Z.to_nat (len / PAGE_SIZE + 1).

Definition sglist_append_buf (sg : uk_sglist) (buf len : Z) : option (Z * uk_sglist) :=
  if len =? 0 then Some (0, sg)
  else
    let vaddr := buf in
    let offset := page_off vaddr in
    let error := uk_vma_advise (trunc_page vaddr) (trunc_page (len + offset + PAGE_SIZE - 1)) in
    if negb (error =? 0) then Some (error, sg)
    else
      let paddr := v2p vaddr in
      let seglen := Z.min len (PAGE_SIZE - offset) in
      '(error, sg, ss) ←
        (if sg_nseg sg =? 0 then
           segs ← seg_put (sg_segs sg) 0 (mk_seg paddr seglen);
           Some (0, mk_sglist segs (sg_refs sg) 1 (sg_maxseg sg), 0)
         else sglist_append_range sg (sg_nseg sg - 1) paddr seglen);
      if negb (error =? 0) then Some (error, sg)
      else append_pages (pages_fuel len) sg ss (u64 (vaddr + seglen)) (len - seglen).

Definition uk_sglist_append (sg : uk_sglist) (buf len : Z) : option (Z * uk_sglist) :=
  if sg_maxseg sg =? 0 then Some (- EINVAL, sg)
  else
    save ← UK_SGLIST_SAVE sg;
    '(error, sg') ← sglist_append_buf sg buf len;
    if negb (error =? 0) then sg' ← UK_SGLIST_RESTORE sg' save; Some (error, sg')
    else Some (0, sg').

(** The loop of [uk_sglist_count]. *)
Fixpoint count_pages (fuel : nat) (vaddr vendaddr lastaddr nsegs : Z) : option Z :=
  if vaddr <? vendaddr then
    match fuel with
    | O => None
    | S fuel =>
        let paddr := v2p vaddr in
        count_pages fuel (u64 (vaddr + PAGE_SIZE)) vendaddr paddr
          (if negb (u64 (lastaddr + PAGE_SIZE) =? paddr) then nsegs + 1 else nsegs)
    end
  else Some nsegs.

Definition uk_sglist_count (buf len : Z) : option Z :=
  if len =? 0 then Some 0
  else
    let vaddr := trunc_page buf in
    let vendaddr := u64 (buf + len) in
    count_pages (pages_fuel len) (u64 (vaddr + PAGE_SIZE)) vendaddr (v2p vaddr) 1.

(** ** Appending to another list, joining, splitting, slicing *)

(** The loop of [uk_sglist_append_sglist] over the segments of the source. *)
Fixpoint append_segs (sg : uk_sglist) (ss : Z) (source : list uk_sglist_seg)
    (offset length error : Z) : option (Z * Z * uk_sglist) :=
  match source with
  | [] => Some (error, length, sg)
  | s :: source =>
      if ss_len s <=? offset then append_segs sg ss source (offset - ss_len s) length error
      else
        let seglen := Z.min (ss_len s - offset) length in
        '(error, sg, ss) ← sglist_append_range sg ss (u64 (ss_paddr s + offset)) seglen;
        if negb (error =? 0) then Some (error, length, sg)
        else if length - seglen =? 0 then Some (error, 0, sg)
        else append_segs sg ss source 0 (length - seglen) error
  end.

Definition uk_sglist_append_sglist (sg source : uk_sglist) (offset length : Z)
    : option (Z * uk_sglist) :=
  if (sg_maxseg sg =? 0) || (length =? 0) then Some (- EINVAL, sg)
  else
    save ← UK_SGLIST_SAVE sg;
    '(error, length, sg') ←
      append_segs sg (sg_nseg sg - 1) (take (Z.to_nat (sg_nseg source)) (sg_segs source))
        offset length (- EINVAL);
    let error := if negb (length =? 0) then - EINVAL else error in
    if negb (error =? 0) then sg' ← UK_SGLIST_RESTORE sg' save; Some (error, sg')
    else Some (error, sg').

(** The two lists after the call, and the return value. *)
Definition uk_sglist_join (first second : uk_sglist) : option (Z * uk_sglist * uk_sglist) :=
  if sg_nseg second =? 0 then Some (0, first, second)
  else
    sfirst ← seg_at (sg_segs second) 0;
    '(append, fsegs) ←
      (if negb (sg_nseg first =? 0) then
         flast ← seg_at (sg_segs first) (sg_nseg first - 1);
         if u64 (ss_paddr flast + ss_len flast) =? ss_paddr sfirst
         then Some (1, Some (mk_seg (ss_paddr flast) (u64 (ss_len flast + ss_len sfirst))))
         else Some (0, None)
       else Some (0, None));
    if sg_maxseg first <? sg_nseg first + sg_nseg second - append
    then Some (- EFBIG, first, second)
    else
      segs1 ← match fsegs with
              | Some s => seg_put (sg_segs first) (sg_nseg first - 1) s
              | None => Some (sg_segs first)
              end;
      (* memmove(second->sg_segs + append, first->sg_segs + first->sg_nseg, ...) *)
      moved ← memread (sg_nseg first) (sg_nseg second - append) segs1;
      segs2 ← memcpy append moved (sg_segs second);
      Some (0,
        mk_sglist segs1 (sg_refs first) (u16 (sg_nseg first + (sg_nseg second - append)))
          (sg_maxseg first),
        uk_sglist_reset (mk_sglist segs2 (sg_refs second) (sg_nseg second) (sg_maxseg second))).

(** The size of the head of a split: segment count and the bytes of the last
    one that stay behind. *)
Fixpoint split_scan (segs : list uk_sglist_seg) (length count space : Z) : Z * Z :=
  match segs with
  | [] => (count, 0)
  | s :: segs =>
      let space := u64 (space + ss_len s) in
      if length <=? space then (count + 1, space - length)
      else split_scan segs length (count + 1) space
  end.

Definition uk_sglist_alloc (nsegs : Z) : option uk_sglist :=
  segs ← malloc_segs nsegs; Some (uk_sglist_init (u16 nsegs) segs).

(** The list to fill: the caller's, which must be empty and large enough, or a
    new one. *)
Definition target_list (given : option uk_sglist) (count : Z) : Z + uk_sglist :=
  match given with
  | None => match uk_sglist_alloc count with Some sg => inr sg | None => inl (- ENOMEM) end
  | Some sg =>
      if sg_maxseg sg <? count then inl (- EFBIG)
      else if negb (sg_nseg sg =? 0) then inl (- EINVAL)
      else inr sg
  end.

(** The return value, the original and [*head]. *)
Definition uk_sglist_split (original : uk_sglist) (head : option uk_sglist) (length : Z)
    : option (Z * uk_sglist * option uk_sglist) :=
  if 1 <? sg_refs original then Some (- EINVAL, original, head)
  else
    let '(count, split) :=
      split_scan (take (Z.to_nat (sg_nseg original)) (sg_segs original)) length 0 0 in
    if count =? 0 then Some (0, original, head)
    else match target_list head count with
    | inl error => Some (error, original, head)
    | inr sg =>
      front ← memread 0 count (sg_segs original);
      hsegs ← memcpy 0 front (sg_segs sg);
      '(count', hsegs, osegs) ←
        (if negb (split =? 0) then
           s ← seg_at hsegs (count - 1);
           hsegs ← seg_put hsegs (count - 1) (mk_seg (ss_paddr s) (u64 (ss_len s - split)));
           osegs ← seg_put (sg_segs original) (count - 1)
                     (mk_seg (u64 (ss_paddr s + split)) split);
           Some (count - 1, hsegs, osegs)
         else Some (count, hsegs, sg_segs original));
      moved ← memread count' count' osegs;
      osegs ← memcpy 0 moved osegs;
      Some (0,
        mk_sglist osegs (sg_refs original) (u16 (sg_nseg original - count')) (sg_maxseg original),
        Some (mk_sglist hsegs (sg_refs sg) count (sg_maxseg sg)))
    end.

(** The loop of [uk_sglist_slice]: space, count, fseg, foffs, loffs. *)
Fixpoint slice_scan (segs : list uk_sglist_seg) (offset end_ i space count fseg foffs : Z)
    : Z * Z * Z * Z * Z :=
  match segs with
  | [] => (space, count, fseg, foffs, 0)
  | s :: segs =>
      let space := u64 (space + ss_len s) in
      if offset <? space then
        let '(fseg, foffs) :=
          if count =? 0 then (i, u64 (offset - u64 (space - ss_len s))) else (fseg, foffs) in
        if end_ <=? space then (space, count + 1, fseg, foffs, space - end_)
        else slice_scan segs offset end_ (i + 1) space (count + 1) fseg foffs
      else slice_scan segs offset end_ (i + 1) space count fseg foffs
  end.

(** The return value and [*slice]. *)
Definition uk_sglist_slice (original : uk_sglist) (slice : option uk_sglist) (offset length : Z)
    : option (Z * option uk_sglist) :=
  if length =? 0 then Some (0, slice)
  else
    let end_ := u64 (offset + length) in
    let '(space, count, fseg, foffs, loffs) :=
      slice_scan (take (Z.to_nat (sg_nseg original)) (sg_segs original)) offset end_ 0 0 0 0 0 in
    if space <? end_ then Some (- EINVAL, slice)
    else match target_list slice count with
    | inl error => Some (error, slice)
    | inr sg =>
      part ← memread fseg count (sg_segs original);
      segs ← memcpy 0 part (sg_segs sg);
      segs ← (if negb (foffs =? 0) then
                s ← seg_at segs 0;
                seg_put segs 0 (mk_seg (u64 (ss_paddr s + foffs)) (u64 (ss_len s - foffs)))
              else Some segs);
      segs ← (if negb (loffs =? 0) then
                s ← seg_at segs (count - 1);
                seg_put segs (count - 1) (mk_seg (ss_paddr s) (u64 (ss_len s - loffs)))
              else Some segs);
      Some (0, Some (mk_sglist segs (sg_refs sg) count (sg_maxseg sg)))
    end.

(** The clone has the capacity of the original and its segments in use. *)
Definition uk_sglist_clone (sg : uk_sglist) : option (option uk_sglist) :=
  match uk_sglist_alloc (sg_maxseg sg) with
  | None => Some None
  | Some new =>
      part ← memread 0 (sg_nseg sg) (sg_segs sg);
      segs ← memcpy 0 part (sg_segs new);
      Some (Some (mk_sglist segs (sg_refs new) (sg_nseg sg) (sg_maxseg new)))
  end.

(** A list just large enough for a buffer. *)
Definition uk_sglist_build (buf len : Z) : option (option uk_sglist) :=
  if len =? 0 then Some None
  else
    nsegs ← uk_sglist_count buf len;
    if nsegs <=? 0 then None
    else match uk_sglist_alloc nsegs with
    | None => Some None
    | Some sg =>
        '(error, sg) ← uk_sglist_append sg buf len;
        Some (if error =? 0 then Some sg else None)
    end.
End sglist.

(** ** The physical bytes described by a list *)

Definition seg_addrs (s : uk_sglist_seg) : list Z := seqZ (ss_paddr s) (ss_len s).

Definition cover (sg : uk_sglist) : list Z :=
  concat (map seg_addrs (take (Z.to_nat (sg_nseg sg)) (sg_segs sg))).

Definition seg_ok (s : uk_sglist_seg) : Prop :=
  0 <= ss_paddr s /\ 0 <= ss_len s /\ ss_paddr s + ss_len s < 2 ^ 63.

Definition sg_wf (sg : uk_sglist) : Prop :=
  0 <= sg_nseg sg <= sg_maxseg sg /\ sg_maxseg sg <= zlen (sg_segs sg) /\
  sg_maxseg sg < 2 ^ 16 /\ Forall seg_ok (take (Z.to_nat (sg_nseg sg)) (sg_segs sg)).

(** Address translation works page by page, into a 52-bit physical space. *)
Class PageMap (v2p : Z -> Z) : Prop := {
  pm_range v : 0 <= v2p v < 2 ^ 52;
  pm_page v : v2p v = v2p (trunc_page v) + page_off v
}.

Lemma page_off_mod x : page_off x = x mod PAGE_SIZE.
Proof.
  unfold page_off, PAGE_SIZE. change (4096 - 1) with (Z.ones 12).
  by rewrite Z.land_ones by lia.
Qed.

Lemma trunc_page_mod x : trunc_page x = x - x mod PAGE_SIZE.
Proof.
  unfold trunc_page, PAGE_SIZE. change (4096 - 1) with (Z.ones 12).
  rewrite Z.ldiff_ones_r, Z.shiftl_mul_pow2, Z.shiftr_div_pow2 by lia.
  change (2 ^ 12) with 4096. pose proof (Z.div_mod x 4096). lia.
Qed.

(** Inside one page consecutive addresses stay consecutive. *)
Lemma v2p_within `{!PageMap v2p} v n :
  page_off v + n < PAGE_SIZE -> 0 <= n -> v2p (v + n) = v2p v + n.
Proof.
  intros Hn H0. rewrite (pm_page (v2p := v2p) (v + n)), (pm_page (v2p := v2p) v), !trunc_page_mod, !page_off_mod.
  rewrite page_off_mod in Hn. unfold PAGE_SIZE in *.
  assert (Hm : (v + n) mod 4096 = v mod 4096 + n).
  { rewrite Z.add_mod, (Z.mod_small n) by (pose proof (Z.mod_pos_bound v 4096); lia).
    apply Z.mod_small. pose proof (Z.mod_pos_bound v 4096). lia. }
  rewrite Hm. replace (v + n - (v mod 4096 + n)) with (v - v mod 4096) by lia. lia.
Qed.

Lemma v2p_run `{!PageMap v2p} v n :
  0 <= n -> page_off v + n <= PAGE_SIZE -> v2p <$> seqZ v n = seqZ (v2p v) n.
Proof.
  intros Hn Hp. apply list_eq. intros i. rewrite list_lookup_fmap.
  destruct (decide (Z.of_nat i < n)).
  - rewrite !lookup_seqZ_lt by lia. cbn. f_equal. apply v2p_within; lia.
  - rewrite !lookup_seqZ_ge by lia. done.
Qed.

(** ** Appending a range *)

(** Nothing but the length of the last of the first [n] segments changes. *)
Definition extends (n : Z) (segs segs' : list uk_sglist_seg) : Prop :=
  zlen segs' = zlen segs /\
  (forall i, Z.of_nat i < n - 1 -> segs' !! i = segs !! i) /\
  (forall i, Z.of_nat i = n - 1 -> ss_paddr <$> segs' !! i = ss_paddr <$> segs !! i).

Lemma extends_refl n segs : extends n segs segs.
Proof. done. Qed.

Lemma extends_trans n segs1 segs2 segs3 :
  extends n segs1 segs2 -> extends n segs2 segs3 -> extends n segs1 segs3.
Proof.
  intros (L1 & A1 & B1) (L2 & A2 & B2). split_and!; [congruence|..]; intros i Hi.
  - rewrite A2, A1 by done. done.
  - rewrite B2, B1 by done. done.
Qed.

Lemma seg_put_Some segs i s :
  0 <= i < zlen segs -> seg_put segs i s = Some (<[Z.to_nat i := s]> segs).
Proof. intros. unfold seg_put. destruct (_ || _) eqn:Hg; [lia|done]. Qed.

Lemma seg_at_Some segs i :
  0 <= i < zlen segs -> exists s, seg_at segs i = Some s /\ segs !! Z.to_nat i = Some s.
Proof.
  intros Hi. unfold seg_at, zlen in *. destruct (Z.ltb_spec i 0); [lia|].
  destruct (lookup_lt_is_Some_2 segs (Z.to_nat i)) as [s Hs]; [lia|]. by exists s.
Qed.

Lemma cover_snoc segs refs n max s :
  0 <= n -> segs !! Z.to_nat n = Some s ->
  cover (mk_sglist segs refs (n + 1) max) =
    cover (mk_sglist segs refs n max) ++ seg_addrs s.
Proof.
  intros Hn Hs. unfold cover. cbn. replace (Z.to_nat (n + 1)) with (S (Z.to_nat n)) by lia.
  rewrite (take_S_r _ _ s) by done. rewrite map_app, concat_app. cbn. by rewrite app_nil_r.
Qed.

(** A list with segment [i] replaced or added. *)
Lemma sg_wf_put segs refs n m max i s :
  sg_wf (mk_sglist segs refs n max) -> seg_ok s -> 0 <= i -> m = Z.max n (i + 1) ->
  i <= n -> m <= max ->
  sg_wf (mk_sglist (<[Z.to_nat i := s]> segs) refs m max).
Proof.
  unfold sg_wf. cbn. intros (Hn & Hm & H16 & Hok) Hs Hi -> Hin Hmax.
  assert (Hl : zlen (<[Z.to_nat i := s]> segs) = zlen segs)
    by (unfold zlen; by rewrite length_insert).
  split_and!; try lia. apply Forall_lookup_2. intros j x Hj.
  apply lookup_take_Some in Hj as [Hj Hlt].
  destruct (decide (j = Z.to_nat i)) as [->|Hne].
  - rewrite list_lookup_insert_eq in Hj by (unfold zlen in *; lia). by simplify_eq.
  - rewrite list_lookup_insert_ne in Hj by done.
    eapply Forall_lookup_1; [exact Hok|]. apply lookup_take_Some. split; [exact Hj|lia].
Qed.

Lemma extends_put n segs i s s0 :
  0 <= i -> n - 1 <= i -> segs !! Z.to_nat i = Some s0 -> (i = n - 1 -> ss_paddr s = ss_paddr s0) ->
  extends n segs (<[Z.to_nat i := s]> segs).
Proof.
  intros Hi Hn Hs Hp. pose proof (lookup_lt_Some _ _ _ Hs). split_and!.
  - unfold zlen. by rewrite length_insert.
  - intros j Hj. apply list_lookup_insert_ne. lia.
  - intros j Hj. destruct (decide (j = Z.to_nat i)) as [->|].
    + rewrite list_lookup_insert_eq, Hs by done. cbn. f_equal. apply Hp. lia.
    + by rewrite list_lookup_insert_ne by done.
Qed.

Lemma cover_put segs refs n max s :
  0 <= n < zlen segs ->
  cover (mk_sglist (<[Z.to_nat n := s]> segs) refs (n + 1) max) =
    cover (mk_sglist segs refs n max) ++ seg_addrs s.
Proof.
  intros Hn. rewrite (cover_snoc _ _ _ _ s);
    [|lia|apply list_lookup_insert_eq; unfold zlen in *; lia].
  unfold cover. cbn. by rewrite take_insert_ge.
Qed.

Lemma sglist_append_range_spec sg paddr len :
  sg_wf sg -> 0 < sg_nseg sg -> seg_ok (mk_seg paddr len) ->
  exists rc sg', sglist_append_range sg (sg_nseg sg - 1) paddr len
      = Some (rc, sg', sg_nseg sg' - 1) /\ sg_wf sg' /\ sg_maxseg sg' = sg_maxseg sg /\
    (rc = 0 \/ rc = - EFBIG) /\
    extends (sg_nseg sg) (sg_segs sg) (sg_segs sg') /\
    sg_nseg sg <= sg_nseg sg' <= sg_nseg sg + 1 /\
    (sg_nseg sg < sg_maxseg sg -> rc = 0) /\
    (rc = 0 -> cover sg' = cover sg ++ seqZ paddr len).
Proof.
  intros Hwf H0 Hseg. pose proof Hwf as (Hn & Hm & H16 & Hok). unfold sglist_append_range.
  destruct (seg_at_Some (sg_segs sg) (sg_nseg sg - 1)) as (s & -> & Hs); [lia|]. cbn.
  assert (Hsok : seg_ok s).
  { apply (Forall_lookup_1 _ _ (Z.to_nat (sg_nseg sg - 1)) s Hok).
    rewrite lookup_take_lt by lia. exact Hs. }
  destruct sg as [segs refs n max]. cbn in *. pose proof Hsok as (? & ? & ?).
  pose proof Hseg as (? & ? & ?). cbn in *.
  rewrite (wrap_small 64 (ss_paddr s + ss_len s)) by lia.
  destruct (Z.eqb_spec (ss_paddr s + ss_len s) paddr) as [Heq|Hne].
  - rewrite (wrap_small 64 (ss_len s + len)), seg_put_Some by lia. cbn.
    exists 0, (mk_sglist (<[Z.to_nat (n - 1) := mk_seg (ss_paddr s) (ss_len s + len)]> segs)
      refs n max).
    split; [done|]. cbn. split_and!; try lia; try done; try by left.
    + eapply (sg_wf_put _ _ n); [exact Hwf|..]; [|lia..]. unfold seg_ok. cbn. lia.
    + eapply extends_put; [lia..|exact Hs|done].
    + intros _. pose proof (cover_put segs refs (n - 1) max
        (mk_seg (ss_paddr s) (ss_len s + len)) ltac:(lia)) as E1.
      pose proof (cover_snoc segs refs (n - 1) max s ltac:(lia) Hs) as E2.
      rewrite Z.sub_add in E1, E2. rewrite E1, E2, <- app_assoc. f_equal.
      unfold seg_addrs. cbn. rewrite seqZ_app, Heq by lia. done.
  - destruct (Z.eqb_spec n max) as [->|Hlt].
    { exists (- EFBIG), (mk_sglist segs refs max max). split; [done|]. cbn. split_and!; try lia; try done. }
    rewrite seg_put_Some by lia. cbn. rewrite (wrap_small 16 (n + 1)) by lia.
    replace (n - 1 + 1) with n by lia. exists 0, (mk_sglist (<[Z.to_nat n := mk_seg paddr len]> segs) refs (n + 1) max).
    split; [do 3 f_equal; cbn; lia|]. cbn. split_and!; try lia; try done; try by left.
    + eapply sg_wf_put; [exact Hwf|exact Hseg|lia..].
    + destruct (lookup_lt_is_Some_2 segs (Z.to_nat n)) as [s0 ?]; [unfold zlen in *; lia|].
      eapply extends_put; [lia..|done|lia].
    + intros _. by rewrite cover_put by lia.
Qed.

(** ** Appending a buffer *)

Section append.
Context (v2p : Z -> Z) (advise : Z -> Z -> Z) `{!PageMap v2p}.

Lemma seg_ok_v2p v n : 0 <= n <= PAGE_SIZE -> seg_ok (mk_seg (v2p v) n).
Proof.
  intros Hn. pose proof (pm_range (v2p := v2p) v). unfold seg_ok, PAGE_SIZE in *. cbn. lia.
Qed.

(** What the appending functions leave behind, whatever they return. *)
Definition appended (sg : uk_sglist) (bytes : list Z) (pages : Z) (rc : Z) (sg' : uk_sglist) : Prop :=
  sg_wf sg' /\ sg_maxseg sg' = sg_maxseg sg /\
  (rc = 0 \/ rc = - EFBIG) /\
  extends (sg_nseg sg) (sg_segs sg) (sg_segs sg') /\
  sg_nseg sg <= sg_nseg sg' <= sg_nseg sg + pages /\
  (sg_nseg sg + pages <= sg_maxseg sg -> rc = 0) /\
  (rc = 0 -> cover sg' = cover sg ++ bytes).

Lemma extends_mono n m segs segs' : m <= n -> extends n segs segs' -> extends m segs segs'.
Proof.
  intros Hm (HL & HA & HB). split_and!; [done|..]; intros i Hi; [apply HA; lia|].
  destruct (decide (Z.of_nat i = n - 1)); [by apply HB|]. by rewrite HA by lia.
Qed.

Lemma append_pages_spec fuel sg vaddr len :
  sg_wf sg -> 0 < sg_nseg sg -> 0 <= len -> (0 < len -> vaddr mod PAGE_SIZE = 0) ->
  0 <= vaddr -> vaddr + len < 2 ^ 64 -> len <= PAGE_SIZE * Z.of_nat fuel ->
  exists rc sg', append_pages v2p fuel sg (sg_nseg sg - 1) vaddr len = Some (rc, sg') /\
    appended sg (v2p <$> seqZ vaddr len) ((len + PAGE_SIZE - 1) / PAGE_SIZE) rc sg'.
Proof.
  revert sg vaddr len. induction fuel as [|fuel IH]; intros sg vaddr len Hwf H0 Hl Ha Hv Hs Hf;
    cbn [append_pages]; unfold PAGE_SIZE in *; destruct (Z.leb_spec len 0) as [Hz|Hz].
  1, 3: replace len with 0 by lia; exists 0, sg; split; [done|];
    change ((0 + 4096 - 1) / 4096) with 0;
    split_and!; [done..|by left|apply extends_refl|lia|lia|done|];
    intros _; cbn; by rewrite app_nil_r.
  { lia. }
  set (k := Z.min len 4096).
  destruct (sglist_append_range_spec sg (v2p vaddr) k) as
    (rc & sg1 & -> & Hwf1 & Hm1 & Hrc & Hx & Hn1 & Hroom & Hc1);
    [done..|apply seg_ok_v2p; unfold PAGE_SIZE; lia|]. cbn.
  assert (Hp : 1 <= (len + 4096 - 1) / 4096) by (apply Z.div_le_lower_bound; lia).
  destruct (Z.eqb_spec rc 0) as [->|Hne]; cbn.
  2: { exists rc, sg1. split; [done|]. split_and!; try done; try lia. }
  rewrite wrap_small by lia.
  destruct (IH sg1 (vaddr + k) (len - k)) as (rc & sg' & -> & Hwf' & Hm' & Hrc' & Hx' & Hn' & Hr' & Hc');
    [done|lia|lia| |lia..|].
  { intros. replace (vaddr + k) with (vaddr + 1 * 4096) by lia. rewrite Z.mod_add by lia. auto. }
  assert (Hq : (len - k + 4096 - 1) / 4096 = (len + 4096 - 1) / 4096 - 1)
    by (unfold k; Z.to_euclidean_division_equations; lia).
  exists rc, sg'. split; [done|]. rewrite Hq in *. split_and!; try done; try lia.
  - eapply extends_trans; [done|]. eapply extends_mono; [|done]. lia.
  - intros Hz'. rewrite Hc', Hc1, <- app_assoc by done. f_equal.
    assert (Hl' : seqZ vaddr len = seqZ vaddr k ++ seqZ (vaddr + k) (len - k))
      by (rewrite <- seqZ_app by lia; f_equal; lia).
    rewrite Hl', fmap_app. f_equal. symmetry. apply v2p_run; [lia|]. rewrite page_off_mod. unfold PAGE_SIZE.
    rewrite Ha by lia. lia.
Qed.
(** The pages that a buffer touches. *)
Definition pages (buf len : Z) : Z := (page_off buf + len + PAGE_SIZE - 1) / PAGE_SIZE.

Lemma sglist_append_buf_spec sg buf len :
  sg_wf sg -> 0 < sg_maxseg sg -> 0 < len -> 0 <= buf -> buf + len < 2 ^ 64 ->
  (forall a n, advise a n = 0) ->
  exists rc sg', sglist_append_buf v2p advise sg buf len = Some (rc, sg') /\
    appended sg (v2p <$> seqZ buf len) (pages buf len) rc sg'.
Proof.
  intros Hwf Hmax Hl Hb Hs Hadv. unfold sglist_append_buf.
  destruct (Z.eqb_spec len 0); [lia|]. rewrite Hadv. cbn -[Z.min].
  pose proof Hwf as (Hn & Hm & H16 & Hok).
  assert (Ho : 0 <= page_off buf < PAGE_SIZE)
    by (rewrite page_off_mod; apply Z.mod_pos_bound; done).
  set (o := page_off buf) in *. unfold pages. fold o. unfold PAGE_SIZE in *.
  set (k := Z.min len (4096 - o)).
  (* the first page *)
  assert (exists rc sg1,
    (if sg_nseg sg =? 0 then
       segs ← seg_put (sg_segs sg) 0 (mk_seg (v2p buf) k);
       Some (0, mk_sglist segs (sg_refs sg) 1 (sg_maxseg sg), 0)
     else sglist_append_range sg (sg_nseg sg - 1) (v2p buf) k) = Some (rc, sg1, sg_nseg sg1 - 1) /\
    0 < sg_nseg sg1 /\ appended sg (v2p <$> seqZ buf k) 1 rc sg1) as
    (rc & sg1 & -> & H1 & Hwf1 & Hm1 & Hrc & Hx & Hn1 & Hroom & Hc1).
  { rewrite v2p_run by (fold o; unfold PAGE_SIZE; lia).
    assert (Hok1 : seg_ok (mk_seg (v2p buf) k)) by (apply seg_ok_v2p; unfold PAGE_SIZE; lia).
    destruct (Z.eqb_spec (sg_nseg sg) 0) as [Hz|Hz].
    - destruct sg as [segs refs m max]. cbn in *. subst m. rewrite seg_put_Some by lia. cbn.
      eexists 0, (mk_sglist _ refs 1 max). split; [done|]. split; [done|].
      split_and!; cbn; try done; try lia; try by left.
      + eapply (sg_wf_put _ _ 0 _ _ 0); [exact Hwf|done|lia..].
      + destruct (lookup_lt_is_Some_2 segs 0) as [s0 ?]; [unfold zlen in *; lia|].
        eapply (extends_put _ _ 0); [lia..|done|lia].
      + intros _. exact (cover_put segs refs 0 max _ ltac:(lia)).
    - destruct (sglist_append_range_spec sg (v2p buf) k) as
        (rc & sg1 & -> & ? & ? & ? & ? & ? & ? & ?); [done|lia|done|].
      exists rc, sg1. split; [done|]. split; [lia|]. split_and!; try done; lia. }
  cbn. assert (Hp : 1 <= (o + len + 4096 - 1) / 4096) by (apply Z.div_le_lower_bound; lia).
  destruct (Z.eqb_spec rc 0) as [->|Hne]; cbn.
  2: { exists rc, sg1. split; [done|]. split_and!; try done; lia. }
  rewrite wrap_small by lia.
  destruct (append_pages_spec (pages_fuel len) sg1 (buf + k) (len - k)) as
    (rc & sg' & -> & Hwf' & Hm' & Hrc' & Hx' & Hn' & Hr' & Hc'); [done|lia|lia| |lia..| |].
  { intros Hk. replace (buf + k) with (buf - o + 1 * PAGE_SIZE) by (unfold PAGE_SIZE; lia).
    rewrite Z.mod_add by done. unfold o. rewrite page_off_mod.
    unfold PAGE_SIZE. Z.to_euclidean_division_equations. lia. }
  { unfold pages_fuel, PAGE_SIZE. Z.to_euclidean_division_equations. lia. }
  assert (Hq : (len - k + PAGE_SIZE - 1) / PAGE_SIZE <= (o + len + 4096 - 1) / 4096 - 1)
    by (unfold k, PAGE_SIZE; Z.to_euclidean_division_equations; lia).
  exists rc, sg'. split; [done|]. split_and!; try done; try lia.
  - eapply extends_trans; [done|]. eapply extends_mono; [|done]. lia.
  - intros Hz'. rewrite Hc', Hc1, <- app_assoc by done. f_equal. rewrite <- fmap_app. f_equal.
    rewrite <- seqZ_app by lia. f_equal. lia.
Qed.
(** Undoing an append. *)
Lemma restore_spec sg sv segs' refs' n' :
  sg_wf sg -> UK_SGLIST_SAVE sg = Some sv ->
  extends (sg_nseg sg) (sg_segs sg) segs' ->
  exists segs, UK_SGLIST_RESTORE (mk_sglist segs' refs' n' (sg_maxseg sg)) sv
      = Some (mk_sglist segs refs' (sg_nseg sg) (sg_maxseg sg)) /\
    zlen segs = zlen (sg_segs sg) /\
    take (Z.to_nat (sg_nseg sg)) segs = take (Z.to_nat (sg_nseg sg)) (sg_segs sg).
Proof.
  intros (Hn & Hm & H16 & Hok) Hsv (HL & HA & HB). unfold UK_SGLIST_SAVE in Hsv.
  unfold UK_SGLIST_RESTORE. destruct (Z.ltb_spec 0 (sg_nseg sg)) as [H0|H0].
  - destruct (seg_at_Some (sg_segs sg) (sg_nseg sg - 1)) as (s & Hs & Hs'); [lia|].
    rewrite Hs in Hsv. cbn in Hsv. simplify_eq. cbn.
    destruct (Z.ltb_spec 0 (sg_nseg sg)); [|lia].
    destruct (seg_at_Some segs' (sg_nseg sg - 1)) as (t & -> & Ht); [lia|]. cbn.
    rewrite seg_put_Some by lia. cbn. eexists. split; [done|].
    split; [unfold zlen in *; by rewrite length_insert|].
    specialize (HB (Z.to_nat (sg_nseg sg - 1)) ltac:(lia)). rewrite Hs', Ht in HB. cbn in HB.
    apply list_eq. intros i. destruct (decide (Z.of_nat i < sg_nseg sg)).
    2: { rewrite !lookup_take_ge by lia. done. }
    rewrite !lookup_take_lt by lia.
    destruct (decide (i = Z.to_nat (sg_nseg sg - 1))) as [->|].
    + rewrite list_lookup_insert_eq, Hs' by (unfold zlen in *; lia). destruct s. cbn in *. congruence.
    + rewrite list_lookup_insert_ne by lia. apply HA. lia.
  - simplify_eq. cbn. destruct (Z.ltb_spec 0 (sg_nseg sg)); [lia|].
    eexists. split; [done|]. split; [done|].
    replace (Z.to_nat (sg_nseg sg)) with 0%nat by lia. done.
Qed.

Lemma save_Some sg : sg_wf sg -> exists sv, UK_SGLIST_SAVE sg = Some sv.
Proof.
  intros (Hn & Hm & _). unfold UK_SGLIST_SAVE. destruct (Z.ltb_spec 0 (sg_nseg sg)); [|eauto].
  destruct (seg_at_Some (sg_segs sg) (sg_nseg sg - 1)) as (s & -> & _); [lia|]. cbn. eauto.
Qed.

Lemma uk_sglist_append_spec sg buf len :
  sg_wf sg -> 0 < sg_maxseg sg -> 0 < len -> 0 <= buf -> buf + len < 2 ^ 64 ->
  (forall a n, advise a n = 0) ->
  exists rc sg', uk_sglist_append v2p advise sg buf len = Some (rc, sg') /\
    sg_wf sg' /\ sg_maxseg sg' = sg_maxseg sg /\ zlen (sg_segs sg') = zlen (sg_segs sg) /\
    (sg_nseg sg + pages buf len <= sg_maxseg sg -> rc = 0) /\
    ((rc = 0 /\ cover sg' = cover sg ++ (v2p <$> seqZ buf len) /\
        sg_nseg sg <= sg_nseg sg' <= sg_nseg sg + pages buf len) \/
     (rc = - EFBIG /\ cover sg' = cover sg /\ sg_nseg sg' = sg_nseg sg)).
Proof.
  intros Hwf Hmax Hl Hb Hs Hadv. unfold uk_sglist_append.
  destruct (Z.eqb_spec (sg_maxseg sg) 0); [lia|].
  destruct (save_Some sg Hwf) as [sv Hsv]. rewrite Hsv. cbn.
  destruct (sglist_append_buf_spec sg buf len) as
    (rc & sg' & Heq & Hwf' & Hm' & Hrc & Hx & Hn & Hroom & Hc); [done..|].
  rewrite Heq. cbn. destruct (Z.eqb_spec rc 0) as [->|Hne]; cbn.
  - exists 0, sg'. destruct Hx as (? & _). split_and!; try done. left. auto.
  - destruct sg' as [segs' refs' n' max']. cbn in *. subst.
    destruct (restore_spec sg sv segs' refs' n') as (segs & -> & HL & HT); [done..|]. cbn.
    exists rc, (mk_sglist segs refs' (sg_nseg sg) (sg_maxseg sg)).
    split; [done|]. destruct Hwf as (? & ? & ? & ?). split_and!; try done.
    + unfold sg_wf. cbn. split_and!; try lia. by rewrite HT.
    + right. split_and!; [naive_solver| |done]. unfold cover. cbn. by rewrite HT.
Qed.
(** ** The number of segments *)

(** Where the last segment in use ends. *)
Definition last_end (sg : uk_sglist) : option Z :=
  s ← seg_at (sg_segs sg) (sg_nseg sg - 1); Some (ss_paddr s + ss_len s).

Lemma append_range_nseg sg paddr len e :
  sg_wf sg -> 0 < sg_nseg sg -> seg_ok (mk_seg paddr len) -> last_end sg = Some e ->
  (if e =? paddr then sg_nseg sg else sg_nseg sg + 1) <= sg_maxseg sg ->
  exists sg', sglist_append_range sg (sg_nseg sg - 1) paddr len
      = Some (0, sg', sg_nseg sg' - 1) /\ sg_wf sg' /\ sg_maxseg sg' = sg_maxseg sg /\
    sg_nseg sg' = (if e =? paddr then sg_nseg sg else sg_nseg sg + 1) /\
    last_end sg' = Some (paddr + len).
Proof.
  intros Hwf H0 Hseg He Hroom. pose proof Hwf as (Hn & Hm & H16 & Hok).
  destruct (sglist_append_range_spec sg paddr len) as
    (rc & sg1 & Heq & Hwf1 & Hm1 & _ & (HL & _) & _); [done..|].
  pose proof Heq as Heq'. unfold last_end in He. unfold sglist_append_range in Heq'.
  destruct (seg_at_Some (sg_segs sg) (sg_nseg sg - 1)) as (s & Hs & Hs'); [lia|].
  rewrite Hs in He, Heq'. cbn in He, Heq'. simplify_eq.
  assert (Hsok : seg_ok s).
  { apply (Forall_lookup_1 _ _ (Z.to_nat (sg_nseg sg - 1)) s Hok).
    rewrite lookup_take_lt by lia. exact Hs'. }
  destruct Hsok as (? & ? & ?). pose proof Hseg as (? & ? & ?). cbn [ss_paddr ss_len] in *.
  rewrite (wrap_small 64 (ss_paddr s + ss_len s)) in Heq' by lia.
  unfold last_end, seg_at.
  destruct (Z.eqb_spec (ss_paddr s + ss_len s) paddr) as [Hc|Hc].
  - rewrite seg_put_Some in Heq' by lia. cbn in Heq'.
    injection Heq' as Hrc Hsg _. rewrite <- Hrc in Heq. exists sg1. split; [exact Heq|].
    subst sg1. cbn in *. split_and!; try done.
    destruct (Z.ltb_spec (sg_nseg sg - 1) 0); [lia|].
    rewrite list_lookup_insert_eq by (unfold zlen in *; lia). cbn.
    rewrite wrap_small by lia. f_equal. lia.
  - destruct (Z.eqb_spec (sg_nseg sg) (sg_maxseg sg)); [lia|].
    rewrite seg_put_Some, (wrap_small 16) in Heq' by lia. cbn in Heq'.
    injection Heq' as Hrc Hsg _. rewrite <- Hrc in Heq. exists sg1. split; [exact Heq|].
    subst sg1. cbn in *. split_and!; try done.
    destruct (Z.ltb_spec (sg_nseg sg + 1 - 1) 0); [lia|].
    replace (sg_nseg sg + 1 - 1) with (sg_nseg sg - 1 + 1) by lia.
    rewrite list_lookup_insert_eq by (unfold zlen in *; lia). done.
Qed.

Lemma count_pages_mono fuel vaddr vend lastaddr n c :
  count_pages v2p fuel vaddr vend lastaddr n = Some c -> n <= c.
Proof.
  revert vaddr lastaddr n. induction fuel as [|fuel IH]; intros vaddr lastaddr n; cbn;
    (case_match; [|intros; simplify_eq; lia]); [done|].
  intros Hc%IH. case_match; lia.
Qed.

(** Both loops walk the pages in step. *)
Lemma append_pages_count fuel fuel' sg vaddr len lastaddr c :
  sg_wf sg -> 0 < sg_nseg sg -> 0 <= len -> (0 < len -> vaddr mod PAGE_SIZE = 0) ->
  0 <= vaddr -> vaddr + len + PAGE_SIZE < 2 ^ 64 -> len <= PAGE_SIZE * Z.of_nat fuel ->
  0 <= lastaddr < 2 ^ 52 -> (0 < len -> last_end sg = Some (lastaddr + PAGE_SIZE)) ->
  count_pages v2p fuel' vaddr (vaddr + len) lastaddr (sg_nseg sg) = Some c ->
  c <= sg_maxseg sg ->
  exists sg', append_pages v2p fuel sg (sg_nseg sg - 1) vaddr len = Some (0, sg') /\
    sg_nseg sg' = c.
Proof.
  revert fuel' sg vaddr len lastaddr.
  induction fuel as [|fuel IH]; intros fuel' sg vaddr len lastaddr Hwf H0 Hl Ha Hv Hs Hf Hla He Hcnt Hc;
    cbn [append_pages]; unfold PAGE_SIZE in *; destruct (Z.leb_spec len 0) as [Hz|Hz].
  1, 3: exists sg; split; [done|]; destruct fuel'; cbn in Hcnt;
    (case_match; [lia|]); by simplify_eq.
  { lia. }
  destruct fuel' as [|fuel']; cbn [count_pages] in Hcnt; (case_match; [|lia]); [done|].
  set (k := Z.min len 4096). pose proof (pm_range (v2p := v2p) vaddr) as Hr.
  unfold PAGE_SIZE in Hcnt. rewrite (wrap_small 64 (vaddr + 4096)) in Hcnt by lia.
  rewrite (wrap_small 64 (lastaddr + 4096)) in Hcnt by lia.
  pose proof (count_pages_mono _ _ _ _ _ _ Hcnt) as Hmono.
  destruct (append_range_nseg sg (v2p vaddr) k (lastaddr + 4096)) as
    (sg1 & -> & Hwf1 & Hm1 & Hn1 & He1);
    [done..|apply seg_ok_v2p; unfold PAGE_SIZE; lia|by apply He|revert Hmono; repeat case_match; lia|].
  cbn. rewrite wrap_small by lia.
  assert (H1 : 0 < sg_nseg sg1) by (rewrite Hn1; case_match; lia).
  destruct (decide (len <= 4096)) as [Hle|Hgt].
  - replace (len - k) with 0 by lia. exists sg1. split; [by destruct fuel|].
    destruct fuel'; cbn [count_pages] in Hcnt;
      (destruct (Z.ltb_spec (vaddr + 4096) (vaddr + len)); [lia|]); injection Hcnt as <-;
      rewrite Hn1; by destruct (_ =? _).
  - replace k with 4096 by lia.
    destruct (IH fuel' sg1 (vaddr + 4096) (len - 4096) (v2p vaddr)) as (sg' & ? & ?);
      [done|lia|lia| |lia|lia|lia|lia| | |lia|by exists sg'].
    + intros. replace (vaddr + 4096) with (vaddr + 1 * 4096) by lia.
      rewrite Z.mod_add by lia. auto.
    + intros _. rewrite He1. f_equal. lia.
    + replace (vaddr + 4096 + (len - 4096)) with (vaddr + len) by lia.
      rewrite Hn1, <- Hcnt. f_equal. by destruct (_ =? _).
Qed.
Lemma count_pages_Some fuel vaddr vend lastaddr n :
  0 <= vaddr -> vend + PAGE_SIZE < 2 ^ 64 -> vend - vaddr <= PAGE_SIZE * Z.of_nat fuel ->
  exists c, count_pages v2p fuel vaddr vend lastaddr n = Some c /\ n <= c <= n + Z.of_nat fuel.
Proof.
  unfold PAGE_SIZE. revert vaddr lastaddr n.
  induction fuel as [|fuel IH]; intros vaddr lastaddr n H0 He Hf; cbn [count_pages];
    (destruct (Z.ltb_spec vaddr vend); [|exists n; split; [done|lia]]); [lia|].
  unfold PAGE_SIZE. rewrite (wrap_small 64 (vaddr + 4096)) by lia.
  destruct (IH (vaddr + 4096) (v2p vaddr)
    (if negb (u64 (lastaddr + 4096) =? v2p vaddr) then n + 1 else n)) as (c & Hc & Hb); [lia..|].
  exists c. split; [exact Hc|]. revert Hb. case_match; lia.
Qed.

Lemma uk_sglist_count_Some buf len :
  0 < len -> 0 <= buf -> buf + len + 2 * PAGE_SIZE < 2 ^ 64 ->
  exists c, uk_sglist_count v2p buf len = Some c /\ 1 <= c <= len / PAGE_SIZE + 2.
Proof.
  intros Hl Hb Hs. unfold uk_sglist_count. destruct (Z.eqb_spec len 0); [lia|].
  unfold PAGE_SIZE in *. pose proof (Z.mod_pos_bound buf 4096 ltac:(lia)).
  rewrite trunc_page_mod. unfold PAGE_SIZE. pose proof (Z.mod_le buf 4096 ltac:(lia) ltac:(lia)).
  rewrite !wrap_small by lia.
  destruct (count_pages_Some (pages_fuel len) (buf - buf mod 4096 + 4096) (buf + len)
    (v2p (buf - buf mod 4096)) 1) as (c & -> & Hc); unfold pages_fuel, PAGE_SIZE in *;
    [lia..| |exists c; split; [done|]]; Z.to_euclidean_division_equations; lia.
Qed.

(** The append of a buffer to an empty list with room for the counted number
    of segments uses exactly that number. *)
Lemma append_count sg buf len c :
  sg_wf sg -> sg_nseg sg = 0 -> 0 < len -> 0 <= buf -> buf + len + 2 * PAGE_SIZE < 2 ^ 64 ->
  (forall a n, advise a n = 0) -> uk_sglist_count v2p buf len = Some c -> c <= sg_maxseg sg ->
  exists sg', sglist_append_buf v2p advise sg buf len = Some (0, sg') /\ sg_nseg sg' = c.
Proof.
  intros Hwf H0 Hl Hb Hs Hadv Hcnt Hc. pose proof Hwf as (Hn & Hm & H16 & Hok).
  unfold uk_sglist_count, sglist_append_buf in *. destruct (Z.eqb_spec len 0); [lia|].
  rewrite Hadv. cbn [negb Z.eqb]. rewrite H0. cbn [Z.eqb].
  pose proof (pm_page (v2p := v2p) buf) as Hpg. pose proof (pm_range (v2p := v2p) (trunc_page buf)) as Hr.
  rewrite trunc_page_mod in *. rewrite page_off_mod in *. unfold PAGE_SIZE in *.
  pose proof (Z.mod_pos_bound buf 4096 ltac:(lia)). pose proof (Z.mod_le buf 4096 ltac:(lia) ltac:(lia)).
  set (o := buf mod 4096) in *. set (k := Z.min len (4096 - o)).
  rewrite !wrap_small in Hcnt by lia. pose proof (count_pages_mono _ _ _ _ _ _ Hcnt).
  rewrite seg_put_Some by lia. cbn. rewrite wrap_small by lia.
  set (sg1 := mk_sglist _ _ 1 _).
  assert (Hwf1 : sg_wf sg1).
  { apply (sg_wf_put _ _ 0 _ _ 0); [|apply seg_ok_v2p; unfold PAGE_SIZE; lia|lia..].
    by rewrite <- H0; destruct sg. }
  destruct (append_pages_count (pages_fuel len) (pages_fuel len) sg1 (buf + k) (len - k)
    (v2p (buf - o)) c) as (sg' & Heq & ?); try done; try lia; [..|by exists sg'].
  - intros. replace (buf + k) with (buf - o + 1 * 4096) by lia. unfold PAGE_SIZE.
    rewrite Z.mod_add by lia. unfold o. Z.to_euclidean_division_equations. lia.
  - unfold PAGE_SIZE. lia.
  - unfold pages_fuel, PAGE_SIZE. Z.to_euclidean_division_equations. lia.
  - intros. unfold last_end, sg1, seg_at. cbn. change (1 - 1 <? 0) with false. cbv iota.
    rewrite list_lookup_insert_eq by (unfold zlen in *; lia). cbn. f_equal. unfold PAGE_SIZE. lia.
  - cbn. replace (buf + k + (len - k)) with (buf + len) by lia.
    destruct (decide (k < len)).
    + replace (buf + k) with (buf - o + 4096) by lia. exact Hcnt.
    + destruct (pages_fuel len); cbn [count_pages] in *.
      all: destruct (Z.ltb_spec (buf - o + 4096) (buf + len)); [lia|].
      all: destruct (Z.ltb_spec (buf + k) (buf + len)); [lia|done].
Qed.
(** Appending a buffer to a scatter/gather list is exact and atomic: on
    success the list describes, in order, precisely the physical addresses of
    the bytes it described before followed by those of the buffer; if the
    segments run out (-EFBIG) it describes what it did before.  It succeeds
    whenever one free segment per touched page is left. *)
Theorem sglist_append_exact sg buf len :
  sg_wf sg -> 0 < sg_maxseg sg -> 0 < len -> 0 <= buf -> buf + len < 2 ^ 64 ->
  (forall a n, advise a n = 0) ->
  exists rc sg', uk_sglist_append v2p advise sg buf len = Some (rc, sg') /\ sg_wf sg' /\
    (sg_nseg sg + pages buf len <= sg_maxseg sg -> rc = 0) /\
    ((rc = 0 /\ cover sg' = cover sg ++ (v2p <$> seqZ buf len)) \/
     (rc = - EFBIG /\ cover sg' = cover sg)).
Proof.
  intros Hwf Hm Hl Hb Hs Hadv.
  destruct (uk_sglist_append_spec sg buf len) as (rc & sg' & H1 & H2 & _ & _ & H3 & H4); [done..|].
  exists rc, sg'. split_and!; [done..|]. naive_solver.
Qed.

(** [uk_sglist_build] sizes its list exactly: with a successful allocation
    it never fails, the list has as many segments as [uk_sglist_count]
    computed, none of them spare, and they describe exactly the physical bytes
    of the buffer. *)
Theorem sglist_build_exact malloc_segs buf len :
  0 < len < 2 ^ 27 -> 0 <= buf -> buf + len + 2 * PAGE_SIZE < 2 ^ 64 ->
  (forall a n, advise a n = 0) ->
  (forall n, exists segs, malloc_segs n = Some segs /\ n <= zlen segs) ->
  exists c sg, uk_sglist_count v2p buf len = Some c /\
    uk_sglist_build v2p advise malloc_segs buf len = Some (Some sg) /\
    sg_nseg sg = c /\ sg_maxseg sg = c /\ cover sg = v2p <$> seqZ buf len.
Proof.
  intros Hl Hb Hs Hadv Hmem.
  destruct (uk_sglist_count_Some buf len) as (c & Hc & Hcr); [lia..|].
  destruct (Hmem c) as (segs & Hsegs & Hlen). exists c. unfold uk_sglist_build. rewrite Hc. cbn.
  destruct (Z.eqb_spec len 0); [lia|]. destruct (Z.leb_spec c 0); [lia|].
  unfold uk_sglist_alloc. rewrite Hsegs. cbn. unfold uk_sglist_init.
  assert (c < 2 ^ 16).
  { assert (len / PAGE_SIZE < 2 ^ 15) by (apply Z.div_lt_upper_bound; unfold PAGE_SIZE; lia). lia. }
  rewrite (wrap_small 16 c) by lia. set (sg0 := mk_sglist segs 1 0 c).
  assert (Hwf : sg_wf sg0) by (unfold sg_wf; cbn; split_and!; try lia; constructor).
  destruct (append_count sg0 buf len c) as (sg & Happ & Hn); [done|done|lia..|done|done|cbn; lia|].
  destruct (uk_sglist_append_spec sg0 buf len) as (rc & sg' & H1 & _ & H2 & _ & _ & H3);
    [done|cbn; lia|lia|lia|unfold PAGE_SIZE in *; lia|done|].
  unfold uk_sglist_append in *. cbn in H1 |- *. rewrite Happ in *.
  destruct (Z.eqb_spec c 0); [lia|]. cbn in H1 |- *. simplify_eq.
  exists sg'. split_and!; try done. destruct H3 as [(_ & ? & _)|(? & _)]; done.
Qed.
End append.

Definition linear_map (v : Z) : Z := v mod 2 ^ 52.

#[export] Instance linear_map_page : PageMap linear_map.
Proof.
  split; intros v; unfold linear_map; [apply Z.mod_pos_bound; lia|].
  rewrite trunc_page_mod, page_off_mod. unfold PAGE_SIZE.
  Z.to_euclidean_division_equations. lia.
Qed.

Lemma sglist_append_exact_witness :
  exists rc sg', uk_sglist_append linear_map (fun _ _ => 0)
      (uk_sglist_init 3 (repeat (mk_seg 0 0) 3)) 8000 5000 = Some (rc, sg') /\ sg_wf sg' /\
    (0 + pages 8000 5000 <= 3 -> rc = 0) /\
    ((rc = 0 /\ cover sg' = [] ++ (linear_map <$> seqZ 8000 5000)) \/
     (rc = - EFBIG /\ cover sg' = [])).
Proof.
  apply (sglist_append_exact linear_map (fun _ _ => 0)
    (uk_sglist_init 3 (repeat (mk_seg 0 0) 3)) 8000 5000); try done.
Defined.

Lemma sglist_build_exact_witness :
  exists c sg, uk_sglist_count linear_map 8000 5000 = Some c /\
    uk_sglist_build linear_map (fun _ _ => 0) (fun n => Some (repeat (mk_seg 0 0) (Z.to_nat n)))
      8000 5000 = Some (Some sg) /\
    sg_nseg sg = c /\ sg_maxseg sg = c /\ cover sg = linear_map <$> seqZ 8000 5000.
Proof.
  apply sglist_build_exact; try done; try (exact linear_map_page).
  intros n. eexists. split; [done|]. unfold zlen. rewrite repeat_length. lia.
Defined.
