(* ===== verification/Vring.v ===== *)
(** * Split virtqueues (drivers/virtio/ring)

    [struct virtqueue_vring] of drivers/virtio/ring/virtio_ring.c with the
    rings of include/virtio/virtio_ring.h.  The descriptor table, the available
    ring and the used ring are lists; an index out of range is [None], as is a
    failed assertion.  Cookies, the drivers' pointers to their buffers, are
    identifiers.  The device is the other party: the functions that race with
    it take what it does in between as an argument, and a transition system of
    driver and device shows that every buffer handed over is returned exactly
    once. *)

From stdpp Require Import prelude gmap.
From S2P Require Import Prelude Sglist.

(** ** Data *)

Definition VRING_DESC_F_NEXT : Z := 1.
Definition VRING_DESC_F_WRITE : Z := 2.
Definition VRING_USED_F_NO_NOTIFY : Z := 1.
Definition VRING_AVAIL_F_NO_INTERRUPT : Z := 1.
Definition VIRTQUEUE_MAX_SIZE : Z := 32768.

Record vring_desc : Type := mk_desc {
  d_addr : Z;
  d_len : Z;
  d_flags : Z;
  d_next : Z
}.

Record virtqueue_desc_info : Type := mk_info {
  cookie : option positive;
  desc_count : Z
}.

(** The two event fields are the slots behind the rings. *)
Record vring : Type := mk_vring {
  num : Z;
  desc : list vring_desc;
  avail_flags : Z;
  avail_idx : Z;
  avail_ring : list Z;
  used_event : Z;
  used_flags : Z;
  used_idx : Z;
  used_ring : list (Z * Z);
  avail_event : Z
}.

(** [notified] counts the calls of [vq_notify_host]. *)
Record virtqueue : Type := mk_vq {
  vr : vring;
  desc_avail : Z;
  head_free_desc : Z;
  last_used_desc_idx : Z;
  uses_event_idx : bool;
  last_notified_idx : Z;
  vq_info : list virtqueue_desc_info;
  notified : Z
}.

Definition set_vring (q : virtqueue) (v : vring) : virtqueue :=
  mk_vq v (desc_avail q) (head_free_desc q) (last_used_desc_idx q) (uses_event_idx q)
    (last_notified_idx q) (vq_info q) (notified q).
Definition set_avail_flags (v : vring) (f : Z) : vring :=
  mk_vring (num v) (desc v) f (avail_idx v) (avail_ring v) (used_event v) (used_flags v)
    (used_idx v) (used_ring v) (avail_event v).
Definition set_used_event (v : vring) (e : Z) : vring :=
  mk_vring (num v) (desc v) (avail_flags v) (avail_idx v) (avail_ring v) e (used_flags v)
    (used_idx v) (used_ring v) (avail_event v).
Definition set_avail (v : vring) (idx : Z) (ring : list Z) : vring :=
  mk_vring (num v) (desc v) (avail_flags v) idx ring (used_event v) (used_flags v)
    (used_idx v) (used_ring v) (avail_event v).
Definition set_used (v : vring) (idx : Z) (ring : list (Z * Z)) : vring :=
  mk_vring (num v) (desc v) (avail_flags v) (avail_idx v) (avail_ring v) (used_event v)
    (used_flags v) idx ring (avail_event v).
Definition set_desc (v : vring) (d : list vring_desc) : vring :=
  mk_vring (num v) d (avail_flags v) (avail_idx v) (avail_ring v) (used_event v)
    (used_flags v) (used_idx v) (used_ring v) (avail_event v).

(** Array access by an unsigned index. *)
Definition zget {A} (l : list A) (i : Z) : option A := l !! Z.to_nat i.
Definition zput {A} (l : list A) (i : Z) (x : A) : option (list A) :=
  if zlen l <=? i then None else Some (<[Z.to_nat i := x]> l).

(** ** Layout *)

Definition sizeof_desc : Z := 16.
Definition sizeof_used_elem : Z := 8.
Definition sizeof_avail_hdr : Z := 4.
Definition sizeof_used_hdr : Z := 4.

(** The offsets of the rings from the start of the memory [p]. *)
Definition vring_avail_off (n : Z) : Z := n * sizeof_desc.
Definition vring_used_addr (p n align : Z) : Z :=
  Z.ldiff (p + vring_avail_off n + sizeof_avail_hdr + n * 2 + 2 + align - 1) (align - 1).

Definition vring_size (n align : Z) : Z :=
  let size := n * sizeof_desc in
  let size := size + (sizeof_avail_hdr + n * 2 + 2) in
  let size := Z.ldiff (size + align - 1) (align - 1) in
  size + (sizeof_used_hdr + n * sizeof_used_elem + 2).

(** Has the event index been passed between the old and the new index? *)
Definition vring_need_event (event_idx new_idx old_idx : Z) : bool :=
  u16 (new_idx - event_idx - 1) <? u16 (new_idx - old_idx).

(** ** Interrupt suppression and notification *)

Definition virtqueue_hasdata (q : virtqueue) : bool :=
  negb (last_used_desc_idx q =? used_idx (vr q)).

Definition virtqueue_intr_disable (q : virtqueue) : virtqueue :=
  if uses_event_idx q
  then set_vring q (set_used_event (vr q) (u16 (last_used_desc_idx q - num (vr q) - 1)))
  else set_vring q (set_avail_flags (vr q) (Z.lor (avail_flags (vr q)) VRING_AVAIL_F_NO_INTERRUPT)).

(** [device] is what the device does to the shared rings between the store
    that enables interrupts and the second check for data. *)
Definition virtqueue_intr_enable (device : vring -> vring) (q : virtqueue) : Z * virtqueue :=
  if negb (virtqueue_hasdata q) then
    let q := if uses_event_idx q
             then set_vring q (set_used_event (vr q) (u16 (last_used_desc_idx q + 0)))
             else set_vring q (set_avail_flags (vr q)
                    (Z.ldiff (avail_flags (vr q)) VRING_AVAIL_F_NO_INTERRUPT)) in
    let q := set_vring q (device (vr q)) in
    if virtqueue_hasdata q then (1, virtqueue_intr_disable q) else (0, q)
  else (1, q).

Definition virtqueue_notify_enabled (q : virtqueue) : bool :=
  if uses_event_idx q
  then vring_need_event (avail_event (vr q)) (avail_idx (vr q)) (last_notified_idx q)
  else Z.land (used_flags (vr q)) VRING_USED_F_NO_NOTIFY =? 0.

Definition virtqueue_host_notify (q : virtqueue) : virtqueue :=
  if virtqueue_notify_enabled q
  then mk_vq (vr q) (desc_avail q) (head_free_desc q) (last_used_desc_idx q) (uses_event_idx q)
         (avail_idx (vr q)) (vq_info q) (notified q + 1)
  else q.

Definition virtqueue_is_full (q : virtqueue) : bool := desc_avail q =? 0.
Definition virtqueue_vring_get_num (q : virtqueue) : Z := num (vr q).

(** ** Enqueueing *)

Definition virtqueue_ring_update_avail (v : vring) (idx : Z) : option vring :=
  ring ← zput (avail_ring v) (Z.land (avail_idx v) (num v - 1)) idx;
  Some (set_avail v (u16 (avail_idx v + 1)) ring).

(** The loop from segment [i] on: fills descriptor [idx] and follows its next
    link.  The table and the index behind the last one used. *)
Fixpoint enqueue_segs (tbl : list vring_desc) (segs : list uk_sglist_seg)
    (idx i read_bufs total : Z) : option (list vring_desc * Z) :=
  match segs with
  | [] => Some (tbl, idx)
  | s :: segs =>
      d ← zget tbl idx;
      let flags := 0 in
      let flags := if read_bufs <=? i then Z.lor flags VRING_DESC_F_WRITE else flags in
      let flags := if i <? total - 1 then Z.lor flags VRING_DESC_F_NEXT else flags in
      tbl ← zput tbl idx (mk_desc (ss_paddr s) (u32 (ss_len s)) flags (d_next d));
      enqueue_segs tbl segs (d_next d) (i + 1) read_bufs total
  end.

(** Reads [read_bufs + write_bufs] segments of the list. *)
Definition virtqueue_buffer_enqueue_segments (v : vring) (head : Z) (sg : uk_sglist)
    (read_bufs write_bufs : Z) : option (vring * Z) :=
  let total := read_bufs + write_bufs in
  segs ← memread 0 total (sg_segs sg);
  '(tbl, idx) ← enqueue_segs (desc v) segs head 0 read_bufs total;
  Some (set_desc v tbl, idx).

Definition virtqueue_buffer_enqueue (q : virtqueue) (ck : positive) (sg : uk_sglist)
    (read_bufs write_bufs : Z) : option (Z * virtqueue) :=
  let total := read_bufs + write_bufs in
  if (total <? 1) || (num (vr q) <? total) then Some (- EINVAL, q)
  else if desc_avail q <? total then Some (- ENOSPC, q)
  else
    let head := head_free_desc q in
    info ← zput (vq_info q) head (mk_info (Some ck) (u16 total));
    '(v, idx) ← virtqueue_buffer_enqueue_segments (vr q) head sg read_bufs write_bufs;
    v ← virtqueue_ring_update_avail v head;
    let avail := u16 (desc_avail q - total) in
    Some (avail, mk_vq v avail (u16 idx) (last_used_desc_idx q) (uses_event_idx q)
                   (last_notified_idx q) info (notified q)).

(** ** Dequeueing *)

(** Walks to the end of a chain: the last index and the count left. *)
Fixpoint detach_walk (fuel : nat) (tbl : list vring_desc) (idx count : Z) : option (Z * Z) :=
  d ← zget tbl idx;
  if flag_set (d_flags d) VRING_DESC_F_NEXT then
    match fuel with
    | O => None
    | S fuel => detach_walk fuel tbl (d_next d) (u16 (count - 1))
    end
  else Some (idx, count).

Definition virtqueue_detach_desc (q : virtqueue) (head_idx : Z) : option virtqueue :=
  info ← zget (vq_info q) head_idx;
  '(last, count) ← detach_walk (length (desc (vr q))) (desc (vr q)) head_idx
                     (u16 (desc_count info - 1));
  if negb (count =? 0) then None
  else
    d ← zget (desc (vr q)) last;
    tbl ← zput (desc (vr q)) last (mk_desc (d_addr d) (d_len d) (d_flags d) (head_free_desc q));
    infos ← zput (vq_info q) head_idx (mk_info (cookie info) count);
    Some (mk_vq (set_desc (vr q) tbl) (u16 (desc_avail q + desc_count info)) head_idx
            (last_used_desc_idx q) (uses_event_idx q) (last_notified_idx q) infos (notified q)).

(** The return value, the cookie, the length and the queue. *)
Definition virtqueue_buffer_dequeue (q : virtqueue)
    : option (Z * option (option positive * Z) * virtqueue) :=
  if negb (virtqueue_hasdata q) then Some (- ENOMSG, None, q)
  else
    let slot := Z.land (last_used_desc_idx q) (num (vr q) - 1) in
    let q := mk_vq (vr q) (desc_avail q) (head_free_desc q) (u16 (last_used_desc_idx q + 1))
               (uses_event_idx q) (last_notified_idx q) (vq_info q) (notified q) in
    '(id, len) ← zget (used_ring (vr q)) slot;
    let head_idx := u16 id in
    info ← zget (vq_info q) head_idx;
    q' ← virtqueue_detach_desc q head_idx;
    info' ← zget (vq_info q') head_idx;
    infos ← zput (vq_info q') head_idx (mk_info None (desc_count info'));
    Some (num (vr q') - desc_avail q', Some (cookie info, len),
      mk_vq (vr q') (desc_avail q') (head_free_desc q') (last_used_desc_idx q')
        (uses_event_idx q') (last_notified_idx q') infos (notified q')).

(** ** Creation *)

(** The memory is zeroed; the free list runs through the whole table. *)
Definition virtqueue_vring_init (nr_desc : Z) : vring :=
  mk_vring nr_desc
    ((fun i => mk_desc 0 0 0 (if i =? nr_desc - 1 then VIRTQUEUE_MAX_SIZE else i + 1))
       <$> seqZ 0 nr_desc)
    0 0 (repeat 0 (Z.to_nat nr_desc)) 0 0 0 (repeat (0, 0) (Z.to_nat nr_desc)) 0.

(** [info] is the uninitialised tail of the allocated structure. *)
Definition virtqueue_create (nr_descs : Z) (event_idx : bool)
    (info : list virtqueue_desc_info) : virtqueue :=
  mk_vq (virtqueue_vring_init nr_descs) nr_descs 0 0 event_idx 0 info 0.

Definition VIRTIO_F_VERSION_1 : Z := 32.
Definition VIRTIO_F_EVENT_IDX : Z := 29.
Definition VIRTIO_TRANSPORT_F_START : Z := 28.

Definition virtqueue_feature_negotiate (feature_set : Z) : Z :=
  let feature := Z.shiftl 1 VIRTIO_TRANSPORT_F_START - 1 in
  let feature := Z.lor feature (Z.shiftl 1 VIRTIO_F_VERSION_1) in
  let feature := Z.lor feature (Z.shiftl 1 VIRTIO_F_EVENT_IDX) in
  Z.land feature feature_set.

(** ** The invariant of a queue

    The descriptors are divided among the free list and the chains of the
    buffers in flight. *)

(** [links tbl h l e]: following the next links from [h] visits [l] and then
    arrives at [e]. *)
Fixpoint links (tbl : list vring_desc) (h : Z) (l : list Z) (e : Z) : Prop :=
  match l with
  | [] => h = e
  | x :: l => x = h /\ exists d, zget tbl x = Some d /\ links tbl (d_next d) l e
  end.

(** A chain carries the NEXT flag on all but its last descriptor. *)
Fixpoint flagged (tbl : list vring_desc) (l : list Z) : Prop :=
  match l with
  | [] => True
  | x :: l =>
      (exists d, zget tbl x = Some d /\
         flag_set (d_flags d) VRING_DESC_F_NEXT = negb (bool_decide (l = []))) /\
      flagged tbl l
  end.

Definition chain_ok (q : virtqueue) (c : positive * list Z) : Prop :=
  exists h t e, c.2 = h :: t /\ links (desc (vr q)) h c.2 e /\ flagged (desc (vr q)) c.2 /\
    zget (vq_info q) h = Some (mk_info (Some c.1) (zlen c.2)).

Record vq_inv (q : virtqueue) (free : list Z) (chains : list (positive * list Z)) : Prop := {
  inv_num : exists k, 0 <= k <= 15 /\ num (vr q) = 2 ^ k;
  inv_desc : zlen (desc (vr q)) = num (vr q);
  inv_avail : zlen (avail_ring (vr q)) = num (vr q);
  inv_used : zlen (used_ring (vr q)) = num (vr q);
  inv_info : zlen (vq_info q) = num (vr q);
  inv_next : Forall (fun d => 0 <= d_next d < 2 ^ 16) (desc (vr q));
  inv_head : 0 <= head_free_desc q < 2 ^ 16;
  inv_count : desc_avail q = zlen free;
  inv_free : exists e, links (desc (vr q)) (head_free_desc q) free e;
  inv_chains : Forall (chain_ok q) chains;
  inv_part : free ++ concat (map snd chains) ≡ₚ seqZ 0 (num (vr q))
}.

Section facts.
Implicit Types tbl : list vring_desc.

Lemma zput_Some {A} (l : list A) i x : i < zlen l -> zput l i x = Some (<[Z.to_nat i := x]> l).
Proof. intros. unfold zput. destruct (Z.leb_spec (zlen l) i); [lia|done]. Qed.

Lemma zget_put {A} (l : list A) i j x :
  0 <= i < zlen l -> 0 <= j ->
  zget (<[Z.to_nat i := x]> l) j = if decide (i = j) then Some x else zget l j.
Proof.
  intros Hi Hj. unfold zget, zlen in *. case_decide as Hij.
  - subst. apply list_lookup_insert_eq. lia.
  - apply list_lookup_insert_ne. lia.
Qed.

Lemma zlen_put {A} (l : list A) i x : zlen (<[i := x]> l) = zlen l.
Proof. unfold zlen. by rewrite length_insert. Qed.

Lemma zget_Some {A} (l : list A) i : 0 <= i < zlen l -> exists x, zget l i = Some x.
Proof. intros. unfold zget, zlen in *. apply lookup_lt_is_Some_2. lia. Qed.

Lemma links_app tbl h l1 l2 e :
  links tbl h (l1 ++ l2) e <-> exists m, links tbl h l1 m /\ links tbl m l2 e.
Proof.
  revert h. induction l1 as [|x l1 IH]; intros h; cbn; [naive_solver|].
  split.
  - intros (-> & d & Hd & (m & ? & ?)%IH). exists m. eauto.
  - intros (m & (-> & d & Hd & ?) & ?). split; [done|]. exists d. split; [done|]. apply IH. eauto.
Qed.

(** Both predicates only look at the descriptors they visit. *)
Lemma links_proper tbl tbl' h l e :
  (forall x, x ∈ l -> d_next <$> zget tbl' x = d_next <$> zget tbl x) ->
  links tbl h l e -> links tbl' h l e.
Proof.
  revert h. induction l as [|x l IH]; intros h Heq; cbn; [done|].
  intros (-> & d & Hd & Hl). split; [done|]. specialize (Heq h) as Hx.
  rewrite Hd in Hx. destruct (zget tbl' h) as [d'|]; [|set_solver].
  exists d'. split; [done|]. assert (d_next d' = d_next d) as -> by (cbn in Hx; set_solver).
  apply IH; [set_solver|done].
Qed.

Lemma flagged_proper tbl tbl' l :
  (forall x, x ∈ l -> zget tbl' x = zget tbl x) -> flagged tbl l -> flagged tbl' l.
Proof.
  induction l as [|x l IH]; intros Heq; cbn; [done|].
  intros [(d & Hd & Hf) Hl]. split; [|apply IH; [set_solver|done]].
  exists d. rewrite Heq by set_solver. done.
Qed.

(** The flags given to segment [i]. *)
Definition seg_flags (i read_bufs total : Z) : Z :=
  Z.lor (if read_bufs <=? i then VRING_DESC_F_WRITE else 0)
        (if i <? total - 1 then VRING_DESC_F_NEXT else 0).

Lemma enqueue_segs_spec tbl segs ds idx e i read total :
  links tbl idx ds e -> length ds = length segs -> NoDup ds ->
  Forall (fun x => 0 <= x < zlen tbl) ds ->
  exists tbl', enqueue_segs tbl segs idx i read total = Some (tbl', e) /\
    zlen tbl' = zlen tbl /\
    (forall x, 0 <= x -> d_next <$> zget tbl' x = d_next <$> zget tbl x) /\
    (forall x, 0 <= x -> x ∉ ds -> zget tbl' x = zget tbl x) /\
    (forall k x s, ds !! k = Some x -> segs !! k = Some s ->
       exists n, zget tbl' x = Some (mk_desc (ss_paddr s) (u32 (ss_len s))
                   (seg_flags (i + Z.of_nat k) read total) n)).
Proof.
  revert tbl ds idx i. induction segs as [|s segs IH]; intros tbl ds idx i Hl Hlen Hnd Hr.
  { destruct ds; [|done]. cbn in *. subst. exists tbl. naive_solver. }
  destruct ds as [|x ds]; [done|]. cbn in Hl. destruct Hl as (-> & d & Hd & Hl).
  apply NoDup_cons in Hnd as [Hni Hnd]. apply Forall_cons in Hr as [Hx Hr].
  cbn [enqueue_segs]. rewrite Hd. cbn [mbind option_bind]. rewrite zput_Some by lia.
  cbn [mbind option_bind]. set (d' := mk_desc _ _ _ _). set (tbl1 := <[_ := _]> tbl).
  assert (Hnext : forall y, 0 <= y -> d_next <$> zget tbl1 y = d_next <$> zget tbl y).
  { intros y Hy. unfold tbl1. rewrite zget_put by lia. case_decide; [|done]. subst. by rewrite Hd. }
  destruct (IH tbl1 ds (d_next d) (i + 1)) as (tbl' & -> & HL & HN & HO & HS).
  - eapply links_proper; [|done]. intros y Hy. apply Hnext.
    rewrite Forall_forall in Hr. specialize (Hr y Hy). lia.
  - cbn in Hlen. lia.
  - done.
  - unfold tbl1. by rewrite zlen_put.
  - exists tbl'. split; [done|]. unfold tbl1 in HL. rewrite zlen_put in HL. split_and!; [done|..].
    + intros y Hy. rewrite HN by done. by apply Hnext.
    + intros y Hy Hyn. rewrite HO by set_solver. unfold tbl1. rewrite zget_put by lia.
      rewrite decide_False by set_solver. done.
    + intros [|k] y t Hk Ht; cbn in Hk, Ht; simplify_eq.
      * exists (d_next d). rewrite HO by (lia || done). unfold tbl1. rewrite zget_put by lia.
        rewrite decide_True by done. unfold d', seg_flags. rewrite Z.add_0_r.
        do 2 f_equal. by repeat case_match.
      * destruct (HS k y t Hk Ht) as [n Hn]. exists n. rewrite Hn. do 2 f_equal. f_equal; lia.
Qed.
Lemma vq_inv_range q free chains x :
  vq_inv q free chains -> x ∈ free ++ concat (map snd chains) -> 0 <= x < num (vr q).
Proof.
  intros Hi Hx. rewrite (inv_part _ _ _ Hi) in Hx. by apply elem_of_seqZ in Hx.
Qed.

Lemma vq_inv_NoDup q free chains :
  vq_inv q free chains -> NoDup (free ++ concat (map snd chains)).
Proof. intros Hi. rewrite (inv_part _ _ _ Hi). apply NoDup_seqZ. Qed.

Lemma vq_inv_num q free chains :
  vq_inv q free chains -> 0 < num (vr q) <= 2 ^ 15.
Proof.
  intros Hi. destruct (inv_num _ _ _ Hi) as (k & Hk & ->).
  split; [apply Z.pow_pos_nonneg; lia|apply Z.pow_le_mono_r; lia].
Qed.

Lemma vq_inv_free_le q free chains : vq_inv q free chains -> zlen free <= num (vr q).
Proof.
  intros Hi. pose proof (Permutation_length (inv_part _ _ _ Hi)) as HL.
  rewrite length_app, length_seqZ in HL. pose proof (vq_inv_num _ _ _ Hi). unfold zlen. lia.
Qed.

(** The masked index is the remainder. *)
Lemma land_mask q free chains i :
  vq_inv q free chains -> Z.land i (num (vr q) - 1) = i mod num (vr q).
Proof.
  intros Hi. destruct (inv_num _ _ _ Hi) as (k & Hk & ->).
  replace (2 ^ k - 1) with (Z.ones k) by (rewrite Z.ones_equiv; lia).
  apply Z.land_ones. lia.
Qed.

Lemma elem_of_chains x (c : positive * list Z) chains :
  c ∈ chains -> x ∈ c.2 -> x ∈ concat (map snd chains).
Proof. induction 1; cbn; set_solver. Qed.

(** A chain is untouched by changes to other descriptors and other entries. *)
Lemma chain_ok_proper q q' c :
  chain_ok q c ->
  (forall x, x ∈ c.2 -> zget (desc (vr q')) x = zget (desc (vr q)) x) ->
  (forall x, x ∈ c.2 -> zget (vq_info q') x = zget (vq_info q) x) ->
  chain_ok q' c.
Proof.
  intros (h & t & e & Hc & Hl & Hf & Hi) Hd Hinfo. exists h, t, e. split; [done|]. split_and!.
  - eapply links_proper; [|done]. intros x Hx. by rewrite Hd.
  - by eapply flagged_proper.
  - rewrite Hinfo; [done|]. rewrite Hc. left.
Qed.

Lemma chains_frame q q' (ds : list Z) chains :
  Forall (chain_ok q) chains ->
  (forall x, x ∈ concat (map snd chains) -> (x ∉ ds) /\ 0 <= x) ->
  (forall x, 0 <= x -> x ∉ ds -> zget (desc (vr q')) x = zget (desc (vr q)) x) ->
  (forall x, 0 <= x -> x ∉ ds -> zget (vq_info q') x = zget (vq_info q) x) ->
  Forall (chain_ok q') chains.
Proof.
  intros Hch Hout Hd Hi. apply Forall_forall. intros c Hc. rewrite Forall_forall in Hch.
  eapply chain_ok_proper; [by apply Hch|..]; intros x Hx;
    destruct (Hout x (elem_of_chains x c chains Hc Hx)); auto.
Qed.

Lemma seg_flags_next i read total :
  flag_set (seg_flags i read total) VRING_DESC_F_NEXT = (i <? total - 1).
Proof. unfold seg_flags. by repeat case_match. Qed.

Lemma flagged_new tbl ds total i read :
  total = i + zlen ds -> 0 <= i ->
  (forall k x, ds !! k = Some x -> exists d, zget tbl x = Some d /\
     d_flags d = seg_flags (i + Z.of_nat k) read total) ->
  flagged tbl ds.
Proof.
  revert i. induction ds as [|x ds IH]; intros i Ht Hi Hk; cbn; [done|]. split.
  - destruct (Hk 0%nat x eq_refl) as (d & Hd & Hf). exists d. split; [done|].
    rewrite Hf, seg_flags_next, Z.add_0_r. unfold zlen in Ht. cbn in Ht.
    destruct ds as [|y ds].
    + rewrite bool_decide_true by done. cbn in *. apply Z.ltb_ge. lia.
    + rewrite bool_decide_false by done. cbn in *. apply Z.ltb_lt. lia.
  - apply (IH (i + 1)); [unfold zlen in *; cbn in *; lia|lia|].
    intros k y Hy. destruct (Hk (S k) y Hy) as (d & ? & Hf). exists d. split; [done|].
    rewrite Hf. f_equal. lia.
Qed.

(** What an accepted buffer does to the queue. *)
Record enqueued (q q' : virtqueue) (ds : list Z) (sg : uk_sglist) (read total : Z) : Prop := {
  enq_avail_idx : avail_idx (vr q') = u16 (avail_idx (vr q) + 1);
  enq_avail_ring : avail_ring (vr q') =
    <[Z.to_nat (avail_idx (vr q) mod num (vr q)) := head_free_desc q]> (avail_ring (vr q));
  enq_used : used_idx (vr q') = used_idx (vr q) /\ used_ring (vr q') = used_ring (vr q);
  enq_same : num (vr q') = num (vr q) /\ last_used_desc_idx q' = last_used_desc_idx q /\
    uses_event_idx q' = uses_event_idx q;
  enq_desc : forall k x s, ds !! k = Some x -> sg_segs sg !! k = Some s ->
    exists n, zget (desc (vr q')) x = Some (mk_desc (ss_paddr s) (u32 (ss_len s))
                 (seg_flags (Z.of_nat k) read total) n)
}.

Lemma links_end tbl h l e :
  Forall (fun d => 0 <= d_next d < 2 ^ 16) tbl -> l <> [] -> links tbl h l e ->
  0 <= e < 2 ^ 16.
Proof.
  intros Hn. revert h. induction l as [|x l IH]; intros h Hne; [done|].
  cbn. intros (-> & d & Hd & Hl). destruct l as [|y l]; [|by eapply IH].
  cbn in Hl. subst e. exact (Forall_lookup_1 _ _ _ _ Hn Hd).
Qed.

Lemma next_range_proper tbl tbl' :
  zlen tbl' = zlen tbl ->
  (forall x, 0 <= x -> d_next <$> zget tbl' x = d_next <$> zget tbl x) ->
  Forall (fun d => 0 <= d_next d < 2 ^ 16) tbl -> Forall (fun d => 0 <= d_next d < 2 ^ 16) tbl'.
Proof.
  intros HL HN Hf. apply Forall_lookup_2. intros i d Hd.
  specialize (HN (Z.of_nat i) ltac:(lia)). unfold zget in HN. rewrite Nat2Z.id, Hd in HN.
  destruct (tbl !! i) as [d0|] eqn:Hd0; [|done]. cbn in HN. injection HN as ->.
  exact (Forall_lookup_1 _ _ _ _ Hf Hd0).
Qed.

Lemma buffer_enqueue_spec q free chains ck sg read write :
  vq_inv q free chains -> 0 <= read -> 0 <= write ->
  1 <= read + write <= zlen (sg_segs sg) -> read + write <= zlen free ->
  exists q' ds free', free = ds ++ free' /\ zlen ds = read + write /\
    virtqueue_buffer_enqueue q ck sg read write = Some (zlen free', q') /\
    vq_inv q' free' ((ck, ds) :: chains) /\
    enqueued q q' ds sg read (read + write).
Proof.
  intros Hi Hr Hw Htot Hav. unfold virtqueue_buffer_enqueue, virtqueue_buffer_enqueue_segments.
  set (total := read + write) in *.
  pose proof (vq_inv_num _ _ _ Hi) as Hnum. pose proof (vq_inv_free_le _ _ _ Hi) as Hle.
  set (ds := take (Z.to_nat total) free). set (free' := drop (Z.to_nat total) free).
  assert (Hfree : free = ds ++ free') by (symmetry; apply take_drop).
  assert (Hlen : zlen ds = total) by (unfold zlen, ds in *; rewrite length_take; lia).
  assert (Hlen' : zlen free = total + zlen free') by (rewrite Hfree, zlen_app; lia).
  pose proof (vq_inv_NoDup _ _ _ Hi) as Hnd.
  pose proof (fun x => vq_inv_range q free chains x Hi) as Hrng.
  destruct (inv_free _ _ _ Hi) as (e & Hl). rewrite Hfree, links_app in Hl.
  destruct Hl as (m & Hl1 & Hl2).
  assert (exists t, ds = head_free_desc q :: t) as [t Hds].
  { destruct ds as [|h t]; [unfold zlen in Hlen; cbn in Hlen; lia|].
    exists t. destruct Hl1 as [-> _]. done. }
  assert (Hh : 0 <= head_free_desc q < num (vr q)) by (apply Hrng; rewrite Hfree, Hds; set_solver).
  assert (Hne : ds <> []) by (by rewrite Hds).
  pose proof (links_end _ _ _ _ (inv_next _ _ _ Hi) Hne Hl1) as Hm.
  rewrite Hfree, <- app_assoc in Hnd. apply NoDup_app in Hnd as (Hnd1 & Hdisj & Hnd2).
  pose proof (zlen_slice 0 total (sg_segs sg) ltac:(lia) ltac:(lia) ltac:(lia)) as Hsl.
  destruct (enqueue_segs_spec (desc (vr q)) (slice 0 total (sg_segs sg)) ds
    (head_free_desc q) m 0 read total) as (tbl & Htbl & HL & HN & HO & HS); [done| |done| |].
  { unfold zlen in *. lia. }
  { apply Forall_forall. intros x Hx. rewrite (inv_desc _ _ _ Hi). apply Hrng. rewrite Hfree. set_solver. }
  destruct (_ || _) eqn:G; [lia|]. clear G. rewrite (inv_count _ _ _ Hi).
  destruct (Z.ltb_spec (zlen free) total); [lia|].
  rewrite zput_Some by (rewrite (inv_info _ _ _ Hi); lia). cbn.
  rewrite memread_Some by lia. cbn. rewrite Htbl. cbn. unfold virtqueue_ring_update_avail. cbn.
  rewrite (land_mask q free chains) by done.
  pose proof (Z.mod_pos_bound (avail_idx (vr q)) (num (vr q)) ltac:(lia)) as Hmod.
  rewrite zput_Some by (rewrite (inv_avail _ _ _ Hi); lia). cbn.
  rewrite (wrap_small 16 m), (wrap_small 16 total), (wrap_small 16 (zlen free - total)) by lia.
  replace (zlen free - total) with (zlen free') by lia.
  eexists _, ds, free'. split; [done|]. split; [done|]. split; [done|]. split.
  - destruct Hi as [? ? ? ? ? ? ? ? ? Hch Hpart]. split; cbn; try done.
    + by rewrite HL.
    + by rewrite zlen_put.
    + by rewrite zlen_put.
    + by eapply next_range_proper.
    + exists e. eapply links_proper; [|done]. intros x Hx. apply HN.
      apply Hrng. rewrite Hfree. set_solver.
    + constructor.
      * exists (head_free_desc q), t, m. cbn. split; [done|]. split_and!.
        -- eapply links_proper; [|done]. intros x Hx. apply HN. apply Hrng. rewrite Hfree. set_solver.
        -- apply (flagged_new _ _ total 0 read); [lia|lia|]. intros k x Hk.
           destruct (lookup_lt_is_Some_2 (slice 0 total (sg_segs sg)) k) as [s Hs].
           { apply lookup_lt_Some in Hk. unfold zlen in *. lia. }
           destruct (HS k x s Hk Hs) as [n Hn]. eexists. split; [exact Hn|]. done.
        -- rewrite zget_put by lia. rewrite decide_True by done. by rewrite Hlen.
      * apply (chains_frame q _ ds); [done|..]; cbn; [|done|].
        -- intros x Hx. split; [|apply Hrng; set_solver]. intros Hd. apply (Hdisj x Hd). set_solver.
        -- intros x Hx Hd. rewrite zget_put by lia. rewrite decide_False; [done|].
           rewrite Hds in *. set_solver.
    + rewrite <- Hpart, Hfree. solve_Permutation.
  - split; cbn; try done. intros k x s Hk Hs. apply (HS k); [done|].
    rewrite lookup_slice. rewrite decide_True; [done|].
    apply lookup_lt_Some in Hk. unfold zlen in *. lia.
Qed.

Lemma detach_walk_spec tbl fuel h l e count :
  links tbl h (h :: l) e -> flagged tbl (h :: l) -> (length l <= fuel)%nat ->
  zlen l <= count < 2 ^ 16 ->
  exists z, detach_walk fuel tbl h count = Some (z, count - zlen l) /\ last (h :: l) = Some z.
Proof.
  revert fuel h count. induction l as [|y l IH]; intros fuel h count Hl Hf Hfuel Hc.
  - cbn in *. destruct Hf as [(d & Hd & Hfl) _]. exists h. split; [|done].
    destruct fuel; cbn; rewrite Hd; cbn; rewrite Hfl; cbn; unfold zlen; cbn; do 2 f_equal; lia.
  - destruct Hl as (_ & d & Hd & Hl). destruct Hf as [(d' & Hd' & Hfl) Hf].
    assert (d' = d) as -> by congruence. unfold zlen in *. cbn in *.
    destruct fuel as [|fuel]; [lia|]. destruct Hl as [-> Hl].
    destruct (IH fuel (d_next d) (count - 1)) as (z & Hz & Hlast); [done|done|lia|lia|].
    exists z. split; [|done]. cbn. rewrite Hd. cbn. rewrite Hfl. cbn.
    rewrite (wrap_small 16 (count - 1)) by lia. rewrite Hz. do 2 f_equal. lia.
Qed.
(** Returning a chain to the front of the free list. *)
Lemma links_return tbl h ds0 z e0 free hf e d :
  NoDup (ds0 ++ [z] ++ free) -> Forall (fun x => 0 <= x < zlen tbl) (ds0 ++ [z] ++ free) ->
  links tbl h (ds0 ++ [z]) e0 -> links tbl hf free e -> d_next d = hf ->
  links (<[Z.to_nat z := d]> tbl) h ((ds0 ++ [z]) ++ free) e.
Proof.
  intros Hnd Hr Hl Hf Hd. rewrite Forall_forall in Hr. set (tbl' := <[_ := _]> tbl).
  assert (Hz : 0 <= z < zlen tbl) by (apply Hr; set_solver).
  assert (Hsame : forall x, x ∈ ds0 ++ free -> zget tbl' x = zget tbl x).
  { intros x Hx. assert (0 <= x < zlen tbl) by (apply Hr; set_solver).
    unfold tbl'. rewrite zget_put by lia. rewrite decide_False; [done|]. intros ->.
    rewrite app_assoc in Hnd. apply NoDup_app in Hnd as (Hnd & Hdis & _).
    apply NoDup_app in Hnd as (_ & Hdis' & _). set_solver. }
  apply links_app in Hl as (m & Hl0 & [<- _]). rewrite <- app_assoc. apply links_app.
  exists z. split.
  - eapply links_proper; [|done]. intros x Hx. rewrite Hsame by set_solver. done.
  - cbn. split; [done|]. exists d. split.
    + unfold tbl'. rewrite zget_put by lia. by rewrite decide_True.
    + rewrite Hd. eapply links_proper; [|done]. intros x Hx. rewrite Hsame by set_solver. done.
Qed.

Lemma detach_desc_spec q ck h t e0 :
  links (desc (vr q)) h (h :: t) e0 -> flagged (desc (vr q)) (h :: t) ->
  zget (vq_info q) h = Some (mk_info (Some ck) (zlen (h :: t))) ->
  zlen (h :: t) <= zlen (desc (vr q)) < 2 ^ 16 -> h < zlen (vq_info q) ->
  Forall (fun x => 0 <= x < zlen (desc (vr q))) (h :: t) ->
  exists ds0 z d, h :: t = ds0 ++ [z] /\ zget (desc (vr q)) z = Some d /\
    virtqueue_detach_desc q h =
      Some (mk_vq (set_desc (vr q) (<[Z.to_nat z :=
                     mk_desc (d_addr d) (d_len d) (d_flags d) (head_free_desc q)]> (desc (vr q))))
              (u16 (desc_avail q + zlen (h :: t))) h (last_used_desc_idx q) (uses_event_idx q)
              (last_notified_idx q) (<[Z.to_nat h := mk_info (Some ck) 0]> (vq_info q)) (notified q)).
Proof.
  intros Hl Hf Hinfo Hlen Hh Hr. unfold virtqueue_detach_desc. rewrite Hinfo. cbn.
  assert (Hzl : zlen (h :: t) = 1 + zlen t) by (unfold zlen; cbn; lia).
  pose proof (zlen_nonneg t). rewrite (wrap_small 16 (zlen (h :: t) - 1)) by lia.
  destruct (detach_walk_spec (desc (vr q)) (length (desc (vr q))) h t e0 (zlen (h :: t) - 1))
    as (z & Hwalk & Hlast); [done|done| |lia|].
  { unfold zlen in *. lia. }
  rewrite Hwalk. cbn. destruct (Z.eqb_spec (zlen (h :: t) - 1 - zlen t) 0) as [E0|]; [|lia].
  apply last_Some in Hlast as [ds0 Hds]. rewrite Forall_forall in Hr.
  assert (Hz : 0 <= z < zlen (desc (vr q))) by (apply Hr; rewrite Hds; set_solver).
  destruct (zget_Some (desc (vr q)) z Hz) as [d Hd]. exists ds0, z, d.
  rewrite Hd. cbn. rewrite zput_Some by lia. cbn. rewrite zput_Some by lia. cbn.
  by rewrite E0.
Qed.

(** What a dequeue leaves alone. *)
Record dequeued (q q' : virtqueue) : Prop := {
  deq_avail : avail_idx (vr q') = avail_idx (vr q) /\ avail_ring (vr q') = avail_ring (vr q);
  deq_used : used_idx (vr q') = used_idx (vr q) /\ used_ring (vr q') = used_ring (vr q);
  deq_num : num (vr q') = num (vr q) /\ uses_event_idx q' = uses_event_idx q;
  deq_last : last_used_desc_idx q' = u16 (last_used_desc_idx q + 1)
}.

Lemma buffer_dequeue_spec q free chains1 ck ds chains2 id len :
  vq_inv q free (chains1 ++ (ck, ds) :: chains2) -> virtqueue_hasdata q = true ->
  zget (used_ring (vr q)) (last_used_desc_idx q mod num (vr q)) = Some (id, len) ->
  head ds = Some (u16 id) ->
  exists q', virtqueue_buffer_dequeue q
      = Some (num (vr q) - zlen (ds ++ free), Some (Some ck, len), q') /\
    vq_inv q' (ds ++ free) (chains1 ++ chains2) /\ dequeued q q'.
Proof.
  intros Hi Hdata Hused Hhead. pose proof (vq_inv_num _ _ _ Hi) as Hnum.
  pose proof (vq_inv_NoDup _ _ _ Hi) as Hnd.
  pose proof (fun x => vq_inv_range _ _ _ x Hi) as Hrng.
  assert (Hperm : free ++ concat (map snd (chains1 ++ (ck, ds) :: chains2)) ≡ₚ
                  (ds ++ free) ++ concat (map snd (chains1 ++ chains2))).
  { rewrite !map_app, !concat_app. cbn. solve_Permutation. }
  setoid_rewrite Hperm in Hrng. rewrite Hperm in Hnd.
  apply NoDup_app in Hnd as (Hnd1 & Hdisj & Hnd2).
  pose proof (inv_chains _ _ _ Hi) as Hch. apply Forall_app in Hch as [Hch1 [Hck Hch2]%Forall_cons].
  destruct Hck as (h & t & e0 & Hds & Hl & Hf & Hinfo). cbn in Hds, Hl, Hf, Hinfo. subst ds.
  cbn in Hhead. injection Hhead as Hid.
  assert (Hh : 0 <= h < num (vr q)) by (apply Hrng; set_solver).
  pose proof (Permutation_length (inv_part _ _ _ Hi)) as HL.
  rewrite Hperm, length_app, length_seqZ in HL.
  assert (Htot : zlen ((h :: t) ++ free) <= num (vr q)) by (unfold zlen; lia).
  rewrite zlen_app in Htot. pose proof (zlen_nonneg free). pose proof (zlen_nonneg (h :: t)).
  set (q1 := mk_vq (vr q) (desc_avail q) (head_free_desc q) (u16 (last_used_desc_idx q + 1))
               (uses_event_idx q) (last_notified_idx q) (vq_info q) (notified q)).
  destruct (detach_desc_spec q1 ck h t e0) as (ds0 & z & d & Hds & Hd & Hdet);
    cbn; [done..| | | |]; rewrite ?(inv_desc _ _ _ Hi), ?(inv_info _ _ _ Hi); [lia..| |].
  { apply Forall_forall. intros x Hx. apply Hrng. set_solver. }
  unfold virtqueue_buffer_dequeue. rewrite Hdata. cbn [negb].
  rewrite (land_mask _ _ _ _ Hi). cbn. rewrite Hused. cbn. rewrite <- Hid, Hinfo. cbn.
  fold q1. rewrite Hdet. cbn. rewrite zget_put by (rewrite ?(inv_info _ _ _ Hi); lia).
  rewrite decide_True by done. cbn. rewrite zput_Some by (rewrite zlen_put, (inv_info _ _ _ Hi); lia).
  cbn. rewrite (inv_count _ _ _ Hi), wrap_small by lia.
  change (h :: t ++ free) with ((h :: t) ++ free).
  rewrite (zlen_app (h :: t) free), (Z.add_comm (zlen (h :: t))).
  eexists. split; [done|]. split; [|split; cbn; done].
  destruct Hi as [Hk HLd HLa HLu HLi Hnx Hhd Hcnt [e Hfree] _ Hpart].
  assert (Hz : z ∈ h :: t) by (rewrite Hds; set_solver).
  pose proof (links_return (desc (vr q)) h ds0 z e0 free (head_free_desc q) e
    (mk_desc (d_addr d) (d_len d) (d_flags d) (head_free_desc q))) as Hfl.
  rewrite app_assoc, <- Hds, HLd in Hfl. specialize (Hfl Hnd1).
  rewrite Forall_forall in Hfl. setoid_rewrite elem_of_app in Hrng.
  specialize (Hfl ltac:(intros; apply Hrng; by left) Hl Hfree eq_refl).
  split; cbn; rewrite ?zlen_put; try done; try lia.
  - by apply Forall_insert.
  - change (h :: t ++ free) with ((h :: t) ++ free). by rewrite zlen_app, Z.add_comm.
  - exists e. exact Hfl.
  - apply (chains_frame q _ (h :: t)); [by apply Forall_app|..]; cbn.
    + intros x Hx. split; [|apply Hrng; set_solver]. intros Hxd. apply (Hdisj x); set_solver.
    + intros x Hx Hxd. rewrite zget_put by (rewrite ?HLd; (lia || apply Hrng; set_solver)).
      rewrite decide_False; [done|]. set_solver.
    + intros x Hx Hxd. rewrite !zget_put by (rewrite ?zlen_put; lia).
      rewrite !decide_False by set_solver. done.
  - by rewrite <- Hpart, Hperm.
Qed.
End facts.

(** ** A fresh queue *)

Section create.

Lemma links_init n i m :
  0 <= i -> 0 < m -> i + m = n ->
  links (desc (virtqueue_vring_init n)) i (seqZ i m) VIRTQUEUE_MAX_SIZE.
Proof.
  intros Hi Hm. remember (Z.to_nat m) as k eqn:Hk. revert i m Hi Hm Hk.
  induction k as [|k IH]; intros i m Hi Hm Hk Hn; [lia|].
  rewrite seqZ_cons by done. cbn [links]. split; [done|]. unfold zget. cbn [virtqueue_vring_init desc].
  rewrite list_lookup_fmap, lookup_seqZ_lt by lia. cbn [fmap option_fmap option_map].
  eexists. split; [done|]. cbn [d_next].
  destruct (Z.eqb_spec (0 + Z.of_nat (Z.to_nat i)) (n - 1)) as [He|He].
  - replace (Z.pred m) with 0 by lia. done.
  - replace (0 + Z.of_nat (Z.to_nat i) + 1) with (Z.succ i) by lia. apply IH; lia.
Qed.

Lemma create_inv k ev info :
  0 <= k <= 15 -> zlen info = 2 ^ k ->
  vq_inv (virtqueue_create (2 ^ k) ev info) (seqZ 0 (2 ^ k)) [].
Proof.
  intros Hk Hinfo. pose proof (Z.pow_pos_nonneg 2 k ltac:(lia) ltac:(lia)).
  pose proof (Z.pow_le_mono_r 2 k 15 ltac:(lia) ltac:(lia)).
  split; cbn -[Z.pow seqZ]; try done; try lia.
  - by exists k.
  - unfold zlen. rewrite length_fmap, length_seqZ. lia.
  - unfold zlen. rewrite repeat_length. lia.
  - unfold zlen. rewrite repeat_length. lia.
  - apply Forall_forall. intros d (i & -> & Hi)%list_elem_of_fmap.
    apply elem_of_seqZ in Hi. cbn -[Z.pow]. unfold VIRTQUEUE_MAX_SIZE. case_match; lia.
  - unfold zlen. rewrite length_seqZ. lia.
  - exists VIRTQUEUE_MAX_SIZE. apply links_init; lia.
  - by rewrite app_nil_r.
Qed.
End create.

(** ** Driver and device

    [s_last_avail] is the device's position in the available ring, [s_owned]
    the heads it has taken and not completed.  [s_sent] and [s_returned]
    record the cookies of the buffers enqueued and dequeued. *)

Record vsys : Type := mk_vsys {
  s_q : virtqueue;
  s_last_avail : Z;
  s_owned : list Z;
  s_sent : list positive;
  s_returned : list positive
}.

Inductive vstep : vsys -> vsys -> Prop :=
  | V_enqueue q la ow sent ret ck sg read write rc q' :
      0 <= read -> 0 <= write -> read + write <= zlen (sg_segs sg) ->
      virtqueue_buffer_enqueue q ck sg read write = Some (rc, q') ->
      vstep (mk_vsys q la ow sent ret)
            (mk_vsys q' la ow (if rc <? 0 then sent else ck :: sent) ret)
  | V_take q la ow sent ret h :
      la <> avail_idx (vr q) ->
      zget (avail_ring (vr q)) (la mod num (vr q)) = Some h ->
      vstep (mk_vsys q la ow sent ret) (mk_vsys q (u16 (la + 1)) (h :: ow) sent ret)
  | V_complete q la ow1 h ow2 sent ret len ring :
      zput (used_ring (vr q)) (used_idx (vr q) mod num (vr q)) (h, len) = Some ring ->
      vstep (mk_vsys q la (ow1 ++ h :: ow2) sent ret)
            (mk_vsys (set_vring q (set_used (vr q) (u16 (used_idx (vr q) + 1)) ring)) la
               (ow1 ++ ow2) sent ret)
  | V_dequeue q la ow sent ret rc ck len q' :
      virtqueue_buffer_dequeue q = Some (rc, Some (Some ck, len), q') ->
      vstep (mk_vsys q la ow sent ret) (mk_vsys q' la ow sent (ck :: ret)).

(** A queue of [2^k] descriptors that nobody has used yet. *)
Definition vsys_init (k : Z) (ev : bool) (info : list virtqueue_desc_info) : vsys :=
  mk_vsys (virtqueue_create (2 ^ k) ev info) 0 [] [] [].

Definition chain_head (c : positive * list Z) : Z := default 0 (head c.2).

(** The entries of a ring between two free-running indices. *)
Definition window {A} (f : A -> Z) (ring : list A) (n from : Z) (l : list Z) : Prop :=
  forall j x, l !! j = Some x -> f <$> zget ring ((from + Z.of_nat j) mod n) = Some x.

(** [A], [L], [U], [D] are the indices without their wrap-around. *)
Record vsys_inv (s : vsys) (free : list Z) (chains : list (positive * list Z))
    (A L U D : Z) (la lu : list Z) : Prop := {
  vi_q : vq_inv (s_q s) free chains;
  vi_avail : avail_idx (vr (s_q s)) = u16 A;
  vi_last_avail : s_last_avail s = u16 L;
  vi_used : used_idx (vr (s_q s)) = u16 U;
  vi_last_used : last_used_desc_idx (s_q s) = u16 D;
  vi_la : A - L = zlen la;
  vi_lu : U - D = zlen lu;
  vi_wa : window id (avail_ring (vr (s_q s))) (num (vr (s_q s))) L la;
  vi_wu : window fst (used_ring (vr (s_q s))) (num (vr (s_q s))) D lu;
  vi_heads : map chain_head chains ≡ₚ la ++ s_owned s ++ lu;
  vi_cookies : s_sent s ≡ₚ s_returned s ++ map fst chains
}.

Section system.

Lemma mod_distinct a b n : 0 < a - b < n -> a mod n <> b mod n.
Proof.
  intros H He. assert (Hz : (a - b) mod n = 0).
  { rewrite Zminus_mod, He, Z.sub_diag. apply Z.mod_0_l. lia. }
  rewrite Z.mod_small in Hz; lia.
Qed.

Lemma u16_inj a b : 0 <= a - b < 2 ^ 16 -> u16 a = u16 b -> a = b.
Proof.
  intros H He. destruct (decide (a = b)); [done|].
  exfalso. apply (mod_distinct a b (2 ^ 16)); [lia|exact He].
Qed.

Lemma u16_succ a : u16 (u16 a + 1) = u16 (a + 1).
Proof. unfold wrap. by rewrite Z.add_mod_idemp_l. Qed.

Lemma u16_mod q free chains a :
  vq_inv q free chains -> u16 a mod num (vr q) = a mod num (vr q).
Proof.
  intros Hi. destruct (inv_num _ _ _ Hi) as (k & Hk & ->). unfold wrap.
  apply Z.mod_mod_divide.
  exists (2 ^ (16 - k)). rewrite <- Z.pow_add_r by lia. f_equal. lia.
Qed.

Lemma window_snoc {A} (f : A -> Z) ring n from l y :
  window f ring n from l -> 0 < n -> zlen ring = n -> zlen l < n ->
  window f (<[Z.to_nat ((from + zlen l) mod n) := y]> ring) n from (l ++ [f y]).
Proof.
  intros Hw Hn Hr Hl j x Hj.
  pose proof (Z.mod_pos_bound (from + zlen l) n Hn).
  pose proof (Z.mod_pos_bound (from + Z.of_nat j) n Hn).
  rewrite zget_put by lia. apply lookup_app_Some in Hj as [Hj|[Hlen Hj]].
  - rewrite decide_False; [by apply Hw|]. apply lookup_lt_Some in Hj.
    apply mod_distinct. unfold zlen in *. lia.
  - destruct (j - length l)%nat eqn:Hz; [|by destruct n0]. cbn in Hj. simplify_eq.
    rewrite decide_True; [done|]. f_equal. unfold zlen. lia.
Qed.

Lemma window_tail {A} (f : A -> Z) ring n from x l :
  window f ring n from (x :: l) ->
  f <$> zget ring (from mod n) = Some x /\ window f ring n (from + 1) l.
Proof.
  intros Hw. split.
  - specialize (Hw 0%nat x eq_refl). by rewrite Z.add_0_r in Hw.
  - intros j y Hj. specialize (Hw (S j) y Hj). rewrite <- Hw. do 3 f_equal. lia.
Qed.

(** Every chain has a descriptor of its own. *)
Lemma chains_le q free chains :
  vq_inv q free chains -> zlen free + zlen chains <= num (vr q).
Proof.
  intros Hi. pose proof (Permutation_length (inv_part _ _ _ Hi)) as HL.
  rewrite length_app, length_seqZ in HL. pose proof (vq_inv_num _ _ _ Hi).
  assert (length chains <= length (concat (map snd chains)))%nat.
  { pose proof (inv_chains _ _ _ Hi) as Hch. clear HL Hi.
    induction Hch as [|c cs (h & t & e & Hc & _) _ IH]; [done|].
    cbn. rewrite length_app, Hc. cbn. lia. }
  unfold zlen. lia.
Qed.

Section invariant.
Context {s : vsys} {free : list Z} {chains : list (positive * list Z)} {A L U D : Z} {la lu : list Z}.
Context (I : vsys_inv s free chains A L U D la lu).

Lemma vi_bound : zlen free + (zlen la + zlen (s_owned s) + zlen lu) <= num (vr (s_q s)).
Proof.
  pose proof (chains_le _ _ _ (vi_q _ _ _ _ _ _ _ _ _ I)) as HL.
  pose proof (Permutation_length (vi_heads _ _ _ _ _ _ _ _ _ I)) as HP.
  rewrite length_map, !length_app in HP. unfold zlen in *. lia.
Qed.

(** The driver sees new data exactly when the device has completed some. *)
Lemma hasdata_iff : virtqueue_hasdata (s_q s) = negb (bool_decide (lu = [])).
Proof.
  pose proof vi_bound as HB. pose proof (vq_inv_num _ _ _ (vi_q _ _ _ _ _ _ _ _ _ I)) as Hn.
  pose proof (vi_lu _ _ _ _ _ _ _ _ _ I) as HU.
  pose proof (zlen_nonneg free). pose proof (zlen_nonneg la). pose proof (zlen_nonneg (s_owned s)).
  unfold virtqueue_hasdata. f_equal.
  rewrite (vi_last_used _ _ _ _ _ _ _ _ _ I), (vi_used _ _ _ _ _ _ _ _ _ I).
  destruct (Z.eqb_spec (u16 D) (u16 U)) as [He|He].
  - symmetry in He. apply u16_inj in He; [|pose proof (zlen_nonneg lu); lia].
    symmetry. apply bool_decide_eq_true. destruct lu; [done|]. unfold zlen in HU. cbn in HU. lia.
  - symmetry. apply bool_decide_eq_false. intros ->. apply He. f_equal. unfold zlen in HU. cbn in HU. lia.
Qed.

(** The driver's dequeue, when there is data. *)
Lemma dequeue_reached x lu' :
  lu = x :: lu' ->
  exists c1 ck ds c2 len q', chains = c1 ++ (ck, ds) :: c2 /\ chain_head (ck, ds) = x /\
    virtqueue_buffer_dequeue (s_q s) =
      Some (num (vr (s_q s)) - zlen (ds ++ free), Some (Some ck, len), q') /\
    vq_inv q' (ds ++ free) (c1 ++ c2) /\ dequeued (s_q s) q'.
Proof.
  intros Hlu. pose proof hasdata_iff as Hdata. rewrite Hlu, bool_decide_false in Hdata by done.
  pose proof (vi_last_used _ _ _ _ _ _ _ _ _ I) as Hlast.
  pose proof (vi_q _ _ _ _ _ _ _ _ _ I) as Hq. pose proof (vq_inv_num _ _ _ Hq) as Hn.
  assert (Hx : x ∈ map chain_head chains).
  { rewrite (vi_heads _ _ _ _ _ _ _ _ _ I), Hlu. set_solver. }
  apply list_elem_of_In, in_map_iff in Hx as ([ck ds] & Hcx & Hin).
  apply list_elem_of_In, list_elem_of_split in Hin as (c1 & c2 & Hcs).
  rewrite Hcs in Hq.
  pose proof (vi_wu _ _ _ _ _ _ _ _ _ I) as Hw. rewrite Hlu in Hw.
  apply window_tail in Hw as [Hw _].
  destruct (zget (used_ring _) _) as [[id len]|] eqn:Hu; [|done]. cbn in Hw. simplify_eq.
  pose proof (inv_chains _ _ _ Hq) as Hch. apply Forall_app in Hch as [_ [Hck _]%Forall_cons].
  destruct Hck as (h & t & e & Hds & _). cbn in Hds. subst ds. cbn in *.
  assert (0 <= h < num (vr (s_q s))).
  { apply (vq_inv_range _ _ _ h Hq). rewrite map_app, concat_app. cbn. set_solver. }
  destruct (buffer_dequeue_spec (s_q s) free c1 ck (h :: t) c2 h len) as (q' & ? & ? & ?).
  - done.
  - exact Hdata.
  - rewrite Hlast, (u16_mod _ _ _ _ Hq). exact Hu.
  - cbn. f_equal. symmetry. apply wrap_small. lia.
  - exists c1, ck, (h :: t), c2, len, q'. done.
Qed.
End invariant.

Lemma head_of_free q free chains ds free' :
  vq_inv q free chains -> free = ds ++ free' -> 0 < zlen ds ->
  head ds = Some (head_free_desc q).
Proof.
  intros Hi -> Hl. destruct (inv_free _ _ _ Hi) as (e & Hf).
  destruct ds as [|x ds]; [unfold zlen in Hl; cbn in Hl; lia|]. destruct Hf as [-> _]. done.
Qed.

(** Each step of either party preserves the invariant. *)
Lemma inv_enqueue q a ow sent ret free chains A L U D la lu ck sg read write rc q' :
  vsys_inv (mk_vsys q a ow sent ret) free chains A L U D la lu ->
  0 <= read -> 0 <= write -> read + write <= zlen (sg_segs sg) ->
  virtqueue_buffer_enqueue q ck sg read write = Some (rc, q') ->
  exists free' chains' A' la',
    vsys_inv (mk_vsys q' a ow (if rc <? 0 then sent else ck :: sent) ret)
      free' chains' A' L U D la' lu.
Proof.
  intros I Hr Hw Hsg Henq. pose proof (vi_bound I) as HB. cbn in HB.
  pose proof (vi_q _ _ _ _ _ _ _ _ _ I) as Hq. pose proof (vq_inv_num _ _ _ Hq) as Hn. cbn in *.
  destruct (decide (1 <= read + write <= zlen free)) as [Ht|Ht].
  - destruct (buffer_enqueue_spec q free chains ck sg read write) as
      (q1 & ds & free' & Hfr & Hds & Heq & Hq' & He); [done..|lia|lia|].
    rewrite Heq in Henq. simplify_eq.
    pose proof (head_of_free q _ chains ds free' Hq eq_refl ltac:(lia)) as Hhd.
    pose proof (zlen_nonneg free'). destruct (Z.ltb_spec (zlen free') 0); [lia|].
    exists free', ((ck, ds) :: chains), (A + 1), (la ++ [head_free_desc q]).
    destruct I as [_ I1 I2 I3 I4 I5 I6 I7 I8 I9 I10]. destruct He as [E1 E2 [E3 E3'] [E4 [E5 _]] _].
    cbn in *. split; cbn; rewrite ?E1, ?E2, ?E3, ?E3', ?E4, ?E5; try done.
    + rewrite I1. apply u16_succ.
    + rewrite zlen_app. unfold zlen in *. cbn. lia.
    + rewrite I1, (u16_mod _ _ _ _ Hq). replace A with (L + zlen la) by lia.
      change (head_free_desc q) with (id (head_free_desc q)) at 2.
      apply window_snoc; [done|lia|apply (inv_avail _ _ _ Hq)|].
      rewrite zlen_app in HB. pose proof (zlen_nonneg ow). pose proof (zlen_nonneg lu). lia.
    + unfold chain_head at 1. cbn. rewrite Hhd. cbn. rewrite I9. solve_Permutation.
    + rewrite I10. solve_Permutation.
  - exists free, chains, A, la. unfold virtqueue_buffer_enqueue in Henq.
    rewrite (inv_count _ _ _ Hq) in Henq.
    destruct (_ || _) eqn:G; [by simplify_eq|]. destruct (Z.ltb_spec (zlen free) (read + write)); [|lia].
    by simplify_eq.
Qed.

Lemma inv_take q a ow sent ret free chains A L U D la lu h :
  vsys_inv (mk_vsys q a ow sent ret) free chains A L U D la lu ->
  a <> avail_idx (vr q) -> zget (avail_ring (vr q)) (a mod num (vr q)) = Some h ->
  exists la', vsys_inv (mk_vsys q (u16 (a + 1)) (h :: ow) sent ret) free chains A (L + 1) U D la' lu.
Proof.
  intros [I0 I1 I2 I3 I4 I5 I6 I7 I8 I9 I10] Hne Hget. cbn in *.
  destruct la as [|x la].
  { exfalso. apply Hne. rewrite I1, I2. f_equal. unfold zlen in I5. cbn in I5. lia. }
  apply window_tail in I7 as [I7 I7']. rewrite I2, (u16_mod _ _ _ _ I0) in Hget.
  rewrite Hget in I7. cbn in I7. injection I7 as ->. exists la. split; cbn; try done.
  - rewrite I2. apply u16_succ.
  - unfold zlen in *. cbn in *. lia.
  - rewrite I9. solve_Permutation.
Qed.

Lemma inv_complete q a ow1 h ow2 sent ret free chains A L U D la lu len ring :
  vsys_inv (mk_vsys q a (ow1 ++ h :: ow2) sent ret) free chains A L U D la lu ->
  zput (used_ring (vr q)) (used_idx (vr q) mod num (vr q)) (h, len) = Some ring ->
  vsys_inv (mk_vsys (set_vring q (set_used (vr q) (u16 (used_idx (vr q) + 1)) ring)) a
    (ow1 ++ ow2) sent ret) free chains A L (U + 1) D la (lu ++ [h]).
Proof.
  intros I Hput. pose proof (vi_bound I) as HB.
  destruct I as [I0 I1 I2 I3 I4 I5 I6 I7 I8 I9 I10]. cbn in *.
  pose proof (vq_inv_num _ _ _ I0) as Hn. pose proof (zlen_nonneg free). pose proof (zlen_nonneg la).
  pose proof (Z.mod_pos_bound (used_idx (vr q)) (num (vr q)) ltac:(lia)).
  rewrite zput_Some in Hput by (rewrite (inv_used _ _ _ I0); lia). simplify_eq.
  assert (Hlu : zlen lu < num (vr q)).
  { rewrite zlen_app in HB. pose proof (zlen_nonneg ow1). unfold zlen in *. cbn in *. lia. }
  split; cbn; try done.
  - destruct I0. split; cbn; try done. by rewrite zlen_put.
  - rewrite I3. apply u16_succ.
  - rewrite zlen_app. unfold zlen in *. cbn. lia.
  - rewrite I3, (u16_mod _ _ _ _ I0). replace U with (D + zlen lu) by lia.
    apply (window_snoc fst _ _ _ _ (h, len)); [done|lia|apply (inv_used _ _ _ I0)|done].
  - rewrite I9. solve_Permutation.
Qed.

Lemma inv_dequeue q a ow sent ret free chains A L U D la lu rc ck len q' :
  vsys_inv (mk_vsys q a ow sent ret) free chains A L U D la lu ->
  virtqueue_buffer_dequeue q = Some (rc, Some (Some ck, len), q') ->
  exists free' chains' lu',
    vsys_inv (mk_vsys q' a ow sent (ck :: ret)) free' chains' A L U (D + 1) la lu'.
Proof.
  intros I Hdeq. pose proof (hasdata_iff I) as Hdata. cbn in Hdata.
  destruct lu as [|x lu].
  { unfold virtqueue_buffer_dequeue in Hdeq. rewrite Hdata in Hdeq.
    rewrite bool_decide_true in Hdeq by done. done. }
  destruct (dequeue_reached I x lu eq_refl) as (c1 & ck' & ds & c2 & len' & q1 & Hc & Hx & Hd & Hq & Hs).
  cbn in *. rewrite Hd in Hdeq. simplify_eq. exists (ds ++ free), (c1 ++ c2), lu.
  destruct Hs as [[S1 S2] [S3 S4] [S5 _] S6]. destruct I as [I0 I1 I2 I3 I4 I5 I6 I7 I8 I9 I10].
  cbn in *. split; cbn; rewrite ?S1, ?S2, ?S3, ?S4, ?S5, ?S6; try done.
  - rewrite I4. apply u16_succ.
  - unfold zlen in *. cbn in *. lia.
  - by apply window_tail in I8 as [_ ?].
  - apply (Permutation_cons_inv (a := chain_head (ck, ds))).
    trans (map chain_head (c1 ++ (ck, ds) :: c2)); [rewrite !map_app; cbn; solve_Permutation|].
    rewrite I9. solve_Permutation.
  - rewrite I10, !map_app. cbn. solve_Permutation.
Qed.

Lemma vstep_inv s s' free chains A L U D la lu :
  vsys_inv s free chains A L U D la lu -> vstep s s' ->
  exists free' chains' A' L' U' D' la' lu', vsys_inv s' free' chains' A' L' U' D' la' lu'.
Proof.
  intros I Hs.
  destruct Hs as [????????? rc q' Hr Hw Hsg He|?????? Hne Hg|????????? Hp|???????? q' Hd].
  - destruct (inv_enqueue _ _ _ _ _ _ _ _ _ _ _ _ _ _ _ _ _ _ _ I Hr Hw Hsg He)
      as (? & ? & ? & ? & ?). eauto 10.
  - destruct (inv_take _ _ _ _ _ _ _ _ _ _ _ _ _ _ I Hne Hg) as (? & ?). eauto 10.
  - pose proof (inv_complete _ _ _ _ _ _ _ _ _ _ _ _ _ _ _ _ _ I Hp). eauto 10.
  - destruct (inv_dequeue _ _ _ _ _ _ _ _ _ _ _ _ _ _ _ _ _ I Hd) as (? & ? & ? & ?). eauto 10.
Qed.

Lemma init_inv k ev info :
  0 <= k <= 15 -> zlen info = 2 ^ k ->
  vsys_inv (vsys_init k ev info) (seqZ 0 (2 ^ k)) [] 0 0 0 0 [] [].
Proof. intros. split; try done. by apply create_inv. Qed.

Lemma reachable_inv k ev info s :
  0 <= k <= 15 -> zlen info = 2 ^ k -> rtc vstep (vsys_init k ev info) s ->
  exists free chains A L U D la lu, vsys_inv s free chains A L U D la lu.
Proof.
  intros Hk Hi. revert s. apply rtc_ind_r.
  - do 8 eexists. by apply init_inv.
  - intros s1 s2 _ Hs (free & chains & A & L & U & D & la & lu & I). by eapply vstep_inv.
Qed.

(** C8: No buffer is lost, duplicated or invented by a virtqueue, for any size
    that is a power of two up to 2^15 and any interleaving of driver enqueues
    and dequeues with a device that takes available heads and completes those
    it has taken, in any order and through any number of wrap-arounds of the
    16-bit indices.  In every reachable state the cookies enqueued are those
    returned together with those of the buffers in flight, the descriptors in
    flight and the free ones are all the descriptors, and the driver's dequeue
    stays inside its arrays and passes its assertion: it reports "no message"
    exactly when the device has completed nothing new, and else returns the
    cookie of a buffer in flight. *)
Theorem vring_exactly_once k ev info s :
  0 <= k <= 15 -> zlen info = 2 ^ k -> rtc vstep (vsys_init k ev info) s ->
  exists free chains, vq_inv (s_q s) free chains /\
    (s_sent s ≡ₚ s_returned s ++ map fst chains) /\
    desc_avail (s_q s) + zlen (concat (map snd chains)) = num (vr (s_q s)) /\
    if virtqueue_hasdata (s_q s)
    then exists rc ck len q', ck ∈ map fst chains /\
           virtqueue_buffer_dequeue (s_q s) = Some (rc, Some (Some ck, len), q')
    else virtqueue_buffer_dequeue (s_q s) = Some (- ENOMSG, None, s_q s).
Proof.
  intros Hk Hi (free & chains & A & L & U & D & la & lu & I)%reachable_inv; [|done..].
  pose proof (hasdata_iff I) as Hdata. pose proof (vi_q _ _ _ _ _ _ _ _ _ I) as Hq.
  exists free, chains. split_and!; [done|apply (vi_cookies _ _ _ _ _ _ _ _ _ I)|..].
  - rewrite (inv_count _ _ _ Hq). pose proof (Permutation_length (inv_part _ _ _ Hq)) as HL.
    pose proof (vq_inv_num _ _ _ Hq). rewrite length_app, length_seqZ in HL. unfold zlen. lia.
  - destruct (virtqueue_hasdata (s_q s)) eqn:Hd.
    + destruct lu as [|x lu]; [by rewrite bool_decide_true in Hdata|].
      destruct (dequeue_reached I x lu eq_refl) as (c1 & ck & ds & c2 & len & q' & -> & _ & Hdeq & _).
      do 4 eexists. split; [|exact Hdeq]. rewrite map_app. cbn. set_solver.
    + unfold virtqueue_buffer_dequeue. by rewrite Hd.
Qed.
End system.

(** A run: one buffer is sent, taken and completed. *)
Definition sample_info : list virtqueue_desc_info := repeat (mk_info None 0) 2.
Definition sample_q1 : virtqueue :=
  match virtqueue_buffer_enqueue (virtqueue_create 2 false sample_info) 7
          (mk_sglist [mk_seg 4096 64] 1 1 1) 1 0 with
  | Some (_, q) => q
  | None => virtqueue_create 2 false sample_info
  end.
Definition sample_sys : vsys :=
  mk_vsys (set_vring sample_q1 (set_used (vr sample_q1) 1 [(0, 64); (0, 0)])) 1 [] [7%positive] [].

Lemma vring_exactly_once_witness :
  exists free chains, vq_inv (s_q sample_sys) free chains /\
    (s_sent sample_sys ≡ₚ s_returned sample_sys ++ map fst chains) /\
    desc_avail (s_q sample_sys) + zlen (concat (map snd chains)) = num (vr (s_q sample_sys)) /\
    if virtqueue_hasdata (s_q sample_sys)
    then exists rc ck len q', ck ∈ map fst chains /\
           virtqueue_buffer_dequeue (s_q sample_sys) = Some (rc, Some (Some ck, len), q')
    else virtqueue_buffer_dequeue (s_q sample_sys) = Some (- ENOMSG, None, s_q sample_sys).
Proof.
  apply (vring_exactly_once 1 false sample_info); [lia|done|].
  eapply rtc_l.
  { apply (V_enqueue _ 0 [] [] [] 7 (mk_sglist [mk_seg 4096 64] 1 1 1) 1 0 1 sample_q1); done. }
  eapply rtc_l; [apply (V_take _ 0 [] [7%positive] [] 0); done|].
  eapply rtc_l; [apply (V_complete _ 1 [] 0 [] [7%positive] [] 64 [(0, 64); (0, 0)]); done|].
  apply rtc_refl.
Defined.

(** ** Further properties of the queue operations *)

(** The outcome of every enqueue on a consistent queue.  A request for no
    descriptors or for more than the ring has returns -EINVAL, one for more
    than are free returns -ENOSPC, both without any change; otherwise the
    number of descriptors left is returned, the first free descriptors
    describe the segments one by one (address, length, the device-writable
    flag from the first write buffer on, the chaining flag on all but the
    last), and the next slot of the available ring holds the head. *)
Theorem enqueue_outcome q free chains ck sg read write :
  vq_inv q free chains -> 0 <= read -> 0 <= write -> read + write <= zlen (sg_segs sg) ->
  let total := read + write in
  if (total <? 1) || (num (vr q) <? total)
  then virtqueue_buffer_enqueue q ck sg read write = Some (- EINVAL, q)
  else if zlen free <? total
  then virtqueue_buffer_enqueue q ck sg read write = Some (- ENOSPC, q)
  else exists q' ds free', free = ds ++ free' /\ zlen ds = total /\
    virtqueue_buffer_enqueue q ck sg read write = Some (zlen free', q') /\
    vq_inv q' free' ((ck, ds) :: chains) /\
    avail_idx (vr q') = u16 (avail_idx (vr q) + 1) /\
    head ds = zget (avail_ring (vr q')) (avail_idx (vr q) mod num (vr q)) /\
    forall k x s, ds !! k = Some x -> sg_segs sg !! k = Some s ->
      exists n, zget (desc (vr q')) x = Some (mk_desc (ss_paddr s) (u32 (ss_len s))
        (Z.lor (if read <=? Z.of_nat k then VRING_DESC_F_WRITE else 0)
               (if Z.of_nat k <? total - 1 then VRING_DESC_F_NEXT else 0)) n).
Proof.
  intros Hi Hr Hw Hsg. cbv zeta. destruct (_ || _) eqn:G.
  { unfold virtqueue_buffer_enqueue. by rewrite G. }
  destruct (Z.ltb_spec (zlen free) (read + write)) as [Hs|Hs].
  { unfold virtqueue_buffer_enqueue. rewrite G, (inv_count _ _ _ Hi).
    by rewrite (proj2 (Z.ltb_lt _ _) Hs). }
  destruct (buffer_enqueue_spec q free chains ck sg read write) as
    (q' & ds & free' & Hf & Hl & He & Hi' & [E1 E2 _ _ E5]); [done|done|done|lia|lia|].
  exists q', ds, free'. split_and!; try done.
  rewrite (head_of_free q free chains ds free') by (done || lia). rewrite E2.
  pose proof (vq_inv_num _ _ _ Hi) as Hn.
  pose proof (Z.mod_pos_bound (avail_idx (vr q)) (num (vr q)) ltac:(lia)).
  rewrite zget_put by (rewrite ?(inv_avail _ _ _ Hi); lia). by rewrite decide_True.
Qed.

Lemma enqueue_outcome_witness :
  exists q' ds free', seqZ 0 2 = ds ++ free' /\ zlen ds = 1 /\
    virtqueue_buffer_enqueue (virtqueue_create (2 ^ 1) false sample_info) 7
      (mk_sglist [mk_seg 4096 64] 1 1 1) 1 0 = Some (zlen free', q') /\
    vq_inv q' free' [(7%positive, ds)] /\ avail_idx (vr q') = u16 (0 + 1) /\
    head ds = zget (avail_ring (vr q')) (0 mod 2) /\
    forall k x s, ds !! k = Some x -> [mk_seg 4096 64] !! k = Some s ->
      exists n, zget (desc (vr q')) x = Some (mk_desc (ss_paddr s) (u32 (ss_len s))
        (Z.lor (if 1 <=? Z.of_nat k then VRING_DESC_F_WRITE else 0)
               (if Z.of_nat k <? 1 - 1 then VRING_DESC_F_NEXT else 0)) n).
Proof.
  apply (enqueue_outcome (virtqueue_create (2 ^ 1) false sample_info) (seqZ 0 2) []
    7 (mk_sglist [mk_seg 4096 64] 1 1 1) 1 0); try lia; [|done].
  apply create_inv; [lia|done].
Defined.

(** The event-index test notifies exactly when the free-running index has
    passed the event index since the last notification, at every wrap-around
    of the 16-bit indices. *)
Theorem need_event_passed e new old :
  0 <= new - old < 2 ^ 16 -> new - 2 ^ 16 <= e < new ->
  vring_need_event (u16 e) (u16 new) (u16 old) = bool_decide (old <= e).
Proof.
  intros Ho He. unfold vring_need_event.
  assert (E1 : u16 (u16 new - u16 e - 1) = new - e - 1).
  { unfold wrap. replace (new mod 2 ^ 16 - e mod 2 ^ 16 - 1)
      with (new mod 2 ^ 16 - (e mod 2 ^ 16 + 1)) by lia.
    rewrite <- Zminus_mod_idemp_r, Z.add_mod_idemp_l, Zminus_mod_idemp_r, Zminus_mod_idemp_l by lia.
    rewrite Z.mod_small; lia. }
  assert (E2 : u16 (u16 new - u16 old) = new - old).
  { unfold wrap. rewrite Zminus_mod_idemp_r, Zminus_mod_idemp_l. apply Z.mod_small. lia. }
  rewrite E1, E2. case_bool_decide; [apply Z.ltb_lt|apply Z.ltb_ge]; lia.
Qed.

Lemma need_event_passed_witness :
  vring_need_event (u16 65535) (u16 65537) (u16 65534) = bool_decide (65534 <= 65535).
Proof. apply need_event_passed; lia. Defined.

(** The interrupt of the queue is armed for the next completion. *)
Definition intr_armed (q : virtqueue) : Prop :=
  if uses_event_idx q then used_event (vr q) = last_used_desc_idx q
  else flag_set (avail_flags (vr q)) VRING_AVAIL_F_NO_INTERRUPT = false.

(** Enabling interrupts loses no wake-up, whatever the device completes
    while they are being enabled: a return value of 0 means that nothing is
    pending and the interrupt is armed for the next completion, 1 means that
    there is data to process. *)
Theorem intr_enable_no_lost_wakeup device q :
  (forall v, avail_flags (device v) = avail_flags v /\ used_event (device v) = used_event v) ->
  0 <= last_used_desc_idx q < 2 ^ 16 ->
  let '(rc, q') := virtqueue_intr_enable device q in
  (rc = 0 /\ virtqueue_hasdata q' = false /\ intr_armed q') \/
  (rc = 1 /\ virtqueue_hasdata q' = true).
Proof.
  intros Hdev Hlast. unfold virtqueue_intr_enable.
  destruct (virtqueue_hasdata q) eqn:Hq; cbn [negb]; [by right|].
  set (q1 := if uses_event_idx q then _ else _). set (q2 := set_vring q1 (device (vr q1))).
  assert (Harm : intr_armed q2).
  { unfold intr_armed, q2, q1. cbn. destruct (uses_event_idx q) eqn:He; cbn; rewrite He.
    - destruct (Hdev (set_used_event (vr q) (u16 (last_used_desc_idx q + 0)))) as [_ ->].
      cbn. rewrite Z.add_0_r. by apply wrap_small.
    - destruct (Hdev (set_avail_flags (vr q)
        (Z.ldiff (avail_flags (vr q)) VRING_AVAIL_F_NO_INTERRUPT))) as [-> _].
      cbn. unfold flag_set. by rewrite Z.land_ldiff. }
  destruct (virtqueue_hasdata q2) eqn:H2.
  - right. split; [done|]. unfold virtqueue_intr_disable. by destruct (uses_event_idx q2).
  - by left.
Qed.

Lemma intr_enable_no_lost_wakeup_witness :
  let '(rc, q') := virtqueue_intr_enable
      (fun v => set_used v 1 [(0, 64); (0, 0)]) sample_q1 in
  (rc = 0 /\ virtqueue_hasdata q' = false /\ intr_armed q') \/
  (rc = 1 /\ virtqueue_hasdata q' = true).
Proof.
  apply (intr_enable_no_lost_wakeup (fun v => set_used v 1 [(0, 64); (0, 0)]) sample_q1);
    [done|vm_compute; done].
Defined.

(** The memory of a ring is large enough and its parts do not overlap: in
    memory aligned as required, the available ring with its event field
    follows the descriptor table and ends before the used ring starts, and the
    used ring with its event field ends exactly at the computed size. *)
Theorem vring_layout p n a :
  0 <= n -> 0 <= a -> 0 <= p -> p mod 2 ^ a = 0 ->
  let avail := p + vring_avail_off n in
  let used := vring_used_addr p n (2 ^ a) in
  avail + (sizeof_avail_hdr + n * 2 + 2) <= used /\ used mod 2 ^ a = 0 /\
  used + (sizeof_used_hdr + n * sizeof_used_elem + 2) = p + vring_size n (2 ^ a).
Proof.
  intros Hn Ha Hp Hal. cbv zeta. unfold vring_used_addr, vring_size, vring_avail_off.
  pose proof (Z.pow_pos_nonneg 2 a ltac:(lia) Ha) as Hpow.
  assert (Hld : forall x, Z.ldiff x (2 ^ a - 1) = x / 2 ^ a * 2 ^ a).
  { intros x. replace (2 ^ a - 1) with (Z.ones a) by (rewrite Z.ones_equiv; lia).
    rewrite Z.ldiff_ones_r, Z.shiftl_mul_pow2, Z.shiftr_div_pow2 by lia. done. }
  rewrite !Hld. set (s := n * sizeof_desc + (sizeof_avail_hdr + n * 2 + 2)).
  replace (p + n * sizeof_desc + sizeof_avail_hdr + n * 2 + 2 + 2 ^ a - 1)
    with (p + (s + 2 ^ a - 1)) by lia.
  apply Z.div_exact in Hal; [|lia]. set (k := p / 2 ^ a) in *.
  replace (p + (s + 2 ^ a - 1)) with (s + 2 ^ a - 1 + k * 2 ^ a) by lia.
  rewrite Z.div_add by lia.
  pose proof (Z.div_mod (s + 2 ^ a - 1) (2 ^ a) ltac:(lia)).
  pose proof (Z.mod_pos_bound (s + 2 ^ a - 1) (2 ^ a) Hpow).
  split_and!; [lia|apply Z.mod_mul; lia|lia].
Qed.

Lemma vring_layout_witness :
  let avail := 8192 + vring_avail_off 256 in
  let used := vring_used_addr 8192 256 (2 ^ 12) in
  avail + (sizeof_avail_hdr + 256 * 2 + 2) <= used /\ used mod 2 ^ 12 = 0 /\
  used + (sizeof_used_hdr + 256 * sizeof_used_elem + 2) = 8192 + vring_size 256 (2 ^ 12).
Proof. apply (vring_layout 8192 256 12); [lia|lia|lia|done]. Defined.
