(* ===== verification/VringUse.v ===== *)
(** * A virtqueue as its driver sees it

    [flight q la ow cks]: the queue [q] and a device that has read the
    available ring up to the index [la] and holds the heads [ow] are in a
    consistent state, with the buffers [cks] in flight.  The operations of
    Vring.v in these terms. *)

From stdpp Require Import prelude gmap.
From S2P Require Import Prelude Sglist Vring.

Definition flight (q : virtqueue) (la : Z) (ow : list Z) (cks : list positive) : Prop :=
  exists sent ret free chains A L U D la' lu,
    vsys_inv (mk_vsys q la ow sent ret) free chains A L U D la' lu /\ map fst chains ≡ₚ cks.

#[export] Instance flight_proper q la ow : Proper ((≡ₚ) ==> iff) (flight q la ow).
Proof.
  intros l1 l2 Hl. unfold flight. by setoid_rewrite Hl.
Qed.

Lemma flight_num q la ow cks : flight q la ow cks -> 0 < num (vr q) <= 2 ^ 15 /\ zlen cks <= num (vr q).
Proof.
  intros (sent & ret & free & chains & A & L & U & D & la' & lu & I & Hp).
  pose proof (vi_q _ _ _ _ _ _ _ _ _ I) as Hq. cbn in Hq. split; [by eapply vq_inv_num|].
  pose proof (chains_le _ _ _ Hq) as Hc. apply Permutation_length in Hp. rewrite length_map in Hp.
  unfold zlen in *. lia.
Qed.

(** The queue's fields that matter to the device and to the driver. *)
Record same_rings (q q' : virtqueue) : Prop := {
  sr_num : num (vr q') = num (vr q);
  sr_desc : desc (vr q') = desc (vr q);
  sr_avail : avail_idx (vr q') = avail_idx (vr q) /\ avail_ring (vr q') = avail_ring (vr q);
  sr_used : used_idx (vr q') = used_idx (vr q) /\ used_ring (vr q') = used_ring (vr q);
  sr_free : desc_avail q' = desc_avail q /\ head_free_desc q' = head_free_desc q;
  sr_last : last_used_desc_idx q' = last_used_desc_idx q;
  sr_info : vq_info q' = vq_info q
}.

Lemma same_rings_notify q : same_rings q (virtqueue_host_notify q).
Proof. unfold virtqueue_host_notify. by case_match. Qed.
Lemma same_rings_disable q : same_rings q (virtqueue_intr_disable q).
Proof. unfold virtqueue_intr_disable. by case_match. Qed.

Lemma vq_inv_same q q' free chains : same_rings q q' -> vq_inv q free chains -> vq_inv q' free chains.
Proof.
  intros [Hn Hd [_ Ha] [_ Hu] [Hf Hh] _ Hi] [? ? ? ? ? ? ? ? ? Hc ?].
  split; rewrite ?Hn, ?Hd, ?Ha, ?Hu, ?Hf, ?Hh, ?Hi; try done.
  eapply Forall_impl; [exact Hc|]. intros c. unfold chain_ok. by rewrite Hd, Hi.
Qed.

Lemma flight_same q q' la ow cks : same_rings q q' -> flight q la ow cks -> flight q' la ow cks.
Proof.
  intros Hs (sent & ret & free & chains & A & L & U & D & la' & lu & I & Hp).
  exists sent, ret, free, chains, A, L, U, D, la', lu. split; [|done].
  pose proof Hs as [Hn _ [Ha Har] [Hu Hur] _ Hl _].
  destruct I as [Hq ? ? ? ? ? ? ? ? ? ?]. cbn in *.
  split; cbn; rewrite ?Hn, ?Ha, ?Har, ?Hu, ?Hur, ?Hl; try done. by eapply vq_inv_same.
Qed.

(** ** The lengths the device reports *)

(** Every completion that is still to be read reports at least [m] bytes. *)
Definition lens_ok (m : Z) (q : virtqueue) : Prop :=
  forall k h len, 0 <= k < u16 (used_idx (vr q) - last_used_desc_idx q) ->
    zget (used_ring (vr q)) ((last_used_desc_idx q + k) mod num (vr q)) = Some (h, len) -> m <= len.

Lemma lens_proper m q q' :
  num (vr q') = num (vr q) -> used_idx (vr q') = used_idx (vr q) ->
  used_ring (vr q') = used_ring (vr q) -> last_used_desc_idx q' = last_used_desc_idx q ->
  lens_ok m q -> lens_ok m q'.
Proof. unfold lens_ok. intros -> -> -> ->. done. Qed.

Lemma lens_same m q q' : same_rings q q' -> lens_ok m q -> lens_ok m q'.
Proof. intros [? ? ? [? ?] ? ? ?]. by apply lens_proper. Qed.

(** Reading a completion. *)
Lemma lens_dequeue m q q' free chains rc ck len :
  vq_inv q free chains -> dequeued q q' -> virtqueue_hasdata q = true ->
  0 <= last_used_desc_idx q < 2 ^ 16 -> 0 <= used_idx (vr q) < 2 ^ 16 ->
  virtqueue_buffer_dequeue q = Some (rc, Some (ck, len), q') ->
  lens_ok m q -> m <= len /\ lens_ok m q'.
Proof.
  intros Hq [_ [Hu Hr] [Hn _] Hl] Hh HD HU Hd Hlens.
  assert (Hpos : 0 < u16 (used_idx (vr q) - last_used_desc_idx q) < 2 ^ 16).
  { pose proof (wrap_range 16 (used_idx (vr q) - last_used_desc_idx q)).
    unfold virtqueue_hasdata in Hh. destruct (Z.eq_dec (u16 (used_idx (vr q) - last_used_desc_idx q)) 0); [|lia].
    unfold wrap in *. exfalso. Z.to_euclidean_division_equations. lia. }
  split.
  - unfold virtqueue_buffer_dequeue in Hd. rewrite Hh in Hd. cbn in Hd.
    rewrite (land_mask _ _ _ _ Hq) in Hd.
    destruct (zget (used_ring (vr q)) _) as [[id len']|] eqn:Hz; [|done]. cbn in Hd.
    assert (len' = len) as ->.
    { repeat (apply bind_Some in Hd as (? & _ & Hd)). congruence. }
    apply (Hlens 0 id len); [lia|]. by rewrite Z.add_0_r.
  - intros k h len' Hk Hz. rewrite Hu, Hr, Hn, Hl in *. apply (Hlens (k + 1) h len').
    + unfold wrap in *. Z.to_euclidean_division_equations. lia.
    + rewrite <- Hz. f_equal. rewrite <- (Zplus_mod_idemp_l (u16 _)), (u16_mod _ _ _ _ Hq), Zplus_mod_idemp_l.
      f_equal. lia.
Qed.

Lemma flight_dequeue q la ow cks :
  flight q la ow cks ->
  (virtqueue_hasdata q = false /\ virtqueue_buffer_dequeue q = Some (- ENOMSG, None, q)) \/
  (virtqueue_hasdata q = true /\ exists rc ck len q' cks',
     virtqueue_buffer_dequeue q = Some (rc, Some (Some ck, len), q') /\
     0 <= rc <= num (vr q) /\ cks ≡ₚ ck :: cks' /\ flight q' la ow cks' /\ num (vr q') = num (vr q) /\
     forall m, lens_ok m q -> m <= len /\ lens_ok m q').
Proof.
  intros (sent & ret & free & chains & A & L & U & D & la' & lu & I & Hp).
  pose proof (hasdata_iff I) as Hh. cbn in Hh. destruct lu as [|x lu'].
  { left. rewrite bool_decide_true in Hh by done. split; [done|].
    unfold virtqueue_buffer_dequeue. by rewrite Hh. }
  right. split; [done|].
  destruct (dequeue_reached I x lu' eq_refl) as (c1 & ck & ds & c2 & len & q' & _ & _ & Hd & Hq' & Hdq).
  pose proof Hdq as [_ _ [Hn _] _].
  cbn in Hd, Hq', Hn. pose proof (vq_inv_free_le _ _ _ Hq') as Hle. rewrite Hn in Hle.
  destruct (inv_dequeue _ _ _ _ _ _ _ _ _ _ _ _ _ _ _ _ _ I Hd) as (free' & chains' & lu2 & I').
  pose proof (vi_cookies _ _ _ _ _ _ _ _ _ I) as C1. pose proof (vi_cookies _ _ _ _ _ _ _ _ _ I') as C2.
  cbn in C1, C2. exists (num (vr q) - zlen (ds ++ free)), ck, len, q', (map fst chains').
  split; [done|]. split_and!; [lia|pose proof (zlen_nonneg (ds ++ free)); lia| | |done|].
  - rewrite <- Hp. apply (Permutation_app_inv_l ret). rewrite <- C1, C2.
    by rewrite <- Permutation_middle.
  - exists sent, (ck :: ret), free', chains', A, L, U, (D + 1), la', lu2. done.
  - intros m Hm. pose proof (vi_used _ _ _ _ _ _ _ _ _ I) as HU. pose proof (vi_last_used _ _ _ _ _ _ _ _ _ I) as HD.
    cbn in HU, HD. eapply (lens_dequeue m q q'); [apply (vi_q _ _ _ _ _ _ _ _ _ I)|done|done| | |done|done];
      [rewrite HD|rewrite HU]; by apply wrap_range.
Qed.

Lemma flight_enqueue q la ow cks ck sg read write :
  flight q la ow cks -> 0 <= read -> 0 <= write -> read + write <= zlen (sg_segs sg) ->
  exists rc q', virtqueue_buffer_enqueue q ck sg read write = Some (rc, q') /\
    num (vr q') = num (vr q) /\
    ((rc = - EINVAL /\ q' = q /\ (read + write < 1 \/ num (vr q) < read + write)) \/
     (rc = - ENOSPC /\ q' = q /\ cks <> [] /\ desc_avail q < read + write) \/
     (0 <= rc /\ flight q' la ow (ck :: cks) /\ forall m, lens_ok m q -> lens_ok m q')).
Proof.
  intros (sent & ret & free & chains & A & L & U & D & la' & lu & I & Hp) Hr Hw Hs.
  pose proof (vi_q _ _ _ _ _ _ _ _ _ I) as Hq. cbn in Hq.
  destruct (decide (read + write < 1 \/ num (vr q) < read + write)) as [Hb|Hb].
  { exists (- EINVAL), q. unfold virtqueue_buffer_enqueue.
    replace ((read + write <? 1) || (num (vr q) <? read + write)) with true by lia.
    split; [done|]. auto. }
  destruct (decide (zlen free < read + write)) as [Hf|Hf].
  { exists (- ENOSPC), q. unfold virtqueue_buffer_enqueue.
    replace ((read + write <? 1) || (num (vr q) <? read + write)) with false by lia.
    rewrite (inv_count _ _ _ Hq). replace (zlen free <? read + write) with true by lia.
    split; [done|]. split; [done|]. right; left. split_and!; [done..| |done]. intros ->.
    apply Permutation_nil_r in Hp. destruct chains; [|done].
    pose proof (Permutation_length (inv_part _ _ _ Hq)) as Hl. cbn in Hl.
    rewrite app_nil_r, length_seqZ in Hl. unfold zlen in Hf. lia. }
  destruct (buffer_enqueue_spec q free chains ck sg read write) as (q' & ds & free' & _ & _ & He & _ & Hen);
    [done|lia..|].
  exists (zlen free'), q'. split; [done|]. split; [apply Hen|]. right; right.
  split; [apply zlen_nonneg|]. split; cycle 1.
  { intros m. destruct Hen as [_ _ [? ?] (? & ? & _) _]. by apply lens_proper. }
  destruct (inv_enqueue _ _ _ _ _ _ _ _ _ _ _ _ _ _ _ _ _ _ _ I Hr Hw Hs He)
    as (free2 & chains2 & A2 & la2 & I').
  pose proof (zlen_nonneg free'). replace (zlen free' <? 0) with false in I' by lia.
  pose proof (vi_cookies _ _ _ _ _ _ _ _ _ I) as C1. pose proof (vi_cookies _ _ _ _ _ _ _ _ _ I') as C2.
  cbn in C1, C2. exists (ck :: sent), ret, free2, chains2, A2, L, U, D, la2, lu. split; [done|].
  apply (Permutation_app_inv_l ret). rewrite <- C2, C1, Hp. by rewrite <- Permutation_middle.
Qed.
