(* ===== verification/Vsock.v ===== *)
(** * The vsock core (lib/ukvsockdev/vsock.c)

    The sockets, the table of bound and connected sockets, the handlers the
    transport driver calls and the operations posix-socket calls.  The model
    is parametric in the driver: [P] is the driver's part of a socket, [Q] its
    part of an accept entry, [D] its own state, and [struct uk_vsockdev_ops]
    is a record of computations.  Sockets, accept entries and socket files are
    objects of a store, addressed by identifiers; using one that does not
    exist (NULL, or freed) aborts, like a failed [UK_ASSERT]. *)

From stdpp Require Import prelude gmap.
From S2P Require Import Prelude Tree VsockBuffer Netbuf.

(** ** Constants *)

Definition UK_VSOCK_CID_ANY : Z := u32 (-1).
Definition UK_VSOCK_PORT_ANY : Z := u32 (-1).
Definition VMADDR_CID_ANY : Z := u32 (-1).
Definition VMADDR_PORT_ANY : Z := u32 (-1).
Definition AF_VSOCK : Z := 40.
Definition SOCK_STREAM : Z := 1.
Definition SOCK_SEQPACKET : Z := 5.
Definition SHUT_RD : Z := 0.
Definition SHUT_WR : Z := 1.
Definition SHUT_RDWR : Z := 2.
Definition SOL_SOCKET : Z := 1.
Definition SO_ERROR : Z := 4.
Definition EPOLLIN : Z := 1.
Definition EPOLLOUT : Z := 4.
Definition EPOLLERR : Z := 8.
Definition EPOLLHUP : Z := 16.
Definition EPOLLRDHUP : Z := 8192.

(** ** Data *)

Record uk_vsockaddr : Type := mk_addr { a_cid : Z; a_port : Z }.

Inductive uk_vsock_state : Set :=
  | READY | CLOSED | BOUND | WAIT_CONNECT | LISTENING | OPEN.

#[export] Instance uk_vsock_state_eq : EqDecision uk_vsock_state.
Proof. solve_decision. Defined.
#[export] Instance uk_vsockaddr_eq : EqDecision uk_vsockaddr.
Proof. solve_decision. Defined.

Record uk_vsock : Type := mk_vsock {
  v_state : uk_vsock_state;
  v_rx_shutdown : bool;
  v_tx_shutdown : bool;
  v_so_error : Z;
  v_sock_type : Z;
  v_local : uk_vsockaddr;
  v_peer : uk_vsockaddr;
  v_rx : uk_vsock_buffer;
  v_accept_queue : list positive;
  v_accept_queue_length : Z;
  v_accept_queue_limit : Z;
  v_posix_sock : option positive
}.

Definition set_state (s : uk_vsock) (x : uk_vsock_state) : uk_vsock :=
  mk_vsock x (v_rx_shutdown s) (v_tx_shutdown s) (v_so_error s) (v_sock_type s) (v_local s)
    (v_peer s) (v_rx s) (v_accept_queue s) (v_accept_queue_length s) (v_accept_queue_limit s)
    (v_posix_sock s).
Definition set_rx_shutdown (s : uk_vsock) (x : bool) : uk_vsock :=
  mk_vsock (v_state s) x (v_tx_shutdown s) (v_so_error s) (v_sock_type s) (v_local s)
    (v_peer s) (v_rx s) (v_accept_queue s) (v_accept_queue_length s) (v_accept_queue_limit s)
    (v_posix_sock s).
Definition set_tx_shutdown (s : uk_vsock) (x : bool) : uk_vsock :=
  mk_vsock (v_state s) (v_rx_shutdown s) x (v_so_error s) (v_sock_type s) (v_local s)
    (v_peer s) (v_rx s) (v_accept_queue s) (v_accept_queue_length s) (v_accept_queue_limit s)
    (v_posix_sock s).
Definition set_so_error (s : uk_vsock) (x : Z) : uk_vsock :=
  mk_vsock (v_state s) (v_rx_shutdown s) (v_tx_shutdown s) x (v_sock_type s) (v_local s)
    (v_peer s) (v_rx s) (v_accept_queue s) (v_accept_queue_length s) (v_accept_queue_limit s)
    (v_posix_sock s).
Definition set_local (s : uk_vsock) (x : uk_vsockaddr) : uk_vsock :=
  mk_vsock (v_state s) (v_rx_shutdown s) (v_tx_shutdown s) (v_so_error s) (v_sock_type s) x
    (v_peer s) (v_rx s) (v_accept_queue s) (v_accept_queue_length s) (v_accept_queue_limit s)
    (v_posix_sock s).
Definition set_peer (s : uk_vsock) (x : uk_vsockaddr) : uk_vsock :=
  mk_vsock (v_state s) (v_rx_shutdown s) (v_tx_shutdown s) (v_so_error s) (v_sock_type s)
    (v_local s) x (v_rx s) (v_accept_queue s) (v_accept_queue_length s) (v_accept_queue_limit s)
    (v_posix_sock s).
Definition set_rx (s : uk_vsock) (x : uk_vsock_buffer) : uk_vsock :=
  mk_vsock (v_state s) (v_rx_shutdown s) (v_tx_shutdown s) (v_so_error s) (v_sock_type s)
    (v_local s) (v_peer s) x (v_accept_queue s) (v_accept_queue_length s)
    (v_accept_queue_limit s) (v_posix_sock s).
Definition set_queue (s : uk_vsock) (q : list positive) (n : Z) : uk_vsock :=
  mk_vsock (v_state s) (v_rx_shutdown s) (v_tx_shutdown s) (v_so_error s) (v_sock_type s)
    (v_local s) (v_peer s) (v_rx s) q n (v_accept_queue_limit s) (v_posix_sock s).
Definition set_queue_limit (s : uk_vsock) (x : Z) : uk_vsock :=
  mk_vsock (v_state s) (v_rx_shutdown s) (v_tx_shutdown s) (v_so_error s) (v_sock_type s)
    (v_local s) (v_peer s) (v_rx s) (v_accept_queue s) (v_accept_queue_length s) x
    (v_posix_sock s).
Definition set_posix_sock (s : uk_vsock) (x : option positive) : uk_vsock :=
  mk_vsock (v_state s) (v_rx_shutdown s) (v_tx_shutdown s) (v_so_error s) (v_sock_type s)
    (v_local s) (v_peer s) (v_rx s) (v_accept_queue s) (v_accept_queue_length s)
    (v_accept_queue_limit s) x.

(** [uk_vsock_init]: a zeroed structure with a receive buffer of 4096 bytes.
    The return value and the initialised socket. *)
Definition RX_BUFSIZE : Z := 4096.
Definition uk_vsock_init (mem : option (list Z)) (sock_type : Z) : Z * option uk_vsock :=
  let '(rc, b) := uk_vsock_buffer_init mem RX_BUFSIZE in
  match b with
  | None => (rc, None)
  | Some b =>
      (0, Some (mk_vsock READY false false 0 sock_type (mk_addr 0 0) (mk_addr 0 0) b [] 0 0 None))
  end.

(** A socket file of posix-socket: [struct socket_alloc] with its node, the
    node it hides (an AF_INET socket behind a vsock one) and its poll events. *)
Record posix_socket_node : Type := mk_node { n_data : option positive; n_driver : option Z }.
Record socket_alloc : Type := mk_alloc {
  al_node : posix_socket_node;
  al_stub : posix_socket_node;
  al_events : Z
}.

(** ** Connection identifiers *)

Definition MASK_LOCAL_CID : Z := UK_BIT 0.
Definition MASK_LOCAL_PORT : Z := UK_BIT 1.
Definition MASK_PEER_CID : Z := UK_BIT 2.
Definition MASK_PEER_PORT : Z := UK_BIT 3.

Record uk_vsock_conn_id : Type := mk_id {
  id_type : Z;
  id_local : uk_vsockaddr;
  id_peer : uk_vsockaddr;
  id_mask : Z
}.

(** One [CMP_ID]: the result if the fields decide, else the rest. *)
Definition CMP_ID (masks mask x y : Z) (k : Z) : Z :=
  if negb (x =? y) && negb (flag_set masks mask) then (if x <? y then -1 else 1) else k.

Definition uk_vsock_sockaddr_cmp (a b : uk_vsock_conn_id) : Z :=
  let masks := Z.lor (id_mask a) (id_mask b) in
  if negb (id_type a =? id_type b) then (if id_type a <? id_type b then -1 else 1)
  else
    CMP_ID masks MASK_LOCAL_CID (a_cid (id_local a)) (a_cid (id_local b))
      (CMP_ID masks MASK_LOCAL_PORT (a_port (id_local a)) (a_port (id_local b))
        (CMP_ID masks MASK_PEER_CID (a_cid (id_peer a)) (a_cid (id_peer b))
          (CMP_ID masks MASK_PEER_PORT (a_port (id_peer a)) (a_port (id_peer b)) 0))).

Definition uk_vsock_sockaddr_key (s : uk_vsock) : uk_vsock_conn_id :=
  mk_id (v_sock_type s) (v_local s) (v_peer s) 0.

(** The key of a socket given by its identifier. *)
Definition key_of (m : gmap positive uk_vsock) (i : positive) : uk_vsock_conn_id :=
  match m !! i with
  | Some s => uk_vsock_sockaddr_key s
  | None => mk_id 0 (mk_addr 0 0) (mk_addr 0 0) 0
  end.

(** ** struct sockaddr_vm *)

Record sockaddr_vm : Type := mk_svm {
  svm_family : Z; svm_reserved1 : Z; svm_port : Z; svm_cid : Z; svm_flags : Z
}.
Definition sizeof_svm : Z := 16.

(** The bytes of the structure, and the structure read through a pointer. *)
Definition encode_svm (a : sockaddr_vm) : list Z :=
  le_bytes 2 (svm_family a) ++ le_bytes 2 (svm_reserved1 a) ++ le_bytes 4 (svm_port a) ++
  le_bytes 4 (svm_cid a) ++ le_bytes 1 (svm_flags a) ++ [0; 0; 0].
Definition decode_svm (l : list Z) : sockaddr_vm :=
  mk_svm (le_val (slice 0 2 l)) (le_val (slice 2 2 l)) (le_val (slice 4 4 l))
    (le_val (slice 8 4 l)) (le_val (slice 12 1 l)).
Definition svm_of (a : uk_vsockaddr) : sockaddr_vm := mk_svm AF_VSOCK 0 (a_port a) (a_cid a) 0.

(** ** The state *)

Section world.
Context {P Q D : Type}.

Record world : Type := mk_world {
  w_sockets : tree (A:=positive);
  w_port_alloc_next : Z;
  w_socks : gmap positive (uk_vsock * P);
  w_entries : gmap positive (uk_vsockaddr * Q);
  w_psocks : gmap positive socket_alloc;
  w_main_dev : bool;
  w_drv : D
}.

Definition set_sockets (t : tree) (w : world) : world :=
  mk_world t (w_port_alloc_next w) (w_socks w) (w_entries w) (w_psocks w) (w_main_dev w) (w_drv w).
Definition set_port_alloc_next (n : Z) (w : world) : world :=
  mk_world (w_sockets w) n (w_socks w) (w_entries w) (w_psocks w) (w_main_dev w) (w_drv w).
Definition set_socks (m : gmap positive (uk_vsock * P)) (w : world) : world :=
  mk_world (w_sockets w) (w_port_alloc_next w) m (w_entries w) (w_psocks w) (w_main_dev w) (w_drv w).
Definition set_entries (m : gmap positive (uk_vsockaddr * Q)) (w : world) : world :=
  mk_world (w_sockets w) (w_port_alloc_next w) (w_socks w) m (w_psocks w) (w_main_dev w) (w_drv w).
Definition set_psocks (m : gmap positive socket_alloc) (w : world) : world :=
  mk_world (w_sockets w) (w_port_alloc_next w) (w_socks w) (w_entries w) m (w_main_dev w) (w_drv w).
Definition set_main_dev (b : bool) (w : world) : world :=
  mk_world (w_sockets w) (w_port_alloc_next w) (w_socks w) (w_entries w) (w_psocks w) b (w_drv w).
Definition set_drv (d : D) (w : world) : world :=
  mk_world (w_sockets w) (w_port_alloc_next w) (w_socks w) (w_entries w) (w_psocks w) (w_main_dev w) d.

#[local] Abbreviation MW := (M world).

(** Access to the core part of a socket. *)
Definition vsocks (w : world) : gmap positive uk_vsock := fst <$> w_socks w.
Definition get_sock (i : positive) : MW uk_vsock :=
  deref (fun w => vsocks w !! i).
Definition put_sock (i : positive) (f : uk_vsock -> uk_vsock) : MW unit := fun w =>
  match w_socks w !! i with
  | Some (s, p) => Done (tt, set_socks (<[i := (f s, p)]> (w_socks w)) w)
  | None => Abort
  end.

(** A driver's allocation and release of the structures around a socket and an
    accept entry. *)
Definition new_sock (s : uk_vsock) (p : P) : MW positive := fun w =>
  let i := fresh (dom (w_socks w)) in Done (i, set_socks (<[i := (s, p)]> (w_socks w)) w).
Definition free_sock (i : positive) : MW unit :=
  modify (fun w => set_socks (delete i (w_socks w)) w).
Definition new_entry (a : uk_vsockaddr) (q : Q) : MW positive := fun w =>
  let e := fresh (dom (w_entries w)) in Done (e, set_entries (<[e := (a, q)]> (w_entries w)) w).
Definition free_entry (e : positive) : MW unit :=
  modify (fun w => set_entries (delete e (w_entries w)) w).

(** Events of a socket file ([posix_sock_event_set], [posix_sock_event_clear])
    and the socket behind it ([posix_sock_get_data]). *)
Definition set_events (al : socket_alloc) (e : Z) : socket_alloc :=
  mk_alloc (al_node al) (al_stub al) e.
Definition posix_sock_events (g : Z -> Z) (ps : option positive) : MW unit := fun w =>
  match ps with
  | None => Abort
  | Some i =>
      match w_psocks w !! i with
      | Some al => Done (tt, set_psocks (<[i := set_events al (g (al_events al))]> (w_psocks w)) w)
      | None => Abort
      end
  end.
Definition posix_sock_event_set (ps : option positive) (e : Z) : MW unit :=
  posix_sock_events (fun old => Z.lor old e) ps.
Definition posix_sock_event_clear (ps : option positive) (e : Z) : MW unit :=
  posix_sock_events (fun old => Z.ldiff old e) ps.
Definition posix_sock_get_data (ps : positive) : MW positive :=
  deref (fun w => al ← w_psocks w !! ps; n_data (al_node al)).

(** [UK_ASSERT(sock->posix_sock)] *)
Definition assert_posix_sock (s : uk_vsock) : MW unit := UK_ASSERT (bool_decide (is_Some (v_posix_sock s))).

(** ** The table of sockets

    [uk_vsockets] holds pointers: the key of an element is read from the socket
    it points to.  A pointer to a freed socket makes the operation abort. *)

Definition alive (w : world) : bool :=
  forallb (fun i => bool_decide (is_Some (vsocks w !! i))) (elems (w_sockets w)).

Definition sockets_FIND (k : uk_vsock_conn_id) : MW (option positive) := fun w =>
  if alive w then Done (RB_FIND uk_vsock_sockaddr_cmp (key_of (vsocks w)) k (w_sockets w), w)
  else Abort.
Definition sockets_update {A} (f : world -> option (A * tree)) : MW A := fun w =>
  if alive w then
    match f w with
    | Some (a, t) => Done (a, set_sockets t w)
    | None => Abort
    end
  else Abort.
Definition sockets_INSERT (i : positive) : MW (option positive) :=
  sockets_update (fun w => RB_INSERT uk_vsock_sockaddr_cmp (key_of (vsocks w)) i (w_sockets w)).
Definition sockets_REMOVE (i : positive) : MW unit :=
  sockets_update (fun w => (fun t => (tt, t)) <$> RB_REMOVE i (w_sockets w)).
Definition sockets_REINSERT (i : positive) : MW (option positive) :=
  sockets_update (fun w => RB_REINSERT uk_vsock_sockaddr_cmp (key_of (vsocks w)) i (w_sockets w)).

Definition uk_vsockets_init : MW Z := modify (set_sockets E);; mret 0.

(** The key of a search for a listener or a bound socket. *)
Definition listener_key (type : Z) (local : uk_vsockaddr) : uk_vsock_conn_id :=
  mk_id type local (mk_addr UK_VSOCK_CID_ANY UK_VSOCK_PORT_ANY) MASK_LOCAL_CID.
Definition port_key (type port : Z) : uk_vsock_conn_id :=
  mk_id type (mk_addr 0 port) (mk_addr 0 0)
    (Z.lor (Z.lor MASK_LOCAL_CID MASK_PEER_CID) MASK_PEER_PORT).

(** [vsock_alloc_port]: [n] probes are left. *)
Fixpoint alloc_port_loop (type : Z) (n : nat) : MW Z :=
  match n with
  | O => mret (- EADDRNOTAVAIL)
  | S n =>
      next ← gets w_port_alloc_next;
      sock ← sockets_FIND (port_key type next);
      modify (set_port_alloc_next (u32 (next + 1)));;
      match sock with
      | None => mret (s32 next)
      | Some _ => alloc_port_loop type n
      end
  end.
Definition U16_MAX : Z := 65535.
Definition vsock_alloc_port (type : Z) : MW Z := alloc_port_loop type (Z.to_nat (U16_MAX + 1)).

Definition uk_vsock_lookup (sock_type : Z) (local peer : uk_vsockaddr) : MW (option positive) :=
  sock ← sockets_FIND (mk_id sock_type local peer 0);
  match sock with
  | Some i => mret (Some i)
  | None => sockets_FIND (listener_key sock_type local)
  end.

Definition uk_vsock_notify_writable (i : positive) (writable : bool) : MW unit :=
  s ← get_sock i;
  if writable then posix_sock_event_set (v_posix_sock s) EPOLLOUT
  else posix_sock_event_clear (v_posix_sock s) EPOLLOUT.

(** ** The driver's operations ([struct uk_vsockdev_ops]) *)

Record uk_vsockdev_ops : Type := mk_ops {
  op_get_cid : MW Z;
  op_create : Z -> Z -> MW (Z * option positive);
  op_accept : positive -> positive -> MW (Z * option positive);
  op_free_accept_entry : positive -> positive -> MW unit;
  op_send : positive -> list Z -> MW Z;
  op_connect : positive -> MW Z;
  op_shutdown : positive -> bool -> bool -> MW Z;
  op_reset : positive -> MW Z;
  op_destroy : positive -> MW Z;
  op_send_credit_update : option (positive -> MW Z)
}.

Section core.
Context (ops : uk_vsockdev_ops).

(** [vsockdev_get()] followed by a use of the device. *)
Definition vsockdev_get : MW bool := gets w_main_dev.
Definition need_dev : MW unit := b ← vsockdev_get; UK_ASSERT b.
Definition dev_op {A} (f : MW A) : MW A := need_dev;; f.

(** ** Closing *)

(** [uk_vsock_drain_accept_queue]: [n] bounds the iterations. *)
Fixpoint drain_loop (i : positive) (n : nat) : MW unit :=
  s ← get_sock i;
  match v_accept_queue s with
  | [] => mret tt
  | entry :: rest =>
      match n with
      | O => out_of_fuel
      | S n =>
          put_sock i (fun s => set_queue s rest (v_accept_queue_length s));;
          dev_op (op_free_accept_entry ops i entry);;
          put_sock i (fun s => set_queue s (v_accept_queue s) (s32 (v_accept_queue_length s - 1)));;
          drain_loop i n
      end
  end.
Definition uk_vsock_drain_accept_queue (i : positive) : MW unit :=
  s ← get_sock i; drain_loop i (length (v_accept_queue s)).

(** The common end of the cases of [uk_vsock_close] that do some work. *)
Definition close_finish (i : positive) : MW Z :=
  put_sock i (fun s => set_tx_shutdown (set_rx_shutdown (set_state s CLOSED) true) true);;
  s ← get_sock i;
  posix_sock_event_clear (v_posix_sock s) EPOLLOUT;;
  posix_sock_event_set (v_posix_sock s) EPOLLHUP;;
  mret 0.

(** The cases BOUND and LISTENING, and the rest of the case OPEN. *)
Definition close_local (i : positive) : MW Z :=
  uk_vsock_drain_accept_queue i;;
  sockets_REMOVE i;;
  close_finish i.

Definition uk_vsock_close (i : positive) (force_reset : bool) : MW Z :=
  rc ← (if force_reset then dev_op (op_reset ops i) else mret 0);
  if negb (rc =? 0) then mret rc
  else
    s ← get_sock i;
    match v_state s with
    | OPEN =>
        rc ← (if force_reset then mret 0 else dev_op (op_shutdown ops i true true));
        if negb (rc =? 0) then mret rc else close_local i
    | BOUND | LISTENING => close_local i
    | WAIT_CONNECT =>
        rc ← (if force_reset then mret 0 else dev_op (op_reset ops i));
        if negb (rc =? 0) then mret rc
        else sockets_REMOVE i;; close_finish i
    | READY | CLOSED => mret 0
    end.

Definition uk_vsock_destroy (i : positive) : MW Z :=
  rc ← uk_vsock_close i false;
  if negb (rc =? 0) then mret rc
  else
    s ← get_sock i;
    r ← deref (fun _ => uk_vsock_buffer_destroy (v_rx s));
    let '(rc, rx) := r in
    put_sock i (fun s => set_rx s rx);;
    if negb (rc =? 0) then mret rc else dev_op (op_destroy ops i).

(** ** Handlers called by the driver *)

Definition uk_vsock_rx_payload (i : positive) (packet : list (list Z)) : MW Z :=
  s ← get_sock i;
  if negb (bool_decide (v_state s = OPEN)) then mret (- EINVAL)
  else
    r ← deref (fun _ => uk_vsock_buffer_append (v_rx s) packet);
    let '(rc, rx) := r in
    put_sock i (fun s => set_rx s rx);;
    if negb (rc =? 0) then mret rc
    else
      assert_posix_sock s;;
      posix_sock_event_set (v_posix_sock s) EPOLLIN;;
      mret 0.

Definition uk_vsock_conn_response (i : positive) : MW Z :=
  s ← get_sock i;
  if negb (bool_decide (v_state s = WAIT_CONNECT)) then
    _ ← uk_vsock_close i true;
    mret (- EINVAL)
  else
    assert_posix_sock s;;
    put_sock i (fun s => set_state s OPEN);;
    posix_sock_event_set (v_posix_sock s) EPOLLOUT;;
    mret 0.

Definition uk_vsock_conn_reset (i : positive) : MW Z :=
  s ← get_sock i;
  assert_posix_sock s;;
  posix_sock_event_clear (v_posix_sock s) EPOLLOUT;;
  posix_sock_event_set (v_posix_sock s) (Z.lor (Z.lor EPOLLERR EPOLLHUP) EPOLLRDHUP);;
  match v_state s with
  | WAIT_CONNECT =>
      put_sock i (fun s => set_so_error s (- ECONNREFUSED));;
      rc ← dev_op (op_reset ops i);
      if negb (rc =? 0) then mret rc
      else sockets_REMOVE i;; put_sock i (fun s => set_state s READY);; mret 0
  | OPEN =>
      sockets_REMOVE i;; put_sock i (fun s => set_state s READY);; mret 0
  | CLOSED | READY | BOUND | LISTENING => mret 0
  end.

Definition uk_vsock_conn_shutdown (i : positive) (peer_rx peer_tx : bool) : MW Z :=
  s ← get_sock i;
  if negb (bool_decide (v_state s = OPEN)) then mret (- EINVAL)
  else
    assert_posix_sock s;;
    (if peer_rx then
       posix_sock_event_clear (v_posix_sock s) EPOLLOUT;;
       put_sock i (fun s => set_tx_shutdown s true)
     else mret tt);;
    (if peer_tx then
       posix_sock_event_set (v_posix_sock s) EPOLLRDHUP;;
       put_sock i (fun s => set_rx_shutdown s true)
     else mret tt);;
    s ← get_sock i;
    if v_rx_shutdown s && v_tx_shutdown s then
      rc ← uk_vsock_close i false;
      if negb (rc =? 0) then mret rc else mret 0
    else mret 0.

Definition uk_vsock_conn_request (i entry : positive) : MW Z :=
  s ← get_sock i;
  if negb (bool_decide (v_state s = LISTENING)) then mret (- ECONNREFUSED)
  else if v_accept_queue_limit s <=? v_accept_queue_length s then mret (- ECONNREFUSED)
  else
    put_sock i (fun s =>
      set_queue s (v_accept_queue s ++ [entry]) (s32 (v_accept_queue_length s + 1)));;
    assert_posix_sock s;;
    posix_sock_event_set (v_posix_sock s) EPOLLIN;;
    mret 0.

(** [uk_vsockets_term]: [UK_RB_FOREACH_SAFE] reads the successor before the
    body runs; [n] bounds the iterations. *)
Definition term_closes (s : uk_vsock) : bool :=
  match v_state s with
  | READY | CLOSED => false
  | WAIT_CONNECT | OPEN => true
  | BOUND | LISTENING => negb (a_cid (v_local s) =? UK_VSOCK_CID_ANY)
  end.
Definition sockets_MIN : MW (option positive) := gets (fun w => RB_MIN (w_sockets w)).
Definition sockets_NEXT (i : positive) : MW (option positive) :=
  deref (fun w => RB_NEXT i (w_sockets w)).
Fixpoint term_loop (cur : option positive) (ret : Z) (n : nat) : MW Z :=
  match cur with
  | None => mret ret
  | Some i =>
      match n with
      | O => out_of_fuel
      | S n =>
          tmp ← sockets_NEXT i;
          s ← get_sock i;
          if term_closes s then
            rc ← uk_vsock_close i true;
            term_loop tmp (if negb (rc =? 0) then rc else ret) n
          else term_loop tmp ret n
      end
  end.
Definition uk_vsockets_term : MW Z :=
  n ← gets (fun w => length (elems (w_sockets w)));
  first ← sockets_MIN;
  term_loop first 0 n.

(** ** The operations of posix-socket

    A socket address the caller passes is the bytes it points to; what a call
    writes through its result pointers is part of its result. *)

(** [ERR2PTR(rc)] or a socket *)
Definition vsock_create (family type protocol : Z) : MW (Z + positive) :=
  UK_ASSERT (family =? AF_VSOCK);;
  dev ← vsockdev_get;
  if negb dev then mret (inl (- EAFNOSUPPORT))
  else
    r ← op_create ops type protocol;
    let '(rc, sock) := r in
    if negb (rc =? 0) then mret (inl rc)
    else i ← deref (fun _ => sock); mret (inr i).

(** The bytes stored at [addr] and the new [*addr_len]. *)
Definition copy_svm (a : uk_vsockaddr) (addr_len : Z) : list Z * Z :=
  let size := Z.min sizeof_svm addr_len in (slice 0 size (encode_svm (svm_of a)), size).

Definition vsock_accept4 (sock : positive) (addr : bool) (addr_len : option Z)
    : MW ((Z + positive) * option (list Z * Z)) :=
  if addr && negb (bool_decide (is_Some addr_len)) then mret (inl (- EINVAL), None)
  else
    i ← posix_sock_get_data sock;
    s ← get_sock i;
    if negb (bool_decide (v_state s = LISTENING)) then mret (inl (- EINVAL), None)
    else
      need_dev;;
      match v_accept_queue s with
      | [] => mret (inl (- EAGAIN), None)
      | entry :: rest =>
          UK_ASSERT (0 <? v_accept_queue_length s);;
          put_sock i (fun s => set_queue s rest (v_accept_queue_length s - 1));;
          r ← op_accept ops i entry;
          op_free_accept_entry ops i entry;;
          let '(rc, out) := r in
          if negb (rc =? 0) then mret (inl rc, None)
          else
            o ← deref (fun _ => out);
            put_sock o (fun s => set_state s OPEN);;
            _ ← sockets_INSERT o;
            so ← get_sock o;
            let written :=
              if addr then copy_svm (v_peer so) <$> addr_len else None in
            s ← get_sock i;
            match v_accept_queue s with
            | [] => posix_sock_event_clear (Some sock) EPOLLIN
            | _ => mret tt
            end;;
            mret (inr o, written)
      end.

Definition vsock_socketpair : MW Z := mret (- EOPNOTSUPP).

(** [*svm] when [addr_len] is right: the bytes must be there. *)
Definition read_svm (addr : list Z) : MW sockaddr_vm :=
  deref (fun _ => decode_svm <$> memread 0 sizeof_svm addr).

(** [vsock_bind] after the address has been read. *)
Definition bind_svm (sock : positive) (svm : sockaddr_vm) : MW Z :=
  if negb (svm_family svm =? AF_VSOCK) then mret (- EINVAL)
  else
    cid ← op_get_cid ops;
    if negb (svm_cid svm =? VMADDR_CID_ANY) && negb (svm_cid svm =? cid)
    then mret (- EADDRNOTAVAIL)
    else
      i ← posix_sock_get_data sock;
      s ← get_sock i;
      if negb (bool_decide (v_state s = READY)) then mret (- EINVAL)
      else
        rc ← (if svm_port svm =? VMADDR_PORT_ANY then vsock_alloc_port (v_sock_type s)
              else mret (svm_port svm));
        if (svm_port svm =? VMADDR_PORT_ANY) && (rc <? 0) then mret rc
        else
          let port := rc in
          other ← sockets_FIND (listener_key (v_sock_type s) (mk_addr 0 port));
          match other with
          | Some _ => mret (- EADDRINUSE)
          | None =>
              put_sock i (fun s =>
                set_peer (set_local s (mk_addr cid port))
                  (mk_addr UK_VSOCK_CID_ANY UK_VSOCK_PORT_ANY));;
              _ ← sockets_INSERT i;
              put_sock i (fun s => set_state s BOUND);;
              mret 0
          end.
Definition vsock_bind (sock : positive) (addr : list Z) (addr_len : Z) : MW Z :=
  need_dev;;
  if negb (addr_len =? sizeof_svm) then mret (- EINVAL)
  else svm ← read_svm addr; bind_svm sock svm.

Definition backlog_limit (backlog : Z) : Z := if backlog =? 0 then 128 else backlog.
Definition any_svm : sockaddr_vm := mk_svm AF_VSOCK 0 VMADDR_PORT_ANY VMADDR_CID_ANY 0.

Definition vsock_listen (sock : positive) (backlog : Z) : MW Z :=
  i ← posix_sock_get_data sock;
  s ← get_sock i;
  if bool_decide (v_state s = LISTENING) then
    put_sock i (fun s => set_queue_limit s (backlog_limit backlog));; mret 0
  else if negb (bool_decide (v_state s = BOUND)) && negb (bool_decide (v_state s = READY))
  then mret (- EINVAL)
  else
    rc ← (if bool_decide (v_state s = READY)
          then vsock_bind sock (encode_svm any_svm) sizeof_svm else mret 0);
    if negb (rc =? 0) then mret rc
    else
      s ← get_sock i;
      UK_ASSERT (bool_decide (v_state s = BOUND));;
      put_sock i (fun s => set_state (set_queue_limit s (backlog_limit backlog)) LISTENING);;
      mret 0.

Definition shutdown_dirs (how : Z) : option (bool * bool) :=
  if how =? SHUT_RD then Some (true, false)
  else if how =? SHUT_WR then Some (false, true)
  else if how =? SHUT_RDWR then Some (true, true)
  else None.
Definition vsock_shutdown (sock : positive) (how : Z) : MW Z :=
  match shutdown_dirs how with
  | None => mret (- EINVAL)
  | Some (rx, tx) =>
      need_dev;;
      i ← posix_sock_get_data sock;
      s ← get_sock i;
      if negb (bool_decide (v_state s = OPEN)) then mret (- ENOTCONN)
      else
        rc ← op_shutdown ops i rx tx;
        if negb (rc =? 0) then mret rc
        else uk_vsock_conn_shutdown i rx tx
  end.

Definition vsock_close (sock : positive) : MW Z :=
  i ← posix_sock_get_data sock; uk_vsock_destroy i.

(** The assignment of the peer address and the table update of [vsock_connect]:
    [Some rc] when it returns early. *)
Definition connect_setup (i : positive) (peer : uk_vsockaddr) : MW (option Z) :=
  put_sock i (fun s => set_peer s peer);;
  s ← get_sock i;
  if bool_decide (v_state s = BOUND) then
    _ ← sockets_REINSERT i; mret None
  else
    cid ← op_get_cid ops;
    put_sock i (fun s => set_local s (mk_addr cid (a_port (v_local s))));;
    port ← vsock_alloc_port (v_sock_type s);
    if port <? 0 then
      put_sock i (fun s => set_peer s (mk_addr UK_VSOCK_CID_ANY UK_VSOCK_PORT_ANY));;
      mret (Some port)
    else
      put_sock i (fun s => set_local s (mk_addr (a_cid (v_local s)) (u32 port)));;
      _ ← sockets_INSERT i; mret None.

(** The undo of [connect_setup] when the driver fails. *)
Definition connect_rollback (i : positive) (old_state : uk_vsock_state) (old_peer : uk_vsockaddr)
    : MW unit :=
  (if bool_decide (old_state = BOUND) then
     put_sock i (fun s => set_peer s old_peer);;
     _ ← sockets_REINSERT i; mret tt
   else
     sockets_REMOVE i;;
     put_sock i (fun s =>
       set_peer (set_local s (mk_addr UK_VSOCK_CID_ANY UK_VSOCK_PORT_ANY)) old_peer));;
  put_sock i (fun s => set_state s old_state).

Definition connect_svm (i : positive) (svm : sockaddr_vm) : MW Z :=
  s ← get_sock i;
  if negb (svm_family svm =? AF_VSOCK) then mret (- EAFNOSUPPORT)
  else if bool_decide (v_state s = WAIT_CONNECT) then mret (- EALREADY)
  else if negb (bool_decide (v_state s = BOUND)) && negb (bool_decide (v_state s = READY))
  then mret (- EISCONN)
  else
    early ← connect_setup i (mk_addr (svm_cid svm) (svm_port svm));
    match early with
    | Some rc => mret rc
    | None =>
        put_sock i (fun s => set_state s WAIT_CONNECT);;
        rc ← op_connect ops i;
        (if negb (rc =? 0) && negb (rc =? - EINPROGRESS)
         then connect_rollback i (v_state s) (v_peer s) else mret tt);;
        mret rc
    end.
Definition vsock_connect (sock : positive) (addr : list Z) (addr_len : Z) : MW Z :=
  need_dev;;
  i ← posix_sock_get_data sock;
  _ ← get_sock i;
  if negb (addr_len =? sizeof_svm) then mret (- EINVAL)
  else svm ← read_svm addr; connect_svm i svm.

(** The return value, the bytes stored at [optval] and the new [*optlen]. *)
Definition getsockopt_copy (value : list Z) (optlen : option Z) : Z * option (list Z * Z) :=
  match optlen with
  | None => (- EINVAL, None)
  | Some n => (0, Some (slice 0 (Z.min (zlen value) n) value, Z.min (zlen value) n))
  end.
Definition vsock_getsockopt (sock : positive) (level optname : Z) (optlen : option Z)
    : MW (Z * option (list Z * Z)) :=
  i ← posix_sock_get_data sock;
  if level =? SOL_SOCKET then
    if optname =? SO_ERROR then
      s ← get_sock i;
      put_sock i (fun s => set_so_error s 0);;
      mret (getsockopt_copy (le_bytes 4 (u32 (v_so_error s))) optlen)
    else mret (- ENOPROTOOPT, None)
  else mret (0, None).
Definition vsock_setsockopt : MW Z := mret 0.

Definition vsock_getsockname (sock : positive) (addr_len : option Z)
    : MW (Z * option (list Z * Z)) :=
  match addr_len with
  | None => mret (- EINVAL, None)
  | Some n =>
      i ← posix_sock_get_data sock;
      s ← get_sock i;
      mret (0, Some (copy_svm (v_local s) n))
  end.
Definition vsock_getpeername (sock : positive) (addr_len : option Z)
    : MW (Z * option (list Z * Z)) :=
  match addr_len with
  | None => mret (- EINVAL, None)
  | Some n =>
      i ← posix_sock_get_data sock;
      s ← get_sock i;
      if negb (bool_decide (v_state s = OPEN)) then mret (- ENOTCONN, None)
      else mret (0, Some (copy_svm (v_peer s) n))
  end.

(** ** Sending and receiving *)

Fixpoint write_loop (sock i : positive) (iov : list (list Z)) (written : Z) : MW Z :=
  match iov with
  | [] => mret written
  | base :: iov =>
      res ← op_send ops i base;
      if res <? 0 then mret (if written =? 0 then res else written)
      else if res =? 0 then
        posix_sock_event_clear (Some sock) EPOLLOUT;;
        mret (if written =? 0 then - EAGAIN else written)
      else write_loop sock i iov (written + res)
  end.
Definition vsock_write (sock : positive) (iov : list (list Z)) : MW Z :=
  need_dev;;
  i ← posix_sock_get_data sock;
  s ← get_sock i;
  if negb (bool_decide (v_state s = OPEN)) then
    if bool_decide (v_state s = CLOSED) || v_tx_shutdown s then mret (- EPIPE)
    else mret (- ENOTCONN)
  else write_loop sock i iov 0.

(** [dest_addr] tells whether the pointer is not NULL. *)
Definition vsock_sendto (sock : positive) (buf : list Z) (dest_addr : bool) (addrlen : Z) : MW Z :=
  if dest_addr || negb (addrlen =? 0) then mret (- EISCONN)
  else
    need_dev;;
    i ← posix_sock_get_data sock;
    s ← get_sock i;
    if bool_decide (v_state s = CLOSED) || v_tx_shutdown s then mret (- EPIPE)
    else
      res ← op_send ops i buf;
      if res =? 0 then posix_sock_event_clear (Some sock) EPOLLOUT;; mret (- EAGAIN)
      else mret res.

(** Telling the peer about the space a read has freed. *)
Definition credit_update (i : positive) : MW unit :=
  dev ← vsockdev_get;
  match op_send_credit_update ops with
  | Some f => if (dev : bool) then _ ← f i; mret tt else mret tt
  | None => mret tt
  end.
(** [uk_vsock_buffer_read] and, if it copied something, [uk_vsock_buffer_consume]. *)
Definition take_rx (i : positive) (size : Z) : MW (Z * list Z) :=
  s ← get_sock i;
  r ← deref (fun _ => uk_vsock_buffer_read (v_rx s) size);
  let '(res, out) := r in
  if 0 <? res then
    rx ← deref (fun _ => uk_vsock_buffer_consume (v_rx s) res);
    put_sock i (fun s => set_rx s rx);;
    mret (res, out)
  else mret (res, out).
Definition rx_poll (sock i : positive) : MW unit :=
  s ← get_sock i;
  if uk_vsock_buffer_is_empty (v_rx s) then posix_sock_event_clear (Some sock) EPOLLIN
  else mret tt.

(** The loop of [vsock_read]: [ret] bytes were read into the buffers [got]. *)
Fixpoint read_loop (i : positive) (iov : list Z) (ret : Z) (got : list (list Z))
    : MW (Z * list (list Z)) :=
  match iov with
  | [] => mret (ret, got)
  | len :: iov =>
      r ← take_rx i len;
      let '(res, out) := r in
      if 0 <? res then
        credit_update i;;
        read_loop i iov (ret + res) (got ++ [out])
      else
        s ← get_sock i;
        let res := if (res =? 0) && negb (v_rx_shutdown s) then - EAGAIN else res in
        mret (if ret =? 0 then res else ret, got)
  end.
Definition readable (s : uk_vsock) : bool :=
  bool_decide (v_state s = OPEN) || bool_decide (v_state s = CLOSED).
Definition vsock_read (sock : positive) (iov : list Z) : MW (Z * list (list Z)) :=
  i ← posix_sock_get_data sock;
  s ← get_sock i;
  if negb (readable s) then mret (- ENOTCONN, [])
  else
    r ← read_loop i iov 0 [];
    rx_poll sock i;;
    mret r.

Definition vsock_recvfrom (sock : positive) (len : Z) (from fromlen : bool) : MW (Z * list Z) :=
  if from || fromlen then mret (- EISCONN, [])
  else
    i ← posix_sock_get_data sock;
    s ← get_sock i;
    if negb (readable s) then mret (- ENOTCONN, [])
    else
      r ← take_rx i len;
      let '(res, out) := r in
      if (res =? 0) && negb (v_rx_shutdown s) then mret (- EAGAIN, [])
      else
        (if 0 <? res then credit_update i else mret tt);;
        rx_poll sock i;;
        mret (res, out).

Definition vsock_ioctl : MW Z := mret (- ENOTTY).

Definition vsock_poll_setup (sock : positive) : MW unit :=
  i ← posix_sock_get_data sock; put_sock i (fun s => set_posix_sock s (Some sock)).

(** ** The device (lib/ukvsockdev/vsockdev.c) *)

Definition uk_vsockdev_register : MW Z :=
  dev ← vsockdev_get;
  UK_ASSERT (negb dev);;
  modify (set_main_dev true);;
  uk_vsockets_init.

(** [sysmigration] stands for [uk_pm_sysmigration]. *)
Definition uk_vsockdev_transport_reset (sysmigration : MW Z) : MW Z :=
  rc ← uk_vsockets_term;
  if rc <? 0 then mret rc
  else
    rc ← sysmigration;
    if rc <? 0 then mret rc else mret 0.
End core.
End world.
Arguments world : clear implicits.
Arguments uk_vsockdev_ops : clear implicits.
