(* ===== verification/VsockTable.v ===== *)
(** * The table of sockets: order, searches, invariant *)

From stdpp Require Import prelude gmap sorting.
From S2P Require Import Prelude Tree VsockBuffer Netbuf Vsock.

(** ** The order of the keys *)

(** The lexicographic order of two lists of fields. *)
Fixpoint lex_lt (l : list (Z * Z)) : Prop :=
  match l with
  | [] => False
  | (x, y) :: l => x < y \/ x = y /\ lex_lt l
  end.

Definition swap_pairs (l : list (Z * Z)) : list (Z * Z) := (fun p => (p.2, p.1)) <$> l.

(** The fields that a comparison under the masks looks at. *)
Definition cmp_fields (masks : Z) (a b : uk_vsock_conn_id) : list (Z * Z) :=
  (id_type a, id_type b) ::
  (if flag_set masks MASK_LOCAL_CID then []
   else [(a_cid (id_local a), a_cid (id_local b))]) ++
  (if flag_set masks MASK_LOCAL_PORT then []
   else [(a_port (id_local a), a_port (id_local b))]) ++
  (if flag_set masks MASK_PEER_CID then [] else [(a_cid (id_peer a), a_cid (id_peer b))]) ++
  (if flag_set masks MASK_PEER_PORT then [] else [(a_port (id_peer a), a_port (id_peer b))]).

Lemma CMP_ID_lex masks mask x y k l :
  (k < 0 <-> lex_lt l) -> (0 < k <-> lex_lt (swap_pairs l)) ->
  let l' := (if flag_set masks mask then [] else [(x, y)]) ++ l in
  (CMP_ID masks mask x y k < 0 <-> lex_lt l') /\
  (0 < CMP_ID masks mask x y k <-> lex_lt (swap_pairs l')).
Proof.
  intros H1 H2. unfold CMP_ID. destruct (flag_set masks mask); cbn -[Z.ltb Z.eqb].
  - rewrite andb_false_r. done.
  - rewrite andb_true_r. unfold swap_pairs in *. destruct (Z.eqb_spec x y); cbn -[Z.ltb].
    + split; rewrite ?H1, ?H2; intuition lia.
    + destruct (Z.ltb_spec x y); intuition lia.
Qed.

Lemma cmp_lex a b :
  let l := cmp_fields (Z.lor (id_mask a) (id_mask b)) a b in
  (uk_vsock_sockaddr_cmp a b < 0 <-> lex_lt l) /\
  (0 < uk_vsock_sockaddr_cmp a b <-> lex_lt (swap_pairs l)).
Proof.
  unfold uk_vsock_sockaddr_cmp, cmp_fields. set (m := Z.lor _ _).
  set (k4 := CMP_ID m MASK_PEER_PORT _ _ 0).
  opose proof* (CMP_ID_lex m MASK_PEER_PORT (a_port (id_peer a)) (a_port (id_peer b)) 0 [])
    as [L4 G4]; [cbn; lia..|]. rewrite app_nil_r in L4, G4.
  opose proof* (CMP_ID_lex m MASK_PEER_CID (a_cid (id_peer a)) (a_cid (id_peer b))) as [L3 G3];
    [exact L4|exact G4|].
  opose proof* (CMP_ID_lex m MASK_LOCAL_PORT (a_port (id_local a)) (a_port (id_local b)))
    as [L2 G2]; [exact L3|exact G3|].
  opose proof* (CMP_ID_lex m MASK_LOCAL_CID (a_cid (id_local a)) (a_cid (id_local b)))
    as [L1 G1]; [exact L2|exact G2|].
  fold k4 in L1, G1. unfold swap_pairs in *. rewrite fmap_cons. cbn [lex_lt fst snd].
  rewrite <- L1, <- G1.
  destruct (Z.eqb_spec (id_type a) (id_type b)); cbn -[Z.ltb];
    [|destruct (Z.ltb_spec (id_type a) (id_type b))]; intuition lia.
Qed.

Lemma cmp_zero a b :
  uk_vsock_sockaddr_cmp a b = 0 <->
    ~ lex_lt (cmp_fields (Z.lor (id_mask a) (id_mask b)) a b) /\
    ~ lex_lt (swap_pairs (cmp_fields (Z.lor (id_mask a) (id_mask b)) a b)).
Proof. destruct (cmp_lex a b) as [<- <-]. lia. Qed.

(** The keys the code searches for: an exact connection, a listener whatever
    the local CID, and a local port. *)
Inductive search_key : uk_vsock_conn_id -> Prop :=
  | search_exact type local peer : search_key (mk_id type local peer 0)
  | search_listener type local : search_key (listener_key type local)
  | search_port type port : search_key (port_key type port).

(** When a search key compares equal to the key of a socket. *)
Definition key_matches (k : uk_vsock_conn_id) (s : uk_vsock) : Prop :=
  id_type k = v_sock_type s /\
  (flag_set (id_mask k) MASK_LOCAL_CID = false -> a_cid (id_local k) = a_cid (v_local s)) /\
  a_port (id_local k) = a_port (v_local s) /\
  (flag_set (id_mask k) MASK_PEER_CID = false -> a_cid (id_peer k) = a_cid (v_peer s)) /\
  (flag_set (id_mask k) MASK_PEER_PORT = false -> a_port (id_peer k) = a_port (v_peer s)).

(** [eval_masks] computes the tests of known masks; [lex_lia] decides
    comparisons of keys with known masks. *)
Ltac eval_masks :=
  repeat match goal with
  | |- context [flag_set ?m ?f] =>
      let b := eval vm_compute in (flag_set m f) in change (flag_set m f) with b
  | H : context [flag_set ?m ?f] |- _ =>
      let b := eval vm_compute in (flag_set m f) in change (flag_set m f) with b in H
  end.
Ltac lex_lia :=
  unfold cmp_fields, swap_pairs in *;
  cbn [id_type id_local id_peer id_mask uk_vsock_sockaddr_key listener_key port_key] in *;
  eval_masks;
  cbn -[Z.lt Z.sgn UK_VSOCK_CID_ANY UK_VSOCK_PORT_ANY] in *;
  split_and?; intros; destruct_and?;
  repeat match goal with H : ?b = ?b -> _ |- _ => specialize (H eq_refl) end;
  first [congruence | lia].

Lemma cmp_matches k s :
  search_key k ->
  uk_vsock_sockaddr_cmp k (uk_vsock_sockaddr_key s) = 0 <-> key_matches k s.
Proof.
  intros Hk. rewrite cmp_zero. unfold key_matches. destruct Hk; split; lex_lia.
Qed.

(** Over sockets with one local CID the searches are monotone. *)
Lemma cmp_monotone k s s' :
  search_key k -> a_cid (v_local s) = a_cid (v_local s') ->
  uk_vsock_sockaddr_cmp (uk_vsock_sockaddr_key s) (uk_vsock_sockaddr_key s') < 0 ->
  Z.sgn (uk_vsock_sockaddr_cmp k (uk_vsock_sockaddr_key s')) <=
  Z.sgn (uk_vsock_sockaddr_cmp k (uk_vsock_sockaddr_key s)).
Proof.
  intros Hk Hc Hlt%cmp_lex.
  assert (0 < uk_vsock_sockaddr_cmp k (uk_vsock_sockaddr_key s') ->
    0 < uk_vsock_sockaddr_cmp k (uk_vsock_sockaddr_key s)).
  { intros H%cmp_lex. apply cmp_lex. destruct Hk; lex_lia. }
  assert (uk_vsock_sockaddr_cmp k (uk_vsock_sockaddr_key s) < 0 ->
    uk_vsock_sockaddr_cmp k (uk_vsock_sockaddr_key s') < 0).
  { intros H'%cmp_lex. apply cmp_lex. clear H. destruct Hk; lex_lia. }
  lia.
Qed.

(** ** The core part of the state

    What the core of the stack reads and writes: everything but the driver's
    own state and its private parts of sockets and accept entries. *)

Record core_state : Type := mk_core {
  c_sockets : tree (A:=positive);
  c_next : Z;
  c_socks : gmap positive uk_vsock;
  c_entries : gmap positive uk_vsockaddr;
  c_psocks : gmap positive socket_alloc;
  c_main_dev : bool
}.

Definition core {P Q D} (w : world P Q D) : core_state :=
  mk_core (w_sockets w) (w_port_alloc_next w) (vsocks w) (fst <$> w_entries w) (w_psocks w)
    (w_main_dev w).

Definition c_tree (t : tree) (c : core_state) : core_state :=
  mk_core t (c_next c) (c_socks c) (c_entries c) (c_psocks c) (c_main_dev c).
Definition c_port (n : Z) (c : core_state) : core_state :=
  mk_core (c_sockets c) n (c_socks c) (c_entries c) (c_psocks c) (c_main_dev c).
Definition c_put (i : positive) (s : uk_vsock) (c : core_state) : core_state :=
  mk_core (c_sockets c) (c_next c) (<[i := s]> (c_socks c)) (c_entries c) (c_psocks c) (c_main_dev c).
Definition c_del (i : positive) (c : core_state) : core_state :=
  mk_core (c_sockets c) (c_next c) (delete i (c_socks c)) (c_entries c) (c_psocks c) (c_main_dev c).
Definition c_free (e : positive) (c : core_state) : core_state :=
  mk_core (c_sockets c) (c_next c) (c_socks c) (delete e (c_entries c)) (c_psocks c) (c_main_dev c).
Definition c_entry (e : positive) (a : uk_vsockaddr) (c : core_state) : core_state :=
  mk_core (c_sockets c) (c_next c) (c_socks c) (<[e := a]> (c_entries c)) (c_psocks c) (c_main_dev c).
Definition c_file (ps : positive) (al : socket_alloc) (c : core_state) : core_state :=
  mk_core (c_sockets c) (c_next c) (c_socks c) (c_entries c) (<[ps := al]> (c_psocks c)) (c_main_dev c).

Lemma c_put_get i s c : c_socks (c_put i s c) !! i = Some s.
Proof. apply lookup_insert_eq. Qed.
Lemma c_put_put i s s' c : c_put i s (c_put i s' c) = c_put i s c.
Proof. unfold c_put. cbn. by rewrite insert_insert_eq. Qed.
Lemma c_put_id i s c : c_socks c !! i = Some s -> c_put i s c = c.
Proof. intros H. destruct c. unfold c_put. cbn in *. by rewrite insert_id. Qed.
Lemma c_file_get ps al c : c_psocks (c_file ps al c) !! ps = Some al.
Proof. apply lookup_insert_eq. Qed.
Lemma c_file_file ps al al' c : c_file ps al (c_file ps al' c) = c_file ps al c.
Proof. unfold c_file. cbn. by rewrite insert_insert_eq. Qed.

Lemma c_file_put ps al i s c : c_file ps al (c_put i s c) = c_put i s (c_file ps al c).
Proof. done. Qed.
Lemma c_put_tree i s t c : c_put i s (c_tree t c) = c_tree t (c_put i s c).
Proof. done. Qed.
Lemma c_file_tree ps al t c : c_file ps al (c_tree t c) = c_tree t (c_file ps al c).
Proof. done. Qed.
Lemma c_tree_tree t t' c : c_tree t (c_tree t' c) = c_tree t c.
Proof. done. Qed.

(** Updates in the order tree, sockets, files; each object updated once. *)
Create Rewrite HintDb core_norm.
#[export] Hint Rewrite c_put_put c_file_file c_file_put c_put_tree c_file_tree c_tree_tree : core_norm.
Ltac core_norm := autorewrite with core_norm.

(** The comparison of two sockets' keys is a strict order. *)
#[export] Instance key_of_order m : KeyOrder uk_vsock_sockaddr_cmp (key_of m).
Proof.
  assert (H : forall i, exists s, key_of m i = uk_vsock_sockaddr_key s).
  { intros i. unfold key_of. destruct (m !! i) as [s|]; [by exists s|].
    by exists (mk_vsock READY false false 0 0 (mk_addr 0 0) (mk_addr 0 0)
      (mk_buffer [] 0 0 0 0) [] 0 0 None). }
  split.
  - intros x y. destruct (H x) as [sx ->], (H y) as [sy ->].
    rewrite (proj1 (cmp_lex _ _)), (proj2 (cmp_lex _ _)). split; intros Hl; lex_lia.
  - intros x y z. destruct (H x) as [sx ->], (H y) as [sy ->], (H z) as [sz ->].
    rewrite !(proj1 (cmp_lex _ _)). intros H1 H2. lex_lia.
Qed.

(** ** The table *)

(** The identifiers in the table, in order. *)
Definition members (c : core_state) : list positive := elems (c_sockets c).

(** The table is a balanced search tree of live sockets with the device's CID. *)
Record table_ok (cid : Z) (c : core_state) : Prop := {
  to_balanced : balanced (c_sockets c);
  to_ordered : ordered uk_vsock_sockaddr_cmp (key_of (c_socks c)) (members c);
  to_alive i : i ∈ members c -> exists s, c_socks c !! i = Some s /\ a_cid (v_local s) = cid
}.

Definition same_key (s s' : uk_vsock) : Prop := uk_vsock_sockaddr_key s = uk_vsock_sockaddr_key s'.

Lemma StronglySorted_ext {A} (R S : A -> A -> Prop) (l : list A) :
  (forall x y, x ∈ l -> y ∈ l -> R x y -> S x y) -> StronglySorted R l -> StronglySorted S l.
Proof.
  induction l as [|x l IH]; intros H Hs; [constructor|].
  apply StronglySorted_cons in Hs as [Hx Hs]. apply StronglySorted_cons. split.
  - rewrite Forall_forall in *. intros y Hy. apply H; [left|by right|by apply Hx].
  - apply IH; [|done]. intros y z Hy Hz. apply H; by right.
Qed.

(** Changing sockets keeps the order of a list if it keeps the keys of its elements. *)
Lemma ordered_socks m m' l :
  (forall i, i ∈ l -> key_of m i = key_of m' i) ->
  ordered uk_vsock_sockaddr_cmp (key_of m) l -> ordered uk_vsock_sockaddr_cmp (key_of m') l.
Proof.
  intros H. apply StronglySorted_ext. intros x y Hx Hy. by rewrite (H x), (H y).
Qed.

(** Keys determine the order. *)
Lemma ordered_unique m l1 l2 :
  ordered uk_vsock_sockaddr_cmp (key_of m) l1 -> ordered uk_vsock_sockaddr_cmp (key_of m) l2 ->
  l1 ≡ₚ l2 -> l1 = l2.
Proof.
  assert (AntiSymm (=) (fun x y => uk_vsock_sockaddr_cmp (key_of m x) (key_of m y) < 0)).
  { intros x y H1%(ko_flip uk_vsock_sockaddr_cmp (key_of m)) H2. lia. }
  by apply StronglySorted_unique.
Qed.

Lemma key_of_Some m i s : m !! i = Some s -> key_of m i = uk_vsock_sockaddr_key s.
Proof. unfold key_of. by intros ->. Qed.
Lemma key_of_insert_ne m i j s : i <> j -> key_of (<[j := s]> m) i = key_of m i.
Proof. intros. unfold key_of. by rewrite lookup_insert_ne. Qed.
Lemma same_key_cid s s' : same_key s s' -> a_cid (v_local s) = a_cid (v_local s').
Proof. unfold same_key, uk_vsock_sockaddr_key. intros [= _ H _]. by rewrite H. Qed.

Lemma table_put cid c i s :
  table_ok cid c ->
  (i ∉ members c \/ exists s0, c_socks c !! i = Some s0 /\ same_key s0 s) ->
  table_ok cid (c_put i s c).
Proof.
  intros [Hb Ho Ha] Hi. split; [done|..]; unfold members in *; cbn in *.
  - revert Ho. apply ordered_socks. intros j Hj. destruct (decide (j = i)) as [->|Hn];
      [|by rewrite key_of_insert_ne].
    destruct Hi as [|(s0 & Hs0 & Hk)]; [done|].
    rewrite (key_of_Some _ _ _ Hs0), Hk. symmetry. apply key_of_Some, lookup_insert_eq.
  - intros j Hj. destruct (decide (j = i)) as [->|Hn]; [|rewrite lookup_insert_ne by done; auto].
    destruct Hi as [|(s0 & Hs0 & Hk)]; [done|]. exists s. rewrite lookup_insert_eq.
    split; [done|]. destruct (Ha i Hj) as (s' & ? & <-). simplify_eq. by apply same_key_cid in Hk.
Qed.

Lemma table_del cid c i : table_ok cid c -> i ∉ members c -> table_ok cid (c_del i c).
Proof.
  intros [Hb Ho Ha] Hi. split; [done|..]; unfold members in *; cbn in *.
  - revert Ho. apply ordered_socks. intros j Hj. unfold key_of.
    by rewrite lookup_delete_ne by by intros ->.
  - intros j Hj. rewrite lookup_delete_ne by by intros ->. auto.
Qed.

(** The table depends on the tree and the sockets only. *)
Lemma table_frame cid c c' :
  c_sockets c = c_sockets c' -> c_socks c = c_socks c' -> table_ok cid c -> table_ok cid c'.
Proof. intros H1 H2 [Hb Ho Ha]. unfold members in *. rewrite H1, H2 in *. by split. Qed.

(** A search is monotone on the table. *)
Lemma table_monotone cid c k :
  table_ok cid c -> search_key k -> monotone uk_vsock_sockaddr_cmp (key_of (c_socks c)) k (members c).
Proof.
  intros [_ Ho Ha] Hk. revert Ho. apply StronglySorted_ext. intros x y Hx Hy.
  destruct (Ha x Hx) as (sx & Hsx & Hcx), (Ha y Hy) as (sy & Hsy & Hcy).
  rewrite (key_of_Some _ _ _ Hsx), (key_of_Some _ _ _ Hsy).
  apply cmp_monotone; [done|congruence].
Qed.

Lemma find_Some cid c k i :
  table_ok cid c -> search_key k ->
  RB_FIND uk_vsock_sockaddr_cmp (key_of (c_socks c)) k (c_sockets c) = Some i ->
  exists s, i ∈ members c /\ c_socks c !! i = Some s /\ key_matches k s.
Proof.
  intros Ht Hk [Hi Hc]%RB_FIND_Some. destruct (to_alive _ _ Ht i Hi) as (s & Hs & _).
  exists s. rewrite (key_of_Some _ _ _ Hs) in Hc. by apply cmp_matches in Hc.
Qed.

Lemma find_None cid c k :
  table_ok cid c -> search_key k ->
  RB_FIND uk_vsock_sockaddr_cmp (key_of (c_socks c)) k (c_sockets c) = None ->
  forall i s, i ∈ members c -> c_socks c !! i = Some s -> ~ key_matches k s.
Proof.
  intros Ht Hk Hf i s Hi Hs Hm. apply (cmp_matches k s Hk) in Hm.
  rewrite <- (key_of_Some _ _ _ Hs) in Hm. revert Hm. eapply RB_FIND_None; [|done..].
  by eapply table_monotone.
Qed.

(** An exact key identifies its socket. *)
Lemma table_unique cid c i j s s' :
  table_ok cid c -> i ∈ members c -> j ∈ members c ->
  c_socks c !! i = Some s -> c_socks c !! j = Some s' -> same_key s s' -> i = j.
Proof.
  intros [_ Ho _] Hi Hj Hs Hs' Hk.
  apply list_elem_of_split in Hi as (l1 & l2 & Hl). rewrite Hl in Ho, Hj.
  apply ordered_app in Ho as (_ & [_ H2]%ordered_cons & H1); [|apply _..].
  assert (Hij : uk_vsock_sockaddr_cmp (key_of (c_socks c) i) (key_of (c_socks c) j) = 0 /\
    uk_vsock_sockaddr_cmp (key_of (c_socks c) j) (key_of (c_socks c) i) = 0).
  { rewrite (key_of_Some _ _ _ Hs), (key_of_Some _ _ _ Hs'), Hk, cmp_zero. lex_lia. }
  apply elem_of_app in Hj as [Hj|[->|Hj]%elem_of_cons]; [|done|].
  - specialize (H1 j i Hj). rewrite elem_of_cons in H1. lia.
  - specialize (H2 j Hj). lia.
Qed.

Lemma cmp_same_key s s' :
  uk_vsock_sockaddr_cmp (uk_vsock_sockaddr_key s) (uk_vsock_sockaddr_key s') = 0 -> same_key s s'.
Proof.
  intros Hc. apply cmp_matches in Hc as (H1 & H2 & H3 & H4 & H5); [|constructor].
  unfold same_key, uk_vsock_sockaddr_key in *. cbn in *.
  destruct s as [? ? ? ? ? [] []], s' as [? ? ? ? ? [] []]. cbn in *.
  rewrite H1, H2, H3, H4, H5 by done. done.
Qed.
