(* ===== verification/VsockLogic.v ===== *)
(** * Reasoning about the core against any driver

    [cwp] is total correctness of a computation on the core part of the state,
    under an invariant of the driver.  Its rules for the primitives of Vsock.v
    never mention the driver's state; the class [Driver] states what the core
    relies on in the operations a driver registers. *)

From stdpp Require Import prelude gmap sorting.
From S2P Require Import Prelude Tree VsockBuffer Netbuf Vsock VsockTable.

Section logic.
Context {P Q D : Type} (inv : gmap positive P -> gmap positive Q -> D -> Prop).

Definition drv_inv (w : world P Q D) : Prop :=
  inv (snd <$> w_socks w) (snd <$> w_entries w) (w_drv w).

Definition cwp {A} (m : M (world P Q D) A) (Φ : A -> core_state -> Prop) (c : core_state) : Prop :=
  forall w, core w = c -> drv_inv w -> wp m (fun a w' => drv_inv w' /\ Φ a (core w')) w.

Lemma cwp_ret {A} (a : A) Φ c : Φ a c -> cwp (mret a) Φ c.
Proof. intros H w <- Hd. by apply wp_ret. Qed.

Lemma cwp_mono {A} (m : M _ A) (Φ Ψ : A -> core_state -> Prop) c :
  cwp m Φ c -> (forall a c', Φ a c' -> Ψ a c') -> cwp m Ψ c.
Proof. intros Hm H w Hw Hd. eapply wp_mono; [|by apply Hm]. cbn. naive_solver. Qed.

Lemma cwp_wlp {A} (m : M _ A) (Φ : A -> core_state -> Prop) (Ψ : A -> Prop) c :
  cwp m Φ c -> (forall w, core w = c -> drv_inv w -> wlp m (fun a _ => Ψ a) w) -> cwp m (fun a c' => Φ a c' /\ Ψ a) c.
Proof.
  intros Hm HΨ w Hw Hd. eapply wp_mono; [|apply wp_wlp; [by apply Hm|by apply HΨ]]. cbn. naive_solver.
Qed.

Lemma cwp_bind {A B} (m : M _ A) (f : A -> M _ B) Φ c :
  cwp m (fun a c' => cwp (f a) Φ c') c -> cwp (m ≫= f) Φ c.
Proof.
  intros Hm w Hw Hd. apply wp_bind. eapply wp_mono; [|by apply Hm].
  intros a w' [Hd' Hf]. by apply Hf.
Qed.

(** A step whose exact outcome is known. *)
Lemma cwp_step {A B} (m : M _ A) (f : A -> M _ B) Φ c a c' :
  cwp m (fun x y => x = a /\ y = c') c -> cwp (f a) Φ c' -> cwp (m ≫= f) Φ c.
Proof. intros Hm Hf. apply cwp_bind. eapply cwp_mono; [done|]. by intros ? ? [-> ->]. Qed.

Lemma cwp_gets {A} (f : world P Q D -> A) Φ c a :
  (forall w, core w = c -> f w = a) -> Φ a c -> cwp (gets f) Φ c.
Proof. intros Hf HΦ w Hw Hd. unfold gets, wp. rewrite (Hf w Hw). by subst c. Qed.

Lemma cwp_deref {A} (f : world P Q D -> option A) Φ c a :
  (forall w, core w = c -> f w = Some a) -> Φ a c -> cwp (deref f) Φ c.
Proof. intros Hf HΦ w Hw Hd. unfold deref, wp. rewrite (Hf w Hw). by subst c. Qed.

Lemma cwp_modify (f : world P Q D -> world P Q D) Φ c c' :
  (forall w, core w = c -> core (f w) = c' /\ (drv_inv w -> drv_inv (f w))) ->
  Φ tt c' -> cwp (modify f) Φ c.
Proof.
  intros Hf HΦ w Hw Hd. destruct (Hf w Hw) as [Hc Hi]. unfold modify, wp.
  rewrite Hc. auto.
Qed.

Lemma cwp_assert b Φ c : b = true -> Φ tt c -> cwp (UK_ASSERT b) Φ c.
Proof. intros -> H w <- Hd. done. Qed.

Lemma cwp_get_sock i s Φ c : c_socks c !! i = Some s -> Φ s c -> cwp (get_sock i) Φ c.
Proof. intros Hs. apply cwp_deref. by intros w <-. Qed.

Lemma cwp_put_sock i f s Φ c :
  c_socks c !! i = Some s -> Φ tt (c_put i (f s) c) -> cwp (put_sock i f) Φ c.
Proof.
  intros Hs HΦ w <- Hd. unfold wp, put_sock. cbn in Hs. unfold vsocks in Hs.
  rewrite lookup_fmap in Hs. destruct (w_socks w !! i) as [[s' p]|] eqn:Hi; [|done].
  cbn in Hs. injection Hs as <-. split.
  - unfold drv_inv in *. cbn. rewrite fmap_insert. cbn.
    rewrite insert_id; [done|]. by rewrite lookup_fmap, Hi.
  - unfold core, vsocks in *. cbn. rewrite fmap_insert. exact HΦ.
Qed.

Lemma cwp_events g ps al Φ c :
  c_psocks c !! ps = Some al -> Φ tt (c_file ps (set_events al (g (al_events al))) c) ->
  cwp (posix_sock_events g (Some ps)) Φ c.
Proof. intros Hp HΦ w <- Hd. unfold wp, posix_sock_events. cbn in Hp. by rewrite Hp. Qed.

Lemma cwp_get_data ps al i Φ c :
  c_psocks c !! ps = Some al -> n_data (al_node al) = Some i -> Φ i c ->
  cwp (posix_sock_get_data ps) Φ c.
Proof. intros Hp Hi. apply cwp_deref. intros w <-. cbn in Hp. by rewrite Hp. Qed.

Lemma cwp_need_dev Φ c : c_main_dev c = true -> Φ tt c -> cwp need_dev Φ c.
Proof.
  intros Hd HΦ. apply cwp_bind, (cwp_gets _ _ _ true); [by intros w <-|]. by apply cwp_assert.
Qed.

Lemma cwp_dev_op {A} (f : M (world P Q D) A) Φ c :
  c_main_dev c = true -> cwp f Φ c -> cwp (dev_op f) Φ c.
Proof. intros Hd Hf. apply cwp_bind, cwp_need_dev; [done|]. exact Hf. Qed.

(** What drivers do to sockets and accept entries. *)
Lemma cwp_new_sock s p Φ c :
  (forall i m es d, inv m es d -> inv (<[i := p]> m) es d) ->
  (forall i, c_socks c !! i = None -> Φ i (c_put i s c)) -> cwp (new_sock s p) Φ c.
Proof.
  intros Hi H w <- Hd. unfold wp, new_sock. set (i := fresh _). split.
  - unfold drv_inv in *. cbn. rewrite fmap_insert. by apply Hi.
  - assert (core (set_socks (<[i := (s, p)]> (w_socks w)) w) = c_put i s (core w)) as ->.
    { unfold core, vsocks, c_put. cbn. by rewrite fmap_insert. }
    apply H. cbn. unfold vsocks. rewrite lookup_fmap.
    assert (w_socks w !! i = None) as -> by apply not_elem_of_dom, is_fresh. done.
Qed.

Lemma cwp_free_sock i Φ c :
  (forall m es d, inv m es d -> inv (delete i m) es d) -> Φ tt (c_del i c) -> cwp (free_sock i) Φ c.
Proof.
  intros Hi. apply cwp_modify. intros w <-. split.
  - unfold core, c_del, vsocks. cbn. by rewrite fmap_delete.
  - unfold drv_inv. cbn. rewrite fmap_delete. apply Hi.
Qed.

Lemma cwp_new_entry a q Φ c :
  (forall e m es d, inv m es d -> inv m (<[e := q]> es) d) ->
  (forall e, c_entries c !! e = None -> Φ e (c_entry e a c)) -> cwp (new_entry a q) Φ c.
Proof.
  intros Hi H w <- Hd. unfold wp, new_entry. set (e := fresh _). split.
  - unfold drv_inv in *. cbn. rewrite fmap_insert. by apply Hi.
  - assert (core (set_entries (<[e := (a, q)]> (w_entries w)) w) = c_entry e a (core w)) as ->.
    { unfold core, c_entry. cbn. by rewrite fmap_insert. }
    apply H. cbn. rewrite lookup_fmap.
    assert (w_entries w !! e = None) as -> by apply not_elem_of_dom, is_fresh. done.
Qed.

Lemma cwp_free_entry e Φ c :
  (forall m es d, inv m es d -> inv m (delete e es) d) -> Φ tt (c_free e c) -> cwp (free_entry e) Φ c.
Proof.
  intros Hi. apply cwp_modify. intros w <-. split.
  - unfold core, c_free. cbn. by rewrite fmap_delete.
  - unfold drv_inv. cbn. rewrite fmap_delete. apply Hi.
Qed.

Lemma cwp_entry e a Φ c :
  c_entries c !! e = Some a -> (forall q, Φ (a, q) c) -> cwp (deref (fun w => w_entries w !! e)) Φ c.
Proof.
  intros He H w <- Hd. unfold wp, deref. cbn in He. rewrite lookup_fmap in He.
  destruct (w_entries w !! e) as [[a' q]|]; [|done]. cbn in He. injection He as ->. auto.
Qed.

(** ** The table *)

Context (cid : Z).

Lemma alive_ok (w : world P Q D) : table_ok cid (core w) -> alive w = true.
Proof.
  intros Ht. apply forallb_forall. intros i Hi%list_elem_of_In.
  apply bool_decide_eq_true. destruct (to_alive _ _ Ht i Hi) as (s & Hs & _). by exists s.
Qed.

(** The outcome of a search. *)
Definition found (k : uk_vsock_conn_id) (c : core_state) (r : option positive) : Prop :=
  match r with
  | Some i => exists s, i ∈ members c /\ c_socks c !! i = Some s /\ key_matches k s
  | None => forall i s, i ∈ members c -> c_socks c !! i = Some s -> ~ key_matches k s
  end.

Lemma cwp_find k Φ c :
  table_ok cid c -> search_key k -> (forall r, found k c r -> Φ r c) -> cwp (sockets_FIND k) Φ c.
Proof.
  intros Ht Hk H w <- Hd. unfold wp, sockets_FIND. rewrite alive_ok by done. split; [done|].
  apply H. destruct (RB_FIND _ _ _ _) as [i|] eqn:Hf.
  - by apply (find_Some cid).
  - unfold found. by apply (find_None cid).
Qed.

Lemma cwp_insert i s Φ c :
  table_ok cid c -> c_socks c !! i = Some s -> a_cid (v_local s) = cid ->
  (forall j s', j ∈ members c -> c_socks c !! j = Some s' -> ~ same_key s s') ->
  (forall t, table_ok cid (c_tree t c) -> elems t ≡ₚ i :: members c -> Φ None (c_tree t c)) ->
  cwp (sockets_INSERT i) Φ c.
Proof.
  intros Ht Hs Hc Hn H w <- Hd. unfold wp, sockets_INSERT, sockets_update.
  rewrite alive_ok by done.
  destruct (RB_INSERT_total uk_vsock_sockaddr_cmp (key_of (vsocks w)) i (w_sockets w))
    as (y & t & Hins & Hi & Hb & Ho); [apply Ht..|].
  cbn in Hs. rewrite Hins. destruct Hi as [j Hj Hcmp|l1 l2 t E1 E2 Hne].
  - destruct (to_alive _ _ Ht j Hj) as (s' & Hs' & _). cbn in Hs'.
    rewrite (key_of_Some _ _ _ Hs), (key_of_Some _ _ _ Hs') in Hcmp.
    destruct (Hn j s' Hj Hs'). by apply cmp_same_key.
  - split; [done|]. assert (Hp : elems t ≡ₚ i :: elems (w_sockets w))
      by by rewrite E2, E1, <- Permutation_middle.
    apply H; [|done]. split; [done..|]. unfold members. cbn. intros j.
    rewrite Hp. intros [->|Hj]%elem_of_cons; [by exists s|]. by apply (to_alive _ _ Ht).
Qed.

Lemma cwp_remove i Φ c :
  table_ok cid c -> i ∈ members c ->
  (forall t, table_ok cid (c_tree t c) -> members c ≡ₚ i :: elems t -> Φ tt (c_tree t c)) ->
  cwp (sockets_REMOVE i) Φ c.
Proof.
  intros Ht Hi H w <- Hd. unfold wp, sockets_REMOVE, sockets_update. rewrite alive_ok by done.
  destruct (RB_REMOVE_total i (w_sockets w)) as (t & l1 & l2 & -> & Hb & E1 & E2); [done|apply Ht|].
  cbn. split; [done|]. assert (Hp : elems (w_sockets w) ≡ₚ i :: elems t)
    by by rewrite E1, E2, <- Permutation_middle.
  apply H; [|done]. split; [done|..].
  - pose proof (to_ordered _ _ Ht) as Ho. unfold members in *. cbn in *. rewrite E1 in Ho.
    rewrite E2. eapply ordered_delete; [apply _|exact Ho].
  - intros j Hj. apply (to_alive _ _ Ht). unfold members. cbn. rewrite Hp. by right.
Qed.

(** Reinserting a socket whose key has changed, in an otherwise good table. *)
Lemma cwp_reinsert i s Φ c :
  table_ok cid c -> i ∈ members c -> a_cid (v_local s) = cid ->
  (forall j s', j ∈ members c -> j <> i -> c_socks c !! j = Some s' -> ~ same_key s s') ->
  (forall t, table_ok cid (c_tree t (c_put i s c)) -> elems t ≡ₚ members c ->
    Φ None (c_tree t (c_put i s c))) ->
  cwp (sockets_REINSERT i) Φ (c_put i s c).
Proof.
  intros Ht Hi Hc Hn H w Hw Hd. unfold wp, sockets_REINSERT, sockets_update.
  assert (Hs : vsocks w = <[i := s]> (c_socks c)) by by apply (f_equal c_socks) in Hw.
  assert (Htr : w_sockets w = c_sockets c) by by apply (f_equal c_sockets) in Hw.
  assert (Hal : forall j, j ∈ members c -> exists s', vsocks w !! j = Some s' /\ a_cid (v_local s') = cid).
  { intros j Hj. rewrite Hs. destruct (decide (j = i)) as [->|Hij].
    - exists s. by rewrite lookup_insert_eq.
    - rewrite lookup_insert_ne by done. by apply Ht. }
  assert (alive w = true) as ->.
  { apply forallb_forall. intros j Hj%list_elem_of_In. rewrite Htr in Hj.
    apply bool_decide_eq_true. destruct (Hal j Hj) as (s' & ? & _). by exists s'. }
  apply list_elem_of_split in Hi as (l1 & l2 & Hl).
  assert (Hnd : NoDup (members c)) by (eapply ordered_NoDup; [apply _|apply Ht]).
  assert (Hni : i ∉ l1 ++ l2).
  { rewrite Hl, <- Permutation_middle in Hnd. by apply NoDup_cons in Hnd as [? _]. }
  destruct (RB_REINSERT_total uk_vsock_sockaddr_cmp (key_of (vsocks w)) i (w_sockets w) l1 l2)
    as (y & t & -> & Hb & Ho & Hy); [by rewrite Htr|done| |rewrite Htr; apply Ht|].
  { pose proof (to_ordered _ _ Ht) as Ho. rewrite Hl in Ho. apply ordered_delete in Ho; [|apply _].
    revert Ho. apply ordered_socks. intros j Hj. rewrite Hs, key_of_insert_ne; [done|].
    by intros ->. }
  split; [done|]. destruct y as [j|].
  - destruct Hy as (Hj & Hcmp & _). assert (Hji : j <> i) by by intros ->.
    assert (Hjm : j ∈ members c) by (rewrite Hl; set_solver).
    destruct (Hal j Hjm) as (s' & Hs' & _). rewrite (key_of_Some _ _ _ Hs') in Hcmp.
    rewrite Hs in Hs', Hcmp. rewrite lookup_insert_ne in Hs' by done.
    rewrite (key_of_Some _ i s) in Hcmp by apply lookup_insert_eq.
    destruct (Hn j s' Hjm Hji Hs'). by apply cmp_same_key.
  - rewrite Htr in Hy. assert (core (set_sockets t w) = c_tree t (c_put i s c)) as ->
      by by rewrite <- Hw.
    apply H; [|done]. split; unfold members in *; cbn in *; [done|by rewrite <- Hs|].
    intros j. rewrite Hy, <- Hs. apply Hal.
Qed.

(** ** What the core relies on in a driver *)

Definition fresh_sock (type : Z) (s : uk_vsock) : Prop :=
  exists mem, zlen mem = RX_BUFSIZE /\ uk_vsock_init (Some mem) type = (0, Some s).

Class Driver (ops : uk_vsockdev_ops P Q D) (max_send : Z) : Prop := {
  law_get_cid c : cwp (op_get_cid ops) (fun r c' => r = cid /\ c' = c) c;
  law_create type protocol c :
    cwp (op_create ops type protocol) (fun r c' =>
      (fst r < 0 /\ c' = c) \/
      (exists i s, r = (0, Some i) /\ c_socks c !! i = None /\ fresh_sock type s /\
        c' = c_put i s c)) c;
  law_accept i e s a c :
    c_socks c !! i = Some s -> c_entries c !! e = Some a ->
    cwp (op_accept ops i e) (fun r c' =>
      (fst r <> 0 /\ c' = c) \/
      (exists o so, r = (0, Some o) /\ c_socks c !! o = None /\ fresh_sock (v_sock_type s) so /\
        c' = c_put o (set_local (set_peer so a) (mk_addr cid (a_port (v_local s)))) c)) c;
  law_free_accept_entry i e s a c :
    c_socks c !! i = Some s -> c_entries c !! e = Some a ->
    cwp (op_free_accept_entry ops i e) (fun _ c' => c' = c_free e c) c;
  law_send i buf s c :
    c_socks c !! i = Some s -> zlen buf <= max_send ->
    cwp (op_send ops i buf) (fun r c' => r <= zlen buf /\ c' = c) c;
  law_connect i s c :
    c_socks c !! i = Some s -> cwp (op_connect ops i) (fun _ c' => c' = c) c;
  law_shutdown i rx tx s c :
    c_socks c !! i = Some s -> cwp (op_shutdown ops i rx tx) (fun _ c' => c' = c) c;
  law_reset i s c :
    c_socks c !! i = Some s -> cwp (op_reset ops i) (fun _ c' => c' = c) c;
  law_destroy i s c :
    c_socks c !! i = Some s ->
    cwp (op_destroy ops i) (fun rc c' => rc = 0 /\ c' = c_del i c) c;
  law_send_credit_update f i s c :
    op_send_credit_update ops = Some f -> c_socks c !! i = Some s ->
    cwp (f i) (fun _ c' => c' = c) c
}.
End logic.

(** [eval_states] computes the tests of a known socket state, [lookup_now] finds an object in an updated state, [use_law] applies a law of
    the driver, [cstep] runs the next primitive of a computation. *)
Ltac eval_states :=
  repeat match goal with
  | |- context [@bool_decide (?a = ?b) ?d] =>
      let v := eval vm_compute in (@bool_decide (a = b) d) in
      lazymatch v with
      | true => change (@bool_decide (a = b) d) with true
      | false => change (@bool_decide (a = b) d) with false
      end
  end; cbn [negb andb orb].
Ltac lookup_now :=
  cbn; repeat first [rewrite lookup_insert_eq | rewrite lookup_insert_ne by done];
  first [reflexivity | eassumption].
Tactic Notation "use_law" uconstr(L) :=
  eapply cwp_mono; [eapply L; [eassumption|lookup_now..]|].
Ltac cstep :=
  lazymatch goal with
  | |- cwp _ (mret _) _ _ => apply cwp_ret
  | |- cwp _ (_ ≫= _) _ _ => apply cwp_bind
  | |- cwp _ (if ?b then _ else _) _ _ => destruct b eqn:?; try discriminate
  | |- cwp _ (get_sock _) _ _ => eapply cwp_get_sock; [lookup_now|]
  | |- cwp _ (put_sock _ _) _ _ => eapply cwp_put_sock; [lookup_now|]
  | |- cwp _ (posix_sock_event_set (Some _) _) _ _ => eapply cwp_events; [lookup_now|]
  | |- cwp _ (posix_sock_event_clear (Some _) _) _ _ => eapply cwp_events; [lookup_now|]
  | |- cwp _ (posix_sock_get_data _) _ _ => eapply cwp_get_data; [lookup_now|done|]
  | |- cwp _ need_dev _ _ => apply cwp_need_dev; [done|]
  | |- cwp _ (dev_op _) _ _ => apply cwp_dev_op; [done|]
  end.
