(* ===== verification/VsockCore.v ===== *)
(** * Correctness of the vsock core

    The invariant of the core's state, and what each operation of Vsock.v does
    to a good state, whatever driver implements [Driver]. *)

From stdpp Require Import prelude gmap sorting.
From S2P Require Import Prelude Tree VsockBuffer Netbuf Vsock VsockTable VsockLogic.

(** ** The invariant *)

(** The states in which a socket is in the table. *)
Definition in_table (st : uk_vsock_state) : bool :=
  match st with BOUND | WAIT_CONNECT | LISTENING | OPEN => true | READY | CLOSED => false end.

Definition any_addr : uk_vsockaddr := mk_addr UK_VSOCK_CID_ANY UK_VSOCK_PORT_ANY.

Record sock_wf (c : core_state) (i : positive) (s : uk_vsock) : Prop := {
  so_rx : buffer_wf (v_rx s);
  so_length : v_accept_queue_length s = zlen (v_accept_queue s);
  so_limit : v_accept_queue_limit s < 2 ^ 31 /\ zlen (v_accept_queue s) < 2 ^ 31;
  so_queue : v_accept_queue s <> [] -> v_state s = LISTENING;
  so_nodup : NoDup (v_accept_queue s);
  so_entries e : e ∈ v_accept_queue s -> is_Some (c_entries c !! e);
  so_any : v_state s = BOUND \/ v_state s = LISTENING -> v_peer s = any_addr;
  so_file ps : v_posix_sock s = Some ps ->
    exists al, c_psocks c !! ps = Some al /\ n_data (al_node al) = Some i
}.

Record core_inv (cid : Z) (c : core_state) : Prop := {
  ci_table : table_ok cid c;
  ci_dev : c_main_dev c = true;
  ci_next : 0 <= c_next c < 2 ^ 32;
  ci_sock i s : c_socks c !! i = Some s -> sock_wf c i s;
  ci_member i s : c_socks c !! i = Some s -> (i ∈ members c <-> in_table (v_state s) = true);
  ci_own i j s s' e : c_socks c !! i = Some s -> c_socks c !! j = Some s' ->
    e ∈ v_accept_queue s -> e ∈ v_accept_queue s' -> i = j
}.

(** The local conditions depend on the accept entries and the files only. *)
Lemma sock_wf_frame c c' i s :
  (forall e, e ∈ v_accept_queue s -> is_Some (c_entries c !! e) -> is_Some (c_entries c' !! e)) ->
  (forall ps al, c_psocks c !! ps = Some al -> exists al', c_psocks c' !! ps = Some al' /\
    al_node al' = al_node al) ->
  sock_wf c i s -> sock_wf c' i s.
Proof.
  intros He Hp [? ? ? ? ? Hent ? Hf]. split; try done.
  - intros e Hin. by apply He, Hent.
  - intros ps (al & Hal & Hn)%Hf. destruct (Hp ps al Hal) as (al' & ? & Heq).
    exists al'. by rewrite Heq.
Qed.

(** No other socket has an entry of the queue of [s]. *)
Definition own_queue (c : core_state) (i : positive) (s : uk_vsock) : Prop :=
  forall j sj e, j <> i -> c_socks c !! j = Some sj ->
    e ∈ v_accept_queue s -> e ∉ v_accept_queue sj.

Lemma own_queue_sub cid c i s s' :
  core_inv cid c -> c_socks c !! i = Some s -> v_accept_queue s' ⊆ v_accept_queue s ->
  own_queue c i s'.
Proof.
  intros Hc Hs Hq j sj e Hj Hsj He He'. apply Hj.
  by apply (ci_own _ _ Hc j i sj s e Hsj Hs He'), Hq.
Qed.

(** Replacing one socket, and the table around it. *)
Lemma core_inv_update cid c i s s' t :
  core_inv cid c -> c_socks c !! i = Some s ->
  table_ok cid (c_tree t (c_put i s' c)) ->
  (forall j, j <> i -> j ∈ elems t <-> j ∈ members c) ->
  (i ∈ elems t <-> in_table (v_state s') = true) ->
  sock_wf c i s' -> own_queue c i s' ->
  core_inv cid (c_tree t (c_put i s' c)).
Proof.
  intros [Ht Hd Hn Hs Hm Ho] Hi Ht' Hj Hi' Hwf Hq. split; try done; unfold members in *; cbn.
  - intros j sj. destruct (decide (j = i)) as [->|Hji].
    + rewrite lookup_insert_eq. intros [= <-]. by eapply sock_wf_frame, Hwf; eauto.
    + rewrite lookup_insert_ne by done. intros Hsj. by eapply sock_wf_frame, Hs; eauto.
  - intros j sj. destruct (decide (j = i)) as [->|Hji].
    + rewrite lookup_insert_eq. by intros [= <-].
    + rewrite lookup_insert_ne, Hj by done. apply Hm.
  - intros j k sj sk e. rewrite !lookup_insert.
    repeat case_decide; subst; intros; simplify_eq; eauto; exfalso; by eapply Hq; eauto.
Qed.

(** Replacing a socket without moving it in the table. *)
Lemma core_inv_put cid c i s s' :
  core_inv cid c -> c_socks c !! i = Some s -> same_key s s' ->
  in_table (v_state s') = in_table (v_state s) ->
  sock_wf c i s' -> v_accept_queue s' ⊆ v_accept_queue s ->
  core_inv cid (c_put i s' c).
Proof.
  intros Hc Hi Hk Hst Hwf Hq.
  change (c_put i s' c) with (c_tree (c_sockets c) (c_put i s' c)).
  eapply core_inv_update; try done; [|..|by eapply own_queue_sub].
  - apply (table_put cid c i s'); [apply Hc|]. right. eauto.
  - rewrite Hst. by apply Hc.
Qed.

(** Changing the events of a file. *)
Lemma core_inv_file cid c ps al al' :
  core_inv cid c -> c_psocks c !! ps = Some al -> al_node al' = al_node al ->
  core_inv cid (c_file ps al' c).
Proof.
  intros [Ht Hd Hn Hs Hm Ho] Hp Ha. split; try done.
  - by eapply table_frame, Ht.
  - intros i s Hi%Hs. eapply sock_wf_frame, Hi; [done|]. cbn. intros ps' al0 Hal0.
    destruct (decide (ps' = ps)) as [->|]; [|rewrite lookup_insert_ne by done; eauto].
    rewrite lookup_insert_eq. exists al'. split; [done|]. congruence.
Qed.

(** Freeing an accept entry that no queue holds. *)
Lemma core_inv_free cid c e :
  core_inv cid c -> (forall i s, c_socks c !! i = Some s -> e ∉ v_accept_queue s) ->
  core_inv cid (c_free e c).
Proof.
  intros [Ht Hd Hn Hs Hm Ho] He. split; try done.
  - by eapply table_frame, Ht.
  - cbn. intros i s Hi. eapply sock_wf_frame, Hs, Hi; [|eauto]. cbn. intros e' Hin ?.
    rewrite lookup_delete_ne; [done|]. intros <-. by eapply He.
Qed.

(** ** Closing *)

Section core.
Context {P Q D : Type} (inv : gmap positive P -> gmap positive Q -> D -> Prop) (cid : Z).
Context (ops : uk_vsockdev_ops P Q D) (max_send : Z) `{!Driver inv cid ops max_send}.
#[local] Abbreviation cwp := (cwp inv).

(** Freeing a list of accept entries. *)
Definition c_frees (l : list positive) (c : core_state) : core_state :=
  mk_core (c_sockets c) (c_next c) (c_socks c) (fold_left (fun m e => delete e m) l (c_entries c))
    (c_psocks c) (c_main_dev c).

Lemma core_inv_frees l c :
  core_inv cid c ->
  (forall e i s, e ∈ l -> c_socks c !! i = Some s -> e ∉ v_accept_queue s) ->
  core_inv cid (c_frees l c).
Proof.
  revert c. induction l as [|e l IH]; intros c Hc He; [by destruct c|].
  change (core_inv cid (c_frees l (c_free e c))). apply IH.
  - apply core_inv_free; [done|]. intros i s. apply He. left.
  - intros e' i s Hin. apply He. by right.
Qed.

(** The queue is emptied and its entries are freed. *)
Lemma drain_spec i s c Φ :
  c_main_dev c = true -> c_socks c !! i = Some s -> NoDup (v_accept_queue s) ->
  v_accept_queue_length s = zlen (v_accept_queue s) -> zlen (v_accept_queue s) < 2 ^ 31 ->
  (forall e, e ∈ v_accept_queue s -> is_Some (c_entries c !! e)) ->
  Φ tt (c_put i (set_queue s [] 0) (c_frees (v_accept_queue s) c)) ->
  cwp (uk_vsock_drain_accept_queue ops i) Φ c.
Proof.
  intros Hd Hs Hnd Hlen Hmax He HΦ. unfold uk_vsock_drain_accept_queue. cstep. cstep.
  remember (v_accept_queue s) as q eqn:Hq. revert s c Hd Hs Hq Hlen He HΦ.
  induction q as [|e q IH]; intros s c Hd Hs Hq Hlen He HΦ; cbn [drain_loop length].
  - cstep. cstep. rewrite <- Hq. cstep. cbn in HΦ.
    destruct c as [cs cn cso ce cp cm].
    unfold c_put, c_frees in HΦ. cbn in *. rewrite insert_id in HΦ; [done|]. rewrite Hs.
    f_equal. destruct s; cbn in *. by rewrite Hlen, <- Hq.
  - apply NoDup_cons in Hnd as [Hni Hnd]. rewrite zlen_cons in *. pose proof (zlen_nonneg q).
    cstep. cstep. rewrite <- Hq. cstep. cstep. cstep. cstep.
    destruct (He e) as [a Ha]; [left|].
    use_law law_free_accept_entry.
    intros _ c' ->. cstep. cstep.
    eapply IH; [done|lia|done|lookup_now|done|..].
    + cbn. rewrite swrap_small by lia. lia.
    + cbn. intros e' He'. rewrite lookup_delete_ne by by intros ->. apply He. by right.
    + change (Φ tt (c_put i (set_queue s [] 0) (c_put i (set_queue s q (s32 (v_accept_queue_length s - 1)))
        (c_put i (set_queue s q (v_accept_queue_length s)) (c_frees (e :: q) c))))).
      by rewrite !c_put_put.
Qed.

Definition closed (s : uk_vsock) : uk_vsock :=
  set_queue (set_tx_shutdown (set_rx_shutdown (set_state s CLOSED) true) true) [] 0.
Definition hup (al : socket_alloc) : socket_alloc :=
  set_events al (Z.lor (Z.ldiff (al_events al) EPOLLOUT) EPOLLHUP).

(** The state after a socket [i] with file [ps] was closed. *)
Definition c_closed (t : tree) (i : positive) (s : uk_vsock) (ps : positive) (al : socket_alloc)
    (c : core_state) : core_state :=
  c_tree t (c_put i (closed s) (c_file ps (hup al) (c_frees (v_accept_queue s) c))).

Lemma core_inv_closed t i s ps al c :
  core_inv cid c -> c_socks c !! i = Some s -> c_psocks c !! ps = Some al ->
  members c ≡ₚ i :: elems t -> table_ok cid (c_tree t c) ->
  core_inv cid (c_closed t i s ps al c).
Proof.
  intros Hc Hs Hp Hm Ht.
  assert (Hni : i ∉ elems t).
  { assert (NoDup (members c)) as Hnd by (eapply ordered_NoDup; [apply _|apply Hc]).
    rewrite Hm in Hnd. by apply NoDup_cons in Hnd as [? _]. }
  assert (Hc1 : core_inv cid (c_tree t (c_put i (closed s) c))).
  { eapply core_inv_update; [done..| | | | |eapply own_queue_sub; [done..|cbn; set_solver]].
    - apply (table_put cid (c_tree t c)); [done|]. by left.
    - intros j Hj. rewrite Hm, elem_of_cons. naive_solver.
    - cbn. done.
    - destruct (ci_sock _ _ Hc _ _ Hs) as [? ? [? ?] ? ? ? ? ?].
      split; cbn; try done; [constructor|set_solver|naive_solver]. }
  unfold c_closed.
  apply (core_inv_file cid (c_frees (v_accept_queue s) (c_tree t (c_put i (closed s) c))) ps al);
    [|done..].
  apply core_inv_frees; [done|]. cbn. intros e j sj He Hj Hej.
  destruct (decide (j = i)) as [->|Hji].
  - rewrite lookup_insert_eq in Hj. injection Hj as <-. cbn in Hej. set_solver.
  - rewrite lookup_insert_ne in Hj by done. by apply Hji, (ci_own _ _ Hc j i sj s e).
Qed.

(** The outcome of closing a socket that is in the table. *)
Definition close_post (i : positive) (s : uk_vsock) (ps : positive) (al : socket_alloc)
    (c c' : core_state) : Prop :=
  core_inv cid c' /\ exists t, c' = c_closed t i s ps al c.

Lemma no_queue i s c :
  core_inv cid c -> c_socks c !! i = Some s -> v_state s <> LISTENING ->
  v_accept_queue s = [] /\ v_accept_queue_length s = 0.
Proof.
  intros Hc Hs Hst. destruct (ci_sock _ _ Hc _ _ Hs) as [? Hlen ? Hq _ _ _ _]. rewrite Hlen.
  destruct (v_accept_queue s); [done|]. by rewrite Hq in Hst.
Qed.

Lemma close_finish_spec i s ps al c t :
  core_inv cid c -> c_socks c !! i = Some s -> v_posix_sock s = Some ps ->
  c_psocks c !! ps = Some al -> members c ≡ₚ i :: elems t -> table_ok cid (c_tree t c) ->
  cwp (close_finish i) (fun rc c' => rc = 0 /\ close_post i s ps al c c')
    (c_tree t (c_put i (set_queue s [] 0) (c_frees (v_accept_queue s) c))).
Proof.
  intros Hc Hs Hps Hal Hm Ht. unfold close_finish. cstep. cstep. cstep. cstep.
  cbn [v_posix_sock set_tx_shutdown set_rx_shutdown set_state set_queue]. rewrite Hps.
  cstep. cstep. cstep. cstep. cstep. split; [done|].
  match goal with |- close_post _ _ _ _ _ ?c' =>
    assert (Heq : c' = c_closed t i s ps al c) end.
  { unfold c_closed, c_put, c_file, c_tree, c_frees. cbn. by rewrite !insert_insert_eq. }
  rewrite Heq. split; [by apply core_inv_closed|by exists t].
Qed.

Lemma close_local_spec i s ps al c :
  core_inv cid c -> c_socks c !! i = Some s -> in_table (v_state s) = true ->
  v_posix_sock s = Some ps -> c_psocks c !! ps = Some al ->
  cwp (close_local ops i) (fun rc c' => rc = 0 /\ close_post i s ps al c c') c.
Proof.
  intros Hc Hs Hst Hps Hal. destruct (ci_sock _ _ Hc _ _ Hs) as [? ? [? ?] ? ? ? _ _].
  unfold close_local. cstep. eapply drain_spec; [apply Hc|done..|].
  cstep. eapply (cwp_remove inv cid).
  - apply (table_frame cid (c_put i (set_queue s [] 0) c)); [done..|].
    apply table_put; [apply Hc|]. right. by exists s.
  - by apply (ci_member _ _ Hc i s).
  - intros t Ht Hm. apply close_finish_spec; [done..|].
    pose proof (table_put cid (c_tree t (c_put i (set_queue s [] 0) c)) i s) as Hput.
    assert (Heq : c_put i s (c_put i (set_queue s [] 0) c) = c).
    { rewrite c_put_put. destruct c. unfold c_put. cbn in *. by rewrite insert_id. }
    change (c_put i s (c_tree t (c_put i (set_queue s [] 0) c))) with
      (c_tree t (c_put i s (c_put i (set_queue s [] 0) c))) in Hput.
    rewrite Heq in Hput. apply Hput.
    + by eapply table_frame, Ht.
    + right. eexists. split; [lookup_now|done].
Qed.

Lemma uk_vsock_close_spec i s ps al c force :
  core_inv cid c -> c_socks c !! i = Some s ->
  v_posix_sock s = Some ps -> c_psocks c !! ps = Some al ->
  cwp (uk_vsock_close ops i force) (fun rc c' =>
    if in_table (v_state s)
    then rc <> 0 /\ c' = c \/ rc = 0 /\ close_post i s ps al c c'
    else c' = c /\ (force = false -> rc = 0)) c.
Proof.
  intros Hc Hs Hps Hal. pose proof (ci_dev _ _ Hc) as Hd. unfold uk_vsock_close.
  assert (Hwait : v_state s = WAIT_CONNECT -> cwp (sockets_REMOVE i ;; close_finish i)
    (fun rc c' => rc = 0 /\ close_post i s ps al c c') c).
  { intros Hw. cstep. eapply (cwp_remove inv cid); [apply Hc| |].
    - apply (ci_member _ _ Hc i s); [done|]. by rewrite Hw.
    - intros t Ht Hm. pose proof (close_finish_spec i s ps al c t Hc Hs Hps Hal Hm Ht) as Hf.
      destruct (no_queue i s c) as [Hq Hl]; [done..|by rewrite Hw|].
      assert (set_queue s [] 0 = s) as Hsq by (destruct s; cbn in *; by subst).
      rewrite Hsq, Hq in Hf. unfold c_tree, c_put, c_frees in Hf. cbn in Hf.
      by rewrite insert_id in Hf. }
  cstep.
  eapply (cwp_mono _ _ (fun rc c' => c' = c /\ (force = false -> rc = 0))).
  { destruct force; [cstep; by use_law law_reset|by cstep]. }
  intros rc ? [-> Hrc]. cstep.
  { cstep. destruct (in_table _); [|done]. left. split; [lia|done]. }
  cstep. cstep. destruct (v_state s) eqn:Hst; cbn [in_table].
  - by cstep.
  - by cstep.
  - eapply cwp_mono; [apply close_local_spec; try done; by rewrite Hst|]. naive_solver.
  - cstep. eapply (cwp_mono _ _ (fun _ c' => c' = c)).
    { destruct force; [by cstep|cstep; by use_law law_reset]. }
    intros rc' ? ->. cstep.
    { cstep. left. split; [lia|done]. }
    eapply cwp_mono; [by apply Hwait|]. naive_solver.
  - eapply cwp_mono; [apply close_local_spec; try done; by rewrite Hst|]. naive_solver.
  - cstep. eapply (cwp_mono _ _ (fun _ c' => c' = c)).
    { destruct force; [by cstep|cstep; by use_law law_shutdown]. }
    intros rc' ? ->. cstep.
    { cstep. left. split; [lia|done]. }
    eapply cwp_mono; [apply close_local_spec; try done; by rewrite Hst|]. naive_solver.
Qed.

(** ** The handlers called by the driver *)

(** A live socket [i] whose file is [ps]. *)
Record attached (c : core_state) (i : positive) (s : uk_vsock) (ps : positive)
    (al : socket_alloc) : Prop := {
  at_sock : c_socks c !! i = Some s;
  at_posix : v_posix_sock s = Some ps;
  at_file : c_psocks c !! ps = Some al
}.

Lemma cwp_assert_posix s ps Φ c :
  v_posix_sock s = Some ps -> Φ tt c -> cwp (assert_posix_sock s) Φ c.
Proof.
  intros Hps. apply cwp_assert. rewrite Hps. by apply bool_decide_eq_true.
Qed.

Definition raise (e : Z) (al : socket_alloc) : socket_alloc :=
  set_events al (Z.lor (al_events al) e).
Definition lower (e : Z) (al : socket_alloc) : socket_alloc :=
  set_events al (Z.ldiff (al_events al) e).

(** Changing a socket in place and the events of its file keeps the invariant. *)
Lemma core_inv_handled i s ps al s' al' c :
  core_inv cid c -> attached c i s ps al -> same_key s s' ->
  in_table (v_state s') = in_table (v_state s) -> sock_wf c i s' ->
  v_accept_queue s' ⊆ v_accept_queue s -> al_node al' = al_node al ->
  core_inv cid (c_put i s' (c_file ps al' c)).
Proof.
  intros Hc [Hs Hps Hal] ? ? Hwf ? Ha.
  apply (core_inv_file cid (c_put i s' c) ps al); [|done..]. by eapply core_inv_put.
Qed.

Lemma uk_vsock_rx_payload_spec i s ps al packet c :
  core_inv cid c -> attached c i s ps al -> Forall (fun nb => zlen nb < 2 ^ 16) packet ->
  cwp (uk_vsock_rx_payload i packet) (fun rc c' => core_inv cid c' /\
    if decide (v_state s = OPEN) then
      if zlen (concat packet) <=? b_capacity (v_rx s) - b_count (v_rx s) then
        rc = 0 /\ exists rx, c' = c_put i (set_rx s rx) (c_file ps (raise EPOLLIN al) c) /\
          contents rx = contents (v_rx s) ++ concat packet /\
          b_capacity rx = b_capacity (v_rx s) /\
          b_total_processed rx = b_total_processed (v_rx s)
      else rc = - ENOSPC /\ c' = c
    else rc = - EINVAL /\ c' = c) c.
Proof.
  intros Hc Hat Hnb. pose proof Hat as [Hs Hps Hal]. unfold uk_vsock_rx_payload. cstep. cstep.
  rewrite bool_decide_decide. destruct (decide (v_state s = OPEN)) as [Ho|Ho]; cbn [negb]; [|by cstep].
  pose proof (ci_sock _ _ Hc _ _ Hs) as Hwf.
  destruct (uk_vsock_buffer_append_spec (v_rx s) packet (so_rx _ _ _ Hwf) Hnb)
    as (rc & rx & Ha & Hrx & Hcap & Htot & Hcase).
  cstep. eapply cwp_deref; [by intros|]. cbn beta iota. cstep. cstep.
  destruct (zlen _ <=? _); destruct Hcase as [-> Hb].
  - cstep. cstep. eapply cwp_assert_posix; [done|]. cstep. rewrite Hps. cstep. cstep.
    assert (core_inv cid (c_put i (set_rx s rx) (c_file ps (raise EPOLLIN al) c))); [|eauto 10].
    eapply core_inv_handled; try done. by destruct Hwf; split.
  - subst rx. cstep. rewrite c_put_id by (rewrite Hs; by destruct s). by cstep.
Qed.

(** In place of [set_state s OPEN]: the connection is established. *)
Lemma uk_vsock_conn_response_spec i s ps al c :
  core_inv cid c -> attached c i s ps al ->
  cwp (uk_vsock_conn_response ops i) (fun rc c' => core_inv cid c' /\
    if decide (v_state s = WAIT_CONNECT) then
      rc = 0 /\ c' = c_put i (set_state s OPEN) (c_file ps (raise EPOLLOUT al) c)
    else rc = - EINVAL /\ (c' = c \/ in_table (v_state s) = true /\ close_post i s ps al c c')) c.
Proof.
  intros Hc Hat. pose proof Hat as [Hs Hps Hal]. unfold uk_vsock_conn_response. cstep. cstep.
  rewrite bool_decide_decide. destruct (decide _) as [Hw|Hw]; cbn [negb].
  - cstep. eapply cwp_assert_posix; [done|]. cstep. cstep. cstep. rewrite Hps. cstep. cstep.
    core_norm. split; [|done]. eapply core_inv_handled; try done; [by cbn; rewrite Hw|].
    destruct (ci_sock _ _ Hc _ _ Hs). split; cbn; try done; [|naive_solver].
    intros Hq. rewrite so_queue0 in Hw; done.
  - cstep. eapply cwp_mono; [by eapply uk_vsock_close_spec|]. intros rc c' Hpost. cstep.
    destruct (in_table (v_state s)); [|by destruct Hpost as [-> _]; auto].
    destruct Hpost as [[_ ->]|[_ Hpost]]; [by auto|]. pose proof Hpost as [? _]. auto 6.
Qed.

Definition reset_events (al : socket_alloc) : socket_alloc :=
  raise (Z.lor (Z.lor EPOLLERR EPOLLHUP) EPOLLRDHUP) (lower EPOLLOUT al).

(** A socket that leaves the table. *)
Lemma core_inv_left i s s' t c :
  core_inv cid c -> c_socks c !! i = Some s ->
  members c ≡ₚ i :: elems t -> table_ok cid (c_tree t c) ->
  in_table (v_state s') = false -> sock_wf c i s' -> v_accept_queue s' ⊆ v_accept_queue s ->
  core_inv cid (c_tree t (c_put i s' c)).
Proof.
  intros Hc Hs Hm Ht Hst Hwf Hq.
  assert (Hni : i ∉ elems t).
  { assert (NoDup (members c)) as Hnd by (eapply ordered_NoDup; [apply _|apply Hc]).
    rewrite Hm in Hnd. by apply NoDup_cons in Hnd as [? _]. }
  eapply core_inv_update; try done; [|..|by eapply own_queue_sub].
  - apply (table_put cid (c_tree t c)); [done|]. by left.
  - intros j Hj. rewrite Hm, elem_of_cons. naive_solver.
  - by rewrite Hst.
Qed.

Lemma core_inv_so_error i s e c :
  core_inv cid c -> c_socks c !! i = Some s -> core_inv cid (c_put i (set_so_error s e) c).
Proof.
  intros Hc Hs. eapply core_inv_put; try done. by destruct (ci_sock _ _ Hc _ _ Hs); split.
Qed.

Lemma set_ready_spec i s c :
  core_inv cid c -> c_socks c !! i = Some s -> v_state s = WAIT_CONNECT \/ v_state s = OPEN ->
  cwp (sockets_REMOVE i;; put_sock i (fun s => set_state s READY);; mret 0)
    (fun rc c' => rc = 0 /\ core_inv cid c' /\ exists t, c' = c_tree t (c_put i (set_state s READY) c)) c.
Proof.
  intros Hc Hs Hst. cstep. eapply (cwp_remove inv cid); [apply Hc| |].
  { apply (ci_member _ _ Hc i s); [done|]. by destruct Hst as [-> | ->]. }
  intros t Ht Hm. cstep. cstep. cstep. core_norm. split; [done|]. split; [|by exists t].
  eapply (core_inv_left i s); try done. destruct (ci_sock _ _ Hc _ _ Hs). split; cbn; try done.
  - intros Hq%so_queue0. by destruct Hst; congruence.
  - by intros [].
Qed.

Lemma uk_vsock_conn_reset_spec i s ps al c :
  core_inv cid c -> attached c i s ps al ->
  cwp (uk_vsock_conn_reset ops i) (fun rc c' => core_inv cid c' /\
    let c1 := c_file ps (reset_events al) c in
    match v_state s with
    | WAIT_CONNECT =>
        rc <> 0 /\ c' = c_put i (set_so_error s (- ECONNREFUSED)) c1 \/
        rc = 0 /\ exists t,
          c' = c_tree t (c_put i (set_state (set_so_error s (- ECONNREFUSED)) READY) c1)
    | OPEN => rc = 0 /\ exists t, c' = c_tree t (c_put i (set_state s READY) c1)
    | _ => rc = 0 /\ c' = c1
    end) c.
Proof.
  intros Hc Hat. pose proof Hat as [Hs Hps Hal]. pose proof (ci_dev _ _ Hc) as Hd.
  unfold uk_vsock_conn_reset. cstep. cstep.
  cstep. eapply cwp_assert_posix; [done|]. rewrite Hps. cstep. cstep. cstep. cstep.
  rewrite c_file_file. fold (lower EPOLLOUT al). fold (reset_events al).
  assert (Hc1 : core_inv cid (c_file ps (reset_events al) c)) by by eapply core_inv_file.
  destruct (v_state s) eqn:Hst; try by cstep.
  - cstep. cstep. cstep. cstep. use_law law_reset. intros rc ? ->. cstep.
    + cstep. split; [by apply core_inv_so_error|]. left. split; [lia|done].
    + eapply cwp_mono; [eapply set_ready_spec; [by apply core_inv_so_error|lookup_now|auto]|].
      intros ? ? (-> & ? & t & ->). split; [done|]. right. split; [done|]. exists t.
      by rewrite c_put_put.
  - eapply cwp_mono; [eapply set_ready_spec; [done|lookup_now|auto]|]. naive_solver.
Qed.

(** The effect of a shutdown by the peer on the socket and its file. *)
Definition shut (peer_rx peer_tx : bool) (s : uk_vsock) : uk_vsock :=
  let s := if peer_rx then set_tx_shutdown s true else s in
  if peer_tx then set_rx_shutdown s true else s.
Definition shut_events (peer_rx peer_tx : bool) (al : socket_alloc) : socket_alloc :=
  let al := if peer_rx then lower EPOLLOUT al else al in
  if peer_tx then raise EPOLLRDHUP al else al.

Lemma uk_vsock_conn_shutdown_spec i s ps al peer_rx peer_tx c :
  core_inv cid c -> attached c i s ps al ->
  cwp (uk_vsock_conn_shutdown ops i peer_rx peer_tx) (fun rc c' => core_inv cid c' /\
    if decide (v_state s = OPEN) then
      let s1 := shut peer_rx peer_tx s in
      let al1 := shut_events peer_rx peer_tx al in
      let c1 := c_put i s1 (c_file ps al1 c) in
      if v_rx_shutdown s1 && v_tx_shutdown s1
      then rc <> 0 /\ c' = c1 \/ rc = 0 /\ close_post i s1 ps al1 c1 c'
      else rc = 0 /\ c' = c1
    else rc = - EINVAL /\ c' = c) c.
Proof.
  intros Hc Hat. pose proof Hat as [Hs Hps Hal]. unfold uk_vsock_conn_shutdown. cstep. cstep.
  rewrite bool_decide_decide. destruct (decide _) as [Hw|Hw]; cbn [negb]; [|by cstep].
  cstep. eapply cwp_assert_posix; [done|]. rewrite Hps.
  set (s1 := shut peer_rx peer_tx s). set (al1 := shut_events peer_rx peer_tx al).
  assert (Hs1 : v_state s1 = OPEN /\ v_posix_sock s1 = Some ps) by by destruct peer_rx, peer_tx.
  assert (Hc1 : core_inv cid (c_put i s1 (c_file ps al1 c))).
  { assert (sock_wf c i s1) by (destruct (ci_sock _ _ Hc _ _ Hs); destruct peer_rx, peer_tx; by split).
    by destruct peer_rx, peer_tx; eapply core_inv_handled. }
  cstep. eapply (cwp_mono _ _ (fun _ c' =>
    c' = c_put i (if peer_rx then set_tx_shutdown s true else s)
           (c_file ps (if peer_rx then lower EPOLLOUT al else al) c))).
  { destruct peer_rx; repeat cstep; [by core_norm|].
    rewrite c_put_id by done. unfold c_file. rewrite insert_id by done. by destruct c. }
  intros _ ? ->. cstep. eapply (cwp_mono _ _ (fun _ c' => c' = c_put i s1 (c_file ps al1 c))).
  { destruct peer_tx; repeat cstep; by core_norm. }
  intros _ ? ->. cstep. cstep. destruct (_ && _); [|by cstep].
  cstep. eapply cwp_mono.
  { eapply (uk_vsock_close_spec i s1 ps al1); [done|lookup_now|apply Hs1|lookup_now]. }
  rewrite (proj1 Hs1). cbn [in_table]. intros rc c' [[Hrc ->]|[-> Hp]]; cbn beta iota.
  - destruct (negb (rc =? 0)) eqn:?; [cstep; by auto|lia].
  - cstep. cstep. split; [apply Hp|auto].
Qed.

Lemma uk_vsock_conn_request_spec i s ps al e c :
  core_inv cid c -> attached c i s ps al -> is_Some (c_entries c !! e) ->
  (forall j sj, c_socks c !! j = Some sj -> e ∉ v_accept_queue sj) ->
  cwp (uk_vsock_conn_request i e) (fun rc c' => core_inv cid c' /\
    if decide (v_state s = LISTENING /\ v_accept_queue_length s < v_accept_queue_limit s) then
      rc = 0 /\ c' = c_put i (set_queue s (v_accept_queue s ++ [e]) (v_accept_queue_length s + 1))
                       (c_file ps (raise EPOLLIN al) c)
    else rc = - ECONNREFUSED /\ c' = c) c.
Proof.
  intros Hc Hat He Hne. pose proof Hat as [Hs Hps Hal]. unfold uk_vsock_conn_request. cstep. cstep.
  destruct (decide (_ /\ _)) as [[Hw Hl]|Hn].
  2: { destruct (bool_decide _) eqn:Hb; cbn [negb]; [|by cstep].
       apply bool_decide_eq_true in Hb. cstep; [by cstep|]. destruct Hn. split; [done|lia]. }
  rewrite bool_decide_eq_true_2 by done. cbn [negb].
  destruct (Z.leb_spec (v_accept_queue_limit s) (v_accept_queue_length s)); [lia|].
  cstep. cstep. cstep. eapply cwp_assert_posix; [done|]. rewrite Hps. cstep. cstep. cstep. core_norm.
  destruct (ci_sock _ _ Hc _ _ Hs) as [? Hlen [? ?] ? ? ? ? ?].
  pose proof (zlen_nonneg (v_accept_queue s)).
  rewrite swrap_small by lia. split; [|done].
  apply (core_inv_file cid (c_put i (set_queue s (v_accept_queue s ++ [e])
    (v_accept_queue_length s + 1)) c) ps al); [|done..].
  change (core_inv cid (c_tree (c_sockets c) (c_put i (set_queue s (v_accept_queue s ++ [e])
    (v_accept_queue_length s + 1)) c))).
  eapply core_inv_update; try done.
  - apply (table_put cid c i); [apply Hc|]. right. by exists s.
  - by apply (ci_member _ _ Hc i s).
  - split; cbn; try done.
    + by rewrite zlen_app, Hlen.
    + rewrite zlen_app. change (zlen [e]) with 1. lia.
    + apply NoDup_app. split; [done|]. split; [set_solver|apply NoDup_singleton].
    + intros e'. rewrite elem_of_app, list_elem_of_singleton. intros [?| ->]; auto.
  - intros j sj e' Hj Hsj. cbn. rewrite elem_of_app, list_elem_of_singleton.
    intros [?| ->]; [|by eapply Hne]. by eapply (own_queue_sub cid c i s s).
Qed.
End core.
