(* ===== verification/VsockSocket.v ===== *)
(** * Correctness of the operations of posix-socket on vsock sockets

    Port allocation and lookup, and bind, listen, connect, accept, shutdown,
    close, send and receive, on a good state and against any driver. *)

From stdpp Require Import prelude gmap sorting.
From S2P Require Import Prelude Tree VsockBuffer Netbuf Vsock VsockTable VsockLogic VsockCore.

Section socket.
Context {P Q D : Type} (inv : gmap positive P -> gmap positive Q -> D -> Prop) (cid : Z).
Context (ops : uk_vsockdev_ops P Q D) (max_send : Z) `{!Driver inv cid ops max_send}.
#[local] Abbreviation cwp := (cwp inv).

(** ** Port allocation *)

(** A socket of the type in the table has the local port. *)
Definition port_used (c : core_state) (type port : Z) : Prop :=
  exists i s, i ∈ members c /\ c_socks c !! i = Some s /\
    v_sock_type s = type /\ a_port (v_local s) = port.

Lemma found_port c type port r :
  found (port_key type port) c r ->
  match r with Some _ => port_used c type port | None => ~ port_used c type port end.
Proof.
  destruct r as [i|]; cbn.
  - intros (s & Hi & Hs & Ht & _ & Hp & _). exists i, s. cbn in *. auto.
  - intros Hn (i & s & Hi & Hs & Ht & Hp). apply (Hn i s Hi Hs). unfold key_matches. cbn.
    eval_masks. split_and!; try done; congruence.
Qed.

(** The outcome of [n] probes from the port [next]: the first free port, or an
    error when all of them are taken. *)
Definition allocated (c : core_state) (type : Z) (n : nat) (next r : Z) (c' : core_state) : Prop :=
  (exists k, 0 <= k < Z.of_nat n /\ r = s32 (u32 (next + k)) /\
    c' = c_port (u32 (next + k + 1)) c /\ ~ port_used c type (u32 (next + k)) /\
    forall j, 0 <= j < k -> port_used c type (u32 (next + j))) \/
  (r = - EADDRNOTAVAIL /\ c' = c_port (u32 (next + Z.of_nat n)) c /\
    forall j, 0 <= j < Z.of_nat n -> port_used c type (u32 (next + j))).

Lemma alloc_port_loop_spec type n c next :
  table_ok cid c ->
  cwp (alloc_port_loop type n) (allocated c type n next) (c_port (u32 next) c).
Proof.
  intros Ht. revert next. induction n as [|n IH]; intros next; cbn [alloc_port_loop].
  { cstep. right. rewrite Z.add_0_r. split_and!; [done..|lia]. }
  cstep. eapply (cwp_gets _ _ _ _ (u32 next)); [by intros w Hw%(f_equal c_next)|]. cstep.
  eapply (cwp_find inv cid); [by eapply table_frame, Ht|constructor|].
  intros r Hr%found_port. cstep.
  eapply (cwp_modify _ _ _ _ (c_port (u32 (next + 1)) c)).
  { intros w Hw. split; [|done]. destruct c. unfold core, c_port, vsocks in *. cbn in *.
    rewrite wrap_add_l by done. by injection Hw as -> ? -> -> -> ->. }
  change (port_used (c_port (u32 next) c)) with (port_used c) in Hr. destruct r as [i|].
  - eapply cwp_mono; [apply IH|]. intros r c' [(k & Hk & -> & -> & Hf & Hu)|(-> & -> & Hu)].
    + left. exists (k + 1). replace (next + (k + 1)) with (next + 1 + k) by lia.
      split_and!; [lia..|done|done|done|]. intros j Hj. destruct (decide (j = 0)) as [->|].
      * by rewrite Z.add_0_r.
      * replace (next + j) with (next + 1 + (j - 1)) by lia. apply Hu. lia.
    + right. split; [done|]. split; [do 2 f_equal; lia|]. intros j Hj.
      destruct (decide (j = 0)) as [->|]; [by rewrite Z.add_0_r|].
      replace (next + j) with (next + 1 + (j - 1)) by lia. apply Hu. lia.
  - cstep. left. exists 0. rewrite Z.add_0_r. split_and!; [lia..|done|done|done|lia].
Qed.

Definition PROBES : nat := Z.to_nat (U16_MAX + 1).

Lemma vsock_alloc_port_spec type c :
  core_inv cid c -> cwp (vsock_alloc_port type) (allocated c type PROBES (c_next c)) c.
Proof.
  intros Hc. pose proof (alloc_port_loop_spec type PROBES c (c_next c) (ci_table _ _ Hc)) as H.
  rewrite wrap_small in H by apply Hc. by destruct c.
Qed.

(** Distinct used ports belong to distinct members. *)
Lemma ports_used_bound c type next n :
  0 <= n <= 2 ^ 32 -> (forall j, 0 <= j < n -> port_used c type (u32 (next + j))) ->
  n <= zlen (members c).
Proof.
  intros Hn Hu. set (ports := (fun j => u32 (next + j)) <$> seqZ 0 n).
  set (local := fun i => match c_socks c !! i with Some s => a_port (v_local s) | None => 0 end).
  assert (Hsub : ports ⊆+ local <$> members c).
  { apply NoDup_submseteq.
    - apply NoDup_fmap_2_strong; [|apply NoDup_seqZ].
      intros j k Hj%elem_of_seqZ Hk%elem_of_seqZ Heq.
      enough (next + j - (next + k) = 0) by lia.
      assert ((j - k) mod 2 ^ 32 = 0) as Hz.
      { replace (j - k) with ((next + j) - (next + k)) by lia. unfold wrap in Heq.
        by rewrite Zminus_mod, Heq, Z.sub_diag. }
      apply Z.mod_divide in Hz as [q Hq]; [|lia]. nia.
    - intros p (j & -> & Hj%elem_of_seqZ)%list_elem_of_fmap.
      destruct (Hu j) as (i & s & Hi & Hs & _ & Hp); [lia|].
      apply list_elem_of_fmap. exists i. unfold local. by rewrite Hs. }
  apply submseteq_length in Hsub. unfold ports in Hsub.
  rewrite !length_fmap, length_seqZ in Hsub. unfold zlen. lia.
Qed.

(** ** Lookup *)

Definition exact (type : Z) (local peer : uk_vsockaddr) (s : uk_vsock) : Prop :=
  uk_vsock_sockaddr_key s = mk_id type local peer 0.
Definition listener (type port : Z) (s : uk_vsock) : Prop :=
  v_sock_type s = type /\ a_port (v_local s) = port /\ v_peer s = any_addr.

Lemma matches_exact type local peer s :
  key_matches (mk_id type local peer 0) s <-> exact type local peer s.
Proof.
  unfold key_matches, exact, uk_vsock_sockaddr_key. cbn. eval_masks. split.
  - intros (-> & H2 & H3 & H4 & H5). destruct local, peer, (v_local s), (v_peer s). cbn in *.
    by rewrite H2, H3, H4, H5.
  - by intros [= -> <- <-].
Qed.
Lemma matches_listener type local s :
  key_matches (listener_key type local) s <-> listener type (a_port local) s.
Proof.
  unfold key_matches, listener, any_addr, listener_key. cbn. eval_masks. split.
  - intros (-> & _ & -> & H4 & H5). destruct (v_peer s). cbn in *. by rewrite H4, H5.
  - intros (-> & -> & ->). done.
Qed.

(** The connection if there is one, else a bound socket of the local port. *)
Definition lookup_post (c : core_state) (type : Z) (local peer : uk_vsockaddr)
    (r : option positive) : Prop :=
  let no_exact := forall j s, j ∈ members c -> c_socks c !! j = Some s -> ~ exact type local peer s in
  match r with
  | Some i => exists s, i ∈ members c /\ c_socks c !! i = Some s /\
      (exact type local peer s \/ no_exact /\ listener type (a_port local) s)
  | None => no_exact /\
      forall j s, j ∈ members c -> c_socks c !! j = Some s -> ~ listener type (a_port local) s
  end.

Lemma uk_vsock_lookup_spec type local peer c Φ :
  table_ok cid c -> (forall r, lookup_post c type local peer r -> Φ r c) ->
  cwp (uk_vsock_lookup type local peer) Φ c.
Proof.
  intros Ht HΦ. unfold uk_vsock_lookup. cstep.
  eapply (cwp_find inv cid); [done|constructor|]. intros [i|]; cbn.
  - intros (s & ? & ? & ?%matches_exact). cstep. apply HΦ. exists s. auto.
  - intros Hn. setoid_rewrite matches_exact in Hn.
    eapply (cwp_find inv cid); [done|constructor|]. intros [i|]; cbn; intros Hl; apply HΦ.
    + destruct Hl as (s & ? & ? & ?%matches_listener). exists s. auto.
    + setoid_rewrite matches_listener in Hl. done.
Qed.

(** ** bind *)

Lemma attached_data c i s ps al :
  core_inv cid c -> attached c i s ps al -> n_data (al_node al) = Some i.
Proof.
  intros Hc [Hs Hps Hal]. destruct (so_file _ _ _ (ci_sock _ _ Hc _ _ Hs) ps Hps) as (al' & ? & ?).
  congruence.
Qed.

Lemma not_member c i s :
  core_inv cid c -> c_socks c !! i = Some s -> in_table (v_state s) = false -> i ∉ members c.
Proof. intros Hc Hs Hst Hi. apply (ci_member _ _ Hc i s Hs) in Hi. congruence. Qed.

(** A socket that enters the table. *)
Lemma core_inv_joined i s s' t c :
  core_inv cid c -> c_socks c !! i = Some s -> in_table (v_state s) = false ->
  elems t ≡ₚ i :: members c -> table_ok cid (c_tree t (c_put i s' c)) ->
  in_table (v_state s') = true -> sock_wf c i s' -> v_accept_queue s' ⊆ v_accept_queue s ->
  core_inv cid (c_tree t (c_put i s' c)).
Proof.
  intros Hc Hs Hst Hm Ht Hst' Hwf Hq.
  eapply core_inv_update; try done; [|..|by eapply own_queue_sub].
  - intros j Hj. rewrite Hm, elem_of_cons. naive_solver.
  - rewrite Hst', Hm. split; [done|left].
Qed.

(** Inserting a socket after its addresses were set to [s1], before its state
    is set ([s2] has the same key). *)
Lemma insert_spec i s s1 s2 c Φ :
  core_inv cid c -> c_socks c !! i = Some s -> in_table (v_state s) = false ->
  same_key s1 s2 -> a_cid (v_local s1) = cid ->
  (forall j sj, j ∈ members c -> c_socks c !! j = Some sj -> ~ same_key s1 sj) ->
  in_table (v_state s2) = true -> sock_wf c i s2 -> v_accept_queue s2 ⊆ v_accept_queue s ->
  (forall t, core_inv cid (c_tree t (c_put i s2 c)) ->
    Φ None (c_tree t (c_put i s1 c))) ->
  cwp (sockets_INSERT i) Φ (c_put i s1 c).
Proof.
  intros Hc Hs Hst Hk Hcid Hn Hst2 Hwf Hq HΦ. assert (Hni := not_member c i s Hc Hs Hst).
  eapply (cwp_insert inv cid); [|lookup_now|done|..].
  - apply table_put; [apply Hc|by left].
  - intros j sj Hj. cbn. rewrite lookup_insert_ne by (by intros ->). by apply Hn.
  - intros t Ht Hm. apply HΦ. eapply core_inv_joined; try done.
    rewrite <- (c_put_put i s2 s1). apply (table_put cid (c_tree t (c_put i s1 c))); [done|].
    right. exists s1. split; [lookup_now|done].
Qed.

Definition bound (port : Z) (s : uk_vsock) : uk_vsock :=
  set_state (set_peer (set_local s (mk_addr cid port)) any_addr) BOUND.
Definition listener_on (c : core_state) (type port : Z) : Prop :=
  exists j s, j ∈ members c /\ c_socks c !! j = Some s /\ listener type port s.

(** What [vsock_bind] may return, for the address read. *)
Inductive bind_post (i : positive) (s : uk_vsock) (svm : sockaddr_vm) (c : core_state)
    : Z -> core_state -> Prop :=
  | bind_family : svm_family svm <> AF_VSOCK -> bind_post i s svm c (- EINVAL) c
  | bind_cid :
      svm_family svm = AF_VSOCK -> svm_cid svm <> VMADDR_CID_ANY -> svm_cid svm <> cid ->
      bind_post i s svm c (- EADDRNOTAVAIL) c
  | bind_state :
      svm_family svm = AF_VSOCK -> svm_cid svm = VMADDR_CID_ANY \/ svm_cid svm = cid ->
      v_state s <> READY -> bind_post i s svm c (- EINVAL) c
  | bind_no_port r c' :
      svm_family svm = AF_VSOCK -> svm_cid svm = VMADDR_CID_ANY \/ svm_cid svm = cid ->
      v_state s = READY -> svm_port svm = VMADDR_PORT_ANY ->
      allocated c (v_sock_type s) PROBES (c_next c) r c' -> r < 0 -> bind_post i s svm c r c'
  | bind_any r c' t :
      svm_family svm = AF_VSOCK -> svm_cid svm = VMADDR_CID_ANY \/ svm_cid svm = cid ->
      v_state s = READY -> svm_port svm = VMADDR_PORT_ANY ->
      allocated c (v_sock_type s) PROBES (c_next c) r c' -> 0 <= r ->
      bind_post i s svm c 0 (c_tree t (c_put i (bound r s) c'))
  | bind_in_use :
      svm_family svm = AF_VSOCK -> svm_cid svm = VMADDR_CID_ANY \/ svm_cid svm = cid ->
      v_state s = READY -> svm_port svm <> VMADDR_PORT_ANY ->
      listener_on c (v_sock_type s) (svm_port svm) -> bind_post i s svm c (- EADDRINUSE) c
  | bind_ok t :
      svm_family svm = AF_VSOCK -> svm_cid svm = VMADDR_CID_ANY \/ svm_cid svm = cid ->
      v_state s = READY -> svm_port svm <> VMADDR_PORT_ANY ->
      ~ listener_on c (v_sock_type s) (svm_port svm) ->
      bind_post i s svm c 0 (c_tree t (c_put i (bound (svm_port svm) s) c)).

(** An allocated port is free and non-negative ports survive the conversions. *)
Lemma allocated_ok c type r c' :
  allocated c type PROBES (c_next c) r c' -> 0 <= r ->
  r < 2 ^ 31 /\ ~ port_used c type r /\ exists n, 0 <= n < 2 ^ 32 /\ c' = c_port n c.
Proof.
  intros [(k & Hk & -> & -> & Hf & _)|(-> & _)] Hr; [|unfold EADDRNOTAVAIL in Hr; lia].
  pose proof (wrap_range 32 (c_next c + k) ltac:(lia)) as Hw.
  pose proof (swrap_range 32 (u32 (c_next c + k)) ltac:(lia)).
  unfold swrap in *. rewrite wrap_wrap in * by lia.
  destruct (Z.ltb_spec (u32 (c_next c + k)) (2 ^ (32 - 1))); [|lia].
  split; [lia|]. split; [done|]. eexists. split; [|done]. apply wrap_range. lia.
Qed.

Lemma core_inv_port c n : core_inv cid c -> 0 <= n < 2 ^ 32 -> core_inv cid (c_port n c).
Proof.
  intros [Ht Hd Hn Hs Hm Ho] Hr. split; try done.
  - by eapply table_frame, Ht.
  - intros i s Hi%Hs. eapply sock_wf_frame, Hi; eauto.
Qed.

Lemma allocated_inv c type r c' :
  core_inv cid c -> allocated c type PROBES (c_next c) r c' -> core_inv cid c'.
Proof.
  intros Hc [(k & _ & _ & -> & _)|(_ & -> & _)]; apply core_inv_port; try done; apply wrap_range; lia.
Qed.

Lemma sock_wf_bound c i s port :
  sock_wf c i s -> v_state s = READY -> sock_wf c i (bound port s).
Proof.
  intros [? ? ? Hq ? ? ? ?] Hst. split; cbn; try done. intros Hne%Hq. congruence.
Qed.

(** The end of [vsock_bind], once the port is known. *)
Lemma bind_tail_spec i s port c :
  core_inv cid c -> c_socks c !! i = Some s -> v_state s = READY ->
  cwp (other ← sockets_FIND (listener_key (v_sock_type s) (mk_addr 0 port));
       match other with
       | Some _ => mret (- EADDRINUSE)
       | None =>
           put_sock i (fun s => set_peer (set_local s (mk_addr cid port))
             (mk_addr UK_VSOCK_CID_ANY UK_VSOCK_PORT_ANY));;
           _ ← sockets_INSERT i;
           put_sock i (fun s => set_state s BOUND);;
           mret 0
       end)
    (fun rc c' => core_inv cid c' /\
      (listener_on c (v_sock_type s) port /\ rc = - EADDRINUSE /\ c' = c \/
       ~ listener_on c (v_sock_type s) port /\ rc = 0 /\
         exists t, c' = c_tree t (c_put i (bound port s) c))) c.
Proof.
  intros Hc Hs Hst. cstep. eapply (cwp_find inv cid); [apply Hc|constructor|].
  intros [j|]; cbn [found].
  { intros (sj & ? & ? & ?%matches_listener). cstep. split; [done|]. left.
    split; [|done]. by exists j, sj. }
  intros Hn. setoid_rewrite matches_listener in Hn. cstep. cstep. cstep.
  eapply (insert_spec i s _ (bound port s)); try done; [by rewrite Hst|..].
  - intros j sj Hj Hsj Hk. apply (Hn j sj Hj Hsj). unfold same_key in Hk.
    injection Hk as Ht Hl Hp. unfold listener. by rewrite <- Ht, <- Hl, <- Hp.
  - apply sock_wf_bound; [by apply Hc|done].
  - intros t Ht. cstep. cstep. cstep. core_norm. split; [done|]. right. split; [|eauto].
    intros (j & sj & Hj & Hsj & Hl). by eapply Hn.
Qed.

Lemma bind_svm_spec i s ps al svm c :
  core_inv cid c -> attached c i s ps al ->
  cwp (bind_svm ops ps svm) (fun rc c' => core_inv cid c' /\ bind_post i s svm c rc c') c.
Proof.
  intros Hc Hat. pose proof (attached_data _ _ _ _ _ Hc Hat) as Hdata. destruct Hat as [Hs Hps Hal].
  unfold bind_svm. destruct (Z.eqb_spec (svm_family svm) AF_VSOCK) as [Hf|Hf]; cbn [negb].
  2: { cstep. split; [done|by constructor]. }
  cstep. use_law law_get_cid. intros _ ? [-> ->].
  destruct (negb (svm_cid svm =? VMADDR_CID_ANY) && negb (svm_cid svm =? cid)) eqn:Hcid.
  { cstep. split; [done|]. constructor; [done|lia..]. }
  assert (Hcid' : svm_cid svm = VMADDR_CID_ANY \/ svm_cid svm = cid) by lia.
  cstep. cstep. cstep. cstep. destruct (bool_decide (v_state s = READY)) eqn:Hst; cbn [negb].
  2: { cstep. split; [done|]. apply bool_decide_eq_false in Hst. by apply bind_state. }
  apply bool_decide_eq_true in Hst. cstep.
  destruct (Z.eqb_spec (svm_port svm) VMADDR_PORT_ANY) as [Hp|Hp]; cbn [andb].
  - eapply cwp_mono; [by apply vsock_alloc_port_spec|]. intros r c1 Ha.
    pose proof (allocated_inv _ _ _ _ Hc Ha) as Hc1. destruct (Z.ltb_spec r 0).
    { cstep. split; [done|]. by apply bind_no_port. }
    destruct (allocated_ok _ _ _ _ Ha ltac:(lia)) as (Hr & Hf1 & n & Hn & Heq).
    subst c1. eapply cwp_mono; [by apply bind_tail_spec|].
    intros rc c' [Hc' [((j & sj & Hj & Hsj & Ht & Hlp & _) & _)|(_ & -> & t & ->)]].
    + destruct Hf1. by exists j, sj.
    + split; [done|]. by eapply bind_any.
  - cstep. eapply cwp_mono; [by apply bind_tail_spec|].
    intros rc c' [Hc' [(Hl & -> & ->)|(Hl & -> & t & ->)]]; (split; [done|]).
    + by apply bind_in_use.
    + by apply bind_ok.
Qed.

Lemma cwp_read_svm addr Φ c :
  sizeof_svm <= zlen addr -> Φ (decode_svm (slice 0 sizeof_svm addr)) c ->
  cwp (read_svm addr) Φ c.
Proof.
  intros Hl HΦ. unfold read_svm. eapply cwp_deref; [|done]. intros _ _.
  by rewrite memread_Some by (unfold sizeof_svm in *; lia).
Qed.

Lemma vsock_bind_spec i s ps al addr addr_len c :
  core_inv cid c -> attached c i s ps al -> addr_len <= zlen addr ->
  cwp (vsock_bind ops ps addr addr_len) (fun rc c' => core_inv cid c' /\
    if addr_len =? sizeof_svm then bind_post i s (decode_svm (slice 0 sizeof_svm addr)) c rc c'
    else rc = - EINVAL /\ c' = c) c.
Proof.
  intros Hc Hat Hl. pose proof (ci_dev _ _ Hc) as Hd. unfold vsock_bind. cstep. cstep.
  destruct (Z.eqb_spec addr_len sizeof_svm) as [->|]; cbn [negb]; [|by cstep].
  cstep. apply cwp_read_svm; [done|]. by eapply bind_svm_spec.
Qed.

(** ** listen *)

Definition listening (backlog : Z) (s : uk_vsock) : uk_vsock :=
  set_state (set_queue_limit s (backlog_limit backlog)) LISTENING.

Inductive listen_post (i : positive) (s : uk_vsock) (backlog : Z) (c : core_state)
    : Z -> core_state -> Prop :=
  | listen_again : v_state s = LISTENING ->
      listen_post i s backlog c 0 (c_put i (set_queue_limit s (backlog_limit backlog)) c)
  | listen_state : v_state s <> LISTENING -> v_state s <> BOUND -> v_state s <> READY ->
      listen_post i s backlog c (- EINVAL) c
  | listen_bound : v_state s = BOUND ->
      listen_post i s backlog c 0 (c_put i (listening backlog s) c)
  | listen_bind_fails rc c' : v_state s = READY ->
      bind_post i s any_svm c rc c' -> rc <> 0 -> listen_post i s backlog c rc c'
  | listen_binds c' s' : v_state s = READY ->
      bind_post i s any_svm c 0 c' -> c_socks c' !! i = Some s' -> v_state s' = BOUND ->
      listen_post i s backlog c 0 (c_put i (listening backlog s') c').

(** A successful bind of the socket leaves it bound. *)
Lemma bind_post_bound i s svm c c' :
  bind_post i s svm c 0 c' -> exists port, c_socks c' !! i = Some (bound port s).
Proof.
  remember 0 as rc eqn:Hrc. destruct 1; try (unfold EINVAL, EADDRNOTAVAIL, EADDRINUSE in *; lia);
    eexists; lookup_now.
Qed.

Lemma core_inv_limit i s n c :
  core_inv cid c -> c_socks c !! i = Some s -> n < 2 ^ 31 ->
  core_inv cid (c_put i (set_queue_limit s n) c).
Proof.
  intros Hc Hs Hn. eapply core_inv_put; try done.
  destruct (ci_sock _ _ Hc _ _ Hs) as [? ? [? ?] ? ? ? ? ?]. by split.
Qed.
Lemma core_inv_listening i s backlog c :
  core_inv cid c -> c_socks c !! i = Some s -> v_state s = BOUND -> backlog < 2 ^ 31 ->
  core_inv cid (c_put i (listening backlog s) c).
Proof.
  intros Hc Hs Hst Hb. eapply core_inv_put; try done; [by rewrite Hst|].
  destruct (ci_sock _ _ Hc _ _ Hs) as [? ? [? ?] ? ? ? Hany ?]. split; cbn; try done.
  - unfold backlog_limit. split; [|done]. case_match; lia.
  - intros _. apply Hany. auto.
Qed.

Lemma vsock_listen_spec i s ps al backlog c :
  core_inv cid c -> attached c i s ps al -> backlog < 2 ^ 31 ->
  cwp (vsock_listen ops ps backlog)
    (fun rc c' => core_inv cid c' /\ listen_post i s backlog c rc c') c.
Proof.
  intros Hc Hat Hb. pose proof (attached_data _ _ _ _ _ Hc Hat) as Hdata.
  pose proof Hat as [Hs Hps Hal]. unfold vsock_listen. cstep. cstep. cstep. cstep.
  destruct (v_state s) eqn:Hst; eval_states.
  - cstep. eapply cwp_mono; [by eapply vsock_bind_spec|].
    intros rc c' [Hc' Hpost]. change (decode_svm _) with any_svm in Hpost. cbn in Hpost.
    destruct (Z.eqb_spec rc 0) as [->|Hrc]; cbn [negb].
    2: { cstep. split; [done|]. by apply listen_bind_fails. }
    destruct (bind_post_bound _ _ _ _ _ Hpost) as [port Hs'].
    cstep. cstep. cstep. apply cwp_assert; [done|]. cstep. cstep. cstep.
    split; [by apply core_inv_listening|]. by eapply listen_binds.
  - cstep. split; [done|]. apply listen_state; congruence.
  - cstep. cstep. cstep. cstep. cstep. cstep. apply cwp_assert; [by rewrite Hst|]. cstep. cstep. cstep.
    split; [by apply core_inv_listening|by constructor].
  - cstep. split; [done|]. apply listen_state; congruence.
  - cstep. cstep. cstep. split; [|by constructor]. apply core_inv_limit; try done.
    unfold backlog_limit. case_match; lia.
  - cstep. split; [done|]. apply listen_state; congruence.
Qed.

(** ** connect *)

Definition connecting (local peer : uk_vsockaddr) (s : uk_vsock) : uk_vsock :=
  set_state (set_peer (set_local s local) peer) WAIT_CONNECT.
(** No other socket has the key that [s] gets. *)
Definition key_free (i : positive) (s : uk_vsock) (c : core_state) : Prop :=
  forall j sj, j ∈ members c -> j <> i -> c_socks c !! j = Some sj -> ~ same_key s sj.

(** The driver has taken the request, or has failed. *)
Definition in_progress (rc : Z) : Prop := rc = 0 \/ rc = - EINPROGRESS.

(** What [vsock_connect] may return, for the address read. *)
Inductive connect_post (i : positive) (s : uk_vsock) (svm : sockaddr_vm) (c : core_state)
    : Z -> core_state -> Prop :=
  | connect_family : svm_family svm <> AF_VSOCK -> connect_post i s svm c (- EAFNOSUPPORT) c
  | connect_already : svm_family svm = AF_VSOCK -> v_state s = WAIT_CONNECT ->
      connect_post i s svm c (- EALREADY) c
  | connect_state : svm_family svm = AF_VSOCK ->
      v_state s <> WAIT_CONNECT -> v_state s <> BOUND -> v_state s <> READY ->
      connect_post i s svm c (- EISCONN) c
  | connect_bound rc t : svm_family svm = AF_VSOCK -> v_state s = BOUND -> in_progress rc ->
      connect_post i s svm c rc
        (c_tree t (c_put i (connecting (v_local s) (mk_addr (svm_cid svm) (svm_port svm)) s) c))
  | connect_bound_fails rc t : svm_family svm = AF_VSOCK -> v_state s = BOUND -> ~ in_progress rc ->
      connect_post i s svm c rc (c_tree t c)
  | connect_no_port rc c' : svm_family svm = AF_VSOCK -> v_state s = READY ->
      allocated c (v_sock_type s) PROBES (c_next c) rc c' -> rc < 0 ->
      connect_post i s svm c rc
        (c_put i (set_peer (set_local s (mk_addr cid (a_port (v_local s)))) any_addr) c')
  | connect_ready rc port c' t : svm_family svm = AF_VSOCK -> v_state s = READY ->
      allocated c (v_sock_type s) PROBES (c_next c) port c' -> 0 <= port -> in_progress rc ->
      connect_post i s svm c rc
        (c_tree t (c_put i (connecting (mk_addr cid port) (mk_addr (svm_cid svm) (svm_port svm)) s) c'))
  | connect_ready_fails rc port c' t : svm_family svm = AF_VSOCK -> v_state s = READY ->
      allocated c (v_sock_type s) PROBES (c_next c) port c' -> 0 <= port -> ~ in_progress rc ->
      connect_post i s svm c rc (c_tree t (c_put i (set_local s any_addr) c')).

Lemma sock_wf_connecting c i s local peer :
  sock_wf c i s -> v_state s <> LISTENING -> sock_wf c i (connecting local peer s).
Proof.
  intros [? ? ? Hq ? ? ? ?] Hst. split; cbn; try done; [|naive_solver]. by intros Hne%Hq.
Qed.

(** A socket that moves in the table. *)
Lemma core_inv_moved i s s' t c :
  core_inv cid c -> c_socks c !! i = Some s -> in_table (v_state s) = true ->
  elems t ≡ₚ members c -> table_ok cid (c_tree t (c_put i s' c)) ->
  in_table (v_state s') = true -> sock_wf c i s' -> v_accept_queue s' ⊆ v_accept_queue s ->
  core_inv cid (c_tree t (c_put i s' c)).
Proof.
  intros Hc Hs Hst Hm Ht Hst' Hwf Hq.
  eapply core_inv_update; try done; [|..|by eapply own_queue_sub].
  - intros j Hj. by rewrite Hm.
  - rewrite Hst', Hm. by rewrite (ci_member _ _ Hc i s Hs).
Qed.

(** Reinserting socket [i] of state [s1] under the key of [s2], which the
    caller completes to [s3]. *)
Lemma reinsert_spec i s1 s2 s3 c Φ :
  core_inv cid c -> c_socks c !! i = Some s1 -> in_table (v_state s1) = true ->
  a_cid (v_local s2) = cid -> key_free i s2 c -> same_key s2 s3 ->
  in_table (v_state s3) = true -> sock_wf c i s3 -> v_accept_queue s3 ⊆ v_accept_queue s1 ->
  (forall t, core_inv cid (c_tree t (c_put i s3 c)) -> Φ None (c_tree t (c_put i s2 c))) ->
  cwp (sockets_REINSERT i) Φ (c_put i s2 c).
Proof.
  intros Hc Hs Hst Hcid Hf Hk Hst3 Hwf Hq HΦ.
  eapply (cwp_reinsert inv cid); [apply Hc|by apply (ci_member _ _ Hc i s1)|done|done|].
  intros t Ht Hm. apply HΦ. eapply core_inv_moved; try done.
  rewrite <- (c_put_put i s3 s2). apply (table_put cid (c_tree t (c_put i s2 c))); [done|].
  right. exists s2. split; [lookup_now|done].
Qed.

(** Replacing a socket that is not in the table. *)
Lemma core_inv_out i s s' c :
  core_inv cid c -> c_socks c !! i = Some s -> in_table (v_state s) = false ->
  in_table (v_state s') = false -> sock_wf c i s' -> v_accept_queue s' ⊆ v_accept_queue s ->
  core_inv cid (c_put i s' c).
Proof.
  intros Hc Hs Hst Hst' Hwf Hq. assert (Hni := not_member c i s Hc Hs Hst).
  change (c_put i s' c) with (c_tree (c_sockets c) (c_put i s' c)).
  eapply core_inv_update; try done; [|..|by eapply own_queue_sub].
  - apply (table_put cid c); [apply Hc|by left].
  - by rewrite Hst'.
Qed.

Lemma port_used_put i s c type port :
  i ∉ members c -> port_used (c_put i s c) type port <-> port_used c type port.
Proof.
  intros Hi. unfold port_used. split; intros (j & sj & Hj & Hsj & ?); exists j, sj; cbn in *.
  - rewrite lookup_insert_ne in Hsj by (by intros ->). done.
  - by rewrite lookup_insert_ne by (by intros ->).
Qed.

Lemma c_put_port i s n c : c_port n (c_put i s c) = c_put i s (c_port n c).
Proof. done. Qed.

Lemma allocated_put i s c type n next r c' :
  i ∉ members c -> allocated (c_put i s c) type n next r c' ->
  exists c1, allocated c type n next r c1 /\ c' = c_put i s c1.
Proof.
  intros Hi. unfold allocated. setoid_rewrite port_used_put; [|done..].
  intros [(k & ? & -> & -> & ? & ?)|(-> & -> & ?)]; eexists;
    (split; [|by rewrite <- (c_put_port i s)]); naive_solver.
Qed.

Lemma connect_setup_bound i s peer c :
  core_inv cid c -> c_socks c !! i = Some s -> v_state s = BOUND ->
  key_free i (set_peer s peer) c ->
  cwp (connect_setup ops i peer) (fun r c' => r = None /\
    exists t, c' = c_tree t (c_put i (set_peer s peer) c) /\
      core_inv cid (c_tree t (c_put i (connecting (v_local s) peer s) c))) c.
Proof.
  intros Hc Hs Hst Hf. unfold connect_setup. cstep. cstep. cstep. cstep.
  cbn [v_state set_peer]. rewrite Hst. eval_states. cstep.
  assert (Hm : i ∈ members c) by (apply (ci_member _ _ Hc i s); [done|by rewrite Hst]).
  destruct (to_alive _ _ (ci_table _ _ Hc) i Hm) as (s' & Hs' & Hcid).
  rewrite Hs in Hs'. injection Hs' as <-.
  eapply (reinsert_spec i s _ (connecting (v_local s) peer s)); try done.
  - by rewrite Hst.
  - apply sock_wf_connecting; [by apply Hc|congruence].
  - intros t Ht. cstep. split; [done|]. by exists t.
Qed.

Lemma connect_setup_ready i s peer c :
  core_inv cid c -> c_socks c !! i = Some s -> v_state s = READY ->
  cwp (connect_setup ops i peer) (fun r c' => exists port c1,
    allocated c (v_sock_type s) PROBES (c_next c) port c1 /\ core_inv cid c1 /\
    ((port < 0 /\ r = Some port /\ core_inv cid c' /\
       c' = c_put i (set_peer (set_local s (mk_addr cid (a_port (v_local s)))) any_addr) c1) \/
     (0 <= port /\ r = None /\ exists t,
       c' = c_tree t (c_put i (set_local (set_peer s peer) (mk_addr cid port)) c1) /\
       core_inv cid (c_tree t (c_put i (connecting (mk_addr cid port) peer s) c1))))) c.
Proof.
  intros Hc Hs Hst. assert (Hni := not_member c i s Hc Hs ltac:(by rewrite Hst)).
  assert (Hout : forall c1 l p, core_inv cid c1 -> c_socks c1 !! i = Some s ->
    core_inv cid (c_put i (set_peer (set_local s l) p) c1)).
  { intros c1 l p Hc1 Hs1. eapply core_inv_out; try done; [by cbn; rewrite Hst..|].
    destruct (ci_sock _ _ Hc1 _ _ Hs1). split; try done. cbn. rewrite Hst. by intros []. }
  unfold connect_setup. cstep. cstep. cstep. cstep. cbn [v_state v_sock_type set_peer].
  rewrite Hst. eval_states. cstep. use_law law_get_cid. intros _ ? [-> ->]. cstep. cstep.
  core_norm. cstep. set (s1 := set_local (set_peer s peer) (mk_addr cid (a_port (v_local (set_peer s peer))))).
  assert (Hc1 : core_inv cid (c_put i s1 c)) 
    by exact (Hout c (mk_addr cid (a_port (v_local s))) peer Hc Hs).
  eapply cwp_mono; [by apply vsock_alloc_port_spec|]. intros port c' Ha.
  destruct (allocated_put _ _ _ _ _ _ _ _ Hni Ha) as (c1 & Ha1 & ->). clear Ha.
  pose proof (allocated_inv _ _ _ _ Hc Ha1) as Hc1'.
  assert (Hs1 : c_socks c1 !! i = Some s) by by destruct Ha1 as [(? & ? & ? & -> & ?)|(? & -> & ?)].
  destruct (Z.ltb_spec port 0).
  { cstep. cstep. cstep. core_norm. exists port, c1. split; [done|]. split; [done|]. left.
    split; [done|]. split; [done|]. split; [by apply Hout|done]. }
  destruct (allocated_ok _ _ _ _ Ha1 ltac:(lia)) as (Hr & Hfree & n & Hn & ->).
  cstep. cstep. core_norm. cbn [a_cid v_local s1 set_local]. rewrite wrap_small by lia. cstep.
  eapply (insert_spec i s _ (connecting (mk_addr cid port) peer s)); try done.
  - by rewrite Hst.
  - intros j sj Hj Hsj Hk. apply Hfree. exists j, sj. unfold same_key in Hk.
    injection Hk as Ht Hl Hp. split_and!; [done..|by rewrite <- Ht|by rewrite <- Hl].
  - apply sock_wf_connecting; [by apply Hc1'|congruence].
  - intros t Ht. cstep. exists port, (c_port n c). split; [done|]. split; [done|]. right. eauto 6.
Qed.

Lemma rollback_bound i s peer t c :
  core_inv cid c -> c_socks c !! i = Some s -> v_state s = BOUND ->
  core_inv cid (c_tree t (c_put i (connecting (v_local s) peer s) c)) ->
  cwp (connect_rollback i BOUND (v_peer s))
    (fun _ c' => core_inv cid c' /\ exists t', c' = c_tree t' c)
    (c_tree t (c_put i (connecting (v_local s) peer s) c)).
Proof.
  intros Hc Hs Hst Hc1. set (s1 := connecting _ _ _) in *.
  unfold connect_rollback. eval_states. cstep. cstep. cstep. cstep. core_norm.
  assert (Hm : i ∈ members c) by (apply (ci_member _ _ Hc i s); [done|by rewrite Hst]).
  destruct (to_alive _ _ (ci_table _ _ Hc) i Hm) as (s' & Hs' & Hcid).
  rewrite Hs in Hs'. injection Hs' as <-.
  assert (Heq : set_state (set_peer s1 (v_peer s)) BOUND = s) by (destruct s; cbn in *; by subst).
  rewrite <- (c_put_put i (set_peer s1 (v_peer s)) s1), <- c_put_tree.
  eapply (reinsert_spec i s1 _ s); try done; [lookup_now|..].
  - intros j sj Hj Hji Hsj Hk. pose proof Hsj as Hsj'. cbn in Hsj. rewrite lookup_insert_ne in Hsj by done.
    apply Hji, (table_unique cid c j i sj s); try done; [apply Hc|].
    by apply (ci_member _ _ Hc j sj), (ci_member _ _ Hc1 j sj Hsj').
  - by rewrite Hst.
  - eapply sock_wf_frame; [..|by apply (ci_sock _ _ Hc)]; eauto.
  - core_norm. intros t' Ht'. cstep. cstep. core_norm. rewrite Heq, c_put_id in * by done. eauto.
Qed.

Lemma rollback_ready i s local peer t c :
  core_inv cid c -> c_socks c !! i = Some s -> v_state s = READY ->
  core_inv cid (c_tree t (c_put i (connecting local peer s) c)) ->
  cwp (connect_rollback i READY (v_peer s))
    (fun _ c' => core_inv cid c' /\ exists t', c' = c_tree t' (c_put i (set_local s any_addr) c))
    (c_tree t (c_put i (connecting local peer s) c)).
Proof.
  intros Hc Hs Hst Hc1. unfold connect_rollback. eval_states. cstep. cstep.
  eapply (cwp_remove inv cid); [apply Hc1| |].
  { eapply (ci_member _ _ Hc1); [lookup_now|done]. }
  intros t' Ht' Hm. cstep. cstep. core_norm. cbn [members] in *.
  match goal with |- core_inv _ (c_tree _ (c_put _ ?x _)) /\ _ =>
    assert (Heq : x = set_local s any_addr) by (destruct s; cbn in *; by subst) end.
  rewrite Heq. split; [|by exists t']. rewrite <- (c_put_put i _ (connecting local peer s)).
  eapply (core_inv_left _ i _ _ t' (c_tree t (c_put i (connecting local peer s) c)));
    [done|lookup_now|done|done|by cbn; rewrite Hst| |done].
  eapply sock_wf_frame; [eauto..|]. destruct (ci_sock _ _ Hc i s Hs). split; try done.
Qed.

Lemma connect_svm_spec i s svm c :
  core_inv cid c -> c_socks c !! i = Some s ->
  (v_state s = BOUND -> key_free i (set_peer s (mk_addr (svm_cid svm) (svm_port svm))) c) ->
  cwp (connect_svm ops i svm) (fun rc c' => core_inv cid c' /\ connect_post i s svm c rc c') c.
Proof.
  intros Hc Hs Hf. unfold connect_svm. cstep. cstep.
  destruct (Z.eqb_spec (svm_family svm) AF_VSOCK) as [Hfam|]; cbn [negb].
  2: { cstep. split; [done|by constructor]. }
  assert (Hend : forall s1 t (Φ : Z -> core_state -> Prop) c1, c_socks c1 !! i = Some s1 ->
    (forall rc, in_progress rc -> Φ rc (c_tree t (c_put i (set_state s1 WAIT_CONNECT) c1))) ->
    (forall rc, ~ in_progress rc ->
      cwp (connect_rollback i (v_state s) (v_peer s)) (fun _ c' => Φ rc c')
        (c_tree t (c_put i (set_state s1 WAIT_CONNECT) c1))) ->
    cwp (put_sock i (fun s => set_state s WAIT_CONNECT);;
         rc ← op_connect ops i;
         (if negb (rc =? 0) && negb (rc =? - EINPROGRESS)
          then connect_rollback i (v_state s) (v_peer s) else mret tt);;
         mret rc) Φ (c_tree t c1)).
  { intros s1 t Φ c1 Hs1 Hok Hko. cstep. cstep. cstep. use_law law_connect. intros rc ? ->. cstep.
    destruct (_ && _) eqn:Hrc.
    - eapply cwp_mono; [apply (Hko rc); unfold in_progress; lia|]. intros. by cstep.
    - cstep. cstep. apply Hok. unfold in_progress. lia. }
  destruct (v_state s) eqn:Hst; eval_states; try by (cstep; split; [done|constructor; congruence]).
  - cstep. eapply cwp_mono; [by apply connect_setup_ready|].
    intros r c' (port & c1 & Ha & Hc1 & [(? & -> & ? & ->)|(? & -> & t & -> & Ht)]).
    { cstep. split; [done|]. by apply connect_no_port. }
    assert (Hs1 : c_socks c1 !! i = Some s) by by destruct Ha as [(? & ? & ? & -> & ?)|(? & -> & ?)].
    eapply Hend; [lookup_now|..]; intros rc Hrc; core_norm.
    + split; [done|]. by eapply connect_ready.
    + eapply cwp_mono; [by apply rollback_ready|]. cbn beta. intros _ c' (? & t' & ->).
      split; [done|]. by eapply connect_ready_fails.
  - cstep. eapply cwp_mono; [by apply connect_setup_bound; auto|].
    intros r c' (-> & t & -> & Ht). eapply Hend; [lookup_now|..]; intros rc Hrc; core_norm.
    + split; [done|]. by apply connect_bound.
    + eapply cwp_mono; [by apply rollback_bound|]. cbn beta. intros _ c' (? & t' & ->).
      split; [done|]. by apply connect_bound_fails.
Qed.
End socket.
