(* ===== verification/VsockStream.v ===== *)
(** * Accepting, closing, sending and receiving

    The rest of the operations of posix-socket on vsock sockets and the reset
    of the transport, on a good state and against any driver. *)

From stdpp Require Import prelude gmap sorting.
From S2P Require Import Prelude Tree VsockBuffer Netbuf Vsock VsockTable VsockLogic VsockCore.
From S2P Require Import VsockSocket.

Section stream.
Context {P Q D : Type} (inv : gmap positive P -> gmap positive Q -> D -> Prop) (cid : Z).
Context (ops : uk_vsockdev_ops P Q D) (max_send : Z) `{!Driver inv cid ops max_send}.
#[local] Abbreviation cwp := (cwp inv).

Lemma vsock_connect_spec i s ps al addr addr_len c :
  core_inv cid c -> attached c i s ps al -> addr_len <= zlen addr ->
  let svm := decode_svm (slice 0 sizeof_svm addr) in
  (v_state s = BOUND -> key_free i (set_peer s (mk_addr (svm_cid svm) (svm_port svm))) c) ->
  cwp (vsock_connect ops ps addr addr_len) (fun rc c' => core_inv cid c' /\
    if addr_len =? sizeof_svm then connect_post cid i s svm c rc c'
    else rc = - EINVAL /\ c' = c) c.
Proof.
  intros Hc Hat Hl svm Hf. pose proof (ci_dev _ _ Hc) as Hd.
  pose proof (attached_data _ _ _ _ _ _ Hc Hat) as Hdata. destruct Hat as [Hs Hps Hal].
  unfold vsock_connect. cstep. cstep. cstep. cstep. cstep. cstep.
  destruct (Z.eqb_spec addr_len sizeof_svm) as [->|]; cbn [negb]; [|by cstep].
  cstep. apply cwp_read_svm; [done|]. by eapply connect_svm_spec.
Qed.

(** ** Creating and accepting sockets *)

(** A new socket, not yet in the table. *)
Lemma core_inv_new o so c :
  core_inv cid c -> c_socks c !! o = None -> in_table (v_state so) = false ->
  v_accept_queue so = [] -> sock_wf c o so -> core_inv cid (c_put o so c).
Proof.
  intros Hc Hn Hst Hq Hwf. pose proof Hc as [Ht Hd Hx Hs Hm Ho].
  assert (Hni : o ∉ members c).
  { intros (s & ? & _)%(to_alive _ _ Ht). congruence. }
  split; try done.
  - apply table_put; [done|by left].
  - intros j sj. cbn. destruct (decide (j = o)) as [->|].
    + rewrite lookup_insert_eq. intros [= <-]. eapply sock_wf_frame, Hwf; eauto.
    + rewrite lookup_insert_ne by done. intros Hj%Hs. eapply sock_wf_frame, Hj; eauto.
  - intros j sj. cbn. destruct (decide (j = o)) as [->|].
    + rewrite lookup_insert_eq. intros [= <-]. by rewrite Hst.
    + rewrite lookup_insert_ne by done. apply Hm.
  - intros j k sj sk e. cbn. rewrite !lookup_insert.
    repeat case_decide; subst; intros; simplify_eq; eauto; rewrite Hq in *; set_solver.
Qed.

Lemma fresh_sock_wf c o type so :
  fresh_sock type so ->
  v_state so = READY /\ v_accept_queue so = [] /\ v_posix_sock so = None /\
  v_sock_type so = type /\ contents (v_rx so) = [] /\
  (forall a b, sock_wf c o (set_local (set_peer so a) b)).
Proof.
  intros (mem & Hmem & [= <-]). cbn. split_and!; try done.
  intros a b. split; cbn; try done.
  - constructor.
  - set_solver.
  - by intros [].
Qed.

Lemma vsock_create_spec type protocol c :
  core_inv cid c ->
  cwp (vsock_create ops AF_VSOCK type protocol) (fun r c' => core_inv cid c' /\
    ((exists rc, r = inl rc /\ rc < 0 /\ c' = c) \/
     (exists i s, r = inr i /\ c_socks c !! i = None /\ fresh_sock type s /\ c' = c_put i s c))) c.
Proof.
  intros Hc. pose proof (ci_dev _ _ Hc) as Hd. unfold vsock_create.
  cstep. apply cwp_assert; [done|]. cstep. eapply (cwp_gets _ _ _ _ true); [by intros w <-|].
  cbn [negb]. cstep. use_law law_create.
  intros [rc out] c' [[Hrc ->]|(i & s & [= -> ->] & Hn & Hf & ->)]; cbn in *.
  - destruct (Z.eqb_spec rc 0); [lia|]. cbn [negb]. cstep. eauto 6.
  - cstep. eapply cwp_deref; [by intros|]. cstep.
    destruct (fresh_sock_wf c i type s Hf) as (Hst & Hq & _ & _ & _ & Hwf).
    split; [|eauto 10]. apply core_inv_new; try done; [by rewrite Hst|].
    specialize (Hwf (v_peer s) (v_local s)). by destruct s.
Qed.

Definition accepted (s so : uk_vsock) (a : uk_vsockaddr) : uk_vsock :=
  set_state (set_local (set_peer so a) (mk_addr cid (a_port (v_local s)))) OPEN.

(** What [vsock_accept4] may return. *)
Inductive accept_post (i : positive) (s : uk_vsock) (ps : positive) (al : socket_alloc)
    (addr : bool) (addr_len : option Z) (c : core_state)
    : (Z + positive) * option (list Z * Z) -> core_state -> Prop :=
  | accept_inval : addr = true -> addr_len = None ->
      accept_post i s ps al addr addr_len c (inl (- EINVAL), None) c
  | accept_state : v_state s <> LISTENING ->
      accept_post i s ps al addr addr_len c (inl (- EINVAL), None) c
  | accept_empty : v_state s = LISTENING -> v_accept_queue s = [] ->
      accept_post i s ps al addr addr_len c (inl (- EAGAIN), None) c
  | accept_fails e rest rc : v_state s = LISTENING -> v_accept_queue s = e :: rest -> rc <> 0 ->
      accept_post i s ps al addr addr_len c (inl rc, None)
        (c_put i (set_queue s rest (v_accept_queue_length s - 1)) (c_free e c))
  | accept_ok e rest a o so t : v_state s = LISTENING -> v_accept_queue s = e :: rest ->
      c_entries c !! e = Some a -> c_socks c !! o = None -> fresh_sock (v_sock_type s) so ->
      accept_post i s ps al addr addr_len c
        (inr o, if addr then copy_svm a <$> addr_len else None)
        (c_tree t (c_put o (accepted s so a)
          (c_put i (set_queue s rest (v_accept_queue_length s - 1))
            (c_file ps (if decide (rest = []) then lower EPOLLIN al else al) (c_free e c))))).

(** The connection the head of the queue asks for does not exist yet. *)
Definition head_free (s : uk_vsock) (c : core_state) : Prop :=
  forall e rest a j sj, v_accept_queue s = e :: rest -> c_entries c !! e = Some a ->
    j ∈ members c -> c_socks c !! j = Some sj ->
    ~ exact (v_sock_type s) (mk_addr cid (a_port (v_local s))) a sj.

(** Taking the head of the queue of [i] and freeing it. *)
Lemma core_inv_dequeue i s e rest c :
  core_inv cid c -> c_socks c !! i = Some s -> v_accept_queue s = e :: rest ->
  core_inv cid (c_put i (set_queue s rest (v_accept_queue_length s - 1)) c) /\
  core_inv cid (c_put i (set_queue s rest (v_accept_queue_length s - 1)) (c_free e c)).
Proof.
  intros Hc Hs Hq. pose proof (ci_sock _ _ Hc _ _ Hs) as Hwf.
  assert (Hc1 : core_inv cid (c_put i (set_queue s rest (v_accept_queue_length s - 1)) c)).
  { destruct Hwf as [? Hlen [? Hmax] Hl Hnd ? ? ?]. rewrite Hq in *. rewrite zlen_cons in *.
    eapply core_inv_put; try done; [|cbn; rewrite Hq; set_solver].
    split; cbn; try done; [lia|lia|naive_solver|by inversion Hnd|set_solver]. }
  split; [done|].
  apply (core_inv_free cid (c_put i (set_queue s rest (v_accept_queue_length s - 1)) c) e Hc1).
  intros j sj. cbn. destruct (decide (j = i)) as [->|Hji].
  - rewrite lookup_insert_eq. intros [= <-]. cbn. pose proof (so_nodup _ _ _ Hwf) as Hnd.
    rewrite Hq in Hnd. by apply NoDup_cons in Hnd as [? _].
  - rewrite lookup_insert_ne by done. intros Hsj He. apply Hji.
    apply (ci_own _ _ Hc j i sj s e); try done. rewrite Hq. left.
Qed.

(** The accepted socket [o] enters the table. *)
Lemma accept_established i s e rest a o so c Φ :
  let c2 := c_put i (set_queue s rest (v_accept_queue_length s - 1)) (c_free e c) in
  core_inv cid c -> c_socks c !! i = Some s -> v_accept_queue s = e :: rest ->
  c_entries c !! e = Some a -> c_socks c !! o = None -> fresh_sock (v_sock_type s) so ->
  head_free s c ->
  (forall t, core_inv cid (c_tree t (c_put o (accepted s so a) c2)) ->
    Φ None (c_tree t (c_put o (accepted s so a) c2))) ->
  cwp (sockets_INSERT o) Φ (c_put o (accepted s so a) c2).
Proof.
  intros c2 Hc Hs Hq Ha Hn Hf Hh HΦ. assert (Hoi : o <> i) by congruence.
  destruct (core_inv_dequeue i s e rest c Hc Hs Hq) as [_ Hc2]. fold c2 in Hc2.
  destruct (fresh_sock_wf c2 o _ so Hf) as (Hso & Hqo & _ & Hty & _ & Hwfo).
  set (so1 := set_local (set_peer so a) (mk_addr cid (a_port (v_local s)))).
  assert (Hn2 : c_socks c2 !! o = None) by (cbn; by rewrite lookup_insert_ne).
  assert (Hst1 : in_table (v_state so1) = false) by (cbn; by rewrite Hso).
  assert (Hc3 : core_inv cid (c_put o so1 c2)) by (apply core_inv_new; try done; apply Hwfo).
  rewrite <- (c_put_put o _ so1).
  eapply (insert_spec _ _ o so1 _ (accepted s so a)); try done; [lookup_now|..].
  - intros j sj Hj Hsj Hk. assert (Hjo : j <> o).
    { intros ->. revert Hj. by apply (not_member cid (c_put o so1 c2) o so1); [|lookup_now|]. }
    cbn in Hsj. rewrite lookup_insert_ne in Hsj by done.
    assert (exists sj', c_socks c !! j = Some sj' /\ same_key sj sj') as (sj' & Hsj' & Hk').
    { destruct (decide (j = i)) as [->|]; [|rewrite lookup_insert_ne in Hsj by done; by exists sj].
      rewrite lookup_insert_eq in Hsj. injection Hsj as <-. by exists s. }
    apply (Hh e rest a j sj' Hq Ha Hj Hsj'). unfold exact, same_key in *.
    rewrite <- Hk', <- Hk. unfold uk_vsock_sockaddr_key. cbn. by rewrite Hty.
  - destruct (Hwfo a (mk_addr cid (a_port (v_local s)))). split; cbn; try done. by intros [].
  - intros t Ht. rewrite c_put_put in *. by apply HΦ.
Qed.

Lemma vsock_accept4_spec i s ps al addr addr_len c :
  core_inv cid c -> attached c i s ps al -> head_free s c ->
  cwp (vsock_accept4 ops ps addr addr_len) (fun r c' => core_inv cid c' /\
    accept_post i s ps al addr addr_len c r c') c.
Proof.
  intros Hc Hat Hh. pose proof (ci_dev _ _ Hc) as Hd.
  pose proof (attached_data _ _ _ _ _ _ Hc Hat) as Hdata. destruct Hat as [Hs Hps Hal].
  unfold vsock_accept4. destruct (addr && _) eqn:Hal'.
  { cstep. split; [done|]. apply andb_true_iff in Hal' as [-> Hx].
    apply negb_true_iff, bool_decide_eq_false in Hx. apply accept_inval; [done|].
    destruct addr_len; [|done]. by destruct Hx. }
  cstep. cstep. cstep. cstep. destruct (bool_decide (v_state s = _)) eqn:Hst; cbn [negb].
  2: { cstep. split; [done|]. apply bool_decide_eq_false in Hst. by apply accept_state. }
  apply bool_decide_eq_true in Hst. cstep. cstep.
  destruct (v_accept_queue s) as [|e rest] eqn:Hq.
  { cstep. split; [done|]. by apply accept_empty. }
  pose proof (ci_sock _ _ Hc _ _ Hs) as Hwf.
  destruct (so_entries _ _ _ Hwf e) as [a Ha]; [rewrite Hq; left|].
  destruct (core_inv_dequeue i s e rest c Hc Hs Hq) as [Hc1 Hc2].
  set (s1 := set_queue s rest (v_accept_queue_length s - 1)) in *.
  cstep. apply cwp_assert.
  { rewrite (so_length _ _ _ Hwf), Hq, zlen_cons. pose proof (zlen_nonneg rest). lia. }
  cstep. cstep. fold s1. cstep. use_law law_accept.
  intros [rc out] c' [[Hrc ->]|(o & so & [= -> ->] & Hn & Hf & ->)]; cbn [fst] in *.
  - cstep. use_law law_free_accept_entry. intros _ ? ->. destruct (Z.eqb_spec rc 0); [done|].
    cbn [negb]. cstep. change (c_free e (c_put i s1 c)) with (c_put i s1 (c_free e c)).
    split; [done|]. by apply accept_fails.
  - assert (Hoi : o <> i) by (intros ->; cbn in Hn; by rewrite lookup_insert_eq in Hn).
    cbn in Hn. rewrite lookup_insert_ne in Hn by done.
    cstep. use_law law_free_accept_entry.
    intros _ ? ->.
    change (c_free e (c_put o ?x (c_put i s1 c))) with (c_put o x (c_put i s1 (c_free e c))).
    cbn [negb Z.eqb]. cstep. eapply cwp_deref; [by intros|]. cstep. cstep. core_norm. cstep.
    eapply accept_established; try done. intros t Ht. cstep. cstep. cstep. cstep. cstep.
    cbn [v_accept_queue s1 set_queue].
    eapply (cwp_mono _ _ (fun _ c' => c' = c_tree t (c_put o (accepted s so a) (c_put i s1
      (c_file ps (if decide (rest = []) then lower EPOLLIN al else al) (c_free e c)))))).
    { destruct rest as [|e' rest]; cstep; [done|]. unfold c_file. rewrite insert_id by done. done. }
    intros _ ? ->. cstep. split; [|by eapply accept_ok].
    eapply (core_inv_file cid _ ps al _ Ht); [done|]. by destruct (decide _).
Qed.
(** ** Closing and shutting down *)

Lemma core_inv_del i s c :
  core_inv cid c -> c_socks c !! i = Some s -> in_table (v_state s) = false ->
  core_inv cid (c_del i c).
Proof.
  intros Hc Hi Hst. assert (Hni := not_member cid c i s Hc Hi Hst).
  pose proof Hc as [Ht Hd Hn Hs Hm Ho].
  assert (Hsub : forall j sj, c_socks (c_del i c) !! j = Some sj -> c_socks c !! j = Some sj).
  { intros j sj. cbn. rewrite lookup_delete. by case_decide. }
  split; try done.
  - by apply table_del.
  - intros j sj Hj%Hsub%Hs. eapply sock_wf_frame, Hj; eauto.
  - intros j sj Hj%Hsub. by apply Hm.
  - intros j k sj sk e Hj%Hsub Hk%Hsub. by eapply Ho.
Qed.

(** The socket is gone, after it was closed if it was in the table. *)
Definition destroyed (i : positive) (s : uk_vsock) (ps : positive) (al : socket_alloc)
    (c c' : core_state) : Prop :=
  if in_table (v_state s) then exists t, c' = c_del i (c_closed t i s ps al c) else c' = c_del i c.

Lemma destroy_tail_spec i s c :
  core_inv cid c -> c_socks c !! i = Some s -> in_table (v_state s) = false ->
  cwp (s ← get_sock i;
       r ← deref (fun _ => uk_vsock_buffer_destroy (v_rx s));
       let '(rc, rx) := r in
       put_sock i (fun s => set_rx s rx);;
       if negb (rc =? 0) then mret rc else dev_op (op_destroy ops i))
    (fun rc c' => core_inv cid c' /\ rc = 0 /\ c' = c_del i c) c.
Proof.
  intros Hc Hs Hst. pose proof (ci_dev _ _ Hc) as Hd. cstep. cstep.
  destruct (so_rx _ _ _ (ci_sock _ _ Hc _ _ Hs)) as (? & Hb & _).
  destruct (b_buf (v_rx s)) eqn:Hbuf; [unfold zlen in Hb; cbn in Hb; lia|].
  cstep. eapply cwp_deref; [intros w _; unfold uk_vsock_buffer_destroy; by rewrite Hbuf|].
  cbv beta iota. cstep. cstep. cbn [negb Z.eqb]. cstep. use_law law_destroy.
  intros rc ? [-> ->]. unfold c_del, c_put. cbn. rewrite delete_insert_eq.
  split; [|done]. by apply (core_inv_del i s).
Qed.

Lemma uk_vsock_destroy_spec i s ps al c :
  core_inv cid c -> attached c i s ps al ->
  cwp (uk_vsock_destroy ops i) (fun rc c' => core_inv cid c' /\
    (rc = 0 /\ destroyed i s ps al c c' \/ rc <> 0 /\ in_table (v_state s) = true /\ c' = c)) c.
Proof.
  intros Hc [Hs Hps Hal]. unfold uk_vsock_destroy, destroyed.
  cstep. eapply cwp_mono; [by eapply uk_vsock_close_spec|]. intros rc c' Hpost.
  destruct (in_table (v_state s)) eqn:Hst.
  - destruct Hpost as [[Hrc ->]|[-> [Hc' [t ->]]]].
    { destruct (Z.eqb_spec rc 0); [done|]. cbn [negb]. cstep. eauto 6. }
    cbn [negb Z.eqb]. eapply cwp_mono; [eapply destroy_tail_spec; [done|lookup_now|done]|].
    intros rc ? (? & -> & ->). eauto.
  - destruct Hpost as [-> Hrc]. rewrite Hrc by done. cbn [negb Z.eqb].
    eapply cwp_mono; [by eapply destroy_tail_spec|]. intros rc' ? (? & -> & ->). auto.
Qed.

Lemma vsock_close_spec i s ps al c :
  core_inv cid c -> attached c i s ps al ->
  cwp (vsock_close ops ps) (fun rc c' => core_inv cid c' /\
    (rc = 0 /\ destroyed i s ps al c c' \/ rc <> 0 /\ in_table (v_state s) = true /\ c' = c)) c.
Proof.
  intros Hc Hat. pose proof (attached_data _ _ _ _ _ _ Hc Hat) as Hdata.
  pose proof Hat as [Hs Hps Hal]. unfold vsock_close. cstep. cstep.
  by apply uk_vsock_destroy_spec.
Qed.

(** What [vsock_shutdown] may return. *)
Inductive shutdown_post (i : positive) (s : uk_vsock) (ps : positive) (al : socket_alloc)
    (how : Z) (c : core_state) : Z -> core_state -> Prop :=
  | shutdown_how : shutdown_dirs how = None -> shutdown_post i s ps al how c (- EINVAL) c
  | shutdown_state rx tx : shutdown_dirs how = Some (rx, tx) -> v_state s <> OPEN ->
      shutdown_post i s ps al how c (- ENOTCONN) c
  | shutdown_fails rc rx tx : shutdown_dirs how = Some (rx, tx) -> v_state s = OPEN -> rc <> 0 ->
      shutdown_post i s ps al how c rc c
  | shutdown_half rx tx : shutdown_dirs how = Some (rx, tx) -> v_state s = OPEN ->
      v_rx_shutdown (shut rx tx s) && v_tx_shutdown (shut rx tx s) = false ->
      shutdown_post i s ps al how c 0
        (c_put i (shut rx tx s) (c_file ps (shut_events rx tx al) c))
  | shutdown_both_fails rc rx tx : shutdown_dirs how = Some (rx, tx) -> v_state s = OPEN ->
      v_rx_shutdown (shut rx tx s) && v_tx_shutdown (shut rx tx s) = true -> rc <> 0 ->
      shutdown_post i s ps al how c rc
        (c_put i (shut rx tx s) (c_file ps (shut_events rx tx al) c))
  | shutdown_both rx tx c' : shutdown_dirs how = Some (rx, tx) -> v_state s = OPEN ->
      v_rx_shutdown (shut rx tx s) && v_tx_shutdown (shut rx tx s) = true ->
      close_post cid i (shut rx tx s) ps (shut_events rx tx al)
        (c_put i (shut rx tx s) (c_file ps (shut_events rx tx al) c)) c' ->
      shutdown_post i s ps al how c 0 c'.

Lemma vsock_shutdown_spec i s ps al how c :
  core_inv cid c -> attached c i s ps al ->
  cwp (vsock_shutdown ops ps how) (fun rc c' => core_inv cid c' /\
    shutdown_post i s ps al how c rc c') c.
Proof.
  intros Hc Hat. pose proof (ci_dev _ _ Hc) as Hd.
  pose proof (attached_data _ _ _ _ _ _ Hc Hat) as Hdata. pose proof Hat as [Hs Hps Hal].
  unfold vsock_shutdown. destruct (shutdown_dirs how) as [[rx tx]|] eqn:Hh.
  2: { cstep. split; [done|by constructor]. }
  cstep. cstep. cstep. cstep. cstep. cstep. destruct (bool_decide _) eqn:Hst; cbn [negb].
  2: { cstep. split; [done|]. apply bool_decide_eq_false in Hst. by eapply shutdown_state. }
  apply bool_decide_eq_true in Hst. cstep. use_law law_shutdown. intros rc ? ->.
  destruct (negb (rc =? 0)) eqn:Hrc.
  { cstep. split; [done|]. eapply shutdown_fails; [done..|lia]. }
  eapply cwp_mono; [by eapply uk_vsock_conn_shutdown_spec|]. intros rc' c' [Hc' Hpost].
  split; [done|]. rewrite decide_True in Hpost by done. cbn zeta in Hpost.
  destruct (_ && _) eqn:Hb.
  - destruct Hpost as [[? ->]|[-> Hpost]]; [by eapply shutdown_both_fails|by eapply shutdown_both].
  - destruct Hpost as [-> ->]. by eapply shutdown_half.
Qed.

(** An open socket: the driver is told first. *)
Lemma shutdown_calls i s ps al how rx tx w :
  core_inv cid (core w) /\ drv_inv inv w -> attached (core w) i s ps al -> shutdown_dirs how = Some (rx, tx) -> v_state s = OPEN ->
  exists rc w1, op_shutdown ops i rx tx w = Done (rc, w1) /\ core w1 = core w /\
    vsock_shutdown ops ps how w = if rc =? 0 then uk_vsock_conn_shutdown ops i rx tx w1 else Done (rc, w1).
Proof.
  intros [Hc Hd] Hat Hdir Hst. pose proof (attached_data _ _ _ _ _ _ Hc Hat) as Hdata. pose proof Hat as [Hs Hps Hal].
  pose proof (law_shutdown inv cid i rx tx s (core w) Hs w eq_refl Hd) as (rc & w1 & Hop & _ & Hw1)%wp_elim.
  exists rc, w1. split; [done|]. split; [done|]. unfold vsock_shutdown. rewrite Hdir.
  assert (Hneed : need_dev w = Done (tt, w)).
  { unfold need_dev, vsockdev_get, gets, mbind, M_bind. by rewrite (ci_dev _ _ Hc : w_main_dev w = true). }
  unfold mbind, M_bind. rewrite Hneed. unfold posix_sock_get_data, get_sock, deref. cbn in Hal, Hs. rewrite Hal. cbn.
  rewrite Hdata, Hs, bool_decide_true by done. cbn [negb]. rewrite Hop. by destruct (rc =? 0).
Qed.

(** ** Receiving *)

(** The first [n] bytes have left the receive buffer. *)
Definition rx_taken (n : Z) (rx rx' : uk_vsock_buffer) : Prop :=
  buffer_wf rx' /\ b_capacity rx' = b_capacity rx /\
  contents rx = slice 0 n (contents rx) ++ contents rx' /\ b_count rx' = b_count rx - n /\
  b_total_processed rx' = u64 (b_total_processed rx + n).

Lemma rx_taken_0 rx : buffer_wf rx -> rx_taken 0 rx rx.
Proof.
  intros Hwf. split_and!; try done; [lia|].
  rewrite Z.add_0_r, wrap_small; [done|apply Hwf].
Qed.

Lemma rx_taken_trans n m rx rx1 rx2 :
  0 <= n <= b_count rx -> 0 <= m <= b_count rx1 -> buffer_wf rx ->
  rx_taken n rx rx1 -> rx_taken m rx1 rx2 ->
  rx_taken (n + m) rx rx2 /\
  slice 0 (n + m) (contents rx) = slice 0 n (contents rx) ++ slice 0 m (contents rx1).
Proof.
  intros Hn Hm Hwf (Hw1 & Hc1 & H1 & Hk1 & Ht1) (Hw2 & Hc2 & H2 & Hk2 & Ht2).
  assert (Hl : zlen (slice 0 n (contents rx)) = n).
  { rewrite zlen_slice; [done|lia..|]. rewrite zlen_contents by done. lia. }
  assert (Hs : slice 0 (n + m) (contents rx) = slice 0 n (contents rx) ++ slice 0 m (contents rx1)).
  { rewrite H1 at 1. unfold slice in *. rewrite !drop_0 in *.
    rewrite Z2Nat.inj_add, take_app_add' by (unfold zlen in Hl; lia). done. }
  split; [|done]. split_and!; try done; [congruence| |lia|].
  - by rewrite Hs, <- app_assoc, <- H2, <- H1.
  - rewrite Ht2, Ht1, wrap_add_l by done. f_equal. lia.
Qed.

Lemma core_inv_rx i s rx c :
  core_inv cid c -> c_socks c !! i = Some s -> buffer_wf rx -> core_inv cid (c_put i (set_rx s rx) c).
Proof.
  intros Hc Hs Hrx. eapply core_inv_put; try done.
  by destruct (ci_sock _ _ Hc _ _ Hs); split.
Qed.

Lemma take_rx_spec i s size c Φ :
  core_inv cid c -> c_socks c !! i = Some s -> 0 <= size < 2 ^ 64 ->
  (forall rx, let n := Z.min size (b_count (v_rx s)) in
    rx_taken n (v_rx s) rx -> (n = 0 -> rx = v_rx s) ->
    core_inv cid (c_put i (set_rx s rx) c) ->
    Φ (n, slice 0 n (contents (v_rx s))) (c_put i (set_rx s rx) c)) ->
  cwp (take_rx i size) Φ c.
Proof.
  intros Hc Hs Hsz HΦ. pose proof (so_rx _ _ _ (ci_sock _ _ Hc _ _ Hs)) as Hwf.
  assert (Hcnt : 0 <= b_count (v_rx s)) by apply Hwf.
  unfold take_rx. cstep. cstep. cstep. eapply cwp_deref; [intros; by apply uk_vsock_buffer_read_spec|].
  cbn beta iota. destruct (Z.ltb_spec 0 (Z.min size (b_count (v_rx s)))) as [Hn|Hn].
  - destruct (uk_vsock_buffer_consume_spec (v_rx s) (Z.min size (b_count (v_rx s))))
      as (rx & Hrx & Hwf' & Hcap & Htot & Hcon); [done|lia|].
    cstep. eapply cwp_deref; [by intros|]. cstep. cstep. cstep. apply HΦ; [|lia|by apply core_inv_rx].
    split_and!; try done.
    + rewrite Hcon. apply contents_split.
    + pose proof (zlen_contents _ Hwf) as Hl. pose proof (zlen_contents _ Hwf') as Hl'.
      rewrite Hcon, zlen_drop in Hl' by lia. lia.
  - replace (Z.min size (b_count (v_rx s))) with 0 in * by lia. cstep.
    assert (Hid : c_put i (set_rx s (v_rx s)) c = c) by (apply c_put_id; rewrite Hs; by destruct s).
    rewrite <- Hid. apply HΦ; [by apply rx_taken_0|done|by rewrite Hid].
Qed.

Lemma credit_update_spec i s c Φ :
  c_socks c !! i = Some s -> Φ tt c -> cwp (credit_update ops i) Φ c.
Proof.
  intros Hs HΦ. unfold credit_update. cstep. eapply (cwp_gets _ _ _ _ (c_main_dev c)); [by intros w <-|].
  destruct (op_send_credit_update ops) as [f|] eqn:Hf; [|by cstep].
  destruct (c_main_dev c); [|by cstep]. cstep.
  eapply cwp_mono; [eapply law_send_credit_update; [eassumption|done|done]|].
  intros _ ? ->. by cstep.
Qed.

(** The event EPOLLIN goes when the buffer has been emptied. *)
Definition rx_events (rx : uk_vsock_buffer) (al : socket_alloc) : socket_alloc :=
  if b_count rx =? 0 then lower EPOLLIN al else al.

Lemma rx_poll_spec i s ps al c :
  core_inv cid c -> c_socks c !! i = Some s -> c_psocks c !! ps = Some al ->
  cwp (rx_poll ps i) (fun _ c' => core_inv cid c' /\ c' = c_file ps (rx_events (v_rx s) al) c) c.
Proof.
  intros Hc Hs Hal. unfold rx_poll. cstep. cstep. unfold rx_events, uk_vsock_buffer_is_empty.
  assert (Hid : c_file ps al c = c).
  { destruct c. unfold c_file. cbn in *. by rewrite insert_id. }
  destruct (b_count (v_rx s) =? 0); cstep.
  - split; [by eapply core_inv_file|done].
  - by rewrite Hid.
Qed.

(** What [vsock_recvfrom] may return. *)
Inductive recv_post (i : positive) (s : uk_vsock) (ps : positive) (al : socket_alloc) (len : Z)
    (c : core_state) : Z * list Z -> core_state -> Prop :=
  | recv_state : readable s = false -> recv_post i s ps al len c (- ENOTCONN, []) c
  | recv_again : readable s = true -> v_rx_shutdown s = false ->
      Z.min len (b_count (v_rx s)) = 0 -> recv_post i s ps al len c (- EAGAIN, []) c
  | recv_ok n rx : readable s = true -> n = Z.min len (b_count (v_rx s)) ->
      n <> 0 \/ v_rx_shutdown s = true -> rx_taken n (v_rx s) rx ->
      recv_post i s ps al len c (n, slice 0 n (contents (v_rx s)))
        (c_put i (set_rx s rx) (c_file ps (rx_events rx al) c)).

Lemma vsock_recvfrom_spec i s ps al len c :
  core_inv cid c -> attached c i s ps al -> 0 <= len < 2 ^ 64 ->
  cwp (vsock_recvfrom ops ps len false false) (fun r c' => core_inv cid c' /\
    recv_post i s ps al len c r c') c.
Proof.
  intros Hc Hat Hl. pose proof (attached_data _ _ _ _ _ _ Hc Hat) as Hdata.
  pose proof Hat as [Hs Hps Hal]. unfold vsock_recvfrom. cbn [orb]. cstep. cstep. cstep. cstep.
  destruct (readable s) eqn:Hr; cbn [negb].
  2: { cstep. split; [done|by constructor]. }
  cstep. eapply take_rx_spec; [done..|]. intros rx n Hrx Hn0 Hc1. cbn beta iota.
  assert (Hn : 0 <= n) by (pose proof (so_rx _ _ _ (ci_sock _ _ Hc _ _ Hs)) as (_ & _ & _ & ? & _); lia).
  destruct ((n =? 0) && negb (v_rx_shutdown s)) eqn:Hz.
  { cstep. assert (rx = v_rx s) as -> by (apply Hn0; lia).
    rewrite c_put_id by (rewrite Hs; by destruct s).
    split; [done|]. apply recv_again; [done| |lia]. by destruct (v_rx_shutdown s); [lia|]. }
  cstep. eapply (cwp_mono _ _ (fun _ c' => c' = c_put i (set_rx s rx) c)).
  { destruct (0 <? n); [|by cstep]. by eapply credit_update_spec; [lookup_now|]. }
  intros _ ? ->. cstep. eapply cwp_mono; [eapply rx_poll_spec; [done|lookup_now|done]|].
  cbn beta. intros _ c' [Hc2 ->]. cstep. split; [done|]. apply recv_ok; try done.
  destruct (v_rx_shutdown s); [by right|]. left. lia.
Qed.
(** [vsock_read] fills the buffers of [iov] in turn.  The bytes delivered are
    the next [read_size] bytes of the stream. *)
Definition iov_len (iov : list Z) : Z := foldr Z.add 0 iov.
Definition read_size (iov : list Z) (s : uk_vsock) : Z := Z.min (iov_len iov) (b_count (v_rx s)).
Definition read_rc (iov : list Z) (s : uk_vsock) (n : Z) : Z :=
  if (n =? 0) && negb (v_rx_shutdown s) && negb (bool_decide (iov = [])) then - EAGAIN else n.

Lemma iov_len_nonneg iov : Forall (fun n => 0 < n < 2 ^ 64) iov -> 0 <= iov_len iov.
Proof. unfold iov_len. induction 1; cbn; lia. Qed.

Lemma read_loop_spec i s iov ret got rx c :
  core_inv cid (c_put i (set_rx s rx) c) -> c_socks c !! i = Some s -> buffer_wf (v_rx s) ->
  Forall (fun n => 0 < n < 2 ^ 64) iov ->
  0 <= ret <= b_count (v_rx s) -> rx_taken ret (v_rx s) rx ->
  concat got = slice 0 ret (contents (v_rx s)) ->
  cwp (read_loop ops i iov ret got) (fun r c' => core_inv cid c' /\
    exists rx', let n := Z.min (ret + iov_len iov) (b_count (v_rx s)) in
      c' = c_put i (set_rx s rx') c /\ rx_taken n (v_rx s) rx' /\
      fst r = read_rc iov s n /\ concat (snd r) = slice 0 n (contents (v_rx s)))
    (c_put i (set_rx s rx) c).
Proof.
  intros Hc Hs Hwf Hiov. revert ret got rx Hc.
  induction Hiov as [|len iov Hlen Hiov IH]; intros ret got rx Hc Hret Hrx Hgot; cbn [read_loop iov_len foldr].
  { cstep. split; [done|]. exists rx. rewrite Z.add_0_r, Z.min_l by lia. split_and!; try done.
    unfold read_rc. cbn. by rewrite andb_false_r. }
  pose proof (iov_len_nonneg iov Hiov). fold (iov_len iov).
  assert (Hcnt : b_count rx = b_count (v_rx s) - ret) by apply Hrx.
  cstep. eapply take_rx_spec; [done|lookup_now|lia|]. cbn [v_rx set_rx]. intros rx1 Hrx1 Hm0 Hc1.
  remember (Z.min len (b_count rx)) as m eqn:Em.
  rewrite c_put_put in *. change (set_rx (set_rx s rx) rx1) with (set_rx s rx1) in *.
  destruct (rx_taken_trans ret m (v_rx s) rx rx1) as [Hrx2 Hsl]; [lia|lia|done..|].
  cbn beta iota. destruct (Z.ltb_spec 0 m).
  - cstep. eapply credit_update_spec; [lookup_now|].
    eapply cwp_mono; [apply (IH (ret + m)); try done; [lia|]|].
    { rewrite concat_app, Hsl, Hgot. cbn. by rewrite app_nil_r. }
    intros r c' (Hc' & rx' & -> & Hrx' & Hr & Hcat). split; [done|]. exists rx'. cbn zeta.
    replace (Z.min (ret + (len + iov_len iov)) _) with (Z.min (ret + m + iov_len iov) (b_count (v_rx s))) by lia.
    split_and!; try done. rewrite Hr. unfold read_rc.
    destruct (Z.eqb_spec (Z.min (ret + m + iov_len iov) (b_count (v_rx s))) 0); [lia|done].
  - assert (m = 0) as Hm by lia. rewrite Hm0 in * by done. cstep. cstep. cstep. split; [done|].
    exists rx. cbn zeta. cbn [v_rx_shutdown set_rx fst snd].
    replace (Z.min (ret + (len + iov_len iov)) _) with ret by lia. split_and!; try done.
    unfold read_rc. rewrite Hm. cbn [Z.eqb andb]. rewrite bool_decide_eq_false_2 by done.
    destruct (ret =? 0) eqn:Hz, (v_rx_shutdown s); cbn; lia.
Qed.

Lemma vsock_read_spec i s ps al iov c :
  core_inv cid c -> attached c i s ps al -> Forall (fun n => 0 < n < 2 ^ 64) iov ->
  cwp (vsock_read ops ps iov) (fun r c' => core_inv cid c' /\
    if readable s then
      exists rx, let n := read_size iov s in
        c' = c_put i (set_rx s rx) (c_file ps (rx_events rx al) c) /\ rx_taken n (v_rx s) rx /\
        fst r = read_rc iov s n /\ concat (snd r) = slice 0 n (contents (v_rx s))
    else r = (- ENOTCONN, []) /\ c' = c) c.
Proof.
  intros Hc Hat Hl. pose proof (attached_data _ _ _ _ _ _ Hc Hat) as Hdata.
  pose proof Hat as [Hs Hps Hal]. unfold vsock_read. cstep. cstep. cstep. cstep.
  destruct (readable s) eqn:Hr; cbn [negb]; [|by cstep].
  pose proof (so_rx _ _ _ (ci_sock _ _ Hc _ _ Hs)) as Hwf.
  assert (Hid : c_put i (set_rx s (v_rx s)) c = c) by (apply c_put_id; rewrite Hs; by destruct s).
  cstep. rewrite <- Hid. eapply cwp_mono.
  { apply read_loop_spec; try done; [by rewrite Hid| |by apply rx_taken_0].
    split; [done|apply Hwf]. }
  rewrite Z.add_0_l. intros r c' (Hc' & rx & -> & Hrx & Hrc & Hcat). cstep.
  eapply cwp_mono; [eapply rx_poll_spec; [done|lookup_now|done]|].
  cbn beta. intros _ c' [Hc2 ->]. cstep. split; [done|]. exists rx. rewrite Hid. done.
Qed.
(** ** Reset of the transport *)

Definition all_attached (c : core_state) : Prop :=
  forall i s, i ∈ members c -> c_socks c !! i = Some s -> is_Some (v_posix_sock s).

Lemma closed_socks t i s ps al c j :
  c_socks (c_closed t i s ps al c) !! j = if decide (i = j) then Some (closed s) else c_socks c !! j.
Proof. cbn. apply lookup_insert. Qed.

(** Closing a socket takes it out of the list of members, which keeps its order. *)
Lemma members_closed i s ps al l1 l2 c c' :
  core_inv cid c -> c_socks c !! i = Some s -> close_post cid i s ps al c c' ->
  members c = l1 ++ i :: l2 -> members c' = l1 ++ l2.
Proof.
  intros Hc Hs [Hc' [t Heq]] Hl.
  assert (Hnd : NoDup (members c)) by (eapply ordered_NoDup; [apply _|apply Hc]).
  assert (Hi : i ∉ l1 ++ l2).
  { rewrite Hl, <- Permutation_middle in Hnd. by apply NoDup_cons in Hnd as [? _]. }
  assert (Hother : forall j, j <> i -> c_socks c' !! j = c_socks c !! j).
  { intros j Hj. rewrite Heq, closed_socks. by rewrite decide_False by done. }
  assert (Hsame : forall j, j <> i -> j ∈ members c' <-> j ∈ members c).
  { intros j Hj. split; intros Hin.
    - destruct (to_alive _ _ (ci_table _ _ Hc') j Hin) as (sj & Hsj & _).
      pose proof Hsj as Hsj0. rewrite Hother in Hsj0 by done.
      by apply (ci_member _ _ Hc j sj), (ci_member _ _ Hc' j sj Hsj).
    - destruct (to_alive _ _ (ci_table _ _ Hc) j Hin) as (sj & Hsj & _).
      pose proof Hsj as Hsj0. rewrite <- Hother in Hsj0 by done.
      by apply (ci_member _ _ Hc' j sj), (ci_member _ _ Hc j sj Hsj). }
  apply (ordered_unique (c_socks c')); [apply Hc'|..].
  - pose proof (to_ordered _ _ (ci_table _ _ Hc)) as Ho. rewrite Hl in Ho.
    apply ordered_delete in Ho; [|apply _]. revert Ho. apply ordered_socks.
    intros j Hj. unfold key_of. rewrite Hother; [done|]. by intros ->.
  - apply NoDup_Permutation.
    + eapply ordered_NoDup; [apply _|apply Hc'].
    + rewrite Hl, <- Permutation_middle in Hnd. by apply NoDup_cons in Hnd as [_ ?].
    + intros j. destruct (decide (j = i)) as [->|Hj].
      { split; [|done]. intros Hin. exfalso. revert Hin.
        apply (not_member cid c' i (closed s)); [done| |done].
        rewrite Heq, closed_socks. by rewrite decide_True. }
      rewrite Hsame by done.
      rewrite Hl, !elem_of_app, elem_of_cons. naive_solver.
Qed.

(** The driver has failed to reset the connection of a socket, in a good state. *)
Definition refuses (i : positive) : Prop :=
  exists w rc w', core_inv cid (core w) /\ drv_inv inv w /\ op_reset ops i w = Done (rc, w') /\ rc <> 0.
Lemma close_refused i w :
  core_inv cid (core w) -> drv_inv inv w -> wlp (uk_vsock_close ops i true) (fun rc _ => rc <> 0 -> refuses i) w.
Proof.
  intros Hc Hd.
  assert (Hloc : forall w, wlp (close_finish i : M (world P Q D) Z) (fun rc _ => rc <> 0 -> refuses i) w).
  { intros w1. unfold close_finish. do 4 (apply wlp_then; intros). by apply wlp_ret. }
  unfold uk_vsock_close, dev_op, need_dev, vsockdev_get, gets. apply wlp_bind, wlp_bind, wlp_bind. unfold wlp at 1.
  rewrite (ci_dev _ _ Hc : w_main_dev w = true). change (UK_ASSERT true) with (mret tt : M (world P Q D) unit).
  apply wlp_ret, wlp_run. intros rc w2 Hrc.
  destruct (negb (rc =? 0)) eqn:Hz.
  { apply wlp_ret. intros Hne. by exists w, rc, w2. }
  apply wlp_then. intros s w3. destruct (v_state s); try (by apply wlp_ret).
  2, 4: apply wlp_bind, wlp_ret; cbn [negb Z.eqb].
  all: unfold close_local; repeat (apply wlp_then; intros; try apply Hloc).
Qed.

(** What a transport reset makes of the sockets: those visited are closed, or left
    because the driver has refused, which is reported; the others are untouched. *)
Definition reset_rel (visited : list positive) (r : Z) (c c' : core_state) : Prop :=
  forall i s, c_socks c !! i = Some s ->
    if decide (i ∈ visited)
    then c_socks c' !! i = Some (closed s) \/ c_socks c' !! i = Some s /\ refuses i /\ r <> 0
    else c_socks c' !! i = Some s.

Lemma reset_rel_nil r c : reset_rel [] r c c.
Proof. intros i s Hi. by rewrite decide_False by set_solver. Qed.
Lemma reset_rel_closed i s ps al l r c c1 c' :
  c_socks c !! i = Some s -> i ∉ l -> close_post cid i s ps al c c1 -> reset_rel l r c1 c' -> reset_rel (i :: l) r c c'.
Proof.
  intros Hs Hi [_ [t ->]] Hrel j sj Hj. specialize (Hrel j). rewrite closed_socks in Hrel.
  destruct (decide (i = j)) as [->|Hne].
  - specialize (Hrel _ eq_refl). rewrite decide_False in Hrel by done. rewrite decide_True by set_solver.
    left. congruence.
  - specialize (Hrel sj Hj). destruct (decide (j ∈ l)); [rewrite decide_True by set_solver|rewrite decide_False by set_solver]; done.
Qed.
Lemma reset_rel_left i s l r c c' :
  c_socks c !! i = Some s -> i ∉ l -> refuses i -> r <> 0 -> reset_rel l r c c' -> reset_rel (i :: l) r c c'.
Proof.
  intros Hs Hi Href Hr Hrel j sj Hj. specialize (Hrel j sj Hj). destruct (decide (j = i)) as [->|Hne].
  - rewrite decide_False in Hrel by done. rewrite decide_True by set_solver. auto.
  - destruct (decide (j ∈ l)); [rewrite decide_True by set_solver|rewrite decide_False by set_solver]; done.
Qed.
Lemma close_attached i s ps al c c' :
  c_socks c !! i = Some s -> close_post cid i s ps al c c' -> all_attached c -> core_inv cid c -> all_attached c'.
Proof.
  intros Hs [Hc' [t ->]] Ha Hc j sj Hj Hsj. pose proof Hsj as Hsj0. rewrite closed_socks in Hsj. case_decide.
  - subst j. injection Hsj as <-. by apply (ci_member _ _ Hc' i _ Hsj0) in Hj.
  - apply (Ha j sj); [|done]. by apply (ci_member _ _ Hc j sj), (ci_member _ _ Hc' j sj Hsj0).
Qed.

Lemma term_loop_spec n l1 rem ret c :
  cid <> UK_VSOCK_CID_ANY -> core_inv cid c -> all_attached c ->
  members c = l1 ++ rem -> (length rem <= n)%nat ->
  cwp (term_loop ops (head rem) ret n) (fun r c' => core_inv cid c' /\ reset_rel rem r c c' /\
    all_attached c' /\ (r = 0 <-> ret = 0 /\ members c' = l1) /\ (r <> ret -> exists i, i ∈ rem /\ refuses i)) c.
Proof.
  intros Hany. revert l1 rem ret c. induction n as [|n IH]; intros l1 rem ret c Hc Ha Hl Hn.
  { destruct rem; [|cbn in Hn; lia]. cbn. cstep. rewrite app_nil_r in Hl. pose proof (reset_rel_nil ret c). tauto. }
  destruct rem as [|i rem]; cbn [head term_loop].
  { cstep. rewrite app_nil_r in Hl. pose proof (reset_rel_nil ret c). tauto. }
  assert (Hi : i ∈ members c) by (rewrite Hl; apply elem_of_app; right; left).
  assert (Hnd : NoDup (members c)) by (eapply ordered_NoDup; [apply _|apply Hc]).
  assert (i ∉ l1 /\ i ∉ rem) as [Hn1 Hn2].
  { apply not_elem_of_app. rewrite Hl, <- Permutation_middle in Hnd. by apply NoDup_cons in Hnd as [? _]. }
  destruct (to_alive _ _ (ci_table _ _ Hc) i Hi) as (s & Hs & Hcid).
  assert (Hst : in_table (v_state s) = true) by by apply (ci_member _ _ Hc i s).
  destruct (Ha i s Hi Hs) as [ps Hps].
  destruct (so_file _ _ _ (ci_sock _ _ Hc _ _ Hs) ps Hps) as (al & Hal & _).
  cstep. eapply (cwp_deref _ _ _ _ (head rem)).
  { intros w <-. by apply (RB_NEXT_elems _ _ l1). }
  cstep. cstep.
  assert (term_closes s = true) as ->.
  { unfold term_closes. rewrite Hcid. destruct (v_state s); try done; apply negb_true_iff; lia. }
  cstep. eapply cwp_mono.
  { eapply (cwp_wlp _ _ _ (fun rc => rc <> 0 -> refuses i)); [by eapply uk_vsock_close_spec|intros ? <- ?; by apply close_refused]. }
  rewrite Hst. intros rc c' [[[Hrc ->]|[-> Hpost]] Href].
  - eapply cwp_mono; [apply (IH (l1 ++ [i]) rem); try done; [by rewrite <- app_assoc|cbn in Hn; lia]|].
    rewrite (proj2 (Z.eqb_neq rc 0)) by done. cbn [negb]. intros r c' (Hc' & Hrel & Ha' & Hr & _).
    assert (Hr0 : r <> 0) by tauto. split; [done|]. split; [|split; [done|split]].
    + apply (reset_rel_left i s); try done; by apply Href.
    + split; [done|]. intros [_ Hm]. exfalso. specialize (Hrel i s Hs). rewrite decide_False in Hrel by done.
      apply (ci_member _ _ Hc' i s Hrel) in Hst. by rewrite Hm in Hst.
    + intros _. exists i. split; [by left|by apply Href].
  - pose proof (members_closed i s ps al l1 rem c c' Hc Hs Hpost Hl) as Hm.
    pose proof (close_attached i s ps al c c' Hs Hpost Ha Hc) as Ha'.
    eapply cwp_mono; [apply (IH l1 rem); try done; [apply Hpost|cbn in Hn; lia]|].
    cbn. intros r c2 (? & Hrel & ? & ? & Hex). split; [done|]. split; [by eapply (reset_rel_closed i s)|]. do 2 (split; [done|]).
    intros (j & Hj & ?)%Hex. exists j. split; [by right|done].
Qed.

Lemma uk_vsockets_term_spec c :
  cid <> UK_VSOCK_CID_ANY -> core_inv cid c -> all_attached c ->
  cwp (uk_vsockets_term ops) (fun r c' => core_inv cid c' /\ reset_rel (members c) r c c' /\
    all_attached c' /\ (r = 0 <-> members c' = []) /\ (r <> 0 -> exists i, i ∈ members c /\ refuses i)) c.
Proof.
  intros Hany Hc Ha. unfold uk_vsockets_term.
  cstep. eapply (cwp_gets _ _ _ _ (length (members c))); [by intros w <-|].
  cstep. eapply (cwp_gets _ _ _ _ (head (members c))).
  { intros w <-. apply RB_MIN_elems. }
  eapply cwp_mono; [by apply (term_loop_spec _ [])|]. naive_solver.
Qed.

(** ** Sending *)

(** A send changes nothing but the event EPOLLOUT of the file. *)
Definition out_events (ps : positive) (al : socket_alloc) (c c' : core_state) : Prop :=
  c' = c \/ c' = c_file ps (lower EPOLLOUT al) c.

Definition total_len (iov : list (list Z)) : Z := zlen (concat iov).

Lemma write_loop_spec ps al i s iov written c :
  core_inv cid c -> c_socks c !! i = Some s -> c_psocks c !! ps = Some al ->
  Forall (fun b => zlen b <= max_send) iov -> 0 <= written ->
  cwp (write_loop ops ps i iov written) (fun r c' => core_inv cid c' /\ out_events ps al c c' /\
    r <= written + total_len iov /\ (written <> 0 -> written <= r)) c.
Proof.
  intros Hc Hs Hal Hb. revert written. unfold total_len.
  induction Hb as [|b iov Hb _ IH]; intros written Hw; cbn [write_loop concat].
  { cstep. split_and!; [done|by left|unfold zlen; cbn; lia|lia]. }
  rewrite zlen_app. pose proof (zlen_nonneg (concat iov)). pose proof (zlen_nonneg b).
  cstep. eapply cwp_mono; [eapply law_send; [eassumption|lookup_now|done]|]. intros res ? [Hres ->].
  destruct (Z.ltb_spec res 0).
  { cstep. split_and!; [done|by left|destruct (written =? 0); lia|].
    intros. by destruct (Z.eqb_spec written 0). }
  destruct (Z.eqb_spec res 0).
  - cstep. cstep. cstep. split_and!; [by eapply core_inv_file|by right| |].
    + unfold EAGAIN. destruct (written =? 0); lia.
    + intros. by destruct (Z.eqb_spec written 0).
  - eapply cwp_mono; [apply IH; lia|]. intros r c' (? & ? & ? & ?). split_and!; try done; lia.
Qed.

Lemma vsock_write_spec i s ps al iov c :
  core_inv cid c -> attached c i s ps al -> Forall (fun b => zlen b <= max_send) iov ->
  cwp (vsock_write ops ps iov) (fun r c' => core_inv cid c' /\
    if decide (v_state s = OPEN) then out_events ps al c c' /\ r <= total_len iov
    else r = (if bool_decide (v_state s = CLOSED) || v_tx_shutdown s then - EPIPE else - ENOTCONN) /\
         c' = c) c.
Proof.
  intros Hc Hat Hb. pose proof (ci_dev _ _ Hc) as Hd.
  pose proof (attached_data _ _ _ _ _ _ Hc Hat) as Hdata. pose proof Hat as [Hs Hps Hal].
  unfold vsock_write. cstep. cstep. cstep. cstep. cstep. cstep.
  rewrite (bool_decide_decide (v_state s = OPEN)). destruct (decide _); cbn [negb].
  - eapply cwp_mono; [by eapply write_loop_spec|]. naive_solver.
  - destruct (_ || _); by cstep.
Qed.

Lemma vsock_sendto_spec i s ps al buf c :
  core_inv cid c -> attached c i s ps al -> zlen buf <= max_send ->
  cwp (vsock_sendto ops ps buf false 0) (fun r c' => core_inv cid c' /\
    if bool_decide (v_state s = CLOSED) || v_tx_shutdown s then r = - EPIPE /\ c' = c
    else (r = - EAGAIN /\ c' = c_file ps (lower EPOLLOUT al) c) \/ (r <= zlen buf /\ r <> 0 /\ c' = c)) c.
Proof.
  intros Hc Hat Hb. pose proof (ci_dev _ _ Hc) as Hd.
  pose proof (attached_data _ _ _ _ _ _ Hc Hat) as Hdata. pose proof Hat as [Hs Hps Hal].
  unfold vsock_sendto. cbn [orb negb Z.eqb]. cstep. cstep. cstep. cstep. cstep. cstep.
  destruct (_ || _); [by cstep|]. cstep.
  eapply cwp_mono; [eapply law_send; [eassumption|lookup_now|done]|]. intros res ? [Hres ->].
  destruct (Z.eqb_spec res 0); cstep.
  - cstep. cstep. split; [by eapply core_inv_file|]. by left.
  - split; [done|]. by right.
Qed.

(** ** Names, options and files *)

Lemma vsock_getsockopt_spec i s ps al optlen c :
  core_inv cid c -> attached c i s ps al ->
  cwp (vsock_getsockopt ps SOL_SOCKET SO_ERROR optlen) (fun r c' => core_inv cid c' /\
    r = getsockopt_copy (le_bytes 4 (u32 (v_so_error s))) optlen /\
    c' = c_put i (set_so_error s 0) c) c.
Proof.
  intros Hc Hat. pose proof (attached_data _ _ _ _ _ _ Hc Hat) as Hdata. pose proof Hat as [Hs Hps Hal].
  unfold vsock_getsockopt. cstep. cstep. rewrite !Z.eqb_refl. cstep. cstep. cstep. cstep. cstep.
  split; [by apply core_inv_so_error|done].
Qed.

Lemma vsock_getsockname_spec i s ps al n c :
  core_inv cid c -> attached c i s ps al ->
  cwp (vsock_getsockname ps (Some n))
    (fun r c' => c' = c /\ r = (0, Some (copy_svm (v_local s) n))) c.
Proof.
  intros Hc Hat. pose proof (attached_data _ _ _ _ _ _ Hc Hat) as Hdata. pose proof Hat as [Hs Hps Hal].
  unfold vsock_getsockname. cstep. cstep. cstep. cstep. by cstep.
Qed.

Lemma vsock_getpeername_spec i s ps al n c :
  core_inv cid c -> attached c i s ps al ->
  cwp (vsock_getpeername ps (Some n)) (fun r c' => c' = c /\
    r = if decide (v_state s = OPEN) then (0, Some (copy_svm (v_peer s) n)) else (- ENOTCONN, None)) c.
Proof.
  intros Hc Hat. pose proof (attached_data _ _ _ _ _ _ Hc Hat) as Hdata. pose proof Hat as [Hs Hps Hal].
  unfold vsock_getpeername. cstep. cstep. cstep. cstep. rewrite bool_decide_decide.
  destruct (decide _); by cstep.
Qed.

Lemma vsock_poll_setup_spec i s ps al c :
  core_inv cid c -> c_psocks c !! ps = Some al -> n_data (al_node al) = Some i ->
  c_socks c !! i = Some s ->
  cwp (vsock_poll_setup ps) (fun _ c' => core_inv cid c' /\
    c' = c_put i (set_posix_sock s (Some ps)) c) c.
Proof.
  intros Hc Hal Hdata Hs. unfold vsock_poll_setup. cstep. cstep. cstep. split; [|done].
  eapply core_inv_put; try done. destruct (ci_sock _ _ Hc _ _ Hs). split; cbn; try done.
  intros ? [= <-]. eauto.
Qed.
End stream.
