(* ===== verification/QuietDriver.v ===== *)
(** * A driver without a device

    The smallest implementation of [struct uk_vsockdev_ops]: every packet is
    accepted and thrown away.  It shows that the laws of [Driver] can hold
    together, and the theorems about the core are exercised on it, from the
    states with one socket that this file builds. *)

From stdpp Require Import prelude gmap sorting.
From S2P Require Import Prelude Tree VsockBuffer Netbuf Vsock VsockTable VsockLogic VsockCore.

#[local] Abbreviation quiet_world := (world unit unit Z).

Definition quiet_sock (type : Z) : uk_vsock :=
  mk_vsock READY false false 0 type (mk_addr 0 0) (mk_addr 0 0)
    (mk_buffer (replicate 4096 0) 0 0 RX_BUFSIZE 0) [] 0 0 None.

Definition quiet_create (type protocol : Z) : M quiet_world (Z * option positive) :=
  if type =? SOCK_STREAM then i ← new_sock (quiet_sock type) tt; mret (0, Some i)
  else mret (- ESOCKTNOSUPPORT, None).

Definition quiet_accept (i e : positive) : M quiet_world (Z * option positive) :=
  s ← get_sock i;
  a ← deref (fun w => w_entries w !! e);
  cid ← gets w_drv;
  o ← new_sock (set_local (set_peer (quiet_sock (v_sock_type s)) (fst a))
                  (mk_addr cid (a_port (v_local s)))) tt;
  mret (0, Some o).

Definition quiet_destroy (i : positive) : M quiet_world Z := free_sock i;; mret 0.

Definition quiet_ops : uk_vsockdev_ops unit unit Z :=
  mk_ops (gets w_drv) quiet_create quiet_accept (fun _ => free_entry) (fun _ buf => mret (zlen buf))
    (fun _ => mret (- EINPROGRESS)) (fun _ _ _ => mret 0) (fun _ => mret 0) quiet_destroy None.

Definition quiet_inv (cid : Z) (_ _ : gmap positive unit) (d : Z) : Prop := d = cid.

Lemma quiet_fresh type : fresh_sock type (quiet_sock type).
Proof.
  exists (replicate 4096 0). split; [|done]. unfold zlen. by rewrite length_replicate.
Qed.

Lemma cwp_drv cid Φ c : Φ cid c -> cwp (quiet_inv cid) (gets w_drv) Φ c.
Proof.
  intros H w <- Hd. unfold wp, gets. split; [done|].
  unfold drv_inv, quiet_inv in Hd. by rewrite Hd.
Qed.

#[export] Instance quiet_driver cid : Driver (quiet_inv cid) cid quiet_ops (2 ^ 16).
Proof.
  split; cbn; intros; try done.
  - unfold quiet_create. cstep; [|by apply cwp_ret; left].
    apply cwp_bind, cwp_new_sock; [done|]. intros i Hi. apply cwp_ret. right.
    exists i, (quiet_sock type). split_and!; [done..|apply quiet_fresh|done].
  - unfold quiet_accept. cstep. cstep. eapply cwp_bind, cwp_entry; [done|]. intros q.
    apply cwp_bind, cwp_drv.
    apply cwp_bind, cwp_new_sock; [done|]. intros o Ho. apply cwp_ret. right.
    exists o, (quiet_sock (v_sock_type s)). split_and!; [done..|apply quiet_fresh|done].
  - by apply cwp_free_entry.
  - unfold quiet_destroy. by apply cwp_bind, cwp_free_sock.
Qed.

(** ** States with one socket

    Socket 1, with the file 1 and the accept entries [q] in its queue. *)

Definition sample_file : socket_alloc :=
  mk_alloc (mk_node (Some 1%positive) (Some AF_VSOCK)) (mk_node None None) 0.
Definition sample_rx : uk_vsock_buffer := mk_buffer [1; 2; 3; 4; 5; 6; 7; 8] 2 4 8 7.
Definition sample_sock (st : uk_vsock_state) (peer : uk_vsockaddr) (q : list positive) : uk_vsock :=
  mk_vsock st false false 0 SOCK_STREAM (mk_addr 3 5) peer sample_rx q (zlen q) 2 (Some 1%positive).
Definition sample_tree (st : uk_vsock_state) : tree (A:=positive) :=
  if in_table st then T false false E 1%positive E else E.
Definition sample_world (s : uk_vsock) (entries : gmap positive (uk_vsockaddr * unit)) : quiet_world :=
  mk_world (sample_tree (v_state s)) 1 {[1%positive := (s, tt)]} entries
    {[1%positive := sample_file]} true 3.

Lemma sample_socks s es : c_socks (core (sample_world s es)) = {[1%positive := s]}.
Proof. apply map_fmap_singleton. Qed.

Lemma sample_members s es :
  members (core (sample_world s es)) = if in_table (v_state s) then [1%positive] else [].
Proof. unfold members. cbn. unfold sample_tree. by destruct (in_table _). Qed.

Lemma sample_inv st peer q es :
  (q <> [] -> st = LISTENING) -> (st = BOUND \/ st = LISTENING -> peer = any_addr) ->
  NoDup q -> (forall e, e ∈ q -> is_Some (es !! e)) -> zlen q < 2 ^ 31 ->
  core_inv 3 (core (sample_world (sample_sock st peer q) es)).
Proof.
  intros Hq Hp Hnd He Hlen. set (s := sample_sock st peer q).
  assert (Hs : forall i s', c_socks (core (sample_world s es)) !! i = Some s' -> i = 1%positive /\ s' = s).
  { intros i s'. rewrite sample_socks. intros [-> ->]%lookup_singleton_Some. done. }
  split; try done.
  - split.
    + unfold sample_world, sample_tree. cbn. destruct (in_table st); cbn; [exists 1%nat|exists 0%nat; constructor].
      by apply (wavl_T 1 0 0); [constructor..| | |].
    + unfold ordered. rewrite sample_members. destruct (in_table _); repeat constructor.
    + intros i. rewrite sample_members, sample_socks. destruct (in_table _); [|by intros ?%elem_of_nil].
      intros ->%list_elem_of_singleton. exists s. split; [apply lookup_singleton_eq|done].
  - intros i s' [-> ->]%Hs. split; try done.
    + intros e Hin. destruct (He e Hin) as [[a []] Ha]. exists a. cbn. by rewrite lookup_fmap, Ha.
    + intros ps [= <-]. by exists sample_file.
  - intros i s' [-> ->]%Hs. rewrite sample_members. destruct (in_table _); set_solver.
  - intros i j s1 s2 e [-> ->]%Hs [-> ->]%Hs. done.
Qed.

Lemma sample_attached st peer q es :
  attached (core (sample_world (sample_sock st peer q) es)) 1%positive (sample_sock st peer q)
    1%positive sample_file.
Proof. split; [|done..]. rewrite sample_socks. apply lookup_singleton_eq. Qed.
