(* ===== verification/VsockSystem.v ===== *)
(** * The vsock socket layer as a whole

    The calls that enter lib/ukvsockdev, from the application through
    posix-socket and from the driver's workers, and the theorems about them on
    whole states: each call returns, with the stated result, in a good state,
    for every driver that satisfies [Driver]. *)

From stdpp Require Import prelude gmap sorting.
From S2P Require Import Prelude Tree VsockBuffer Netbuf Vsock VsockTable VsockLogic VsockCore.
From S2P Require Import VsockSocket VsockStream QuietDriver.

(** Takes a conjunction under existentials apart. *)
Ltac decompose_ex H :=
  lazymatch type of H with
  | ex _ => let x := fresh "x" in destruct H as [x H]; decompose_ex H
  | _ /\ _ => let H1 := fresh H in let H2 := fresh H in
      destruct H as [H1 H2]; decompose_ex H1; decompose_ex H2
  | _ => idtac
  end.

Section system.
Context {P Q D : Type} (inv : gmap positive P -> gmap positive Q -> D -> Prop) (cid : Z).
Context (ops : uk_vsockdev_ops P Q D) (max_send : Z).
#[local] Abbreviation world := (world P Q D).
#[local] Abbreviation cwp := (cwp inv).

Definition good (w : world) : Prop := core_inv cid (core w) /\ drv_inv inv w.

(** The call [m] made in [w] returns [a] in a good state, with [Φ]. *)
Definition returns {A} (m : M world A) (w : world) (Φ : A -> core_state -> Prop) : Prop :=
  exists a w', m w = Done (a, w') /\ good w' /\ Φ a (core w').

Lemma returns_cwp {A} (m : M world A) w Φ :
  good w -> cwp m (fun a c' => core_inv cid c' /\ Φ a c') (core w) -> returns m w Φ.
Proof.
  intros [Hc Hd] Hm. specialize (Hm w eq_refl Hd). unfold wp in Hm.
  destruct (m w) as [[a w']| |] eqn:Ew; [|done..]. destruct Hm as (Hd' & Hc' & HΦ).
  exists a, w'. split; [done|]. by split; [split|].
Qed.

(** ** The calls *)

Inductive call : Type :=
  (* posix-socket *)
  | Create (type protocol : Z)
  | PollSetup (ps : positive)
  | Bind (ps : positive) (addr : list Z) (addr_len : Z)
  | Listen (ps : positive) (backlog : Z)
  | Accept (ps : positive) (addr : bool) (addr_len : option Z)
  | Connect (ps : positive) (addr : list Z) (addr_len : Z)
  | Shutdown (ps : positive) (how : Z)
  | Close (ps : positive)
  | Write (ps : positive) (iov : list (list Z))
  | Sendto (ps : positive) (buf : list Z)
  | Read (ps : positive) (iov : list Z)
  | Recvfrom (ps : positive) (len : Z)
  | Getsockopt (ps : positive) (optlen : option Z)
  | Getsockname (ps : positive) (addr_len : Z)
  | Getpeername (ps : positive) (addr_len : Z)
  (* the driver's workers *)
  | Payload (i : positive) (packet : list (list Z))
  | Response (i : positive)
  | PeerReset (i : positive)
  | PeerShutdown (i : positive) (rx tx : bool)
  | Request (i e : positive)
  | TransportReset.

(** The call, its result dropped. *)
Definition ignore {A} (m : M world A) : M world unit := _ ← m; mret tt.
Definition exec (k : call) : M world unit :=
  match k with
  | Create type protocol => ignore (vsock_create ops AF_VSOCK type protocol)
  | PollSetup ps => vsock_poll_setup ps
  | Bind ps addr addr_len => ignore (vsock_bind ops ps addr addr_len)
  | Listen ps backlog => ignore (vsock_listen ops ps backlog)
  | Accept ps addr addr_len => ignore (vsock_accept4 ops ps addr addr_len)
  | Connect ps addr addr_len => ignore (vsock_connect ops ps addr addr_len)
  | Shutdown ps how => ignore (vsock_shutdown ops ps how)
  | Close ps => ignore (vsock_close ops ps)
  | Write ps iov => ignore (vsock_write ops ps iov)
  | Sendto ps buf => ignore (vsock_sendto ops ps buf false 0)
  | Read ps iov => ignore (vsock_read ops ps iov)
  | Recvfrom ps len => ignore (vsock_recvfrom ops ps len false false)
  | Getsockopt ps optlen => ignore (vsock_getsockopt ps SOL_SOCKET SO_ERROR optlen)
  | Getsockname ps n => ignore (vsock_getsockname ps (Some n))
  | Getpeername ps n => ignore (vsock_getpeername ps (Some n))
  | Payload i packet => ignore (uk_vsock_rx_payload i packet)
  | Response i => ignore (uk_vsock_conn_response ops i)
  | PeerReset i => ignore (uk_vsock_conn_reset ops i)
  | PeerShutdown i rx tx => ignore (uk_vsock_conn_shutdown ops i rx tx)
  | Request i e => ignore (uk_vsock_conn_request i e)
  | TransportReset => ignore (uk_vsockets_term ops)
  end.

(** The file [ps] is that of a live socket which knows it. *)
Definition file_ok (c : core_state) (ps : positive) : Prop :=
  exists i s al, attached c i s ps al /\ n_data (al_node al) = Some i.
Definition sock_ok (c : core_state) (i : positive) : Prop :=
  exists s ps al, attached c i s ps al.

(** When a call may be made. *)
Definition admissible (k : call) (c : core_state) : Prop :=
  match k with
  | Create _ _ => True
  | PollSetup ps => exists al i s, c_psocks c !! ps = Some al /\
      n_data (al_node al) = Some i /\ c_socks c !! i = Some s
  | Bind ps addr addr_len => file_ok c ps /\ addr_len <= zlen addr
  | Listen ps backlog => file_ok c ps /\ backlog < 2 ^ 31
  | Accept ps _ _ => exists i s al, attached c i s ps al /\ head_free cid s c
  | Connect ps addr addr_len => exists i s al, attached c i s ps al /\ addr_len <= zlen addr /\
      let svm := decode_svm (slice 0 sizeof_svm addr) in
      (v_state s = BOUND -> key_free i (set_peer s (mk_addr (svm_cid svm) (svm_port svm))) c)
  | Shutdown ps _ | Close ps | Getsockopt ps _ | Getsockname ps _ | Getpeername ps _ => file_ok c ps
  | Write ps iov => file_ok c ps /\ Forall (fun b => zlen b <= max_send) iov
  | Sendto ps buf => file_ok c ps /\ zlen buf <= max_send
  | Read ps iov => file_ok c ps /\ Forall (fun n => 0 < n < 2 ^ 64) iov
  | Recvfrom ps len => file_ok c ps /\ 0 <= len < 2 ^ 64
  | Payload i packet => sock_ok c i /\ Forall (fun nb => zlen nb < 2 ^ 16) packet
  | Response i | PeerReset i | PeerShutdown i _ _ => sock_ok c i
  | Request i e => sock_ok c i /\ is_Some (c_entries c !! e) /\
      forall j sj, c_socks c !! j = Some sj -> e ∉ v_accept_queue sj
  | TransportReset => cid <> UK_VSOCK_CID_ANY /\ all_attached c
  end.

(** What the rest of the system does to the shared state: posix-socket makes a
    file for a socket that has none, a worker of the driver allocates an accept
    entry. *)
Inductive environment (c : core_state) : core_state -> Prop :=
  | env_file ps al : c_psocks c !! ps = None -> environment c (c_file ps al c)
  | env_entry e a : c_entries c !! e = None -> environment c (c_entry e a c).

(** The states that sequences of calls reach. *)
Inductive reach (w0 : world) : world -> Prop :=
  | reach_start : reach w0 w0
  | reach_call k w w' : reach w0 w -> admissible k (core w) -> exec k w = Done (tt, w') ->
      reach w0 w'
  | reach_env w w' : reach w0 w -> environment (core w) (core w') -> drv_inv inv w' ->
      reach w0 w'.

Context `{!Driver inv cid ops max_send}.

Lemma cwp_ignore {A} (m : M world A) Φ c :
  cwp m (fun a c' => core_inv cid c' /\ Φ a c') c -> cwp (ignore m) (fun _ => core_inv cid) c.
Proof. intros H. apply cwp_bind. eapply cwp_mono; [done|]. intros a c' [Hc _]. by apply cwp_ret. Qed.

Lemma environment_inv c c' : core_inv cid c -> environment c c' -> core_inv cid c'.
Proof.
  intros [Ht Hd Hn Hs Hm Ho] He. destruct He as [ps al Hp|e a He];
    (split; try done; [by eapply table_frame, Ht|]).
  - intros i s Hi%Hs. eapply sock_wf_frame, Hi; [done|]. cbn. intros ps' al' H'.
    rewrite lookup_insert_ne by congruence. eauto.
  - intros i s Hi%Hs. eapply sock_wf_frame, Hi; [|eauto]. cbn. intros e' _ [a' H'].
    rewrite lookup_insert_ne by congruence. eauto.
Qed.

Lemma call_spec k c :
  core_inv cid c -> admissible k c -> cwp (exec k) (fun _ => core_inv cid) c.
Proof.
  intros Hc. destruct k; cbn [admissible exec]; unfold file_ok, sock_ok; intros Ha; decompose_ex Ha.
  - by eapply cwp_ignore, vsock_create_spec.
  - eapply cwp_mono; [by eapply vsock_poll_setup_spec|]. by intros ? ? [].
  - by eapply cwp_ignore, vsock_bind_spec.
  - by eapply cwp_ignore, vsock_listen_spec.
  - by eapply cwp_ignore, vsock_accept4_spec.
  - by eapply cwp_ignore, vsock_connect_spec.
  - by eapply cwp_ignore, vsock_shutdown_spec.
  - by eapply cwp_ignore, vsock_close_spec.
  - by eapply cwp_ignore, vsock_write_spec.
  - by eapply cwp_ignore, vsock_sendto_spec.
  - by eapply cwp_ignore, vsock_read_spec.
  - by eapply cwp_ignore, vsock_recvfrom_spec.
  - by eapply cwp_ignore, vsock_getsockopt_spec.
  - eapply cwp_bind, cwp_mono; [by eapply vsock_getsockname_spec|]. intros ? ? [-> _]. by apply cwp_ret.
  - eapply cwp_bind, cwp_mono; [by eapply vsock_getpeername_spec|]. intros ? ? [-> _]. by apply cwp_ret.
  - by eapply cwp_ignore, uk_vsock_rx_payload_spec.
  - by eapply cwp_ignore, uk_vsock_conn_response_spec.
  - by eapply cwp_ignore, uk_vsock_conn_reset_spec.
  - by eapply cwp_ignore, uk_vsock_conn_shutdown_spec.
  - by eapply cwp_ignore, uk_vsock_conn_request_spec.
  - by eapply cwp_ignore, uk_vsockets_term_spec.
Qed.

(** The state in which a driver registers its device: no sockets yet. *)
Record booted (w : world) : Prop := {
  bo_socks : w_socks w = ∅;
  bo_next : 0 <= w_port_alloc_next w < 2 ^ 32;
  bo_dev : w_main_dev w = false;
  bo_drv : drv_inv inv w
}.

Lemma register_spec w :
  booted w -> exists w', uk_vsockdev_register w = Done (0, w') /\ good w'.
Proof.
  intros [Hs Hn Hm Hd]. eexists. split.
  { unfold uk_vsockdev_register, vsockdev_get, gets, UK_ASSERT, modify, uk_vsockets_init.
    unfold mbind, M_bind. by rewrite Hm. }
  split; [|done]. unfold core, vsocks. cbn. rewrite Hs.
  split; try done; cbn; [split|..]; try (intros; by simplify_map_eq).
  - by exists 0%nat; constructor.
  - constructor.
  - unfold members. cbn. by intros i ?%elem_of_nil.
Qed.

Lemma reach_good w0 w : good w0 -> reach w0 w -> good w.
Proof.
  intros H0. induction 1 as [|k w w' _ [Hc Hd] Ha He|w w' _ [Hc Hd] He Hd']; [done| |].
  - pose proof (call_spec k (core w) Hc Ha w eq_refl Hd) as Hk. unfold wp in Hk.
    rewrite He in Hk. by destruct Hk.
  - split; [by eapply environment_inv|done].
Qed.

(** C6: The socket layer never gets stuck and never leaves its invariant.  Once
    a driver has registered its device, after any sequence of calls from the
    application and from the driver's workers, each made when it is admissible,
    the state is good (the table is a balanced search tree of exactly the
    bound, listening, connecting and open sockets, every queue and buffer is
    well formed, no accept entry is shared), and every admissible call
    terminates without a failed assertion or an invalid access, in a good
    state again. *)
Theorem system_safe w0 :
  booted w0 ->
  exists w1, uk_vsockdev_register w0 = Done (0, w1) /\
    forall w, reach w1 w -> good w /\
      forall k, admissible k (core w) -> exists w', exec k w = Done (tt, w') /\ good w'.
Proof.
  intros (w1 & H1 & Hg)%register_spec. exists w1. split; [done|]. intros w Hr.
  pose proof (reach_good _ _ Hg Hr) as Hw. split; [done|]. intros k Hk.
  destruct (returns_cwp (exec k) w (fun _ _ => True) Hw) as ([] & w' & He & Hg' & _); [|by exists w'].
  eapply cwp_mono; [apply call_spec; [apply Hw|done]|]. done.
Qed.
End system.

Lemma system_safe_witness :
  exists w1, uk_vsockdev_register (mk_world E 0 ∅ ∅ ∅ false 3) = Done (0, w1) /\
    forall w, reach (quiet_inv 3) 3 quiet_ops (2 ^ 16) w1 w -> good (quiet_inv 3) 3 w /\
      forall k, admissible 3 (2 ^ 16) k (core w) ->
        exists w', exec quiet_ops k w = Done (tt, w') /\ good (quiet_inv 3) 3 w'.
Proof. apply (system_safe (quiet_inv 3) 3 quiet_ops (2 ^ 16)). by split. Defined.
