(* ===== verification/VsockProps.v ===== *)
(** * What each call of the vsock socket layer does

    The outcome of the calls, branch by branch, in a good state and with any
    driver that satisfies [Driver]. *)

From stdpp Require Import prelude gmap sorting.
From S2P Require Import Prelude Tree VsockBuffer Netbuf Vsock VsockTable VsockLogic VsockCore.
From S2P Require Import VsockSocket VsockStream QuietDriver VsockSystem.

(** The states with one socket, of QuietDriver.v. *)
Lemma sample_good st peer q es :
  (q <> [] -> st = LISTENING) -> (st = BOUND \/ st = LISTENING -> peer = any_addr) ->
  NoDup q -> (forall e, e ∈ q -> is_Some (es !! e)) -> zlen q < 2 ^ 31 ->
  good (quiet_inv 3) 3 (sample_world (sample_sock st peer q) es).
Proof. intros. split; [by apply sample_inv|done]. Qed.

Ltac solve_sample :=
  first [ apply sample_good; [done|by intuition congruence|repeat constructor; set_solver| |done];
          intros e He; apply list_elem_of_In in He; cbn in He; intuition (subst; eauto)
        | apply sample_attached | done ].

Section props.
Context {P Q D : Type} (inv : gmap positive P -> gmap positive Q -> D -> Prop) (cid : Z).
Context (ops : uk_vsockdev_ops P Q D) (max_send : Z) `{!Driver inv cid ops max_send}.
Implicit Types w : world P Q D.
#[local] Abbreviation good := (good inv cid).
#[local] Abbreviation returns := (returns inv cid).

(** C32: [bind] on every branch.  It fails without a change on a wrong length,
    family, CID or state and when another bound or listening socket of the
    type holds the port; it allocates an unused port for VMADDR_PORT_ANY; and
    when it returns 0 the socket is BOUND to the device's CID and that port
    with a wildcard peer, and the table finds it. *)
Theorem bind_outcome w i s ps al addr addr_len :
  good w -> attached (core w) i s ps al -> addr_len <= zlen addr ->
  returns (vsock_bind ops ps addr addr_len) w (fun rc c' =>
    if addr_len =? sizeof_svm
    then bind_post cid i s (decode_svm (slice 0 sizeof_svm addr)) (core w) rc c'
    else rc = - EINVAL /\ c' = core w).
Proof.
  intros Hg Hat Hl. apply returns_cwp; [done|]. by eapply vsock_bind_spec; try apply Hg.
Qed.

(** [listen] on every branch: a bound socket starts listening, an unbound
    one is bound to a free port first, a listening one only gets the new
    backlog (0 stands for 128), any other state is -EINVAL. *)
Theorem listen_outcome w i s ps al backlog :
  good w -> attached (core w) i s ps al -> backlog < 2 ^ 31 ->
  returns (vsock_listen ops ps backlog) w (listen_post cid i s backlog (core w)).
Proof.
  intros Hg Hat Hl. apply returns_cwp; [done|]. by eapply vsock_listen_spec; try apply Hg.
Qed.

(** C30: [connect] on every branch.  A bound socket keeps its local address and
    moves in the table to the key of the peer; an unbound one gets an unused
    port; if the driver refuses, the state and the place in the table are rolled
    back, and the peer address too.  The socket of a failed port allocation gets
    the wildcard as its peer and keeps the new local CID; the comment in the code
    says that the old peer is restored.  For a bound socket the theorem assumes
    that no other socket of the table has the new pair of addresses: the code
    ignores the collision that UK_RB_REINSERT then reports. *)
Theorem connect_outcome w i s ps al addr addr_len :
  good w -> attached (core w) i s ps al -> addr_len <= zlen addr ->
  let svm := decode_svm (slice 0 sizeof_svm addr) in
  (v_state s = BOUND -> key_free i (set_peer s (mk_addr (svm_cid svm) (svm_port svm))) (core w)) ->
  returns (vsock_connect ops ps addr addr_len) w (fun rc c' =>
    if addr_len =? sizeof_svm then connect_post cid i s svm (core w) rc c'
    else rc = - EINVAL /\ c' = core w).
Proof.
  intros Hg Hat Hl svm Hk. apply returns_cwp; [done|]. by eapply vsock_connect_spec; try apply Hg.
Qed.

(** C31: [accept] on every branch.  The oldest pending request is taken from
    the queue and freed whatever happens; a new socket connects the listener's
    port with the requesting peer, is open and in the table, and the listener
    stops being readable exactly when its queue has become empty.  The theorem
    assumes that no socket of the table connects the listener's port with that
    peer yet: the code ignores the collision that UK_RB_INSERT reports when one
    peer has queued two requests from the same port, and returns a socket that
    is open but not in the table. *)
Theorem accept_outcome w i s ps al addr addr_len :
  good w -> attached (core w) i s ps al -> head_free cid s (core w) ->
  returns (vsock_accept4 ops ps addr addr_len) w
    (accept_post cid i s ps al addr addr_len (core w)).
Proof.
  intros Hg Hat Hl. apply returns_cwp; [done|]. by eapply vsock_accept4_spec; try apply Hg.
Qed.

(** C33: [close] frees the socket, after closing it if it is in the table (its
    pending requests freed, removed from the table, its file hung up); if the
    driver refuses to tell the peer, nothing has changed. *)
Theorem close_outcome w i s ps al :
  good w -> attached (core w) i s ps al ->
  returns (vsock_close ops ps) w (fun rc c' =>
    rc = 0 /\ destroyed i s ps al (core w) c' \/
    rc <> 0 /\ in_table (v_state s) = true /\ c' = core w).
Proof. intros Hg Hat. apply returns_cwp; [done|]. by eapply vsock_close_spec; try apply Hg. Qed.

(** C36: [shutdown] on every branch.  It fails without a change on an unknown
    direction and on a socket that is not open.  Otherwise the driver is told the
    directions; its error is returned and nothing has changed; and when it succeeds
    the call goes on in the driver's state with [uk_vsock_conn_shutdown], to which
    the directions are passed as if the peer had shut them down: SHUT_WR sets
    rx_shutdown and EPOLLRDHUP, so that this side still may send, and SHUT_RD sets
    tx_shutdown and clears EPOLLOUT, the opposite of what vsock.h says of the two.
    When both directions are down the socket is closed, or left shut down if that
    fails. *)
Theorem shutdown_outcome w i s ps al how :
  good w -> attached (core w) i s ps al ->
  returns (vsock_shutdown ops ps how) w (shutdown_post cid i s ps al how (core w)) /\
  forall rx tx, shutdown_dirs how = Some (rx, tx) -> v_state s = OPEN ->
    exists rc w1, op_shutdown ops i rx tx w = Done (rc, w1) /\ core w1 = core w /\
      vsock_shutdown ops ps how w = if rc =? 0 then uk_vsock_conn_shutdown ops i rx tx w1 else Done (rc, w1).
Proof.
  intros Hg Hat. split; [apply returns_cwp; [done|]; by eapply vsock_shutdown_spec; try apply Hg|].
  intros rx tx Hdir Hst. by apply (shutdown_calls inv cid ops max_send i s ps al).
Qed.

(** [recvfrom] takes the oldest bytes of the stream, as many as asked for
    and available; -EAGAIN only when there are none and the peer may still
    send, 0 when there are none and it has shut down; the file stops being
    readable when the buffer runs empty. *)
Theorem recv_outcome w i s ps al len :
  good w -> attached (core w) i s ps al -> 0 <= len < 2 ^ 64 ->
  returns (vsock_recvfrom ops ps len false false) w (recv_post i s ps al len (core w)).
Proof.
  intros Hg Hat Hl. apply returns_cwp; [done|]. by eapply vsock_recvfrom_spec; try apply Hg.
Qed.

(** [read] fills the buffers of the vector in turn with the oldest bytes of
    the stream, until the vector or the receive buffer is used up. *)
Theorem read_outcome w i s ps al iov :
  good w -> attached (core w) i s ps al -> Forall (fun n => 0 < n < 2 ^ 64) iov ->
  returns (vsock_read ops ps iov) w (fun r c' =>
    if readable s then
      exists rx, let n := read_size iov s in
        c' = c_put i (set_rx s rx) (c_file ps (rx_events rx al) (core w)) /\ rx_taken n (v_rx s) rx /\
        fst r = read_rc iov s n /\ concat (snd r) = slice 0 n (contents (v_rx s))
    else r = (- ENOTCONN, []) /\ c' = core w).
Proof.
  intros Hg Hat Hl. apply returns_cwp; [done|]. by eapply vsock_read_spec; try apply Hg.
Qed.

(** [write] never reports more bytes than the vector holds, changes nothing
    but the writability of the file, and fails with -EPIPE or -ENOTCONN on a
    socket that is not open. *)
Theorem write_outcome w i s ps al iov :
  good w -> attached (core w) i s ps al -> Forall (fun b => zlen b <= max_send) iov ->
  returns (vsock_write ops ps iov) w (fun r c' =>
    if decide (v_state s = OPEN) then out_events ps al (core w) c' /\ r <= total_len iov
    else r = (if bool_decide (v_state s = CLOSED) || v_tx_shutdown s then - EPIPE else - ENOTCONN) /\
         c' = core w).
Proof.
  intros Hg Hat Hl. apply returns_cwp; [done|]. by eapply vsock_write_spec; try apply Hg.
Qed.

(** ** Handlers of the driver's packets *)

(** A data packet for an open socket is appended to the receive buffer
    whole, and the file becomes readable; one that does not fit, or that
    arrives in another state, is refused without a change. *)
Theorem payload_outcome w i s ps al packet :
  good w -> attached (core w) i s ps al -> Forall (fun nb => zlen nb < 2 ^ 16) packet ->
  returns (uk_vsock_rx_payload i packet) w (fun rc c' =>
    if decide (v_state s = OPEN) then
      if zlen (concat packet) <=? b_capacity (v_rx s) - b_count (v_rx s) then
        rc = 0 /\ exists rx, c' = c_put i (set_rx s rx) (c_file ps (raise EPOLLIN al) (core w)) /\
          contents rx = contents (v_rx s) ++ concat packet /\
          b_capacity rx = b_capacity (v_rx s) /\
          b_total_processed rx = b_total_processed (v_rx s)
      else rc = - ENOSPC /\ c' = core w
    else rc = - EINVAL /\ c' = core w).
Proof.
  intros Hg Hat Hl. apply returns_cwp; [done|]. by eapply uk_vsock_rx_payload_spec; try apply Hg.
Qed.

(** A connection request is queued behind the earlier ones when the socket
    listens and its backlog is not full, and the file becomes readable;
    otherwise it is refused without a change. *)
Theorem request_outcome w i s ps al e :
  good w -> attached (core w) i s ps al -> is_Some (c_entries (core w) !! e) ->
  (forall j sj, c_socks (core w) !! j = Some sj -> e ∉ v_accept_queue sj) ->
  returns (uk_vsock_conn_request i e) w (fun rc c' =>
    if decide (v_state s = LISTENING /\ v_accept_queue_length s < v_accept_queue_limit s) then
      rc = 0 /\ c' = c_put i (set_queue s (v_accept_queue s ++ [e]) (v_accept_queue_length s + 1))
                       (c_file ps (raise EPOLLIN al) (core w))
    else rc = - ECONNREFUSED /\ c' = core w).
Proof.
  intros Hg Hat He Ho. apply returns_cwp; [done|]. by eapply uk_vsock_conn_request_spec; try apply Hg.
Qed.

(** A response opens a connecting socket and makes its file writable; in
    any other state it is an error, and a socket of the table is reset and
    closed, or left alone if the driver cannot send the reset. *)
Theorem response_outcome w i s ps al :
  good w -> attached (core w) i s ps al ->
  returns (uk_vsock_conn_response ops i) w (fun rc c' =>
    if decide (v_state s = WAIT_CONNECT) then
      rc = 0 /\ c' = c_put i (set_state s OPEN) (c_file ps (raise EPOLLOUT al) (core w))
    else rc = - EINVAL /\
      (c' = core w \/ in_table (v_state s) = true /\ close_post cid i s ps al (core w) c')).
Proof.
  intros Hg Hat. apply returns_cwp; [done|]. by eapply uk_vsock_conn_response_spec; try apply Hg.
Qed.

(** A reset by the peer always signals an error and a hang-up on the file;
    a connecting socket records ECONNREFUSED, and a connecting or open one
    leaves the table and is ready for another connection. *)
Theorem reset_outcome w i s ps al :
  good w -> attached (core w) i s ps al ->
  returns (uk_vsock_conn_reset ops i) w (fun rc c' =>
    let c1 := c_file ps (reset_events al) (core w) in
    match v_state s with
    | WAIT_CONNECT =>
        rc <> 0 /\ c' = c_put i (set_so_error s (- ECONNREFUSED)) c1 \/
        rc = 0 /\ exists t,
          c' = c_tree t (c_put i (set_state (set_so_error s (- ECONNREFUSED)) READY) c1)
    | OPEN => rc = 0 /\ exists t, c' = c_tree t (c_put i (set_state s READY) c1)
    | _ => rc = 0 /\ c' = c1
    end).
Proof.
  intros Hg Hat. apply returns_cwp; [done|]. by eapply uk_vsock_conn_reset_spec; try apply Hg.
Qed.

(** C37: A shutdown by the peer ends the directions it names, with the matching
    events; once both have ended the socket is closed. *)
Theorem peer_shutdown_outcome w i s ps al peer_rx peer_tx :
  good w -> attached (core w) i s ps al ->
  returns (uk_vsock_conn_shutdown ops i peer_rx peer_tx) w (fun rc c' =>
    if decide (v_state s = OPEN) then
      let s1 := shut peer_rx peer_tx s in
      let al1 := shut_events peer_rx peer_tx al in
      let c1 := c_put i s1 (c_file ps al1 (core w)) in
      if v_rx_shutdown s1 && v_tx_shutdown s1
      then rc <> 0 /\ c' = c1 \/ rc = 0 /\ close_post cid i s1 ps al1 c1 c'
      else rc = 0 /\ c' = c1
    else rc = - EINVAL /\ c' = core w).
Proof.
  intros Hg Hat. apply returns_cwp; [done|]. by eapply uk_vsock_conn_shutdown_spec; try apply Hg.
Qed.

(** The demultiplexing of a packet: a socket with exactly the local and
    peer addresses wins; else the socket bound to the local port with a
    wildcard peer, whatever the local CID; else none.  The search misses no
    socket of the table. *)
Theorem lookup_outcome w type local peer :
  good w ->
  returns (uk_vsock_lookup type local peer) w (fun r c' =>
    c' = core w /\ lookup_post (core w) type local peer r).
Proof.
  intros Hg. apply returns_cwp; [done|]. eapply uk_vsock_lookup_spec; [apply Hg|].
  intros r Hr. split; [apply Hg|done].
Qed.

(** C35: With at most 65535 sockets in the table a port is always found, within
    as many probes as there are sockets plus one: the first unused one at or
    behind the next-port counter.  The signed 32-bit result is the port itself
    below 2^31; from there on it is negative, which the callers take for an
    error. *)
Theorem alloc_port_outcome w type :
  good w -> zlen (members (core w)) <= U16_MAX ->
  returns (vsock_alloc_port type) w (fun r c' =>
    exists k, 0 <= k <= zlen (members (core w)) /\
      let port := u32 (c_next (core w) + k) in
      ~ port_used (core w) type port /\
      (forall j, 0 <= j < k -> port_used (core w) type (u32 (c_next (core w) + j))) /\
      r = (if port <? 2 ^ 31 then port else port - 2 ^ 32) /\
      c' = c_port (u32 (c_next (core w) + k + 1)) (core w)).
Proof.
  intros Hg Hn. apply returns_cwp; [done|]. destruct Hg as [Hc _].
  eapply cwp_mono; [by eapply vsock_alloc_port_spec|].
  intros r c' Ha. split; [by eapply allocated_inv|].
  destruct Ha as [(k & Hk & -> & -> & Hf & Hu)|(_ & _ & Hu)].
  - exists k. split; [split; [lia|]|cbv zeta; split_and!; [done..| |done]].
    + eapply ports_used_bound; [|exact Hu]. unfold PROBES, U16_MAX in Hk. lia.
    + unfold swrap. by rewrite wrap_wrap by lia.
  - assert (Z.of_nat PROBES <= zlen (members (core w))).
    { eapply ports_used_bound; [|exact Hu]. unfold PROBES, U16_MAX. lia. }
    unfold PROBES, U16_MAX in *. lia.
Qed.

(** C34: A transport reset visits every socket of the table.  Each one is closed, or
    it is left unchanged because the driver has refused to reset its connection; all
    sockets outside the table are untouched.  The result is 0 exactly when the table
    is empty, and it is an error only if the driver has refused for some socket of
    the table.  No socket bound to a wildcard CID survives, against what vsock.h and
    vsockdev_core.h promise: [vsock_bind] stores the CID of the device, so that
    the table has no such socket and the test in the loop never spares one. *)
Theorem term_outcome w :
  cid <> UK_VSOCK_CID_ANY -> good w -> all_attached (core w) ->
  returns (uk_vsockets_term ops) w (fun r c' =>
    reset_rel inv cid ops (members (core w)) r (core w) c' /\ (r = 0 <-> members c' = []) /\
    (r <> 0 -> exists i, i ∈ members (core w) /\ refuses inv cid ops i)).
Proof.
  intros Hcid Hg Ha. apply returns_cwp; [done|].
  eapply cwp_mono; [by eapply uk_vsockets_term_spec; try apply Hg|]. cbn beta. intros r c'. tauto.
Qed.

(** ** The byte stream *)

(** Packets that arrive for a socket and [recvfrom] calls on its file; the
    bytes a step accepts from the peer and those it hands to the application. *)
Inductive stream_event : Type := Deliver (packet : list (list Z)) | Receive (len : Z).
Definition stream_event_ok (e : stream_event) : Prop :=
  match e with
  | Deliver packet => Forall (fun nb => zlen nb < 2 ^ 16) packet
  | Receive len => 0 <= len < 2 ^ 64
  end.
Definition stream_step (ps i : positive) (e : stream_event) : M (world P Q D) (list Z * list Z) :=
  match e with
  | Deliver packet =>
      rc ← uk_vsock_rx_payload i packet;
      mret (if rc =? 0 then concat packet else [], [])
  | Receive len => r ← vsock_recvfrom ops ps len false false; mret ([], snd r)
  end.
Fixpoint stream_run (ps i : positive) (es : list stream_event) : M (world P Q D) (list Z * list Z) :=
  match es with
  | [] => mret ([], [])
  | e :: es =>
      x ← stream_step ps i e;
      y ← stream_run ps i es;
      mret (fst x ++ fst y, snd x ++ snd y)
  end.

(** An open socket that holds the bytes [l]. *)
Definition stream_at (ps i : positive) (l : list Z) (c : core_state) : Prop :=
  exists s al, attached c i s ps al /\ v_state s = OPEN /\ contents (v_rx s) = l.

Lemma attached_put c i s ps al s' al' :
  attached c i s ps al -> v_posix_sock s' = Some ps ->
  attached (c_put i s' (c_file ps al' c)) i s' ps al'.
Proof. intros [] Hp. split; [apply lookup_insert_eq|done|apply lookup_insert_eq]. Qed.

Lemma stream_step_spec ps i e l c :
  core_inv cid c -> stream_at ps i l c -> stream_event_ok e ->
  cwp inv (stream_step ps i e) (fun r c' => core_inv cid c' /\
    exists l', stream_at ps i l' c' /\ l ++ fst r = snd r ++ l') c.
Proof.
  intros Hc (s & al & Hat & Hst & Hl) He. destruct e as [packet|len]; cbn in He |- *; apply cwp_bind.
  - eapply cwp_mono; [by eapply uk_vsock_rx_payload_spec|].
    intros rc c' [Hc' H]. rewrite decide_True in H by done. apply cwp_ret. split; [done|]. case_match.
    + destruct H as (-> & rx & -> & Hcon & _). exists (contents rx). split; [|by rewrite Hcon, Hl].
      exists (set_rx s rx), (raise EPOLLIN al). split; [|done]. by apply attached_put with s al; [|apply Hat].
    + destruct H as (-> & ->). exists l. rewrite app_nil_r. split; [|done]. by exists s, al.
  - eapply cwp_mono; [by eapply vsock_recvfrom_spec|].
    intros r c' [Hc' H]. apply cwp_ret. split; [done|]. rewrite app_nil_r. destruct H as [| |n rx Hr -> Hn Ht].
    1, 2: exists l; split; [by exists s, al|done].
    exists (contents rx). destruct Ht as (_ & _ & Ht & _). rewrite <- Hl. split; [|done].
    exists (set_rx s rx), (rx_events rx al). split; [|done]. by apply attached_put with s al; [|apply Hat].
Qed.

(** C7: The stream is reliable and ordered inside the stack.  Whatever packets
    arrive for an open socket and whatever [recvfrom] calls are made, in any
    order, all of them return, and the bytes handed to the application so far
    followed by those still buffered are exactly those buffered at first
    followed by the payloads that were accepted: nothing is lost, duplicated,
    changed or reordered. *)
Theorem stream_in_order w ps i l es :
  good w -> stream_at ps i l (core w) -> Forall stream_event_ok es ->
  returns (stream_run ps i es) w (fun r c' =>
    exists l', stream_at ps i l' c' /\ l ++ fst r = snd r ++ l').
Proof.
  intros Hg Hs He. apply returns_cwp; [done|]. destruct Hg as [Hc _]. generalize dependent (core w).
  revert l. induction He as [|e es He _ IH]; intros l c Hs Hc; cbn [stream_run].
  { apply cwp_ret. split; [done|]. exists l. by rewrite app_nil_r. }
  apply cwp_bind. eapply cwp_mono; [by eapply stream_step_spec|].
  intros r c1 (Hc1 & l1 & Hs1 & Hl1). apply cwp_bind. eapply cwp_mono; [by apply IH|].
  intros r' c2 (Hc2 & l2 & Hs2 & Hl2). apply cwp_ret. split; [done|]. exists l2. split; [done|].
  cbn. by rewrite app_assoc, Hl1, <- !app_assoc, Hl2.
Qed.
End props.

(** ** The theorems at work

    On the driver of QuietDriver.v, from states with one socket. *)

#[local] Abbreviation sample st peer q :=
  (sample_world (sample_sock st peer q) {[7%positive := (mk_addr 2 1024, tt)]}).
#[local] Abbreviation returns' := (returns (quiet_inv 3) 3).
#[local] Abbreviation one := 1%positive.
Definition host : uk_vsockaddr := mk_addr 2 1024.

Lemma bind_outcome_witness :
  returns' (vsock_bind quiet_ops one (encode_svm (mk_svm AF_VSOCK 0 80 VMADDR_CID_ANY 0)) 16)
    (sample READY host []) (fun rc c' =>
    bind_post 3 one (sample_sock READY host []) (mk_svm AF_VSOCK 0 80 VMADDR_CID_ANY 0)
      (core (sample READY host [])) rc c').
Proof. apply (bind_outcome (quiet_inv 3) 3 quiet_ops (2 ^ 16)
    (sample READY host []) one (sample_sock READY host []) one sample_file
    (encode_svm (mk_svm AF_VSOCK 0 80 VMADDR_CID_ANY 0)) 16); solve_sample. Defined.

Lemma listen_outcome_witness :
  returns' (vsock_listen quiet_ops one 5) (sample BOUND any_addr [])
    (listen_post 3 one (sample_sock BOUND any_addr []) 5 (core (sample BOUND any_addr []))).
Proof. apply (listen_outcome (quiet_inv 3) 3 quiet_ops (2 ^ 16)
    (sample BOUND any_addr []) one (sample_sock BOUND any_addr []) one sample_file 5); solve_sample. Defined.

Lemma connect_outcome_witness :
  returns' (vsock_connect quiet_ops one (encode_svm (svm_of host)) 16) (sample BOUND any_addr [])
    (connect_post 3 one (sample_sock BOUND any_addr []) (svm_of host) (core (sample BOUND any_addr []))).
Proof.
  apply (connect_outcome (quiet_inv 3) 3 quiet_ops (2 ^ 16)
    (sample BOUND any_addr []) one (sample_sock BOUND any_addr []) one sample_file
    (encode_svm (svm_of host)) 16); [solve_sample..|].
  intros _ j sj Hj. rewrite sample_members in Hj. by apply list_elem_of_singleton in Hj as ->.
Defined.

Lemma accept_outcome_witness :
  returns' (vsock_accept4 quiet_ops one false None) (sample LISTENING any_addr [7%positive])
    (accept_post 3 one (sample_sock LISTENING any_addr [7%positive]) one sample_file false None
      (core (sample LISTENING any_addr [7%positive]))).
Proof.
  apply (accept_outcome (quiet_inv 3) 3 quiet_ops (2 ^ 16)
    (sample LISTENING any_addr [7%positive]) one (sample_sock LISTENING any_addr [7%positive]) one sample_file false None); [solve_sample..|].
  intros e rest a j sj [= <- <-] Ha _. rewrite sample_socks. intros [<- <-]%lookup_singleton_Some.
  cbn in Ha. rewrite map_fmap_singleton, lookup_singleton_eq in Ha. by injection Ha as <-.
Defined.

Lemma close_outcome_witness :
  returns' (vsock_close quiet_ops one) (sample OPEN host []) (fun rc c' =>
    let s := sample_sock OPEN host [] in
    rc = 0 /\ destroyed one s one sample_file (core (sample OPEN host [])) c' \/
    rc <> 0 /\ in_table (v_state s) = true /\ c' = core (sample OPEN host [])).
Proof. apply (close_outcome (quiet_inv 3) 3 quiet_ops (2 ^ 16)
    (sample OPEN host []) one (sample_sock OPEN host []) one sample_file); solve_sample. Defined.

Lemma shutdown_outcome_witness :
  returns' (vsock_shutdown quiet_ops one SHUT_WR) (sample OPEN host [])
    (shutdown_post 3 one (sample_sock OPEN host []) one sample_file SHUT_WR (core (sample OPEN host []))) /\
  exists rc w1, op_shutdown quiet_ops one false true (sample OPEN host []) = Done (rc, w1) /\
    core w1 = core (sample OPEN host []) /\
    vsock_shutdown quiet_ops one SHUT_WR (sample OPEN host []) =
      if rc =? 0 then uk_vsock_conn_shutdown quiet_ops one false true w1 else Done (rc, w1).
Proof.
  destruct (shutdown_outcome (quiet_inv 3) 3 quiet_ops (2 ^ 16)
    (sample OPEN host []) one (sample_sock OPEN host []) one sample_file SHUT_WR) as [Hr Hc]; [solve_sample..|].
  split; [exact Hr|]. by apply Hc.
Defined.

Lemma recv_outcome_witness :
  returns' (vsock_recvfrom quiet_ops one 3 false false) (sample OPEN host [])
    (recv_post one (sample_sock OPEN host []) one sample_file 3 (core (sample OPEN host []))).
Proof. apply (recv_outcome (quiet_inv 3) 3 quiet_ops (2 ^ 16)
    (sample OPEN host []) one (sample_sock OPEN host []) one sample_file 3); solve_sample. Defined.

Lemma read_outcome_witness :
  returns' (vsock_read quiet_ops one [3; 9]) (sample OPEN host []) (fun r c' =>
    let s := sample_sock OPEN host [] in
    exists rx,
      c' = c_put one (set_rx s rx) (c_file one (rx_events rx sample_file) (core (sample OPEN host []))) /\
      rx_taken (read_size [3; 9] s) (v_rx s) rx /\ fst r = read_rc [3; 9] s (read_size [3; 9] s) /\
      concat (snd r) = slice 0 (read_size [3; 9] s) (contents (v_rx s))).
Proof.
  apply (read_outcome (quiet_inv 3) 3 quiet_ops (2 ^ 16)
    (sample OPEN host []) one (sample_sock OPEN host []) one sample_file [3; 9]); [solve_sample..|].
  repeat constructor.
Defined.

Lemma write_outcome_witness :
  returns' (vsock_write quiet_ops one [[1; 2]; [3]]) (sample OPEN host []) (fun r c' =>
    out_events one sample_file (core (sample OPEN host [])) c' /\ r <= total_len [[1; 2]; [3]]).
Proof.
  apply (write_outcome (quiet_inv 3) 3 quiet_ops (2 ^ 16)
    (sample OPEN host []) one (sample_sock OPEN host []) one sample_file [[1; 2]; [3]]); [solve_sample..|].
  repeat constructor; done.
Defined.

Lemma payload_outcome_witness :
  returns' (uk_vsock_rx_payload one [[10; 11]; [12]]) (sample OPEN host []) (fun rc c' =>
    let s := sample_sock OPEN host [] in
    rc = 0 /\ exists rx,
      c' = c_put one (set_rx s rx) (c_file one (raise EPOLLIN sample_file) (core (sample OPEN host []))) /\
      contents rx = contents (v_rx s) ++ [10; 11; 12] /\
      b_capacity rx = 8 /\ b_total_processed rx = 7).
Proof.
  apply (payload_outcome (quiet_inv 3) 3
    (sample OPEN host []) one (sample_sock OPEN host []) one sample_file [[10; 11]; [12]]);
    [solve_sample..|]. repeat constructor; done.
Defined.

Lemma request_outcome_witness :
  returns' (uk_vsock_conn_request one 7%positive) (sample LISTENING any_addr []) (fun rc c' =>
    rc = 0 /\ c' = c_put one (sample_sock LISTENING any_addr [7%positive])
      (c_file one (raise EPOLLIN sample_file) (core (sample LISTENING any_addr [])))).
Proof.
  apply (request_outcome (quiet_inv 3) 3 quiet_ops (2 ^ 16) (sample LISTENING any_addr []) one
    (sample_sock LISTENING any_addr []) one sample_file 7%positive); [solve_sample..| |].
  - cbn. rewrite map_fmap_singleton, lookup_singleton_eq. eauto.
  - intros j sj. rewrite sample_socks. intros [<- <-]%lookup_singleton_Some. apply not_elem_of_nil.
Defined.

Lemma response_outcome_witness :
  returns' (uk_vsock_conn_response quiet_ops one) (sample WAIT_CONNECT host []) (fun rc c' =>
    rc = 0 /\ c' = c_put one (sample_sock OPEN host [])
      (c_file one (raise EPOLLOUT sample_file) (core (sample WAIT_CONNECT host [])))).
Proof.
  apply (response_outcome (quiet_inv 3) 3 quiet_ops (2 ^ 16) (sample WAIT_CONNECT host []) one
    (sample_sock WAIT_CONNECT host []) one sample_file); solve_sample.
Defined.

Lemma reset_outcome_witness :
  returns' (uk_vsock_conn_reset quiet_ops one) (sample OPEN host []) (fun rc c' =>
    rc = 0 /\ exists t, c' = c_tree t (c_put one (sample_sock READY host [])
      (c_file one (reset_events sample_file) (core (sample OPEN host []))))).
Proof.
  apply (reset_outcome (quiet_inv 3) 3 quiet_ops (2 ^ 16) (sample OPEN host []) one
    (sample_sock OPEN host []) one sample_file); solve_sample.
Defined.

Lemma peer_shutdown_outcome_witness :
  returns' (uk_vsock_conn_shutdown quiet_ops one true false) (sample OPEN host []) (fun rc c' =>
    rc = 0 /\ c' = c_put one (set_tx_shutdown (sample_sock OPEN host []) true)
      (c_file one (lower EPOLLOUT sample_file) (core (sample OPEN host [])))).
Proof.
  apply (peer_shutdown_outcome (quiet_inv 3) 3 quiet_ops (2 ^ 16) (sample OPEN host []) one
    (sample_sock OPEN host []) one sample_file true false); solve_sample.
Defined.

Lemma lookup_outcome_witness :
  returns' (uk_vsock_lookup SOCK_STREAM (mk_addr 3 5) (mk_addr 2 99)) (sample LISTENING any_addr [])
    (fun r c' => c' = core (sample LISTENING any_addr []) /\
      lookup_post (core (sample LISTENING any_addr [])) SOCK_STREAM (mk_addr 3 5) (mk_addr 2 99) r).
Proof. apply (lookup_outcome (quiet_inv 3) 3); solve_sample. Defined.

Lemma alloc_port_outcome_witness :
  returns' (vsock_alloc_port SOCK_STREAM) (sample BOUND any_addr []) (fun r c' =>
    let c := core (sample BOUND any_addr []) in
    exists k, 0 <= k <= zlen (members c) /\
      ~ port_used c SOCK_STREAM (u32 (c_next c + k)) /\
      (forall j, 0 <= j < k -> port_used c SOCK_STREAM (u32 (c_next c + j))) /\
      r = (if u32 (c_next c + k) <? 2 ^ 31 then u32 (c_next c + k) else u32 (c_next c + k) - 2 ^ 32) /\
      c' = c_port (u32 (c_next c + k + 1)) c).
Proof. apply (alloc_port_outcome (quiet_inv 3) 3); solve_sample. Defined.

Lemma term_outcome_witness :
  returns' (uk_vsockets_term quiet_ops) (sample OPEN host []) (fun r c' =>
    reset_rel (quiet_inv 3) 3 quiet_ops (members (core (sample OPEN host []))) r (core (sample OPEN host [])) c' /\
    (r = 0 <-> members c' = []) /\
    (r <> 0 -> exists i, i ∈ members (core (sample OPEN host [])) /\ refuses (quiet_inv 3) 3 quiet_ops i)).
Proof.
  apply (term_outcome (quiet_inv 3) 3 quiet_ops (2 ^ 16)); [done|solve_sample|].
  intros i s _. rewrite sample_socks. intros [<- <-]%lookup_singleton_Some. by exists one.
Defined.

Lemma stream_in_order_witness :
  returns' (stream_run quiet_ops one one [Receive 2; Deliver [[10; 11]; [12; 13; 14]]; Receive 100])
    (sample OPEN host []) (fun r c' =>
    exists l', stream_at one one l' c' /\ [3; 4; 5; 6] ++ fst r = snd r ++ l').
Proof.
  apply (stream_in_order (quiet_inv 3) 3 quiet_ops (2 ^ 16)); [solve_sample| |].
  - exists (sample_sock OPEN host []), sample_file. split; [solve_sample|done].
  - repeat constructor; done.
Defined.
