(* ===== verification/VirtioMmio.v ===== *)
(** * Virtio devices behind memory-mapped registers, and their bus

    The transport drivers/virtio/mmio/virtio_mmio.c, the wrappers of
    drivers/virtio/bus/include/virtio/virtio_bus.h and the matching of devices
    with drivers in drivers/virtio/bus/virtio_bus.c.  The hardware is a
    parameter: the value of a read is any function of the register, the width
    and everything that was read and written before.  The state is [struct
    virtio_mmio_device], with the log of these accesses. *)

From stdpp Require Import prelude gmap.
From S2P Require Import Prelude Netbuf Vring.

(** ** Registers *)

Definition MAGIC_VALUE : Z := 0x000.
Definition VERSION : Z := 0x004.
Definition DEVICE_ID : Z := 0x008.
Definition VENDOR_ID : Z := 0x00c.
Definition DEVICE_FEATURES : Z := 0x010.
Definition DEVICE_FEATURES_SEL : Z := 0x014.
Definition DRIVER_FEATURES : Z := 0x020.
Definition DRIVER_FEATURES_SEL : Z := 0x024.
Definition GUEST_PAGE_SIZE : Z := 0x028.
Definition QUEUE_SEL : Z := 0x030.
Definition QUEUE_NUM_MAX : Z := 0x034.
Definition QUEUE_NUM : Z := 0x038.
Definition QUEUE_ALIGN : Z := 0x03c.
Definition QUEUE_PFN : Z := 0x040.
Definition QUEUE_READY : Z := 0x044.
Definition QUEUE_NOTIFY : Z := 0x050.
Definition INTERRUPT_STATUS : Z := 0x060.
Definition INTERRUPT_ACK : Z := 0x064.
Definition STATUS : Z := 0x070.
Definition QUEUE_DESC_LOW : Z := 0x080.
Definition QUEUE_DESC_HIGH : Z := 0x084.
Definition QUEUE_AVAIL_LOW : Z := 0x090.
Definition QUEUE_AVAIL_HIGH : Z := 0x094.
Definition QUEUE_USED_LOW : Z := 0x0a0.
Definition QUEUE_USED_HIGH : Z := 0x0a4.
Definition CONFIG : Z := 0x100.
Definition INT_VRING : Z := Z.shiftl 1 0.
Definition INT_CONFIG : Z := Z.shiftl 1 1.

Definition STATUS_ACK : Z := 0x1.
Definition STATUS_DRIVER : Z := 0x2.
Definition STATUS_DRIVER_OK : Z := 0x4.
Definition STATUS_FEATURES_OK : Z := 0x8.
Definition STATUS_FAIL : Z := 0x80.

Definition VIRTIO_ID_INVALID : Z := 0.
Definition VIRTIO_ID_VSOCK : Z := 19.

(** 'v' | 'i' << 8 | 'r' << 16 | 't' << 24 *)
Definition MAGIC : Z := Z.lor (Z.lor 118 (Z.shiftl 105 8)) (Z.lor (Z.shiftl 114 16) (Z.shiftl 116 24)).

(** ** State *)

(** An access of [width] bytes at an offset from the base of the device. *)
Inductive access : Type :=
  | Rd (width off : Z)
  | Wr (width off value : Z).

Inductive virtio_dev_status : Set :=
  | DEV_RESET | DEV_INITIALIZED | DEV_CONFIGURED | DEV_RUNNING | DEV_STOPPED.

(** [struct virtio_mmio_device] with its [struct virtio_dev]: the negotiated
    features, the queues in the order in which they were set up, the device
    identifier, the status, the version and the vendor. *)
Record virtio_mmio_device : Type := mk_mmio {
  m_features : Z;
  m_vqs : list Z;
  m_device_id : Z;
  m_status : virtio_dev_status;
  m_version : Z;
  m_vendor : Z;
  m_log : list access
}.
Definition set_m_features (x : Z) (m : virtio_mmio_device) : virtio_mmio_device :=
  mk_mmio x (m_vqs m) (m_device_id m) (m_status m) (m_version m) (m_vendor m) (m_log m).
Definition set_m_vqs (x : list Z) (m : virtio_mmio_device) : virtio_mmio_device :=
  mk_mmio (m_features m) x (m_device_id m) (m_status m) (m_version m) (m_vendor m) (m_log m).
Definition set_m_device_id (x : Z) (m : virtio_mmio_device) : virtio_mmio_device :=
  mk_mmio (m_features m) (m_vqs m) x (m_status m) (m_version m) (m_vendor m) (m_log m).
Definition set_m_status (x : virtio_dev_status) (m : virtio_mmio_device) : virtio_mmio_device :=
  mk_mmio (m_features m) (m_vqs m) (m_device_id m) x (m_version m) (m_vendor m) (m_log m).
Definition set_m_version (x : Z) (m : virtio_mmio_device) : virtio_mmio_device :=
  mk_mmio (m_features m) (m_vqs m) (m_device_id m) (m_status m) x (m_vendor m) (m_log m).
Definition set_m_vendor (x : Z) (m : virtio_mmio_device) : virtio_mmio_device :=
  mk_mmio (m_features m) (m_vqs m) (m_device_id m) (m_status m) (m_version m) x (m_log m).
Definition set_m_log (x : list access) (m : virtio_mmio_device) : virtio_mmio_device :=
  mk_mmio (m_features m) (m_vqs m) (m_device_id m) (m_status m) (m_version m) (m_vendor m) x.

#[local] Abbreviation MM := (M virtio_mmio_device).

(** ** Features *)

Definition FEATURE_SET (features bitpos : Z) : Z := Z.lor features (Z.shiftl 1 bitpos).
Definition FEATURE_HAS (features bitpos : Z) : bool := flag_set features (Z.shiftl 1 bitpos).

Section mmio.
(** The hardware. *)
Context (hardware : list access -> Z -> Z -> Z).

(** Accesses of [width] bytes, and those at [base + off], where [off] is a
    [__u8]. *)
Definition ioreg_read (width a : Z) : MM Z := fun m =>
  Done (wrap (8 * width) (hardware (m_log m) width a), set_m_log (Rd width a :: m_log m) m).
Definition ioreg_write (width a value : Z) : MM unit :=
  modify (fun m => set_m_log (Wr width a (wrap (8 * width) value) :: m_log m) m).
Definition cread (width base off : Z) : MM Z := ioreg_read width (base + u8 off).
Definition cwrite (width base off value : Z) : MM unit := ioreg_write width (base + u8 off) value.
Definition cread32 (off : Z) : MM Z := cread 4 0 off.
Definition cwrite32 (off value : Z) : MM unit := cwrite 4 0 off value.

(** ** The configuration operations *)

Definition vm_get_features : MM Z :=
  cwrite32 DEVICE_FEATURES_SEL 1;;
  hi ← cread32 DEVICE_FEATURES;
  cwrite32 DEVICE_FEATURES_SEL 0;;
  lo ← cread32 DEVICE_FEATURES;
  mret (Z.lor (u64 (Z.shiftl hi 32)) lo).

Definition vm_set_features : MM unit :=
  modify (fun m => set_m_features (virtqueue_feature_negotiate (m_features m)) m);;
  m ← gets id;
  if (m_version m =? 2) && negb (flag_set (m_features m) (UK_BIT VIRTIO_F_VERSION_1)) then mret tt
  else
    cwrite32 DRIVER_FEATURES_SEL 1;;
    cwrite32 DRIVER_FEATURES (Z.shiftr (m_features m) 32);;
    cwrite32 DRIVER_FEATURES_SEL 0;;
    cwrite32 DRIVER_FEATURES (m_features m).

(** The bytes from [offset + i] on, one by one; [i] is a [__u8]. *)
Fixpoint get_bytes (n : nat) (offset i len : Z) : MM (list Z) :=
  if i <? len then
    match n with
    | O => out_of_fuel
    | S n =>
        b ← cread 1 CONFIG (offset + i);
        l ← get_bytes n offset (u8 (i + 1)) len;
        mret (b :: l)
    end
  else mret [].
(** The bytes from the address [a] on. *)
Fixpoint cread_bytes (n : nat) (a : Z) : MM (list Z) :=
  match n with
  | O => mret []
  | S n =>
      b ← ioreg_read 1 a;
      l ← cread_bytes n (a + 1);
      mret (b :: l)
  end.
Definition vm_get (offset len : Z) : MM (Z * list Z) :=
  m ← gets id;
  if m_version m =? 1 then l ← get_bytes 256 offset 0 len; mret (0, l)
  else if len =? 1 then b ← cread 1 CONFIG offset; mret (0, le_bytes 1 b)
  else if len =? 2 then w ← cread 2 CONFIG offset; mret (0, le_bytes 2 w)
  else if len =? 4 then l ← cread 4 CONFIG offset; mret (0, le_bytes 4 l)
  else if len =? 8 then
    lo ← cread 4 CONFIG offset;
    hi ← cread 4 CONFIG (offset + 4);
    mret (0, le_bytes 4 lo ++ le_bytes 4 hi)
  else l ← cread_bytes (Z.to_nat len) (CONFIG + u8 offset); mret (0, l).

Fixpoint set_bytes (offset : Z) (buf : list Z) : MM unit :=
  match buf with
  | [] => mret tt
  | b :: buf => cwrite 1 CONFIG offset b;; set_bytes (offset + 1) buf
  end.
Fixpoint cwrite_bytes (a : Z) (buf : list Z) : MM unit :=
  match buf with
  | [] => mret tt
  | b :: buf => ioreg_write 1 a b;; cwrite_bytes (a + 1) buf
  end.
Definition vm_set (offset : Z) (buf : list Z) : MM Z :=
  m ← gets id;
  let len := zlen buf in
  (if m_version m =? 1 then set_bytes offset buf
   else if len =? 1 then cwrite 1 CONFIG offset (le_val buf)
   else if len =? 2 then cwrite 2 CONFIG offset (le_val buf)
   else if len =? 4 then cwrite 4 CONFIG offset (le_val buf)
   else if len =? 8 then
     cwrite 4 CONFIG offset (le_val (slice 0 4 buf));;
     cwrite 4 CONFIG (offset + 4) (le_val (slice 4 4 buf))
   else cwrite_bytes (CONFIG + u8 offset) buf);;
  mret 0.

Definition vm_get_status : MM Z := s ← cread32 STATUS; mret (Z.land s 0xff).
Definition vm_set_status (status : Z) : MM unit :=
  UK_ASSERT (negb (status =? 0));;
  cwrite32 STATUS status.
Definition vm_reset : MM unit := cwrite32 STATUS 0.
Definition vm_notify (queue_id : Z) : MM Z := cwrite32 QUEUE_NOTIFY queue_id;; mret 1.

(** ** Queues *)

(** The registers that tell the device about a queue of [num_desc] descriptors
    whose ring is at the physical addresses [desc], [avail] and [used]. *)
Definition activate_vq (queue_id num_desc desc avail used : Z) : MM unit :=
  cwrite32 QUEUE_SEL queue_id;;
  cwrite32 QUEUE_NUM num_desc;;
  m ← gets id;
  if m_version m =? 1 then
    cwrite32 QUEUE_ALIGN (2 ^ 12);;
    cwrite32 QUEUE_PFN (Z.shiftr desc 12)
  else
    cwrite32 QUEUE_DESC_LOW desc;;
    cwrite32 QUEUE_DESC_HIGH (Z.shiftr desc 32);;
    cwrite32 QUEUE_AVAIL_LOW avail;;
    cwrite32 QUEUE_AVAIL_HIGH (Z.shiftr avail 32);;
    cwrite32 QUEUE_USED_LOW used;;
    cwrite32 QUEUE_USED_HIGH (Z.shiftr used 32);;
    cwrite32 QUEUE_READY 1.

(** The loop of [vm_find_vqs]: the sizes found, or an error. *)
Fixpoint find_loop (n : nat) (i : Z) : MM (Z + list Z) :=
  match n with
  | O => mret (inr [])
  | S n =>
      cwrite32 QUEUE_SEL i;;
      m ← gets id;
      busy ← cread32 (if m_version m =? 1 then QUEUE_PFN else QUEUE_READY);
      if negb (busy =? 0) then mret (inl (- ENOENT))
      else
        size ← cread32 QUEUE_NUM_MAX;
        if u16 size =? 0 then mret (inl (- ENOENT))
        else
          r ← find_loop n (i + 1);
          mret (match r with inl err => inl err | inr l => inr (u16 size :: l) end)
  end.
(** [irq] is the result of registering the interrupt handler. *)
Definition vm_find_vqs (irq : Z) (num_vqs : nat) : MM (Z * list Z) :=
  if negb (irq =? 0) then mret (irq, [])
  else
    r ← find_loop num_vqs 0;
    match r with
    | inl err => mret (err, [])
    | inr sizes => mret (zlen sizes, sizes)
    end.

(** ** The bus *)

(** [virtio_dev_status_update]: the transport has [status_set]. *)
Definition virtio_dev_status_update (status : Z) : MM Z := vm_set_status status;; mret 0.

Definition virtio_dev_drv_up : MM unit :=
  virtio_dev_status_update
    (Z.lor (Z.lor STATUS_ACK STATUS_DRIVER) (Z.lor STATUS_FEATURES_OK STATUS_DRIVER_OK));;
  mret tt.

Definition virtio_device_reinit : MM Z :=
  vm_reset;;
  modify (set_m_status DEV_RESET);;
  rc ← virtio_dev_status_update STATUS_ACK;
  if negb (rc =? 0) then mret rc
  else
    rc ← virtio_dev_status_update (Z.lor STATUS_ACK STATUS_DRIVER);
    if negb (rc =? 0) then mret rc
    else modify (set_m_status DEV_INITIALIZED);; mret rc.

(** ** Termination

    The registers can be read and written in any state; only the log of the
    accesses changes. *)

Lemma wp_ioreg_read width a Q v :
  0 <= width -> (forall x l, 0 <= x < 2 ^ (8 * width) -> Q x (set_m_log l v)) -> wp (ioreg_read width a) Q v.
Proof. intros Hw H. unfold wp, ioreg_read. apply H, wrap_range. lia. Qed.
Lemma wp_ioreg_write width a x Q v : (forall l, Q tt (set_m_log l v)) -> wp (ioreg_write width a x) Q v.
Proof. intros H. apply H. Qed.

Lemma find_loop_total n i v :
  wp (find_loop n i) (fun r v' => (exists l, v' = set_m_log l v) /\
    match r with inl err => err = - ENOENT | inr l => length l = n /\ Forall (fun x => 0 < x < 2 ^ 16) l end) v.
Proof.
  revert i v. induction n as [|n IH]; intros i v; cbn [find_loop].
  { apply wp_ret. split; [|by repeat constructor]. exists (m_log v). by destruct v. }
  apply wp_bind, wp_ioreg_write. intros l1. apply wp_bind. unfold wp at 1, gets.
  apply wp_bind, wp_ioreg_read; [lia|]. intros busy l2 _. case_match; [by split; [eexists|]|].
  apply wp_bind, wp_ioreg_read; [lia|]. intros size l3 _. pose proof (wrap_range 16 size ltac:(lia)).
  destruct (Z.eqb_spec (u16 size) 0); [by split; [eexists|]|]. apply wp_bind. eapply wp_mono; [|apply IH].
  intros [err|l] v' [[l4 ->] Hr]; (split; [by eexists|]); [done|]. destruct Hr as [<- Hf].
  split; [done|]. constructor; [lia|done].
Qed.

(** The sizes found are those of as many queues as were asked for. *)
Lemma vm_find_vqs_total irq n v :
  irq <= 0 -> (0 < n)%nat ->
  wp (vm_find_vqs irq n) (fun r v' => (exists l, v' = set_m_log l v) /\
    (fst r = Z.of_nat n -> length (snd r) = n /\ Forall (fun x => 0 < x < 2 ^ 16) (snd r))) v.
Proof.
  intros Hirq Hn. unfold vm_find_vqs. destruct (Z.eqb_spec irq 0); cbn [negb].
  - apply wp_bind. eapply wp_mono; [|apply find_loop_total]. intros [err|l] v' [Hl Hr]; split; try done.
    cbn. unfold ENOENT in Hr. lia.
  - apply wp_ret. split; [|cbn; lia]. exists (m_log v). by destruct v.
Qed.

Lemma activate_vq_total q n desc avail used v :
  wp (activate_vq q n desc avail used) (fun _ v' => exists l, v' = set_m_log l v) v.
Proof.
  unfold activate_vq. apply wp_bind, wp_ioreg_write. intros l1. apply wp_bind, wp_ioreg_write. intros l2.
  apply wp_bind. unfold wp at 1, gets. case_match;
    repeat (apply wp_bind, wp_ioreg_write; intros ?); apply wp_ioreg_write; by eexists.
Qed.

Lemma status_update_total status v :
  status <> 0 -> wp (virtio_dev_status_update status) (fun rc v' => rc = 0 /\ exists l, v' = set_m_log l v) v.
Proof.
  intros Hs. unfold virtio_dev_status_update, vm_set_status. apply wp_bind, wp_bind.
  unfold wp at 1, UK_ASSERT. destruct (Z.eqb_spec status 0); [done|]. cbn.
  split; [done|by eexists].
Qed.

Lemma vm_set_features_total v :
  wp vm_set_features (fun _ v' => exists f l, v' = set_m_log l (set_m_features f v)) v.
Proof.
  unfold vm_set_features. apply wp_bind. unfold wp at 1, modify. apply wp_bind. unfold wp at 1, gets.
  case_match; [exists (virtqueue_feature_negotiate (m_features v)), (m_log v); by destruct v|].
  repeat (apply wp_bind, wp_ioreg_write; intros ?). apply wp_ioreg_write. intros ?. by eexists _, _.
Qed.

Lemma vm_get_features_total v : wp vm_get_features (fun _ v' => exists l, v' = set_m_log l v) v.
Proof.
  unfold vm_get_features.
  apply wp_bind, wp_ioreg_write. intros l1. apply wp_bind, wp_ioreg_read; [lia|]. intros hi l2 _.
  apply wp_bind, wp_ioreg_write. intros l3. apply wp_bind, wp_ioreg_read; [lia|]. intros lo l4 _.
  apply wp_ret. by eexists.
Qed.

(** Bytes one by one: at most 255 of them, as the counter has eight bits. *)
Lemma get_bytes_total n offset i len v :
  0 <= i <= len -> len < 2 ^ 8 -> len - i <= Z.of_nat n ->
  wp (get_bytes n offset i len) (fun l v' => zlen l = len - i /\ Forall is_byte l /\
    exists l, v' = set_m_log l v) v.
Proof.
  revert i v. induction n as [|n IH]; intros i v Hi Hlen Hn; cbn [get_bytes].
  { destruct (Z.ltb_spec i len); [lia|]. apply wp_ret. split_and!; [unfold zlen; cbn; lia|done|].
    exists (m_log v). by destruct v. }
  destruct (Z.ltb_spec i len); cycle 1.
  { apply wp_ret. split_and!; [unfold zlen; cbn; lia|done|]. exists (m_log v). by destruct v. }
  apply wp_bind, wp_ioreg_read; [lia|]. intros b l Hb. apply wp_bind.
  rewrite wrap_small by lia. eapply wp_mono; [|apply IH; lia]. intros bs v' (Hz & Hf & l' & ->).
  apply wp_ret. rewrite zlen_cons. split_and!; [lia| |by eexists]. by constructor.
Qed.

(** Reading eight bytes of the configuration. *)
Lemma vm_get_8_total offset v :
  wp (vm_get offset 8) (fun r v' => fst r = 0 /\ zlen (snd r) = 8 /\ Forall is_byte (snd r) /\
    exists l, v' = set_m_log l v) v.
Proof.
  unfold vm_get. apply wp_bind. unfold wp at 1, gets. case_match.
  - apply wp_bind. eapply wp_mono; [|apply get_bytes_total; lia]. intros l v' (Hz & Hf & Hl).
    apply wp_ret. cbn. by split_and!.
  - cbn [Z.eqb Pos.eqb]. apply wp_bind, wp_ioreg_read; [lia|]. intros lo l1 _.
    apply wp_bind, wp_ioreg_read; [lia|]. intros hi l2 _. apply wp_ret. cbn [fst snd].
    split_and!; [done|done|apply Forall_app; split; apply le_bytes_byte|by eexists].
Qed.
End mmio.

Section bus.
(** The state of the driver of a device, which contains the device. *)
Context {S : Type} (lift : forall A, M virtio_mmio_device A -> M S A).
#[local] Abbreviation hw := (lift _).
Context (hardware : list access -> Z -> Z -> Z).

(** [struct virtio_driver]; [dev_ids] ends with [VIRTIO_ID_INVALID], [init] is
    the result of the initialisation. *)
Record virtio_driver : Type := mk_driver {
  dr_dev_ids : list Z;
  dr_init : option Z;
  dr_add_dev : M S Z
}.

Fixpoint ids_match (ids : list Z) (id : Z) : option bool :=
  match ids with
  | [] => None
  | i :: ids =>
      if i =? VIRTIO_ID_INVALID then Some false else if i =? id then Some true else ids_match ids id
  end.
Fixpoint find_match_drv (drvs : list virtio_driver) (id : Z) : option (option virtio_driver) :=
  match drvs with
  | [] => Some None
  | drv :: drvs =>
      found ← ids_match (dr_dev_ids drv) id;
      if (found : bool) then Some (Some drv) else find_match_drv drvs id
  end.

Definition virtio_bus_register_device (drvs : list virtio_driver) : M S Z :=
  id ← hw (gets m_device_id);
  drv ← deref (fun _ => find_match_drv drvs id);
  match drv with
  | None => mret (- EFAULT)
  | Some drv =>
      rc ← hw virtio_device_reinit;
      if negb (rc =? 0) then mret rc
      else
        hw (modify (set_m_vqs []));;
        rc ← dr_add_dev drv;
        if negb (rc =? 0) then hw (virtio_dev_status_update STATUS_FAIL);; mret rc
        else mret rc
  end.

(** The drivers that stay, and the number of initialised ones. *)
Fixpoint virtio_bus_init (drvs : list virtio_driver) : list virtio_driver * Z :=
  match drvs with
  | [] => ([], 0)
  | drv :: drvs =>
      let '(rest, count) := virtio_bus_init drvs in
      match dr_init drv with
      | Some ret => if negb (ret =? 0) then (rest, count) else (drv :: rest, count + 1)
      | None => (drv :: rest, count)
      end
  end.

(** [virtio_mmio_add_dev]; [block] tells whether the allocation of the device
    structure succeeded, [base] is the mapped address of the registers. *)
Definition virtio_mmio_add_dev (drvs : list virtio_driver) (block : bool) (base : Z) : M S Z :=
  if negb block then mret (- ENOMEM)
  else if base =? 0 then mret (- EFAULT)
  else
    magic ← hw (cread32 hardware MAGIC_VALUE);
    if negb (magic =? MAGIC) then mret (- ENODEV)
    else
      version ← hw (cread32 hardware VERSION);
      hw (modify (set_m_version version));;
      if (version <? 1) || (2 <? version) then mret (- ENXIO)
      else
        id ← hw (cread32 hardware DEVICE_ID);
        hw (modify (set_m_device_id (u16 id)));;
        if u16 id =? 0 then mret (- ENODEV)
        else
          vendor ← hw (cread32 hardware VENDOR_ID);
          hw (modify (set_m_vendor vendor));;
          (if version <=? 1 then hw (cwrite32 GUEST_PAGE_SIZE (2 ^ 12)) else mret tt);;
          virtio_bus_register_device drvs.
End bus.
