(* ===== verification/VirtioVsock.v ===== *)
(** * The virtio vsock driver (drivers/virtio/vsock/virtio_vsock.c)

    The driver's state beside the core's: its part of every socket and accept
    entry, the device with its three virtqueues, the netbufs and event buffers
    it has allocated.  Memory allocation, address translation, what the device
    does to a ring while interrupts are being enabled, and giving up the CPU
    are parameters. *)

From stdpp Require Import prelude gmap.
From S2P Require Import Prelude Tree VsockBuffer Netbuf NetbufHeap Sglist Vring VirtioMmio Vsock.

(** ** Constants *)

Definition VSOCK_MAX_FRAGMENTS : Z := Z.shiftr U16_MAX PAGE_SHIFT + 2.
Definition VIRTIO_VSOCK_TYPE_STREAM : Z := 1.
Definition VIRTIO_VSOCK_TYPE_SEQPACKET : Z := 2.
Definition VIRTIO_VSOCK_OP_REQUEST : Z := 1.
Definition VIRTIO_VSOCK_OP_RESPONSE : Z := 2.
Definition VIRTIO_VSOCK_OP_RST : Z := 3.
Definition VIRTIO_VSOCK_OP_SHUTDOWN : Z := 4.
Definition VIRTIO_VSOCK_OP_RW : Z := 5.
Definition VIRTIO_VSOCK_OP_CREDIT_UPDATE : Z := 6.
Definition VIRTIO_VSOCK_OP_CREDIT_REQUEST : Z := 7.
(** The value of the enumerator of [enum uk_vsock_state]. *)
Definition UK_VSOCK_STATE_LISTENING : Z := 4.
Definition VIRTIO_VSOCK_SHUTDOWN_F_RECEIVE : Z := UK_BIT 0.
Definition VIRTIO_VSOCK_SHUTDOWN_F_SEND : Z := UK_BIT 1.
Definition VIRTIO_VSOCK_EVENT_TRANSPORT_RESET : Z := 0.
Definition STATUS_SUCCESS : Z := UK_BIT 0.
Definition STATUS_MORE : Z := UK_BIT 1.
Definition STATUS_UNDERRUN : Z := UK_BIT 2.
Definition VTVSOCK_INTR_EN : Z := UK_BIT 0.
Definition VTVSOCK_INTR_USR_EN : Z := UK_BIT 1.
Definition work_batch_size : nat := 128.
Definition sizeof_virtio_vsock : Z := 160.
Definition sizeof_accept_entry : Z := 24.
Definition sizeof_event : Z := 4.

(** ** Data *)

(** [struct virtio_vsock] and [struct virtio_vsock_accept_entry], without the
    embedded core structure. *)
Record virtio_vsock : Type := mk_vs {
  vs_type : Z; vs_peer_buf_alloc : Z; vs_peer_fwd_count : Z; vs_tx_count : Z
}.
Record virtio_vsock_accept_entry : Type := mk_ventry {
  ve_peer_buf_alloc : Z; ve_peer_fwd_count : Z
}.
(** [struct virtio_vsock_event]: the identifier the device has stored. *)
Record virtio_vsock_event : Type := mk_event { ev_id : Z }.

Record virtio_vsockdev_queue : Type := mk_queue {
  q_vq : option virtqueue;
  q_hwvq_id : Z;
  q_max_nb_desc : Z;
  q_nb_desc : Z;
  q_intr_enabled : Z;
  q_sg : uk_sglist
}.
Inductive queue_id : Set := QUEUE_RX | QUEUE_TX | QUEUE_EVENT.
#[export] Instance queue_id_eq_dec : EqDecision queue_id.
Proof. solve_decision. Defined.
Record queues : Type := mk_queues {
  qs_rx : virtio_vsockdev_queue; qs_tx : virtio_vsockdev_queue; qs_ev : virtio_vsockdev_queue
}.
(** [struct uk_vsockdev_event_handler]: whether a callback is set, the value of
    the semaphore and whether there is a dispatcher thread. *)
Record uk_vsockdev_event_handler : Type := mk_handler {
  eh_callback : bool; eh_events : Z; eh_dispatcher : bool
}.
(** [d_vdev] is the virtio device, [d_allocs] counts the calls of the allocator,
    [d_freed] tells that the structure has been freed.  [d_tx_device] is the
    device's private side of the transmit queue, which the driver never reads:
    how far it has read the available ring, and the heads it has taken and not
    completed. *)
Record virtio_vsockdev : Type := mk_dev {
  d_cid : Z;
  d_vdev : virtio_mmio_device;
  d_queues : option queues;
  d_pkts : heap;
  d_events : gmap positive virtio_vsock_event;
  d_allocs : nat;
  d_rxq_handler : uk_vsockdev_event_handler;
  d_evq_handler : uk_vsockdev_event_handler;
  d_tx_device : Z * list Z;
  d_freed : bool
}.

Definition queue_of (id : queue_id) (qs : queues) : virtio_vsockdev_queue :=
  match id with QUEUE_RX => qs_rx qs | QUEUE_TX => qs_tx qs | QUEUE_EVENT => qs_ev qs end.
Definition set_queue_of (id : queue_id) (q : virtio_vsockdev_queue) (qs : queues) : queues :=
  match id with
  | QUEUE_RX => mk_queues q (qs_tx qs) (qs_ev qs)
  | QUEUE_TX => mk_queues (qs_rx qs) q (qs_ev qs)
  | QUEUE_EVENT => mk_queues (qs_rx qs) (qs_tx qs) q
  end.
Definition set_vq (q : virtio_vsockdev_queue) (vq : option virtqueue) : virtio_vsockdev_queue :=
  mk_queue vq (q_hwvq_id q) (q_max_nb_desc q) (q_nb_desc q) (q_intr_enabled q) (q_sg q).
Definition set_intr (q : virtio_vsockdev_queue) (x : Z) : virtio_vsockdev_queue :=
  mk_queue (q_vq q) (q_hwvq_id q) (q_max_nb_desc q) (q_nb_desc q) x (q_sg q).
Definition set_sg (q : virtio_vsockdev_queue) (sg : uk_sglist) : virtio_vsockdev_queue :=
  mk_queue (q_vq q) (q_hwvq_id q) (q_max_nb_desc q) (q_nb_desc q) (q_intr_enabled q) sg.
Definition set_nb_desc (q : virtio_vsockdev_queue) (n : Z) : virtio_vsockdev_queue :=
  mk_queue (q_vq q) (q_hwvq_id q) (q_max_nb_desc q) n (q_intr_enabled q) (q_sg q).

Definition set_cid (x : Z) (d : virtio_vsockdev) : virtio_vsockdev :=
  mk_dev x (d_vdev d) (d_queues d) (d_pkts d) (d_events d) (d_allocs d)
    (d_rxq_handler d) (d_evq_handler d) (d_tx_device d) (d_freed d).
Definition set_vdev (x : virtio_mmio_device) (d : virtio_vsockdev) : virtio_vsockdev :=
  mk_dev (d_cid d) x (d_queues d) (d_pkts d) (d_events d) (d_allocs d)
    (d_rxq_handler d) (d_evq_handler d) (d_tx_device d) (d_freed d).
Definition set_queues (x : option queues) (d : virtio_vsockdev) : virtio_vsockdev :=
  mk_dev (d_cid d) (d_vdev d) x (d_pkts d) (d_events d) (d_allocs d)
    (d_rxq_handler d) (d_evq_handler d) (d_tx_device d) (d_freed d).
Definition set_pkts (x : heap) (d : virtio_vsockdev) : virtio_vsockdev :=
  mk_dev (d_cid d) (d_vdev d) (d_queues d) x (d_events d) (d_allocs d)
    (d_rxq_handler d) (d_evq_handler d) (d_tx_device d) (d_freed d).
Definition set_evs (x : gmap positive virtio_vsock_event) (d : virtio_vsockdev) : virtio_vsockdev :=
  mk_dev (d_cid d) (d_vdev d) (d_queues d) (d_pkts d) x (d_allocs d)
    (d_rxq_handler d) (d_evq_handler d) (d_tx_device d) (d_freed d).
Definition set_allocs (x : nat) (d : virtio_vsockdev) : virtio_vsockdev :=
  mk_dev (d_cid d) (d_vdev d) (d_queues d) (d_pkts d) (d_events d) x
    (d_rxq_handler d) (d_evq_handler d) (d_tx_device d) (d_freed d).
Definition set_rxq_handler (x : uk_vsockdev_event_handler) (d : virtio_vsockdev) : virtio_vsockdev :=
  mk_dev (d_cid d) (d_vdev d) (d_queues d) (d_pkts d) (d_events d) (d_allocs d)
    x (d_evq_handler d) (d_tx_device d) (d_freed d).
Definition set_evq_handler (x : uk_vsockdev_event_handler) (d : virtio_vsockdev) : virtio_vsockdev :=
  mk_dev (d_cid d) (d_vdev d) (d_queues d) (d_pkts d) (d_events d) (d_allocs d)
    (d_rxq_handler d) x (d_tx_device d) (d_freed d).
Definition set_tx_device (x : Z * list Z) (d : virtio_vsockdev) : virtio_vsockdev :=
  mk_dev (d_cid d) (d_vdev d) (d_queues d) (d_pkts d) (d_events d) (d_allocs d)
    (d_rxq_handler d) (d_evq_handler d) x (d_freed d).
Definition set_freed (x : bool) (d : virtio_vsockdev) : virtio_vsockdev :=
  mk_dev (d_cid d) (d_vdev d) (d_queues d) (d_pkts d) (d_events d) (d_allocs d)
    (d_rxq_handler d) (d_evq_handler d) (d_tx_device d) x.

Definition virtio_world : Type := world virtio_vsock virtio_vsock_accept_entry virtio_vsockdev.
#[local] Abbreviation MW := (M virtio_world).

Definition get_dev {A} (f : virtio_vsockdev -> A) : MW A := gets (fun w => f (w_drv w)).
Definition put_dev (f : virtio_vsockdev -> virtio_vsockdev) : MW unit :=
  modify (fun w => set_drv (f (w_drv w)) w).

(** The driver's part of a socket and of an accept entry ([to_virtio_vsock]). *)
Definition get_vs (i : positive) : MW virtio_vsock := deref (fun w => snd <$> w_socks w !! i).
Definition put_vs (i : positive) (f : virtio_vsock -> virtio_vsock) : MW unit := fun w =>
  match w_socks w !! i with
  | Some (s, p) => Done (tt, set_socks (<[i := (s, f p)]> (w_socks w)) w)
  | None => Abort
  end.
Definition get_entry (e : positive) : MW (uk_vsockaddr * virtio_vsock_accept_entry) :=
  deref (fun w => w_entries w !! e).

(** The queues: NULL before they are allocated. *)
Definition get_queue (id : queue_id) : MW virtio_vsockdev_queue :=
  deref (fun w => queue_of id <$> d_queues (w_drv w)).
Definition put_queue (id : queue_id) (f : virtio_vsockdev_queue -> virtio_vsockdev_queue) : MW unit :=
  fun w =>
    match d_queues (w_drv w) with
    | Some qs =>
        Done (tt, set_drv (set_queues (Some (set_queue_of id (f (queue_of id qs)) qs)) (w_drv w)) w)
    | None => Abort
    end.
Definition get_vq (id : queue_id) : MW virtqueue := q ← get_queue id; deref (fun _ => q_vq q).
Definition put_vq (id : queue_id) (vq : virtqueue) : MW unit :=
  put_queue id (fun q => set_vq q (Some vq)).
(** A step of the virtqueue that can fail an assertion. *)
Definition vq_step {A} (id : queue_id) (f : virtqueue -> option (A * virtqueue)) : MW A :=
  vq ← get_vq id;
  r ← deref (fun _ => f vq);
  put_vq id (snd r);;
  mret (fst r).
Definition vq_update (id : queue_id) (f : virtqueue -> virtqueue) : MW unit :=
  vq_step id (fun vq => Some (tt, f vq)).

(** Netbufs. *)
Definition get_pkt (p : positive) : MW uk_netbuf := deref (fun w => d_pkts (w_drv w) !! p).
Definition put_pkt (p : positive) (nb : uk_netbuf) : MW unit :=
  put_dev (fun d => set_pkts (<[p := nb]> (d_pkts d)) d).
Definition free_pkt (p : positive) : MW unit :=
  h ← deref (fun w => uk_netbuf_free (fun _ _ _ => None) (d_pkts (w_drv w)) p);
  put_dev (set_pkts h).

Section driver.
Context (uk_malloc : nat -> Z -> option (Z * list Z)).
Context (virt_to_phys : Z -> Z) (vma_advise : Z -> Z -> Z).
Context (device : vring -> vring).
Context (uk_sched_yield : MW unit).

(** The next call of the allocator. *)
Definition malloc (size : Z) : MW (option (Z * list Z)) :=
  n ← get_dev d_allocs;
  put_dev (set_allocs (S n));;
  mret (uk_malloc n size).

(** [uk_netbuf_alloc_buf]: the identifier of the new netbuf, or NULL. *)
Definition alloc_pkt (buflen headroom : Z) : MW (option positive) :=
  block ← malloc (netbuf_alloc_len buflen 0);
  nb ← deref (fun _ => uk_netbuf_alloc_buf block buflen headroom 0 None);
  match nb with
  | None => mret None
  | Some nb =>
      h ← get_dev d_pkts;
      let p := fresh (dom h) in
      put_pkt p nb;;
      mret (Some p)
  end.

Definition virtio_vsock_peer_rx_free (vs : virtio_vsock) : Z :=
  u32 (vs_peer_buf_alloc vs - u32 (vs_tx_count vs - vs_peer_fwd_count vs)).

(** ** The receive queue *)

(** Resetting the scatter list of a queue and appending one buffer to it. *)
Definition sg_single (id : queue_id) (buf len : Z) : MW Z :=
  q ← get_queue id;
  r ← deref (fun _ => uk_sglist_append virt_to_phys vma_advise (uk_sglist_reset (q_sg q)) buf len);
  put_queue id (fun q => set_sg q (snd r));;
  mret (fst r).
(** Enqueueing the segments of the queue's scatter list. *)
Definition enqueue_sg (id : queue_id) (ck : positive) (to_device : bool) : MW Z :=
  q ← get_queue id;
  let n := sg_nseg (q_sg q) in
  vq_step id (fun vq =>
    virtqueue_buffer_enqueue vq ck (q_sg q) (if to_device then n else 0) (if to_device then 0 else n)).

Definition virtio_vsockdev_rxq_enqueue (pkt : positive) : MW Z :=
  vq ← get_vq QUEUE_RX;
  if virtqueue_is_full vq then mret (- ENOBUFS)
  else
    nb ← get_pkt pkt;
    rc ← sg_single QUEUE_RX (nb_data nb) (nb_len nb);
    if rc <? 0 then mret rc else enqueue_sg QUEUE_RX pkt false.

(** [n] buffers are still to be added, [i] have been. *)
Fixpoint rxq_fillup_loop (n : nat) (i : Z) : MW (Z * Z) :=
  match n with
  | O => mret (0, i)
  | S n =>
      pkt ← alloc_pkt PAGE_SIZE 0;
      match pkt with
      | None => mret (STATUS_UNDERRUN, i)
      | Some pkt =>
          nb ← get_pkt pkt;
          put_pkt pkt (set_nb_len nb (u16 (nb_buflen nb)));;
          rc ← virtio_vsockdev_rxq_enqueue pkt;
          if rc <? 0 then free_pkt pkt;; mret (0, i)
          else rxq_fillup_loop n (i + 1)
      end
  end.
Definition virtio_vsockdev_rxq_fillup (nb_desc : Z) (notify : bool) : MW Z :=
  r ← rxq_fillup_loop (Z.to_nat nb_desc) 0;
  let '(status, i) := r in
  (if notify && negb (i =? 0) then vq_update QUEUE_RX virtqueue_host_notify else mret tt);;
  mret status.

(** The return value and [*pkt]. *)
Definition virtio_vsockdev_rxq_dequeue : MW (Z * option positive) :=
  r ← vq_step QUEUE_RX (fun vq =>
        '(ret, out, vq) ← virtqueue_buffer_dequeue vq; Some ((ret, out), vq));
  let '(ret, out) := r in
  if ret <? 0 then q ← get_queue QUEUE_RX; mret (q_nb_desc q, None)
  else
    out ← deref (fun _ => out);
    let '(ck, len) := out in
    buf ← deref (fun _ => ck);
    nb ← get_pkt buf;
    if nb_len nb <? len then mret (- ENOSPC, None)
    else put_pkt buf (set_nb_len nb (u16 len));; mret (ret, Some buf).

Definition intr_enable (id : queue_id) : MW Z :=
  vq_step id (fun vq => Some (virtqueue_intr_enable device vq)).
Definition some_flag {A} (x : option A) (flag : Z) : Z := match x with Some _ => flag | None => 0 end.

(** The return value (status or error) and [*pkt]. *)
Definition virtio_vsockdev_recv : MW (Z * option positive) :=
  r ← virtio_vsockdev_rxq_dequeue;
  let '(rc, pkt) := r in
  if rc <? 0 then mret (rc, pkt)
  else
    q ← get_queue QUEUE_RX;
    fill ← virtio_vsockdev_rxq_fillup (u16 (q_nb_desc q - rc)) true;
    let status := Z.lor (some_flag pkt STATUS_SUCCESS) fill in
    q ← get_queue QUEUE_RX;
    if negb (flag_set (q_intr_enabled q) VTVSOCK_INTR_USR_EN)
    then mret (Z.lor status (some_flag pkt STATUS_MORE), pkt)
    else
      rc ← intr_enable QUEUE_RX;
      if (rc =? 0) || bool_decide (is_Some pkt)
      then mret (Z.lor status (if rc =? 1 then STATUS_MORE else 0), pkt)
      else
        r ← virtio_vsockdev_rxq_dequeue;
        let '(rc, pkt) := r in
        if rc <? 0 then mret (rc, pkt)
        else
          q ← get_queue QUEUE_RX;
          fill ← virtio_vsockdev_rxq_fillup (u16 (q_nb_desc q - rc)) true;
          let status := Z.lor (Z.lor status STATUS_SUCCESS) fill in
          rc ← intr_enable QUEUE_RX;
          mret (Z.lor status (if rc =? 1 then STATUS_MORE else 0), pkt).

(** The interrupt functions of the two queues that have interrupts; they are
    written twice in the source. *)
Definition queue_intr_enable (id : queue_id) : MW Z :=
  q ← get_queue id;
  if flag_set (q_intr_enabled q) VTVSOCK_INTR_EN then mret 0
  else
    put_queue id (fun q => set_intr q VTVSOCK_INTR_USR_EN);;
    rc ← intr_enable id;
    (if rc =? 0 then put_queue id (fun q => set_intr q (Z.lor (q_intr_enabled q) VTVSOCK_INTR_EN))
     else mret tt);;
    mret rc.
Definition queue_intr_disable (id : queue_id) : MW unit :=
  vq_update id virtqueue_intr_disable;;
  put_queue id (fun q =>
    set_intr q (Z.ldiff (q_intr_enabled q) (Z.lor VTVSOCK_INTR_USR_EN VTVSOCK_INTR_EN))).
Definition queue_event (id : queue_id) (notify : virtio_vsockdev -> virtio_vsockdev) : MW Z :=
  vq_update id virtqueue_intr_disable;;
  put_queue id (fun q => set_intr q (Z.ldiff (q_intr_enabled q) VTVSOCK_INTR_EN));;
  put_dev notify;;
  mret 1.

(** [uk_vsockdev_notify_rxq] and [uk_vsockdev_notify_evq]. *)
Definition handler_up (h : uk_vsockdev_event_handler) : uk_vsockdev_event_handler :=
  mk_handler (eh_callback h) (eh_events h + 1) (eh_dispatcher h).
Definition virtio_vsockdev_rx_intr_enable : MW Z := queue_intr_enable QUEUE_RX.
Definition virtio_vsockdev_rx_intr_disable : MW unit := queue_intr_disable QUEUE_RX.
Definition virtio_vsockdev_recv_event : MW Z :=
  queue_event QUEUE_RX (fun d => set_rxq_handler (handler_up (d_rxq_handler d)) d).

(** ** The event queue *)

(** [addr] is the address of the event buffer. *)
Definition virtio_vsockdev_evq_enqueue (ev : positive) (addr : Z) : MW Z :=
  vq ← get_vq QUEUE_EVENT;
  if virtqueue_is_full vq then mret (- ENOSPC)
  else
    rc ← sg_single QUEUE_EVENT addr sizeof_event;
    if negb (rc =? 0) then mret rc else enqueue_sg QUEUE_EVENT ev false.

Definition free_event (ev : positive) : MW unit :=
  put_dev (fun d => set_evs (delete ev (d_events d)) d).

Fixpoint evq_fillup_loop (n : nat) (i : Z) : MW (Z * Z) :=
  match n with
  | O => mret (0, i)
  | S n =>
      block ← malloc sizeof_event;
      match block with
      | None => mret (STATUS_UNDERRUN, i)
      | Some (addr, _) =>
          evs ← get_dev d_events;
          let ev := fresh (dom evs) in
          put_dev (set_evs (<[ev := mk_event 0]> evs));;
          rc ← virtio_vsockdev_evq_enqueue ev addr;
          if rc <? 0 then free_event ev;; mret (0, i)
          else evq_fillup_loop n (i + 1)
      end
  end.
Definition virtio_vsockdev_evq_fillup (nb_desc : Z) (notify : bool) : MW Z :=
  r ← evq_fillup_loop (Z.to_nat nb_desc) 0;
  let '(status, i) := r in
  (if notify && negb (i =? 0) then vq_update QUEUE_EVENT virtqueue_host_notify else mret tt);;
  mret status.

Definition virtio_vsockdev_evq_dequeue : MW (Z * option positive) :=
  r ← vq_step QUEUE_EVENT (fun vq =>
        '(ret, out, vq) ← virtqueue_buffer_dequeue vq; Some ((ret, out), vq));
  let '(ret, out) := r in
  if ret <? 0 then q ← get_queue QUEUE_EVENT; mret (q_nb_desc q, None)
  else
    out ← deref (fun _ => out);
    let '(ck, len) := out in
    if negb (len =? sizeof_event) then mret (- ENOSPC, None)
    else mret (ret, ck).

Definition virtio_vsockdev_evq_recv : MW (Z * option positive) :=
  r ← virtio_vsockdev_evq_dequeue;
  let '(rc, event) := r in
  if rc <? 0 then mret (rc, event)
  else
    q ← get_queue QUEUE_EVENT;
    fill ← virtio_vsockdev_evq_fillup (u16 (q_nb_desc q - rc)) true;
    let status := Z.lor (some_flag event STATUS_SUCCESS) fill in
    q ← get_queue QUEUE_EVENT;
    if negb (flag_set (q_intr_enabled q) VTVSOCK_INTR_USR_EN)
    then mret (Z.lor status (some_flag event STATUS_MORE), event)
    else
      rc ← intr_enable QUEUE_EVENT;
      if (rc =? 0) || bool_decide (is_Some event)
      then mret (Z.lor status (if rc =? 1 then STATUS_MORE else 0), event)
      else
        r ← virtio_vsockdev_evq_dequeue;
        let '(rc, event) := r in
        if rc <? 0 then mret (rc, event)
        else
          q ← get_queue QUEUE_EVENT;
          fill ← virtio_vsockdev_evq_fillup (u16 (q_nb_desc q - rc)) true;
          let status := Z.lor (Z.lor status STATUS_SUCCESS) fill in
          rc ← intr_enable QUEUE_EVENT;
          mret (Z.lor status (if rc =? 1 then STATUS_MORE else 0), event).

Definition virtio_vsockdev_evq_event : MW Z :=
  queue_event QUEUE_EVENT (fun d => set_evq_handler (handler_up (d_evq_handler d)) d).
Definition virtio_vsockdev_evq_intr_enable : MW Z := queue_intr_enable QUEUE_EVENT.
Definition virtio_vsockdev_evq_intr_disable : MW unit := queue_intr_disable QUEUE_EVENT.

(** ** Transmitting *)

(** [n] bounds the buffers that can be reclaimed. *)
Fixpoint xmit_free_loop (n : nat) : MW unit :=
  r ← vq_step QUEUE_TX (fun vq =>
        '(rc, out, vq) ← virtqueue_buffer_dequeue vq; Some ((rc, out), vq));
  let '(rc, out) := r in
  if rc <? 0 then UK_ASSERT (rc =? - ENOMSG)
  else
    match n with
    | O => out_of_fuel
    | S n =>
        pkt ← deref (fun _ => '(ck, _) ← out; ck);
        free_pkt pkt;;
        xmit_free_loop n
    end.
Definition virtio_vsockdev_xmit_free : MW unit :=
  vq ← get_vq QUEUE_TX; xmit_free_loop (Z.to_nat (num (vr vq))).

Definition virtio_vsockdev_xmit (pkt : positive) : MW Z :=
  virtio_vsockdev_xmit_free;;
  nb ← get_pkt pkt;
  rc ← sg_single QUEUE_TX (nb_data nb) (nb_len nb);
  if negb (rc =? 0) then mret rc
  else
    rc ← enqueue_sg QUEUE_TX pkt true;
    if 0 <=? rc then vq_update QUEUE_TX virtqueue_host_notify;; mret 0
    else if rc =? - ENOSPC then mret (- EAGAIN)
    else mret rc.

(** [n] bounds the number of retries. *)
Fixpoint xmit_retry_loop (pkt : positive) (n : nat) : MW Z :=
  rc ← virtio_vsockdev_xmit pkt;
  if rc =? - EAGAIN then
    match n with
    | O => out_of_fuel
    | S n => uk_sched_yield;; xmit_retry_loop pkt n
    end
  else mret rc.
Definition virtio_vsockdev_xmit_retry (pkt : positive) : MW Z :=
  vq ← get_vq QUEUE_TX; xmit_retry_loop pkt (Z.to_nat (num (vr vq))).

(** A packet without payload: allocate, fill in the header, transmit, and free
    it again if it could not be sent.  Every sender of the source is written
    out like this. *)
Definition send_hdr (hdr : virtio_vsock_hdr) : MW Z :=
  pkt ← alloc_pkt sizeof_hdr 0;
  match pkt with
  | None => mret (- ENOMEM)
  | Some pkt =>
      nb ← get_pkt pkt;
      nb ← deref (fun _ => nb_write (set_nb_len nb sizeof_hdr) (encode_hdr hdr));
      put_pkt pkt nb;;
      rc ← virtio_vsockdev_xmit_retry pkt;
      if negb (rc =? 0) then free_pkt pkt;; mret rc else mret 0
  end.

(** The header of a socket's packet, from the given source CID. *)
Definition sock_hdr (src_cid : Z) (s : uk_vsock) (vs : virtio_vsock) (op flags len : Z)
    : virtio_vsock_hdr :=
  mk_hdr src_cid (a_cid (v_peer s)) (a_port (v_local s)) (a_port (v_peer s)) len (vs_type vs) op
    flags (uk_vsock_buffer_capacity (v_rx s)) (uk_vsock_total_processed (v_rx s)).

Definition virtio_vsock_work_credit_request (i : positive) : MW Z :=
  s ← get_sock i;
  vs ← get_vs i;
  cid ← get_dev d_cid;
  send_hdr (sock_hdr cid s vs VIRTIO_VSOCK_OP_CREDIT_UPDATE 0 0).
Definition virtio_vsock_send_credit_update (i : positive) : MW Z :=
  virtio_vsock_work_credit_request i.

Definition virtio_vsockdev_reject_conn (i e : positive) : MW unit :=
  s ← get_sock i;
  vs ← get_vs i;
  a ← get_entry e;
  _ ← send_hdr (mk_hdr (a_cid (v_local s)) (a_cid (fst a)) (a_port (v_local s)) (a_port (fst a)) 0
                 (vs_type vs) VIRTIO_VSOCK_OP_RST 0 0 0);
  mret tt.

(** ** The operations of the core's driver interface *)

Definition type_of (sock_type : Z) : option Z :=
  if sock_type =? SOCK_STREAM then Some VIRTIO_VSOCK_TYPE_STREAM
  else if sock_type =? SOCK_SEQPACKET then Some VIRTIO_VSOCK_TYPE_SEQPACKET
  else None.

(** Allocating a socket with its receive buffer: the error of [uk_vsock_init]. *)
Definition alloc_sock (sock_type : Z) : MW (Z * option uk_vsock) :=
  mem ← malloc RX_BUFSIZE; mret (uk_vsock_init (snd <$> mem) sock_type).

Definition virtio_vsock_create (sock_type protocol : Z) : MW (Z * option positive) :=
  if negb (protocol =? 0) then mret (- EPROTONOSUPPORT, None)
  else
    match type_of sock_type with
    | None => mret (- ESOCKTNOSUPPORT, None)
    | Some type =>
        vv ← malloc sizeof_virtio_vsock;
        match vv with
        | None => mret (- ENOMEM, None)
        | Some _ =>
            r ← alloc_sock sock_type;
            match r with
            | (rc, None) => mret (rc, None)
            | (_, Some s) => i ← new_sock s (mk_vs type 0 0 0); mret (0, Some i)
            end
        end
    end.

Definition virtio_vsock_conn_respond (i : positive) : MW Z :=
  s ← get_sock i;
  vs ← get_vs i;
  cid ← get_dev d_cid;
  send_hdr (sock_hdr cid s vs VIRTIO_VSOCK_OP_RESPONSE 0 0).

Definition virtio_vsock_accept (i e : positive) : MW (Z * option positive) :=
  s ← get_sock i;
  vsl ← get_vs i;
  a ← get_entry e;
  vs ← malloc sizeof_virtio_vsock;
  match vs with
  | None => virtio_vsockdev_reject_conn i e;; mret (- ENOMEM, None)
  | Some _ =>
      r ← alloc_sock (v_sock_type s);
      match r with
      | (rc, None) => virtio_vsockdev_reject_conn i e;; mret (rc, None)
      | (_, Some so) =>
          cid ← get_dev d_cid;
          let '(peer, ventry) := a in
          o ← new_sock (set_local (set_peer so peer) (mk_addr cid (a_port (v_local s))))
                (mk_vs (vs_type vsl) (ve_peer_buf_alloc ventry) (ve_peer_fwd_count ventry) 0);
          rc ← virtio_vsock_conn_respond o;
          if negb (rc =? 0) then
            so ← get_sock o;
            _ ← deref (fun _ => uk_vsock_buffer_destroy (v_rx so));
            free_sock o;; mret (rc, None)
          else mret (0, Some o)
      end
  end.

Definition virtio_vsock_free_accept_entry (i e : positive) : MW unit :=
  _ ← get_entry e; free_entry e.

Definition virtio_vsock_send (i : positive) (buf : list Z) : MW Z :=
  if zlen buf =? 0 then mret 0
  else
    s ← get_sock i;
    vs ← get_vs i;
    let pkt_len := Z.min (virtio_vsock_peer_rx_free vs) (zlen buf) in
    if pkt_len =? 0 then mret (- EAGAIN)
    else
      pkt ← alloc_pkt (pkt_len + sizeof_hdr) sizeof_hdr;
      match pkt with
      | None => mret (- ENOMEM)
      | Some pkt =>
          nb ← get_pkt pkt;
          nb ← deref (fun _ => nb_write nb (slice 0 pkt_len buf));
          r ← deref (fun _ => uk_netbuf_header (set_nb_len nb (u16 pkt_len)) sizeof_hdr);
          let '(rc, nb) := r in
          UK_ASSERT (rc =? 1);;
          nb ← deref (fun _ => nb_write nb (encode_hdr
                 (sock_hdr (a_cid (v_local s)) s vs VIRTIO_VSOCK_OP_RW 0 pkt_len)));
          put_pkt pkt nb;;
          rc ← virtio_vsockdev_xmit pkt;
          if negb (rc =? 0) then free_pkt pkt;; mret rc
          else
            put_vs i (fun vs => mk_vs (vs_type vs) (vs_peer_buf_alloc vs) (vs_peer_fwd_count vs)
                                  (u32 (vs_tx_count vs + pkt_len)));;
            mret pkt_len
      end.

Definition virtio_vsock_connect (i : positive) : MW Z :=
  s ← get_sock i;
  vs ← get_vs i;
  rc ← send_hdr (sock_hdr (a_cid (v_local s)) s vs VIRTIO_VSOCK_OP_REQUEST 0 0);
  if negb (rc =? 0) then mret rc else mret (- EINPROGRESS).

Definition virtio_vsockdev_get_cid : MW Z := get_dev d_cid.

Definition virtio_vsock_shutdown (i : positive) (rx tx : bool) : MW Z :=
  s ← get_sock i;
  vs ← get_vs i;
  send_hdr (sock_hdr (a_cid (v_local s)) s vs VIRTIO_VSOCK_OP_SHUTDOWN
    (Z.lor (if tx then VIRTIO_VSOCK_SHUTDOWN_F_SEND else 0)
           (if rx then VIRTIO_VSOCK_SHUTDOWN_F_RECEIVE else 0)) 0).

Definition virtio_vsock_reset (i : positive) : MW Z :=
  s ← get_sock i;
  vs ← get_vs i;
  send_hdr (sock_hdr (a_cid (v_local s)) s vs VIRTIO_VSOCK_OP_RST 0 0).

Definition virtio_vsock_destroy (i : positive) : MW Z :=
  _ ← get_vs i; free_sock i;; mret 0.

Definition virtio_vsockdev_ops
    : uk_vsockdev_ops virtio_vsock virtio_vsock_accept_entry virtio_vsockdev :=
  mk_ops virtio_vsockdev_get_cid virtio_vsock_create virtio_vsock_accept
    virtio_vsock_free_accept_entry virtio_vsock_send virtio_vsock_connect virtio_vsock_shutdown
    virtio_vsock_reset virtio_vsock_destroy (Some virtio_vsock_send_credit_update).
End driver.
