(* ===== verification/VirtioLogic.v ===== *)
(** * Reasoning about the virtio vsock driver

    [dwp] is total correctness of a computation that changes the device
    structure only.  The invariant [dev_ok] says which packets are in flight
    in which queue and which the running function owns; every packet that
    exists is one of them, so a leak would show. *)

From stdpp Require Import prelude gmap.
From S2P Require Import Prelude Tree VsockBuffer Netbuf NetbufHeap Sglist Vring VringUse Vsock.
From S2P Require Import VirtioVsock.

#[local] Abbreviation MW := (M virtio_world).

(** ** Computations on the device structure *)

Definition dwp {A} (m : MW A) (Φ : A -> virtio_vsockdev -> Prop) (d : virtio_vsockdev) : Prop :=
  forall w, w_drv w = d -> wp m (fun a w' => exists d', w' = set_drv d' w /\ Φ a d') w.

Lemma set_drv_same (w : virtio_world) : set_drv (w_drv w) w = w.
Proof. by destruct w. Qed.

Lemma dwp_ret {A} (a : A) Φ d : Φ a d -> dwp (mret a) Φ d.
Proof. intros H w <-. exists (w_drv w). by rewrite set_drv_same. Qed.

Lemma dwp_mono {A} (m : MW A) (Φ Ψ : A -> _ -> Prop) d :
  dwp m Φ d -> (forall a d', Φ a d' -> Ψ a d') -> dwp m Ψ d.
Proof. intros Hm H w Hw. eapply wp_mono; [|by apply Hm]. cbn. naive_solver. Qed.

Lemma dwp_bind {A B} (m : MW A) (f : A -> MW B) Φ d :
  dwp m (fun a d' => dwp (f a) Φ d') d -> dwp (m ≫= f) Φ d.
Proof.
  intros Hm w Hw. apply wp_bind. eapply wp_mono; [|by apply Hm].
  intros a w' (d' & -> & Hf). eapply wp_mono; [|by apply Hf].
  intros b w' (d'' & -> & H). by exists d''.
Qed.

Lemma dwp_gets {A} (f : virtio_vsockdev -> A) Φ d : Φ (f d) d -> dwp (get_dev f) Φ d.
Proof. intros H w <-. exists (w_drv w). by rewrite set_drv_same. Qed.

Lemma dwp_put_dev f Φ d : Φ tt (f d) -> dwp (put_dev f) Φ d.
Proof. intros H w <-. by eexists. Qed.

Lemma dwp_deref {A} (f : virtio_world -> option A) Φ d a :
  (forall w, w_drv w = d -> f w = Some a) -> Φ a d -> dwp (deref f) Φ d.
Proof.
  intros Hf HΦ w Hw. unfold wp, deref. rewrite (Hf w Hw). exists d. split; [|done].
  by rewrite <- Hw, set_drv_same.
Qed.

Lemma dwp_some {A} (x : A) Φ d : Φ x d -> dwp (deref (fun _ => Some x)) Φ d.
Proof. by apply dwp_deref. Qed.

Lemma dwp_assert b Φ d : b = true -> Φ tt d -> dwp (UK_ASSERT b) Φ d.
Proof. intros -> H. by apply dwp_ret. Qed.

(** ** Queues *)

(** The queue [id] is set up, with the virtqueue [vq]. *)
Definition queue_at (d : virtio_vsockdev) (id : queue_id) (q : virtio_vsockdev_queue)
    (vq : virtqueue) : Prop :=
  exists qs, d_queues d = Some qs /\ queue_of id qs = q /\ q_vq q = Some vq.

(** The device structure with another queue [id]. *)
Definition with_queue (d : virtio_vsockdev) (id : queue_id) (q : virtio_vsockdev_queue)
    : virtio_vsockdev :=
  set_queues (set_queue_of id q <$> d_queues d) d.

Lemma queue_of_set id id' q qs :
  queue_of id' (set_queue_of id q qs) =
    match id, id' with
    | QUEUE_RX, QUEUE_RX | QUEUE_TX, QUEUE_TX | QUEUE_EVENT, QUEUE_EVENT => q
    | _, _ => queue_of id' qs
    end.
Proof. by destruct id, id'. Qed.

Lemma queue_at_inj d id q vq q' vq' :
  queue_at d id q vq -> queue_at d id q' vq' -> q' = q /\ vq' = vq.
Proof. intros (? & ? & ? & ?) (? & ? & ? & ?). by simplify_eq. Qed.
Lemma queue_at_with d id q vq q' vq' :
  queue_at d id q vq -> q_vq q' = Some vq' -> queue_at (with_queue d id q') id q' vq'.
Proof.
  intros (qs & Hqs & _ & _) Hvq. exists (set_queue_of id q' qs). unfold with_queue. cbn.
  rewrite Hqs. split_and!; [done| |done]. rewrite queue_of_set. by destruct id.
Qed.
Lemma queue_at_other d id id' q vq q' :
  id <> id' -> queue_at d id' q vq -> queue_at (with_queue d id q') id' q vq.
Proof.
  intros Hne (qs & Hqs & Hq & Hvq). exists (set_queue_of id q' qs). unfold with_queue. cbn.
  rewrite Hqs. split_and!; [done| |done]. rewrite queue_of_set. by destruct id, id'.
Qed.
Lemma with_queue_id d id q vq : queue_at d id q vq -> with_queue d id q = d.
Proof.
  intros (qs & Hqs & Hq & _). unfold with_queue. rewrite Hqs. cbn. destruct d, qs. cbn in *.
  subst. by destruct id.
Qed.
Lemma with_queue_same d id q vq : queue_at d id q vq -> with_queue d id (set_vq q (Some vq)) = d.
Proof.
  intros Hat. replace (set_vq q (Some vq)) with q; [by eapply with_queue_id|].
  destruct Hat as (_ & _ & _ & Hvq), q. cbn in *. by subst.
Qed.
Lemma with_queue_with d id q q' : with_queue (with_queue d id q) id q' = with_queue d id q'.
Proof. unfold with_queue. destruct d as [? ? [[]|]]; [|done]. by destruct id. Qed.

Lemma dwp_get_queue id q vq Φ d : queue_at d id q vq -> Φ q d -> dwp (get_queue id) Φ d.
Proof.
  intros (qs & Hqs & Hq & _) HΦ. eapply dwp_deref; [|done]. intros w <-. rewrite Hqs. cbn. by rewrite Hq.
Qed.

Lemma dwp_put_queue id q vq f Φ d :
  queue_at d id q vq -> Φ tt (with_queue d id (f q)) -> dwp (put_queue id f) Φ d.
Proof.
  intros (qs & Hqs & Hq & _) HΦ w <-. unfold wp, put_queue. rewrite Hqs. eexists. split; [done|].
  unfold with_queue in HΦ. rewrite Hqs in HΦ. cbn in HΦ. by rewrite Hq.
Qed.

Lemma dwp_get_vq id q vq Φ d : queue_at d id q vq -> Φ vq d -> dwp (get_vq id) Φ d.
Proof.
  intros Hq HΦ. apply dwp_bind. eapply dwp_get_queue; [done|]. destruct Hq as (qs & _ & _ & Hvq).
  eapply dwp_deref; [by intros|done].
Qed.

Lemma dwp_vq_step {A} id q vq (f : virtqueue -> option (A * virtqueue)) a vq' Φ d :
  queue_at d id q vq -> f vq = Some (a, vq') -> Φ a (with_queue d id (set_vq q (Some vq'))) ->
  dwp (vq_step id f) Φ d.
Proof.
  intros Hq Hf HΦ. unfold vq_step. apply dwp_bind. eapply dwp_get_vq; [done|].
  apply dwp_bind. eapply dwp_deref; [by intros|]. apply dwp_bind.
  eapply dwp_put_queue; [done|]. by apply dwp_ret.
Qed.

Lemma dwp_get_pkt p nb Φ d : d_pkts d !! p = Some nb -> Φ nb d -> dwp (get_pkt p) Φ d.
Proof. intros Hp. apply dwp_deref. by intros w <-. Qed.

(** ** The invariant *)

(** A packet: one netbuf, not in a chain, with one reference. *)
Record pkt_ok (nb : uk_netbuf) : Prop := {
  pk_alone : nb_next nb = None /\ nb_prev nb = None;
  pk_plain : nb_flags nb = 0 /\ nb_refcount nb = 1 /\ nb_dtor nb = None /\ nb_owned nb = true;
  pk_buf : 0 < nb_buf nb /\ zlen (nb_mem nb) = nb_buflen nb;
  pk_range : nb_buf nb <= nb_data nb /\ nb_data nb + nb_len nb <= nb_buf nb + nb_buflen nb;
  pk_end : nb_buf nb + nb_buflen nb < 2 ^ 64 /\ nb_buflen nb < 2 ^ 17;
  pk_len : 0 <= nb_len nb < 2 ^ 16
}.

Definition sg_ok (sg : uk_sglist) : Prop := sg_wf sg /\ sg_maxseg sg = VSOCK_MAX_FRAGMENTS.

(** The buffers in flight in each queue. *)
Record flights : Type := mk_fl { fl_rx : list positive; fl_tx : list positive; fl_ev : list positive }.
Definition fl_of (id : queue_id) (fl : flights) : list positive :=
  match id with QUEUE_RX => fl_rx fl | QUEUE_TX => fl_tx fl | QUEUE_EVENT => fl_ev fl end.
Definition fl_set (id : queue_id) (l : list positive) (fl : flights) : flights :=
  match id with
  | QUEUE_RX => mk_fl l (fl_tx fl) (fl_ev fl)
  | QUEUE_TX => mk_fl (fl_rx fl) l (fl_ev fl)
  | QUEUE_EVENT => mk_fl (fl_rx fl) (fl_tx fl) l
  end.

(** The device never reports a packet shorter than a header. *)
Definition headed (id : queue_id) (vq : virtqueue) : Prop := id = QUEUE_RX -> lens_ok sizeof_hdr vq.

(** A queue and its device, with the buffers [l] in flight. *)
Definition queue_ok (d : virtio_vsockdev) (id : queue_id) (l : list positive) : Prop :=
  exists q vq la ow, queue_at d id q vq /\ sg_ok (q_sg q) /\ flight vq la ow l /\
    (id = QUEUE_TX -> d_tx_device d = (la, ow)) /\ headed id vq.

(** The packets are those in flight and those of [own], which the running
    function holds; the event buffers are those in flight and those of [evs]. *)
Record dev_ok (cid : Z) (own evs : list positive) (fl : flights) (d : virtio_vsockdev) : Prop := {
  do_cid : d_cid d = cid;
  do_queue id : queue_ok d id (fl_of id fl);
  do_pkts : elements (dom (d_pkts d)) ≡ₚ own ++ fl_tx fl ++ fl_rx fl;
  do_pkt p nb : d_pkts d !! p = Some nb -> pkt_ok nb;
  do_evs : elements (dom (d_events d)) ≡ₚ evs ++ fl_ev fl
}.

Lemma queue_ok_same d d' id l :
  d_queues d' = d_queues d -> d_tx_device d' = d_tx_device d -> queue_ok d id l -> queue_ok d' id l.
Proof.
  intros Hq Ht (q & vq & la & ow & Hat & H). exists q, vq, la, ow. rewrite Ht. split; [|done].
  unfold queue_at in *. by rewrite Hq.
Qed.

(** Replacing a queue by one with other buffers in flight. *)
Lemma queue_ok_with d id q vq q' vq' la ow l :
  queue_at d id q vq -> q_vq q' = Some vq' -> sg_ok (q_sg q') -> flight vq' la ow l ->
  (id = QUEUE_TX -> d_tx_device d = (la, ow)) -> headed id vq' -> queue_ok (with_queue d id q') id l.
Proof.
  intros Hat Hvq Hsg Hf Ht Hh. exists q', vq', la, ow. split_and!; try done. by eapply queue_at_with.
Qed.
Lemma queue_ok_other d id id' q l : id <> id' -> queue_ok d id' l -> queue_ok (with_queue d id q) id' l.
Proof.
  intros Hne (q' & vq & la & ow & Hat & H). exists q', vq, la, ow. split; [|done].
  by apply queue_at_other.
Qed.
Lemma fl_of_set id id' l fl :
  fl_of id' (fl_set id l fl) = if decide (id' = id) then l else fl_of id' fl.
Proof. by destruct id, id'. Qed.
Lemma fl_set_of id fl : fl_set id (fl_of id fl) fl = fl.
Proof. by destruct id, fl. Qed.

Lemma dev_ok_queue cid own evs own' evs' fl d id q vq q' vq' la ow l :
  dev_ok cid own evs fl d -> queue_at d id q vq -> q_vq q' = Some vq' -> sg_ok (q_sg q') ->
  flight vq' la ow l -> (id = QUEUE_TX -> d_tx_device d = (la, ow)) -> headed id vq' ->
  let fl' := fl_set id l fl in
  own ++ fl_tx fl ++ fl_rx fl ≡ₚ own' ++ fl_tx fl' ++ fl_rx fl' ->
  evs ++ fl_ev fl ≡ₚ evs' ++ fl_ev fl' -> dev_ok cid own' evs' fl' (with_queue d id q').
Proof.
  intros [Hc Hq Hp Hk He] Hat Hvq Hsg Hf Ht Hh fl' P1 P2. split; [done| |cbn; by rewrite Hp|done|cbn; by rewrite He].
  intros id'. unfold fl'. rewrite fl_of_set. case_decide as Hid.
  - subst id'. by eapply queue_ok_with.
  - apply queue_ok_other; [congruence|apply Hq].
Qed.

(** Replacing a queue by one with the same buffers in flight. *)
Lemma dev_ok_requeue cid own evs fl d id q vq q' vq' :
  dev_ok cid own evs fl d -> queue_at d id q vq -> q_vq q' = Some vq' ->
  (sg_ok (q_sg q) -> sg_ok (q_sg q')) -> (forall la ow l, flight vq la ow l -> flight vq' la ow l) ->
  (headed id vq -> headed id vq') -> dev_ok cid own evs fl (with_queue d id q').
Proof.
  intros Hd Hat Hvq Hsg Hf Hh. destruct (do_queue _ _ _ _ _ Hd id) as (q0 & vq0 & la & ow & Hat0 & Hsg0 & Hf0 & Ht & Hh0).
  destruct (queue_at_inj _ _ _ _ _ _ Hat Hat0) as [-> ->]. rewrite <- (fl_set_of id fl).
  eapply dev_ok_queue; eauto; by rewrite fl_set_of.
Qed.

(** The order in which buffers are listed does not matter. *)
Lemma dev_ok_perm cid own own' evs fl d : own ≡ₚ own' -> dev_ok cid own evs fl d -> dev_ok cid own' evs fl d.
Proof. intros Hp [? ? Hk ? ?]. split; try done. by rewrite <- Hp. Qed.

Lemma dev_ok_owned cid own evs fl d p :
  dev_ok cid own evs fl d -> p ∈ own -> exists nb, d_pkts d !! p = Some nb /\ pkt_ok nb.
Proof.
  intros Hd Hp. assert (p ∈ dom (d_pkts d)) as [nb Hnb]%elem_of_dom.
  { rewrite <- elem_of_elements, (do_pkts _ _ _ _ _ Hd). set_solver. }
  exists nb. split; [done|]. by eapply do_pkt.
Qed.

Lemma dev_ok_disjoint cid own evs fl d p :
  dev_ok cid own evs fl d -> p ∈ own -> (p ∉ fl_tx fl) /\ (p ∉ fl_rx fl).
Proof.
  intros Hd Hp. pose proof (NoDup_elements (dom (d_pkts d))) as Hn.
  rewrite (do_pkts _ _ _ _ _ Hd) in Hn. apply NoDup_app in Hn as (_ & Hn & _).
  specialize (Hn p Hp). set_solver.
Qed.

Lemma dev_ok_fresh cid own evs fl d p : dev_ok cid (p :: own) evs fl d -> p ∉ own.
Proof.
  intros Hd. pose proof (NoDup_elements (dom (d_pkts d))) as Hn. rewrite (do_pkts _ _ _ _ _ Hd) in Hn.
  apply NoDup_cons in Hn as [Hn _]. set_solver.
Qed.

(** Storing into an owned packet. *)
Lemma dev_ok_put cid own evs fl d p nb :
  dev_ok cid own evs fl d -> p ∈ own -> pkt_ok nb ->
  dev_ok cid own evs fl (set_pkts (<[p := nb]> (d_pkts d)) d).
Proof.
  intros Hd Hp Hnb. destruct (dev_ok_owned _ _ _ _ _ _ Hd Hp) as (nb0 & Hl & _).
  destruct Hd as [Hc Hq Hk Hkk He]. split; cbn; [done| | | |done].
  - intros id. by eapply queue_ok_same, Hq.
  - rewrite dom_insert_lookup_L by (by eexists). done.
  - intros p' nb'. destruct (decide (p' = p)) as [->|Hne].
    + rewrite lookup_insert_eq. by intros [= <-].
    + rewrite lookup_insert_ne by done. apply Hkk.
Qed.

(** A new packet. *)
Lemma dev_ok_new cid own evs fl d p nb :
  dev_ok cid own evs fl d -> d_pkts d !! p = None -> pkt_ok nb ->
  dev_ok cid (p :: own) evs fl (set_pkts (<[p := nb]> (d_pkts d)) d).
Proof.
  intros [Hc Hq Hk Hkk He] Hp Hnb. split; cbn; [done| | | |done].
  - intros id. by eapply queue_ok_same, Hq.
  - rewrite dom_insert_L, elements_union_singleton; [by rewrite Hk|]. by apply not_elem_of_dom.
  - intros p' nb'. destruct (decide (p' = p)) as [->|Hne].
    + rewrite lookup_insert_eq. by intros [= <-].
    + rewrite lookup_insert_ne by done. apply Hkk.
Qed.

(** An owned packet is freed. *)
Lemma dev_ok_delete cid own evs fl d p :
  dev_ok cid (p :: own) evs fl d -> dev_ok cid own evs fl (set_pkts (delete p (d_pkts d)) d).
Proof.
  intros Hd. destruct (dev_ok_owned _ _ _ _ _ p Hd) as (nb & Hl & _); [left|].
  destruct Hd as [Hc Hq Hk Hkk He]. split; cbn; [done| | | |done].
  - intros id. by eapply queue_ok_same, Hq.
  - apply (Permutation_cons_inv (a := p)). cbn in Hk. rewrite <- Hk, dom_delete_L.
    rewrite <- elements_union_singleton by set_solver. f_equiv.
    assert (p ∈ dom (d_pkts d)) by (apply elem_of_dom; by eexists).
    rewrite <- (union_difference_singleton_L p (dom (d_pkts d))); done.
  - intros p' nb' Hl'. apply lookup_delete_Some in Hl' as [_ Hl']. by eapply Hkk.
Qed.

(** The same for event buffers. *)
Lemma dev_ok_ev_new cid own evs fl d e x :
  dev_ok cid own evs fl d -> d_events d !! e = None ->
  dev_ok cid own (e :: evs) fl (set_evs (<[e := x]> (d_events d)) d).
Proof.
  intros [Hc Hq Hk Hkk He] Hn. split; cbn; [done| |done|done|].
  - intros id. by eapply queue_ok_same, Hq.
  - rewrite dom_insert_L, elements_union_singleton; [by rewrite He|]. by apply not_elem_of_dom.
Qed.

Lemma dev_ok_ev_delete cid own evs fl d e :
  dev_ok cid own (e :: evs) fl d -> dev_ok cid own evs fl (set_evs (delete e (d_events d)) d).
Proof.
  intros [Hc Hq Hk Hkk He]. split; cbn; [done| |done|done|].
  - intros id. by eapply queue_ok_same, Hq.
  - assert (e ∈ dom (d_events d)) by (rewrite <- elem_of_elements, He; left).
    apply (Permutation_cons_inv (a := e)). cbn in He. rewrite <- He, dom_delete_L.
    rewrite <- elements_union_singleton by set_solver. f_equiv.
    rewrite <- (union_difference_singleton_L e (dom (d_events d))); done.
Qed.

Lemma free_pkt_heap h p nb :
  h !! p = Some nb -> pkt_ok nb -> uk_netbuf_free (fun _ _ _ => None) h p = Some (delete p h).
Proof.
  intros Hp [[Hnx Hpv] (_ & Hr & Hdt & Ho) _ _ _ _].
  assert (Hs : exists n, size h = S n).
  { destruct (size h) eqn:E; [|eauto]. apply map_size_empty_inv in E. subst. by rewrite lookup_empty in Hp. }
  destruct Hs as [n Hs]. unfold uk_netbuf_free. rewrite Hp. cbn. rewrite Hpv, Hs. cbn. rewrite Hp. cbn.
  unfold uk_netbuf_free_single. rewrite Hp. cbn. rewrite Hr. cbn. unfold update. rewrite Hp. cbn.
  unfold uk_netbuf_disconnect. rewrite lookup_insert_eq. cbn. rewrite Hnx, Hpv. cbn.
  unfold update. rewrite ?lookup_insert_eq. cbn. rewrite ?lookup_insert_eq. cbn. rewrite Hdt. cbn. rewrite Ho. cbn.
  rewrite Hnx, Hpv. cbn. rewrite lookup_insert_eq. cbn. rewrite !delete_insert_eq. by destruct n.
Qed.
