(* ===== verification/VirtioTx.v ===== *)
(** * The transmit path of the virtio vsock driver

    Allocating, filling, queueing and reclaiming packets: every function
    returns, no assertion fails, and a packet is always either in flight,
    freed, or still held by its caller. *)

From stdpp Require Import prelude gmap.
From S2P Require Import Prelude Tree VsockBuffer Netbuf NetbufHeap Sglist Vring VringUse Vsock.
From S2P Require Import VirtioVsock VirtioLogic.

#[local] Abbreviation MW := (M virtio_world).

(** ** What the driver relies on *)

(** A block from the allocator is 8-aligned, does not wrap around the end of
    the address space, and has the requested size. *)
Class Allocator (uk_malloc : nat -> Z -> option (Z * list Z)) : Prop :=
  malloc_block n size addr bytes :
    uk_malloc n size = Some (addr, bytes) ->
    0 < addr /\ addr mod 8 = 0 /\ addr + size < 2 ^ 64 /\ zlen bytes = size.

(** The memory is mapped, so that advising about it succeeds. *)
Class Mapped (vma_advise : Z -> Z -> Z) : Prop := advise_ok a n : vma_advise a n = 0.

(** The queue has a completed buffer. *)
Definition ready (id : queue_id) (d : virtio_vsockdev) : Prop :=
  exists q vq, queue_at d id q vq /\ virtqueue_hasdata vq = true.
Abbreviation tx_ready := (ready QUEUE_TX).

(** The transmit queue is full: everything that the device has completed has been
    reclaimed, and still there are fewer descriptors than the buffer takes that
    the scatter list of the queue describes. *)
Definition tx_full (d : virtio_vsockdev) : bool :=
  match d_queues d with
  | Some qs =>
      match q_vq (qs_tx qs) with
      | Some vq => (desc_avail vq <? sg_nseg (q_sg (qs_tx qs))) && negb (virtqueue_hasdata vq)
      | None => false
      end
  | None => false
  end.
Lemma tx_full_at d q vq :
  queue_at d QUEUE_TX q vq -> tx_full d = (desc_avail vq <? sg_nseg (q_sg q)) && negb (virtqueue_hasdata vq).
Proof. intros (qs & Hqs & <- & Hvq). unfold tx_full. rewrite Hqs. cbn in Hvq |- *. by rewrite Hvq. Qed.

(** A scheduler that runs no other thread of the stack: while the CPU is given up
    because the transmit queue is full, the device completes a transmit buffer if
    there is one, and stores into receive buffers only. *)
Class Progress (uk_sched_yield : MW unit) : Prop :=
  yield_progress cid own evs fl d :
    dev_ok cid own evs fl d -> tx_full d = true ->
    dwp uk_sched_yield (fun _ d' => dev_ok cid own evs fl d' /\
      (fl_tx fl <> [] -> tx_ready d') /\
      (forall p, p ∉ fl_rx fl -> d_pkts d' !! p = d_pkts d !! p)) d.

(** [dstep] runs the next primitive of a computation. *)
Ltac dstep :=
  lazymatch goal with
  | |- dwp (mret _) _ _ => apply dwp_ret
  | |- dwp (_ ≫= _) _ _ => apply dwp_bind
  | |- dwp (get_dev _) _ _ => apply dwp_gets
  | |- dwp (put_dev _) _ _ => apply dwp_put_dev
  | |- dwp (put_pkt _ _) _ _ => apply dwp_put_dev
  | |- dwp (get_vq _) _ _ => eapply dwp_get_vq; [eassumption|]
  | |- dwp (get_queue _) _ _ => eapply dwp_get_queue; [eassumption|]
  | |- dwp (get_pkt _) _ _ => eapply dwp_get_pkt; [eassumption|]
  | |- dwp (put_queue _ _) _ _ => eapply dwp_put_queue; [eassumption|]
  end.

Section transmit.
Context `{!Allocator uk_malloc, !PageMap virt_to_phys, !Mapped vma_advise, !Progress uk_sched_yield}.
Context {cid : Z}.
Implicit Types (d : virtio_vsockdev) (own evs : list positive) (fl : flights) (p : positive).
Abbreviation dev_ok := (VirtioLogic.dev_ok cid).

Lemma dev_ok_allocs n own evs fl d : dev_ok own evs fl d -> dev_ok own evs fl (set_allocs n d).
Proof. intros [? Hq ? ? ?]. split; [done|intros id; by eapply queue_ok_same, Hq|done..]. Qed.

Lemma malloc_spec size own evs fl d :
  dev_ok own evs fl d ->
  dwp (malloc uk_malloc size) (fun r d' => dev_ok own evs fl d' /\ d_pkts d' = d_pkts d /\
    d_events d' = d_events d /\
    match r with
    | None => True
    | Some (addr, bytes) => 0 < addr /\ addr mod 8 = 0 /\ addr + size < 2 ^ 64 /\ zlen bytes = size
    end) d.
Proof.
  intros Hd. unfold malloc. repeat dstep. split_and!; [by apply dev_ok_allocs|done..|].
  case_match; [|done]. destruct p as [addr bytes]. by eapply malloc_block.
Qed.

Lemma fresh_pkt (h : heap) : h !! fresh (dom h) = None.
Proof. apply not_elem_of_dom, is_fresh. Qed.

Lemma alloc_pkt_spec buflen headroom own evs fl d :
  dev_ok own evs fl d -> 0 < buflen <= 2 ^ 16 -> 0 <= headroom <= buflen ->
  dwp (alloc_pkt uk_malloc buflen headroom) (fun r d' =>
    match r with
    | None => dev_ok own evs fl d'
    | Some p => dev_ok (p :: own) evs fl d' /\ (p ∉ own) /\ exists nb, d_pkts d' !! p = Some nb /\
        nb_data nb = nb_buf nb + headroom /\ nb_len nb = 0 /\ buflen <= nb_buflen nb < buflen + 8
    end /\ (forall p, p ∈ own -> d_pkts d' !! p = d_pkts d !! p)) d.
Proof.
  intros Hd Hb Hh. unfold alloc_pkt. dstep. eapply dwp_mono; [by apply malloc_spec|].
  intros block d1 (Hd1 & Hp1 & _ & Hblk). dstep. destruct block as [[mem bytes]|]; cycle 1.
  { apply (dwp_deref _ _ _ None); [intros; unfold uk_netbuf_alloc_buf;
      by replace ((0 <? buflen) && (headroom <=? buflen)) with true by lia|].
    dstep. split; [done|]. intros. by rewrite Hp1. }
  destruct Hblk as (M1 & M2 & M3 & M4).
  eapply dwp_deref; [intros; apply uk_netbuf_alloc_buf_spec; (done || lia)|].
  destruct (align_up_bounds buflen) as [U1 U2]; [lia|]. unfold netbuf_alloc_len in M3, M4.
  change (NETBUF_ADDR_ALIGN_UP (u64 (sizeof_uk_netbuf + 0))) with 96 in *.
  rewrite (wrap_small 64) in M3, M4 by lia.
  assert (Hfresh : d_pkts d1 !! fresh (dom (d_pkts d1)) = None) by apply fresh_pkt.
  assert (Hno : fresh (dom (d_pkts d1)) ∉ own).
  { intros Hin. destruct (dev_ok_owned _ _ _ _ _ _ Hd1 Hin) as (? & ? & _). congruence. }
  repeat dstep. split; [split|].
  - apply dev_ok_new; [done|done|]. split; cbn; try lia; [done..|].
    split; [lia|]. apply zlen_slice; lia.
  - split; [done|]. eexists. cbn. rewrite lookup_insert_eq. split; [done|]. cbn. lia.
  - intros p Hp. cbn. rewrite lookup_insert_ne; [by rewrite Hp1|]. intros <-. done.
Qed.

Lemma free_pkt_spec p own evs fl d :
  dev_ok (p :: own) evs fl d ->
  dwp (free_pkt p) (fun _ d' => dev_ok own evs fl d' /\ d' = set_pkts (delete p (d_pkts d)) d) d.
Proof.
  intros Hd. destruct (dev_ok_owned _ _ _ _ _ p Hd) as (nb & Hl & Hok); [left|].
  unfold free_pkt. dstep. 
  apply (dwp_deref _ _ _ (delete p (d_pkts d))); [intros w <-; by eapply free_pkt_heap|]. dstep.
  split; [by apply dev_ok_delete|done].
Qed.

(** ** The scatter list and the ring *)

Lemma VSOCK_MAX_FRAGMENTS_17 : VSOCK_MAX_FRAGMENTS = 17.
Proof. done. Qed.

(** Describing a buffer: it fits into the list of a queue if it is at most
    65536 bytes long, and takes at least one segment. *)
Lemma sg_single_spec id buf len q vq d :
  queue_at d id q vq -> sg_ok (q_sg q) -> 0 < len <= 2 ^ 16 -> 0 < buf -> buf + len < 2 ^ 64 ->
  dwp (sg_single virt_to_phys vma_advise id buf len) (fun rc d' => rc = 0 /\
    exists sg, d' = with_queue d id (set_sg q sg) /\ sg_ok sg /\ 0 < sg_nseg sg <= 17 /\
      cover sg = virt_to_phys <$> seqZ buf len) d.
Proof.
  intros Hat [(Hn & Hm & H16 & _) Hmax] Hl Hb Hw. rewrite VSOCK_MAX_FRAGMENTS_17 in Hmax.
  assert (Hwf : sg_wf (uk_sglist_reset (q_sg q))).
  { unfold sg_wf, uk_sglist_reset. cbn. split_and!; [lia..|constructor]. }
  assert (Hpg : pages buf len <= 17).
  { unfold pages. rewrite page_off_mod. unfold PAGE_SIZE.
    pose proof (Z.mod_pos_bound buf 4096). apply Z.lt_succ_r, Z.div_lt_upper_bound; lia. }
  destruct (uk_sglist_append_spec virt_to_phys vma_advise
    (uk_sglist_reset (q_sg q)) buf len) as (rc & sg & Heq & Hwf' & Hmx & _ & Hrc & Hcase);
    [done|cbn; lia|lia|lia|lia|apply advise_ok|].
  cbn in Hmx, Hrc, Hcase. specialize (Hrc ltac:(lia)). subst rc.
  destruct Hcase as [(_ & Hc & Hs)|(? & _)]; [|done].
  unfold sg_single. dstep. dstep. dstep. eapply dwp_deref; [by intros|]. dstep. dstep. dstep.
  split; [done|]. exists sg. split_and!; [done|split; [done|by rewrite Hmx]| |lia|done].
  destruct (decide (sg_nseg sg = 0)) as [E|E]; [|lia]. exfalso.
  assert (Hnil : cover sg = []) by (unfold cover; by rewrite E).
  rewrite Hnil in Hc. symmetry in Hc. apply (f_equal length) in Hc.
  rewrite length_app, length_fmap, length_seqZ in Hc. cbn in Hc. lia.
Qed.

(** Queueing an owned buffer described by the scatter list of its queue. *)
Definition moved (id : queue_id) (ck : positive) (own evs own' evs' : list positive) : Prop :=
  match id with
  | QUEUE_EVENT => own' = own /\ evs = ck :: evs'
  | _ => evs' = evs /\ own = ck :: own'
  end.

Lemma enqueue_sg_spec id ck to_device q vq own evs own' evs' fl d :
  dev_ok own evs fl d -> moved id ck own evs own' evs' ->
  queue_at d id q vq -> 0 < sg_nseg (q_sg q) ->
  dwp (enqueue_sg id ck to_device) (fun rc d' =>
    d_pkts d' = d_pkts d /\
    ((0 <= rc /\ dev_ok own' evs' (fl_set id (ck :: fl_of id fl) fl) d') \/
     (dev_ok own evs fl d' /\ d' = d /\
      (rc = - EINVAL \/ rc = - ENOSPC /\ fl_of id fl <> [] /\ desc_avail vq < sg_nseg (q_sg q))))) d.
Proof.
  intros Hd Hmv Hat Hn. unfold enqueue_sg. dstep. dstep.
  destruct (do_queue _ _ _ _ _ Hd id) as (q0 & vq0 & la & ow & Hat0 & [Hwf Hmx] & Hf & Ht & Hh).
  destruct (queue_at_inj _ _ _ _ _ _ Hat Hat0) as [-> ->].
  destruct Hwf as (W1 & W2 & W3 & W4).
  destruct (flight_enqueue vq la ow (fl_of id fl) ck (q_sg q)
    (if to_device then sg_nseg (q_sg q) else 0)
    (if to_device then 0 else sg_nseg (q_sg q))) as (rc & vq' & He & _ & Hc);
    [done|destruct to_device; lia..|].
  eapply dwp_vq_step; [done|exact He|]. split; [done|].
  assert (Hid : with_queue d id (set_vq q (Some vq)) = d) by by eapply with_queue_same.
  destruct Hc as [(-> & -> & _)|[(-> & -> & Hne & Hav)|(Hrc & Hf' & Hlens)]]; [rewrite Hid; by auto| |].
  { rewrite Hid. right. split_and!; [done..|]. right. split_and!; [done..|]. by destruct to_device; lia. }
  left. split; [done|]. assert (headed id vq') by (intros E; by apply Hlens, Hh).
  eapply dev_ok_queue; try done; destruct id, Hmv; simplify_eq; cbn;
    rewrite ?Permutation_middle; done || solve_Permutation.
Qed.

(** ** Reclaiming *)

(** Buffers that have left the transmit queue. *)
Record reclaimed own evs fl d (fl' : flights) (d' : virtio_vsockdev) : Prop := {
  rc_ok : dev_ok own evs fl' d';
  rc_rx : fl_rx fl' = fl_rx fl;
  rc_ev : fl_ev fl' = fl_ev fl;
  rc_tx : fl_tx fl' ⊆ fl_tx fl /\ (length (fl_tx fl') <= length (fl_tx fl))%nat;
  rc_pkts p : p ∉ fl_tx fl -> d_pkts d' !! p = d_pkts d !! p
}.

Lemma reclaimed_refl own evs fl d : dev_ok own evs fl d -> reclaimed own evs fl d fl d.
Proof. by split. Qed.

Lemma dequeue_spec id own evs fl d :
  dev_ok own evs fl d ->
  dwp (vq_step id (fun vq => '(rc, out, vq) ← virtqueue_buffer_dequeue vq; Some ((rc, out), vq)))
    (fun r d' =>
      (~ ready id d /\ r = (- ENOMSG, None) /\ d' = d) \/
      (exists rc ck len l own' evs', r = (rc, Some (Some ck, len)) /\ 0 <= rc /\
        fl_of id fl ≡ₚ ck :: l /\ moved id ck own' evs' own evs /\
        dev_ok own' evs' (fl_set id l fl) d' /\ d_pkts d' = d_pkts d /\
        (id = QUEUE_RX -> sizeof_hdr <= len))) d.
Proof.
  intros Hd. destruct (do_queue _ _ _ _ _ Hd id) as (q & vq & la & ow & Hat & Hsg & Hf & Ht & Hh).
  destruct (flight_dequeue vq la ow (fl_of id fl) Hf)
    as [[Hno He]|(Hyes & rc & ck & len & vq' & l & He & Hrc & Hp & Hf' & _ & Hlens)].
  - eapply dwp_vq_step; [done|by rewrite He|]. left. rewrite (with_queue_same _ _ _ _ Hat).
    split_and!; [|done..]. intros (q2 & vq2 & Hat2 & ?).
    destruct (queue_at_inj _ _ _ _ _ _ Hat Hat2) as [-> ->]. congruence.
  - eapply dwp_vq_step; [done|by rewrite He|]. right.
    exists rc, ck, len, l, (match id with QUEUE_EVENT => own | _ => ck :: own end),
      (match id with QUEUE_EVENT => ck :: evs | _ => evs end).
    split_and!; [done|lia|done|by destruct id| |done|intros E; by apply Hlens, Hh].
    assert (headed id vq') by (intros E; by apply Hlens, Hh).
    eapply dev_ok_queue; try done; destruct id; cbn in Hp |- *; rewrite ?Hp; solve_Permutation.
Qed.

Lemma xmit_free_loop_spec n own evs fl d :
  dev_ok own evs fl d -> (length (fl_tx fl) <= n)%nat ->
  dwp (xmit_free_loop n) (fun _ d' => exists fl', reclaimed own evs fl d fl' d' /\
    (~ tx_ready d') /\ (tx_ready d -> (length (fl_tx fl') < length (fl_tx fl))%nat)) d.
Proof.
  revert fl d. induction n as [|n IH]; intros fl d Hd Hn; cbn [xmit_free_loop]; dstep;
    (eapply dwp_mono; [by eapply (dequeue_spec QUEUE_TX)|]);
    intros r d1 [(Hno & -> & ->)|(rc & ck & len & txs & own' & evs' & -> & Hrc & Hp & [-> ->] & Hd1 & Hk & _)].
  1,3: cbn; apply dwp_assert; [done|]; exists fl; split_and!; [by apply reclaimed_refl|done..].
  - apply Permutation_length in Hp. cbn in Hp. lia.
  - cbn. destruct (Z.ltb_spec rc 0); [lia|]. dstep. eapply dwp_deref; [by intros|].
    dstep. eapply dwp_mono; [by apply free_pkt_spec|]. intros _ d2 [Hd2 ->].
    pose proof (Permutation_length Hp) as Hlen. cbn in Hlen.
    eapply dwp_mono; [apply IH; [done|cbn; lia]|].
    intros _ d3 (fl' & [H1 H2 H3 [H4 H4'] H5] & Hno & _). cbn in *. exists fl'. split; [|split; [done|lia]].
    split; [done..| |]; [split; [rewrite Hp; set_solver|lia]|].
    intros p Hnp. rewrite Hp in Hnp. rewrite H5 by set_solver. rewrite lookup_delete_ne by set_solver.
    by rewrite Hk.
Qed.

Lemma xmit_free_spec own evs fl d :
  dev_ok own evs fl d ->
  dwp virtio_vsockdev_xmit_free (fun _ d' => exists fl', reclaimed own evs fl d fl' d' /\
    (~ tx_ready d') /\ (tx_ready d -> (length (fl_tx fl') < length (fl_tx fl))%nat)) d.
Proof.
  intros Hd. destruct (do_queue _ _ _ _ _ Hd QUEUE_TX) as (q & vq & la & ow & Hat & Hsg & Hf & Ht & Hh).
  unfold virtio_vsockdev_xmit_free. dstep. dstep. apply xmit_free_loop_spec; [done|].
  pose proof (flight_num _ _ _ _ Hf) as [_ Hl]. unfold zlen in Hl. cbn in Hl. lia.
Qed.

(** ** Transmitting *)

(** The packet [p] is in flight when 0 is returned, and the caller's when an
    error is. *)
Record xmitted own evs p fl d (rc : Z) (fl' : flights) (d' : virtio_vsockdev) : Prop := {
  xm_rc : rc <= 0;
  xm_rx : fl_rx fl' = fl_rx fl;
  xm_ev : fl_ev fl' = fl_ev fl;
  xm_pkts p' : p' ∉ fl_tx fl -> p' ∉ fl_rx fl -> d_pkts d' !! p' = d_pkts d !! p';
  xm_sent : rc = 0 -> dev_ok own evs fl' d' /\ exists txs, fl_tx fl' = p :: txs /\ txs ⊆ fl_tx fl;
  xm_failed : rc <> 0 -> dev_ok (p :: own) evs fl' d' /\ fl_tx fl' ⊆ fl_tx fl /\
    (length (fl_tx fl') <= length (fl_tx fl))%nat
}.

Lemma notify_spec id own evs fl d :
  dev_ok own evs fl d ->
  dwp (vq_update id virtqueue_host_notify) (fun _ d' => dev_ok own evs fl d' /\ d_pkts d' = d_pkts d) d.
Proof.
  intros Hd. destruct (do_queue _ _ _ _ _ Hd id) as (q & vq & la & ow & Hat & Hsg & Hf & Ht & Hh).
  unfold vq_update. eapply dwp_vq_step; [done..|]. split; [|done].
  eapply dev_ok_requeue; [done..| |].
  - intros ? ? ?. apply flight_same, same_rings_notify.
  - intros H E. by eapply lens_same, H, E; apply same_rings_notify.
Qed.

Lemma xmit_spec p nb own evs fl d :
  dev_ok (p :: own) evs fl d -> d_pkts d !! p = Some nb -> 0 < nb_len nb ->
  dwp (virtio_vsockdev_xmit virt_to_phys vma_advise p) (fun rc d' => exists fl',
    xmitted own evs p fl d rc fl' d' /\
    (rc = - EAGAIN -> fl_tx fl' <> [] /\ tx_full d' = true /\
      (tx_ready d -> (length (fl_tx fl') < length (fl_tx fl))%nat))) d.
Proof.
  intros Hd Hp Hlen. unfold virtio_vsockdev_xmit. dstep.
  eapply dwp_mono; [by apply xmit_free_spec|]. intros _ d1 (fl1 & [H1 H2 H3 [H4 H4'] H5] & Hno & Hr).
  destruct (dev_ok_disjoint _ _ _ _ _ p Hd) as [Hnt Hnr]; [left|].
  assert (Hp1 : d_pkts d1 !! p = Some nb) by by rewrite H5.
  pose proof (do_pkt _ _ _ _ _ H1 p nb Hp1) as [_ _ [B1 _] [R1 R2] E L].
  dstep. dstep. destruct (do_queue _ _ _ _ _ H1 QUEUE_TX) as (q & vq & la & ow & Hat & Hsg & Hf & Ht & Hh).
  dstep. eapply dwp_mono; [eapply sg_single_spec; [done|done|lia..]|].
  intros rc d2 (-> & sg & -> & Hsg' & Hns & _). cbn [Z.eqb negb]. dstep.
  assert (Hd2 : dev_ok (p :: own) evs fl1 (with_queue d1 QUEUE_TX (set_sg q sg))).
  { eapply dev_ok_requeue; [done..|by destruct Hat as (? & ? & ? & ?)|done|done|done]. }
  assert (Hat2 : queue_at (with_queue d1 QUEUE_TX (set_sg q sg)) QUEUE_TX (set_sg q sg) vq).
  { eapply queue_at_with; [done|]. by destruct Hat as (? & ? & ? & ?). }
  eapply dwp_mono; [eapply (enqueue_sg_spec QUEUE_TX p true); [exact Hd2|by split|exact Hat2|cbn; lia]|].
  intros rc d3 (Hk3 & [[Hrc Hd3]|(Hd3 & E3 & Hrc)]); cbn in Hk3.
  - destruct (Z.leb_spec 0 rc); [|lia]. dstep. eapply dwp_mono; [by apply notify_spec|].
    intros _ d4 [Hd4 Hk4]. dstep. exists (fl_set QUEUE_TX (p :: fl_tx fl1) fl1). split; [|done]. split; [lia|done..| | |done].
    + intros p' Hp' _. by rewrite Hk4, Hk3, H5.
    + intros _. split; [done|]. cbn. eauto.
  - assert (rc < 0) by (unfold EINVAL, ENOSPC in *; lia). destruct (Z.leb_spec 0 rc); [lia|].
    assert (forall p', p' ∉ fl_tx fl -> p' ∉ fl_rx fl -> d_pkts d3 !! p' = d_pkts d !! p')
      by (intros p' Hp' _; by rewrite Hk3, H5).
    destruct (Z.eqb_spec rc (- ENOSPC)) as [->|]; dstep; exists fl1.
    + split; [by split|]. intros _. destruct Hrc as [?|(_ & ? & Hav)]; [done|]. split; [done|]. split; [|auto].
      rewrite E3, (tx_full_at _ _ _ Hat2), (proj2 (Z.ltb_lt _ _) Hav). destruct (virtqueue_hasdata vq) eqn:Hdt; [|done].
      destruct Hno. by exists q, vq.
    + split; [split; try done; lia|]. unfold EAGAIN, EINVAL in *. lia.
Qed.

Lemma xmit_retry_loop_spec n p nb own evs fl d :
  dev_ok (p :: own) evs fl d -> d_pkts d !! p = Some nb -> 0 < nb_len nb ->
  (length (fl_tx fl) <= n)%nat \/ tx_ready d /\ (length (fl_tx fl) <= S n)%nat ->
  dwp (xmit_retry_loop virt_to_phys vma_advise uk_sched_yield p n) (fun rc d' => exists fl',
    xmitted own evs p fl d rc fl' d') d.
Proof.
  revert fl d. induction n as [|n IH]; intros fl d Hd Hp Hlen Hn; cbn [xmit_retry_loop]; dstep;
    (eapply dwp_mono; [by eapply xmit_spec|]); intros rc d1 (fl1 & Hx & Ha);
    (destruct (Z.eqb_spec rc (- EAGAIN)) as [->|Hrc]; [|dstep; by exists fl1]);
    destruct (Ha eq_refl) as (Hne & Hfull & Hl); destruct Hx as [_ X1 X2 X3 _ X5];
    destruct X5 as (X6 & X7 & X8); [done| |done|].
  - exfalso. assert (length (fl_tx fl1) = 0)%nat as ?%nil_length_inv; [|done].
    destruct Hn as [Hn|[Hr Hn]]; [lia|]. specialize (Hl Hr). lia.
  - dstep. eapply dwp_mono; [by apply yield_progress|]. intros _ d2 (Hd2 & Hr2 & Hk2).
    destruct (dev_ok_disjoint _ _ _ _ _ p Hd) as [Hnt Hnr]; [left|].
    eapply dwp_mono; [apply IH; [done| | |]|].
    + rewrite Hk2, X3; [done..|]. by rewrite X1.
    + done.
    + right. split; [auto|]. destruct Hn as [Hn|[Hr Hn]]; [lia|]. specialize (Hl Hr). lia.
    + intros rc d3 (fl3 & [Y0 Y1 Y2 Y3 Y4 Y5]). exists fl3. split; [done|congruence..| | |].
      * intros p' Hp' Hr'. rewrite Y3, Hk2, X3; congruence || set_solver.
      * intros Hrc. destruct (Y4 Hrc) as (? & txs & ? & ?). split; [done|]. exists txs. set_solver.
      * intros Hrc. destruct (Y5 Hrc) as (? & ? & ?). split_and!; [done|set_solver|lia].
Qed.

Lemma xmit_retry_spec p nb own evs fl d :
  dev_ok (p :: own) evs fl d -> d_pkts d !! p = Some nb -> 0 < nb_len nb ->
  dwp (virtio_vsockdev_xmit_retry virt_to_phys vma_advise uk_sched_yield p)
    (fun rc d' => exists fl', xmitted own evs p fl d rc fl' d') d.
Proof.
  intros Hd Hp Hlen. unfold virtio_vsockdev_xmit_retry.
  destruct (do_queue _ _ _ _ _ Hd QUEUE_TX) as (q & vq & la & ow & Hat & Hsg & Hf & Ht & Hh).
  dstep. dstep. eapply xmit_retry_loop_spec; [done..|]. left.
  pose proof (flight_num _ _ _ _ Hf) as [_ Hl]. unfold zlen in Hl. cbn in Hl. lia.
Qed.
End transmit.
