(* ===== verification/VirtioDriver.v ===== *)
(** * The virtio vsock driver as a driver of the core

    The packets the operations put on the transmit queue, byte for byte, and
    the instance of [Driver]: with it every theorem about the core holds of the
    core on top of this driver. *)

From stdpp Require Import prelude gmap sorting.
From S2P Require Import Prelude Tree VsockBuffer Netbuf NetbufHeap Sglist Vring VringUse Vsock.
From S2P Require Import VirtioVsock VirtioLogic VirtioTx VsockTable VsockLogic.

#[local] Abbreviation MW := (M virtio_world).
#[local] Arguments encode_hdr : simpl never.

(** ** Filling a packet *)

Lemma pkt_ok_len nb len :
  pkt_ok nb -> 0 <= len < 2 ^ 16 -> nb_data nb + len <= nb_buf nb + nb_buflen nb ->
  pkt_ok (set_nb_len nb len).
Proof. intros [? ? ? [? ?] ? ?] Hl Hr. split; cbn; try done; lia. Qed.

Lemma nb_write_ok nb bytes :
  pkt_ok nb -> nb_data nb + zlen bytes <= nb_buf nb + nb_buflen nb ->
  nb_write nb bytes = Some (set_nb_mem nb (splice (nb_data nb - nb_buf nb) bytes (nb_mem nb))) /\
  pkt_ok (set_nb_mem nb (splice (nb_data nb - nb_buf nb) bytes (nb_mem nb))).
Proof.
  intros [? ? [? Hm] [? ?] ? ?] Hl. unfold nb_write. rewrite memcpy_Some by lia. split; [done|].
  split; cbn; try done. split; [done|]. rewrite zlen_splice; lia.
Qed.

Lemma nb_payload_written nb bytes :
  pkt_ok nb -> nb_data nb + zlen bytes <= nb_buf nb + nb_buflen nb -> nb_len nb = zlen bytes ->
  nb_payload (set_nb_mem nb (splice (nb_data nb - nb_buf nb) bytes (nb_mem nb))) = Some bytes.
Proof.
  intros [? ? [? Hm] [? ?] ? ?] Hl Hn. unfold nb_payload, nb_read. cbn.
  rewrite Hn, memread_Some; [|lia|apply zlen_nonneg|rewrite zlen_splice; lia].
  rewrite slice_splice_eq by lia. done.
Qed.

(** The packet put last on the transmit queue has these bytes. *)
Definition wired (fl : flights) (d : virtio_vsockdev) (bytes : list Z) : Prop :=
  exists p txs nb, fl_tx fl = p :: txs /\ d_pkts d !! p = Some nb /\ nb_payload nb = Some bytes.

Section ops.
Context `{!Allocator uk_malloc, !PageMap virt_to_phys, !Mapped vma_advise, !Progress uk_sched_yield}.
Context {cid : Z}.
Implicit Types (d : virtio_vsockdev) (own evs : list positive) (fl : flights) (p : positive).
Abbreviation dev_ok := (VirtioLogic.dev_ok cid).
Abbreviation send_hdr := (VirtioVsock.send_hdr uk_malloc virt_to_phys vma_advise uk_sched_yield).

(** What a sender leaves behind. *)
Definition sent own evs (bytes : list Z) (rc : Z) (d' : virtio_vsockdev) : Prop :=
  rc <= 0 /\ exists fl', dev_ok own evs fl' d' /\ (rc = 0 -> wired fl' d' bytes).

(** The receive and the event queue have the same buffers, and the packets of the
    caller are as they were. *)
Definition undisturbed own fl d (fl' : flights) d' : Prop :=
  fl_rx fl' = fl_rx fl /\ fl_ev fl' = fl_ev fl /\ forall p, p ∈ own -> d_pkts d' !! p = d_pkts d !! p.
Lemma undisturbed_trans own fl1 d1 fl2 d2 fl3 d3 : undisturbed own fl1 d1 fl2 d2 -> undisturbed own fl2 d2 fl3 d3 -> undisturbed own fl1 d1 fl3 d3.
Proof. intros (A1 & A2 & A3) (B1 & B2 & B3). split_and!; [congruence..|]. intros p Hp. by rewrite B3, A3. Qed.

(** A filled packet is transmitted or freed. *)
Lemma xmit_or_free own evs p nb bytes fl w (xmit : MW Z) (k : MW Z) Ψ :
  dev_ok (p :: own) evs fl (w_drv w) -> d_pkts (w_drv w) !! p = Some nb -> nb_payload nb = Some bytes ->
  dwp xmit (fun rc d' => exists fl', xmitted (cid := cid) own evs p fl (w_drv w) rc fl' d') (w_drv w) ->
  (forall fl' d', dev_ok own evs fl' d' -> wired fl' d' bytes -> tail (fl_tx fl') ⊆ fl_tx fl ->
     undisturbed own fl (w_drv w) fl' d' -> wp k Ψ (set_drv d' w)) ->
  (forall rc fl' d', rc < 0 -> dev_ok own evs fl' d' -> fl_tx fl' ⊆ fl_tx fl -> undisturbed own fl (w_drv w) fl' d' ->
     Ψ rc (set_drv d' w)) ->
  wp (rc ← xmit; if negb (rc =? 0) then free_pkt p;; mret rc else k) Ψ w.
Proof.
  intros Hd Hp Hb Hx Hk He. apply wp_bind. eapply wp_mono; [|by apply Hx].
  intros rc w1 (d1 & -> & fl1 & [X0 X1 X2 X3 X4 X5]).
  assert (Hkept : undisturbed own fl (w_drv w) fl1 d1).
  { split_and!; [done..|]. intros p' Hp'. destruct (dev_ok_disjoint _ _ _ _ _ p' Hd) as [? ?]; [by right|]. by apply X3. }
  destruct (Z.eqb_spec rc 0) as [->|Hrc]; cbn [negb].
  - destruct (X4 eq_refl) as (Hd1 & txs & Htx & Hsub). eapply Hk; [done| |by rewrite Htx|done]. exists p, txs, nb.
    destruct (dev_ok_disjoint _ _ _ _ _ p Hd) as [Hnt Hnr]; [left|]. by rewrite X3.
  - destruct (X5 Hrc) as (Hd1 & Hsub & _). apply wp_bind. eapply wp_mono; [|by eapply free_pkt_spec].
    intros _ w2 (d2 & -> & Hd2 & ->). apply wp_ret. eapply (He rc); [lia|done|done|].
    eapply undisturbed_trans; [exact Hkept|]. split_and!; [done..|]. intros p' Hp'. cbn. apply lookup_delete_ne.
    intros ->. by apply (dev_ok_fresh _ _ _ _ _ _ Hd).
Qed.

Lemma send_hdr_spec hdr own evs fl d :
  dev_ok own evs fl d -> dwp (send_hdr hdr) (sent own evs (encode_hdr hdr)) d.
Proof.
  intros Hd. unfold VirtioVsock.send_hdr. dstep.
  eapply dwp_mono; [by eapply alloc_pkt_spec|].
  intros [p|] d1 [Hr _]; cycle 1. { dstep. split; [done|]. exists fl. by split. }
  destruct Hr as (Hd1 & _ & nb & Hp & Hdata & _ & Hbl). dstep. dstep. dstep.
  pose proof (do_pkt _ _ _ _ _ Hd1 p nb Hp) as Hok. unfold sizeof_hdr in *.
  pose proof (encode_hdr_length hdr) as Hlen. unfold sizeof_hdr in Hlen.
  assert (Hok1 : pkt_ok (set_nb_len nb 44)) by (apply pkt_ok_len; [done|lia|lia]).
  destruct (nb_write_ok (set_nb_len nb 44) (encode_hdr hdr)) as [Hw Hok2]; [done|cbn; lia|].
  pose proof (nb_payload_written (set_nb_len nb 44) (encode_hdr hdr)) as Hpl.
  eapply dwp_deref; [by intros|]. dstep. dstep.
  set (nb2 := set_nb_mem _ _) in *.
  assert (Hp2 : <[p := nb2]> (d_pkts d1) !! p = Some nb2) by apply lookup_insert_eq.
  intros w Hdrv. eapply (xmit_or_free own evs p nb2 (encode_hdr hdr)); rewrite ?Hdrv.
  - apply dev_ok_put; [done|left|done].
  - done.
  - apply Hpl; cbn; [done|lia|lia].
  - eapply xmit_retry_spec; [by apply dev_ok_put; [|left|]|done|done].
  - intros fl' d' ? ? _ _. apply wp_ret. exists d'. split; [done|]. split; [done|]. by exists fl'.
  - intros rc fl' d' ? ? _ _. exists d'. split; [done|]. split; [lia|]. exists fl'. split; [done|lia].
Qed.

(** ** Sending data *)

(** The packet that carries the bytes [payload] of a socket. *)
Definition rw_packet (s : uk_vsock) (vs : virtio_vsock) (payload : list Z) : list Z :=
  encode_hdr (sock_hdr (a_cid (v_local s)) s vs VIRTIO_VSOCK_OP_RW 0 (zlen payload)) ++ payload.

(** The driver's part of a socket after [n] more bytes are on the way, and the
    state with the socket [i] replaced. *)
Definition credit_used (vs : virtio_vsock) (n : Z) : virtio_vsock :=
  mk_vs (vs_type vs) (vs_peer_buf_alloc vs) (vs_peer_fwd_count vs) (u32 (vs_tx_count vs + n)).
Definition with_sock (i : positive) (s : uk_vsock) (vs : virtio_vsock) (w : virtio_world) : virtio_world :=
  set_socks (<[i := (s, vs)]> (w_socks w)) w.

Lemma peer_rx_free_range vs : 0 <= virtio_vsock_peer_rx_free vs < 2 ^ 32.
Proof. apply wrap_range. lia. Qed.

(** The payload is copied behind the room for the header, then the header is
    put in front of it. *)
Lemma rw_fill nb hdr payload :
  pkt_ok nb -> nb_data nb = nb_buf nb + 44 -> nb_len nb = 0 -> 
  zlen payload + 44 <= nb_buflen nb < 2 ^ 17 -> zlen payload + 44 < 2 ^ 16 ->
  exists nb1 nb2 nb3,
    nb_write nb payload = Some nb1 /\
    uk_netbuf_header (set_nb_len nb1 (u16 (zlen payload))) 44 = Some (1, nb2) /\
    nb_write nb2 (encode_hdr hdr) = Some nb3 /\
    pkt_ok nb3 /\ 0 < nb_len nb3 /\ nb_payload nb3 = Some (encode_hdr hdr ++ payload).
Proof.
  intros Hok Hdata Hlen Hbl H16. pose proof (pk_buf _ Hok) as [_ Bm]. pose proof (zlen_nonneg payload) as Hpos.
  pose proof (encode_hdr_length hdr) as Hhdr. unfold sizeof_hdr in Hhdr.
  destruct (nb_write_ok nb payload) as [Hw1 Hok1]; [done|lia|].
  set (nb1 := set_nb_mem _ _) in *.
  assert (Hok1' : pkt_ok (set_nb_len nb1 (u16 (zlen payload)))).
  { rewrite wrap_small by lia. apply pkt_ok_len; [done|lia|cbn; lia]. }
  pose proof Hok1' as [[A1 A2] (F1 & F2 & F3 & F4) [B1 B2] [R1 R2] E L].
  rewrite wrap_small in * by lia. cbn in A1, A2, F1, F2, F3, F4, B1, B2, R1, R2, E, L.
  exists nb1. eexists. eexists. split; [done|]. split.
  { apply uk_netbuf_header_push; cbn; try done; lia. }
  set (nb2 := mk_netbuf _ _ _ _ _ _ _ _ _ _ _ _ _).
  assert (Hok2 : pkt_ok nb2) by (split; cbn; try done; lia).
  destruct (nb_write_ok nb2 (encode_hdr hdr)) as [Hw3 Hok3]; [done|cbn; lia|].
  split; [exact Hw3|]. split; [done|]. split; [cbn; lia|].
  unfold nb_payload, nb_read. cbn. rewrite memread_Some; [|lia|lia|rewrite zlen_splice; lia].
  rewrite Hdata. replace (nb_buf nb + 44 - 44 - nb_buf nb) with 0 by lia.
  replace (zlen payload + 44) with (zlen (encode_hdr hdr) + zlen payload) by lia.
  rewrite <- slice_app, slice_splice_eq, slice_splice_ne by (rewrite ?zlen_splice; lia).
  replace (nb_buf nb + 44 - nb_buf nb) with (0 + zlen (encode_hdr hdr)) by lia.
  by rewrite slice_splice_eq by lia.
Qed.

(** The number of bytes a packet can carry: its length has 16 bits. *)
Definition max_payload : Z := 65491.

Lemma wp_sock i s (vs : virtio_vsock) (w : virtio_world) Φ :
  w_socks w !! i = Some (s, vs) -> Φ s w -> wp (get_sock i) Φ w.
Proof. intros Hi HΦ. unfold wp, get_sock, deref, vsocks. by rewrite lookup_fmap, Hi. Qed.

Lemma wp_vs i s (vs : virtio_vsock) (w : virtio_world) Φ :
  w_socks w !! i = Some (s, vs) -> Φ vs w -> wp (get_vs i) Φ w.
Proof. intros Hi HΦ. unfold wp, get_vs, deref. by rewrite Hi. Qed.

Lemma virtio_vsock_send_spec i buf s vs (w : virtio_world) own evs fl :
  w_socks w !! i = Some (s, vs) -> dev_ok own evs fl (w_drv w) ->
  0 < zlen buf <= max_payload ->
  let n := Z.min (virtio_vsock_peer_rx_free vs) (zlen buf) in
  wp (virtio_vsock_send uk_malloc virt_to_phys vma_advise i buf) (fun rc w' =>
    exists fl' d', dev_ok own evs fl' d' /\ undisturbed own fl (w_drv w) fl' d' /\
      ((rc < 0 /\ w' = set_drv d' w /\ fl_tx fl' ⊆ fl_tx fl /\ (n = 0 -> rc = - EAGAIN /\ d' = w_drv w)) \/
       (rc = n /\ 0 < n /\ w' = set_drv d' (with_sock i s (credit_used vs n) w) /\
        wired fl' d' (rw_packet s vs (slice 0 n buf)) /\ tail (fl_tx fl') ⊆ fl_tx fl))) w.
Proof.
  intros Hi Hd Hb n. unfold max_payload in Hb. pose proof (peer_rx_free_range vs) as Hr.
  unfold virtio_vsock_send. destruct (Z.eqb_spec (zlen buf) 0); [lia|].
  apply wp_bind. eapply wp_sock; [done|]. apply wp_bind. eapply wp_vs; [done|]. fold n.
  destruct (Z.eqb_spec n 0) as [Hz|Hz].
  { exists fl, (w_drv w). rewrite set_drv_same. split; [done|]. split; [done|]. by left. }
  assert (0 < n <= zlen buf) as Hn by lia. assert (Hsl : zlen (slice 0 n buf) = n) by (apply zlen_slice; lia).
  apply wp_bind. eapply wp_mono; [|eapply alloc_pkt_spec; [done|unfold sizeof_hdr; lia..|done]].
  intros [p|] w1 (d1 & -> & Hr1 & Hk1); cycle 1.
  { exists fl, d1. split; [done|]. split; [done|]. left. split_and!; [done..|lia]. }
  destruct Hr1 as (Hd1 & Hfresh & nb & Hp & Hdata & Hlen & Hbl). unfold sizeof_hdr in Hdata, Hbl.
  destruct (rw_fill nb (sock_hdr (a_cid (v_local s)) s vs VIRTIO_VSOCK_OP_RW 0 n) (slice 0 n buf))
    as (nb1 & nb2 & nb3 & W1 & W2 & W3 & Hok & Hl3 & Hpl); [by eapply do_pkt|done|done|lia|lia|].
  rewrite Hsl in W2. apply wp_bind, (wp_deref _ _ _ nb); [done|].
  apply wp_bind, (wp_deref _ _ _ nb1); [done|]. apply wp_bind, (wp_deref _ _ _ (1, nb2)); [done|].
  cbn [Z.eqb Pos.eqb]. apply wp_bind, wp_ret, wp_bind, (wp_deref _ _ _ nb3); [done|]. apply wp_bind, wp_ret.
  assert (Hp3 : <[p := nb3]> (d_pkts d1) !! p = Some nb3) by apply lookup_insert_eq.
  assert (Hk3 : undisturbed own fl (w_drv w) fl (set_pkts (<[p := nb3]> (d_pkts d1)) d1)).
  { split_and!; [done..|]. intros p' Hp'. cbn. rewrite lookup_insert_ne; [by apply Hk1|]. by intros ->. }
  eapply (xmit_or_free own evs p nb3 _ fl).
  - apply dev_ok_put; [done|left|done].
  - done.
  - exact Hpl.
  - eapply dwp_mono; [eapply xmit_spec; [by apply dev_ok_put; [|left|]|done|done]|]. naive_solver.
  - intros fl' d' Hd' Hw Htl Hk'. unfold rw_packet. rewrite Hsl. apply wp_bind. unfold wp, put_vs. cbn. rewrite Hi. cbn.
    exists fl', d'. split; [done|]. split; [by eapply undisturbed_trans|]. right. split_and!; [done|lia|done..].
  - intros rc fl' d' Hrc Hd' Hsub Hk'. exists fl', d'. split; [done|]. split; [by eapply undisturbed_trans|]. left. split_and!; [done..|lia].
Qed.

(** ** The laws of the driver interface *)

(** [held] and [hev] are the packets and event buffers that the caller of the
    operations holds: they stay its own. *)
Definition virtio_inv (held hev : list positive) (_ : gmap positive virtio_vsock)
    (_ : gmap positive virtio_vsock_accept_entry) (d : virtio_vsockdev) : Prop :=
  exists own evs fl, dev_ok (held ++ own) (hev ++ evs) fl d.

Context {held hev : list positive}.
Abbreviation vwp := (cwp (virtio_inv held hev)).
Abbreviation ops := (virtio_vsockdev_ops uk_malloc virt_to_phys vma_advise uk_sched_yield).

(** A computation on the device leaves the core alone. *)
Lemma vwp_dwp {A} (m : MW A) (Φ : A -> core_state -> Prop) (Ψ : A -> Prop) c :
  (forall own evs fl d, dev_ok own evs fl d ->
    dwp m (fun a d' => (exists fl, dev_ok own evs fl d') /\ Ψ a) d) ->
  (forall a, Ψ a -> Φ a c) -> vwp m Φ c.
Proof.
  intros Hm HΦ w <- (own & evs & fl & Hd). eapply wp_mono; [|by eapply Hm].
  intros a w' (d' & -> & Hd' & HΨ). split; [destruct Hd' as [fl' ?]; by exists own, evs, fl'|]. by apply HΦ.
Qed.

Lemma vwp_send_hdr hdr (Φ : Z -> core_state -> Prop) c :
  (forall rc, rc <= 0 -> Φ rc c) -> vwp (send_hdr hdr) Φ c.
Proof.
  apply vwp_dwp. intros own evs fl d Hd. eapply dwp_mono; [by eapply send_hdr_spec|].
  intros rc d' (Hrc & fl' & Hd' & _). split; [by exists fl'|done].
Qed.

Lemma vwp_malloc size (Φ : option (Z * list Z) -> core_state -> Prop) c :
  (forall r, (forall addr bytes, r = Some (addr, bytes) -> zlen bytes = size) -> Φ r c) ->
  vwp (malloc uk_malloc size) Φ c.
Proof.
  apply vwp_dwp. intros own evs fl d Hd. eapply dwp_mono; [by eapply malloc_spec|].
  intros r d' (Hd' & _ & _ & Hr). split; [by exists fl|]. intros ? ? ->. by destruct Hr as (_ & _ & _ & ?).
Qed.

Lemma vwp_get_vs i s Φ c : c_socks c !! i = Some s -> (forall vs, Φ vs c) -> vwp (get_vs i) Φ c.
Proof.
  intros Hs H w <- Hd. cbn in Hs. unfold vsocks in Hs. rewrite lookup_fmap in Hs.
  destruct (w_socks w !! i) as [[s' vs]|] eqn:Hi; [|done]. eapply wp_vs; [done|]. auto.
Qed.

Lemma vwp_cid Φ c : Φ cid c -> vwp (get_dev d_cid) Φ c.
Proof. intros H w <- Hd. unfold wp, get_dev, gets. split; [done|]. destruct Hd as (? & ? & ? & Hd). by rewrite (do_cid _ _ _ _ _ Hd). Qed.

(** [vstep] extends [cstep] by the primitives of the driver. *)
Ltac vstep :=
  lazymatch goal with
  | |- cwp _ (get_vs _) _ _ => eapply vwp_get_vs; [lookup_now|intros ?vs]
  | |- cwp _ (get_dev d_cid) _ _ => apply vwp_cid
  | |- cwp _ (get_entry _) _ _ => eapply cwp_entry; [lookup_now|intros ?ventry]
  | |- cwp _ (VirtioVsock.send_hdr _ _ _ _ _) _ _ => apply vwp_send_hdr
  | |- cwp _ (malloc _ _) _ _ => apply vwp_malloc
  | _ => cstep
  end.

(** A socket with its buffer, or an error. *)
Lemma vwp_alloc_sock type (Φ : Z * option uk_vsock -> core_state -> Prop) c :
  (forall rc, rc < 0 -> Φ (rc, None) c) -> (forall s, fresh_sock type s -> Φ (0, Some s) c) ->
  vwp (alloc_sock uk_malloc type) Φ c.
Proof.
  intros H1 H2. unfold alloc_sock. vstep. vstep. intros r Hr. vstep.
  destruct r as [[addr bytes]|]; [|by apply H1]. specialize (Hr addr bytes eq_refl).
  apply H2. by exists bytes.
Qed.

Lemma reject_conn_spec i e s a Φ c :
  c_socks c !! i = Some s -> c_entries c !! e = Some a -> Φ tt c ->
  vwp (virtio_vsockdev_reject_conn uk_malloc virt_to_phys vma_advise uk_sched_yield i e) Φ c.
Proof.
  intros Hs He HΦ. unfold virtio_vsockdev_reject_conn. repeat vstep. intros rc _. by vstep.
Qed.

Lemma fresh_sock_destroy type s :
  fresh_sock type s -> exists r, uk_vsock_buffer_destroy (v_rx s) = Some r.
Proof.
  intros (mem & Hm & Hs). destruct mem as [|b mem]; [done|]. cbn in Hs.
  injection Hs as <-. by eexists.
Qed.

Lemma virtio_accept_spec i e s a c :
  c_socks c !! i = Some s -> c_entries c !! e = Some a ->
  vwp (op_accept ops i e) (fun r c' =>
    (fst r <> 0 /\ c' = c) \/
    (exists o so, r = (0, Some o) /\ c_socks c !! o = None /\ fresh_sock (v_sock_type s) so /\
      c' = c_put o (set_local (set_peer so a) (mk_addr cid (a_port (v_local s)))) c)) c.
Proof.
  intros Hs He. cbn. unfold virtio_vsock_accept. vstep. vstep. vstep. vstep. vstep. vstep.
  vstep. vstep. intros r _. destruct r as [[addr bytes]|]; cycle 1.
  { vstep. eapply reject_conn_spec; [done..|]. vstep. by left. }
  vstep. apply vwp_alloc_sock; [intros rc Hrc|intros so Hso].
  { destruct (Z.eqb_spec rc 0); [lia|]. vstep. eapply reject_conn_spec; [done..|]. vstep. by left. }
  vstep. vstep. vstep. apply cwp_new_sock; [done|]. intros o Ho. vstep.
  unfold virtio_vsock_conn_respond. repeat vstep; intros rc Hrc.
  destruct (Z.eqb_spec rc 0) as [->|Hne]; cbn [negb].
  { vstep. right. by exists o, so. }
  vstep. vstep. vstep. destruct (fresh_sock_destroy _ _ Hso) as [r Hr].
  apply (cwp_deref _ _ _ _ r); [done|]. vstep. apply cwp_free_sock; [done|]. vstep. left.
  split; [done|]. unfold c_del, c_put. cbn. rewrite delete_insert_id by done. by destruct c.
Qed.

Lemma virtio_send_law i buf s c :
  c_socks c !! i = Some s -> zlen buf <= max_payload ->
  vwp (op_send ops i buf) (fun r c' => r <= zlen buf /\ c' = c) c.
Proof.
  intros Hs Hb w <- (own & evs & fl & Hd). cbn in Hs. unfold vsocks in Hs. rewrite lookup_fmap in Hs.
  destruct (w_socks w !! i) as [[s' vs]|] eqn:Hi; [|done]. cbn in Hs. injection Hs as ->.
  pose proof (zlen_nonneg buf) as Hpos. destruct (decide (zlen buf = 0)) as [Hz|Hz].
  { cbn. unfold virtio_vsock_send. rewrite Hz. cbn. split_and!; [by exists own, evs, fl|lia|done]. }
  eapply wp_mono; [|eapply virtio_vsock_send_spec; [done..|lia]].
  intros rc w' (fl' & d' & Hd' & _ & [(Hrc & -> & _)|(-> & _ & -> & _)]).
  - split; [by exists own, evs, fl'|]. split; [lia|done].
  - split; [by exists own, evs, fl'|]. split; [lia|]. unfold core, vsocks. cbn.
    rewrite fmap_insert, insert_id; [done|]. by rewrite lookup_fmap, Hi.
Qed.

#[export] Instance virtio_vsock_driver : Driver (virtio_inv held hev) cid ops max_payload.
Proof.
  split.
  - intros c. by apply vwp_cid.
  - intros type protocol c. cbn. unfold virtio_vsock_create. vstep; [vstep; by left|].
    destruct (type_of type) as [t|]; [|vstep; by left]. vstep. vstep. intros [r|] _; [|vstep; by left].
    vstep. apply vwp_alloc_sock; [intros rc Hrc; vstep; by left|]. intros s Hs.
    vstep. apply cwp_new_sock; [done|]. intros i Hi. vstep. right. by exists i, s.
  - apply virtio_accept_spec.
  - intros i e s a c Hs He. cbn. unfold virtio_vsock_free_accept_entry. vstep. vstep. by apply cwp_free_entry.
  - apply virtio_send_law.
  - intros i s c Hs. cbn. unfold virtio_vsock_connect. repeat vstep. intros rc _. by repeat vstep.
  - intros i rx tx s c Hs. cbn. unfold virtio_vsock_shutdown. by repeat vstep.
  - intros i s c Hs. cbn. unfold virtio_vsock_reset. by repeat vstep.
  - intros i s c Hs. cbn. unfold virtio_vsock_destroy. vstep. vstep. vstep.
    apply cwp_free_sock; [done|]. by vstep.
  - intros f i s c [= <-] Hs. unfold virtio_vsock_send_credit_update, virtio_vsock_work_credit_request.
    by repeat vstep.
Qed.
End ops.
