(* ===== verification/VirtioRx.v ===== *)
(** * The receive and event queues of the virtio vsock driver

    Refilling, dequeueing and enabling interrupts: the functions return and
    keep the invariant, and a call that reports success hands over a buffer. *)

From stdpp Require Import prelude gmap.
From S2P Require Import Prelude Tree VsockBuffer Netbuf NetbufHeap Sglist Vring VringUse Vsock.
From S2P Require Import VirtioVsock VirtioLogic VirtioTx VirtioDriver.

(** What the device does to a ring while interrupts are being enabled keeps the
    ring consistent, and packets shorter than a header do not appear. *)
Class DeviceStep (device : vring -> vring) : Prop := {
  device_flight q la ow cks :
    flight q la ow cks -> exists la' ow', flight (set_vring q (device (vr q))) la' ow' cks;
  device_lens q : lens_ok sizeof_hdr q -> lens_ok sizeof_hdr (set_vring q (device (vr q)))
}.

Section receive.
Context `{!Allocator uk_malloc, !PageMap virt_to_phys, !Mapped vma_advise, !DeviceStep device}.
Context {cid : Z}.
Implicit Types (d : virtio_vsockdev) (own evs : list positive) (fl : flights) (p : positive).
Abbreviation dev_ok := (VirtioLogic.dev_ok cid).

(** ** Interrupts *)

Lemma same_rings_armed vq :
  same_rings vq (if uses_event_idx vq
    then set_vring vq (set_used_event (vr vq) (u16 (last_used_desc_idx vq + 0)))
    else set_vring vq (set_avail_flags (vr vq)
           (Z.ldiff (avail_flags (vr vq)) VRING_AVAIL_F_NO_INTERRUPT))).
Proof. by case_match. Qed.

Lemma virtqueue_intr_enable_flight vq la ow cks :
  flight vq la ow cks ->
  let '(rc, vq') := virtqueue_intr_enable device vq in
  (exists la' ow', flight vq' la' ow' cks) /\ (lens_ok sizeof_hdr vq -> lens_ok sizeof_hdr vq') /\
  (rc = 0 \/ rc = 1 /\ virtqueue_hasdata vq' = true).
Proof.
  intros Hf. unfold virtqueue_intr_enable. destruct (virtqueue_hasdata vq) eqn:Hh; cbn [negb].
  { split_and!; eauto. }
  pose proof (same_rings_armed vq) as Hs. set (vq1 := if uses_event_idx vq then _ else _) in *.
  pose proof (flight_same _ _ _ _ _ Hs Hf) as Hf1.
  destruct (device_flight _ _ _ _ Hf1) as (la' & ow' & Hf2).
  set (vq2 := set_vring vq1 (device (vr vq1))) in *.
  assert (Hl2 : lens_ok sizeof_hdr vq -> lens_ok sizeof_hdr vq2)
    by (intros H; eapply device_lens, lens_same, H; exact Hs).
  destruct (virtqueue_hasdata vq2) eqn:Hh2; [|split_and!; eauto].
  pose proof (same_rings_disable vq2) as Hs2. split_and!.
  - exists la', ow'. by eapply flight_same.
  - intros H. eapply lens_same; [exact Hs2|auto].
  - right. split; [done|]. unfold virtqueue_intr_disable. by destruct (uses_event_idx vq2).
Qed.

Lemma intr_enable_spec id own evs fl d :
  id <> QUEUE_TX -> dev_ok own evs fl d ->
  dwp (intr_enable device id) (fun rc d' => dev_ok own evs fl d' /\ d_pkts d' = d_pkts d /\
    (rc = 0 \/ rc = 1 /\ ready id d')) d.
Proof.
  intros Hid Hd. destruct (do_queue _ _ _ _ _ Hd id) as (q & vq & la & ow & Hat & Hsg & Hf & Ht & Hh).
  pose proof (virtqueue_intr_enable_flight vq la ow _ Hf) as Hv.
  unfold intr_enable. destruct (virtqueue_intr_enable device vq) as [rc vq'] eqn:Hen.
  destruct Hv as ((la' & ow' & Hf') & Hl & Hrc).
  eapply dwp_vq_step; [done|by rewrite Hen|]. split_and!; [|done|].
  - rewrite <- (fl_set_of id fl). eapply dev_ok_queue; try done; [intros E; by apply Hl, Hh|by rewrite fl_set_of..].
  - destruct Hrc as [->|[-> Hr]]; [by left|]. right. split; [done|]. eexists _, vq'. split; [|done].
    by eapply queue_at_with.
Qed.

(** Storing into the interrupt state of a queue. *)
Lemma put_intr_spec id g own evs fl d :
  dev_ok own evs fl d ->
  dwp (put_queue id (fun q => set_intr q (g q))) (fun _ d' => dev_ok own evs fl d' /\
    d_pkts d' = d_pkts d /\ (ready id d -> ready id d')) d.
Proof.
  intros Hd. destruct (do_queue _ _ _ _ _ Hd id) as (q & vq & la & ow & Hat & Hsg & Hf & Ht & Hh).
  dstep. assert (q_vq (set_intr q (g q)) = Some vq) by by destruct Hat as (? & ? & ? & ?).
  split_and!; [by eapply dev_ok_requeue|done|]. intros (q2 & vq2 & Hat2 & Hr).
  destruct (queue_at_inj _ _ _ _ _ _ Hat Hat2) as [-> ->]. eexists _, vq. split; [|done]. by eapply queue_at_with.
Qed.

Lemma vq_disable_spec id own evs fl d :
  dev_ok own evs fl d ->
  dwp (vq_update id virtqueue_intr_disable) (fun _ d' => dev_ok own evs fl d' /\ d_pkts d' = d_pkts d) d.
Proof.
  intros Hd. destruct (do_queue _ _ _ _ _ Hd id) as (q & vq & la & ow & Hat & Hsg & Hf & Ht & Hh).
  unfold vq_update. eapply dwp_vq_step; [done..|]. split; [|done]. eapply dev_ok_requeue; [done..| |].
  - intros ? ? ?. apply flight_same, same_rings_disable.
  - intros H E. by eapply lens_same, H, E; apply same_rings_disable.
Qed.

Lemma queue_intr_enable_spec id own evs fl d :
  id <> QUEUE_TX -> dev_ok own evs fl d ->
  dwp (queue_intr_enable device id) (fun rc d' => dev_ok own evs fl d' /\ d_pkts d' = d_pkts d /\
    (rc = 0 \/ rc = 1 /\ ready id d')) d.
Proof.
  intros Hid Hd. destruct (do_queue _ _ _ _ _ Hd id) as (q & vq & la & ow & Hat & _).
  unfold queue_intr_enable. dstep. dstep. case_match; [dstep; auto|].
  dstep. eapply dwp_mono; [by eapply (put_intr_spec id (fun _ => VTVSOCK_INTR_USR_EN))|].
  intros _ d1 (Hd1 & Hk1 & _). dstep. eapply dwp_mono; [by apply intr_enable_spec|].
  intros rc d2 (Hd2 & Hk2 & Hrc). dstep. case_match.
  - eapply dwp_mono; [by eapply (put_intr_spec id (fun q => Z.lor (q_intr_enabled q) VTVSOCK_INTR_EN))|].
    intros _ d3 (Hd3 & Hk3 & Hr3). dstep. split_and!; [done|congruence|].
    destruct Hrc as [?|[? ?]]; [by left|right; auto].
  - dstep. dstep. split_and!; [done|congruence|done].
Qed.

Lemma queue_intr_disable_spec id own evs fl d :
  dev_ok own evs fl d ->
  dwp (queue_intr_disable id) (fun _ d' => dev_ok own evs fl d' /\ d_pkts d' = d_pkts d) d.
Proof.
  intros Hd. unfold queue_intr_disable. dstep. eapply dwp_mono; [by apply vq_disable_spec|].
  intros _ d1 [Hd1 Hk1].
  eapply dwp_mono; [by eapply (put_intr_spec id (fun q => Z.ldiff (q_intr_enabled q) _))|].
  intros _ d2 (Hd2 & Hk2 & _). split; [done|congruence].
Qed.

(** ** The receive queue *)

(** The invariant holds again, and the packets of [own] are untouched. *)
Definition kept own evs d (d' : virtio_vsockdev) : Prop :=
  exists fl', dev_ok own evs fl' d' /\ forall p, p ∈ own -> d_pkts d' !! p = d_pkts d !! p.

Lemma kept_refl own evs fl d : dev_ok own evs fl d -> kept own evs d d.
Proof. intros. by exists fl. Qed.
Lemma kept_trans own evs d d1 d2 : kept own evs d d1 -> kept own evs d1 d2 -> kept own evs d d2.
Proof. intros (? & _ & H1) (fl' & ? & H2). exists fl'. split; [done|]. intros p Hp. by rewrite H2, H1. Qed.
Lemma kept_same own evs fl d d' : dev_ok own evs fl d' -> d_pkts d' = d_pkts d -> kept own evs d d'.
Proof. intros ? E. exists fl. by rewrite E. Qed.

Lemma is_full_get id own evs fl d Φ :
  dev_ok own evs fl d -> (forall vq, Φ vq d) -> dwp (get_vq id) Φ d.
Proof.
  intros Hd HΦ. destruct (do_queue _ _ _ _ _ Hd id) as (q & vq & la & ow & Hat & _). dstep. apply HΦ.
Qed.

(** Putting one described buffer on a queue for the device to write to. *)
Lemma enqueue_buffer_spec id ck buf len own evs own' evs' fl d (k : Z -> M virtio_world Z) Φ :
  dev_ok own evs fl d -> moved id ck own evs own' evs' ->
  0 < len <= 2 ^ 16 -> 0 < buf -> buf + len < 2 ^ 64 -> k 0 = enqueue_sg id ck false ->
  (forall rc d', d_pkts d' = d_pkts d ->
    (0 <= rc /\ dev_ok own' evs' (fl_set id (ck :: fl_of id fl) fl) d') \/ (rc < 0 /\ dev_ok own evs fl d') ->
    Φ rc d') ->
  dwp (rc ← sg_single virt_to_phys vma_advise id buf len; k rc) Φ d.
Proof.
  intros Hd Hmv Hl Hb Hw Hk HΦ.
  destruct (do_queue _ _ _ _ _ Hd id) as (q & vq & la & ow & Hat & Hsg & _).
  dstep. eapply dwp_mono; [eapply sg_single_spec; [done|done|lia..]|].
  intros rc d2 (-> & sg & -> & Hsg' & Hns & _). rewrite Hk.
  assert (Hvq : q_vq (set_sg q sg) = Some vq) by by destruct Hat as (? & ? & ? & ?).
  assert (Hd2 : dev_ok own evs fl (with_queue d id (set_sg q sg))) by by eapply dev_ok_requeue.
  eapply dwp_mono; [eapply (enqueue_sg_spec id ck false); [exact Hd2|done|by eapply queue_at_with|cbn; lia]|].
  intros rc d3 [Hk3 [?|[? Hrc]]]; apply HΦ; try done; [by left|right].
  split; [unfold EINVAL, ENOSPC in *; lia|done].
Qed.

Lemma rxq_enqueue_spec p nb own evs fl d :
  dev_ok (p :: own) evs fl d -> d_pkts d !! p = Some nb -> 0 < nb_len nb ->
  dwp (virtio_vsockdev_rxq_enqueue virt_to_phys vma_advise p) (fun rc d' => d_pkts d' = d_pkts d /\
    ((0 <= rc /\ dev_ok own evs (fl_set QUEUE_RX (p :: fl_rx fl) fl) d') \/
     (rc < 0 /\ dev_ok (p :: own) evs fl d'))) d.
Proof.
  intros Hd Hp Hlen. unfold virtio_vsockdev_rxq_enqueue. dstep. eapply is_full_get; [done|]. intros vq.
  destruct (virtqueue_is_full vq); [dstep; split; [done|]; by right|].
  pose proof (do_pkt _ _ _ _ _ Hd p nb Hp) as [_ _ [B1 _] [R1 R2] E L]. dstep. dstep.
  eapply (enqueue_buffer_spec QUEUE_RX p); [done|by split|lia|lia|lia|done|]. auto.
Qed.

Lemma rxq_fillup_loop_spec n i own evs fl d :
  dev_ok own evs fl d ->
  dwp (rxq_fillup_loop uk_malloc virt_to_phys vma_advise n i)
    (fun r d' => (fst r = 0 \/ fst r = STATUS_UNDERRUN) /\ kept own evs d d') d.
Proof.
  revert i fl d. induction n as [|n IH]; intros i fl d Hd; cbn [rxq_fillup_loop].
  { dstep. split; [by left|]. by eapply kept_refl. }
  dstep. eapply dwp_mono; [by eapply (alloc_pkt_spec PAGE_SIZE 0)|].
  intros [p|] d1 [Hr Hk1]; cycle 1.
  { dstep. split; [by right|]. by exists fl. }
  destruct Hr as (Hd1 & Hno & nb & Hp & Hdata & _ & Hbl). dstep. dstep. unfold PAGE_SIZE in Hbl.
  pose proof (do_pkt _ _ _ _ _ Hd1 p nb Hp) as Hok. rewrite (wrap_small 16) by lia.
  assert (Hd2 : dev_ok (p :: own) evs fl
    (set_pkts (<[p := set_nb_len nb (nb_buflen nb)]> (d_pkts d1)) d1)).
  { apply dev_ok_put; [done|left|]. apply pkt_ok_len; [done|lia|lia]. }
  dstep. dstep. dstep.
  eapply dwp_mono; [eapply rxq_enqueue_spec; [exact Hd2|apply lookup_insert_eq|cbn; lia]|].
  assert (Hk2 : forall p', p' ∈ own -> <[p := set_nb_len nb (nb_buflen nb)]> (d_pkts d1) !! p' = d_pkts d !! p').
  { intros p' Hp'. rewrite lookup_insert_ne; [by apply Hk1|]. by intros <-. }
  intros rc d3 (Hk3 & [[Hrc Hd3]|[Hrc Hd3]]); cbn in Hk3.
  - destruct (Z.ltb_spec rc 0); [lia|]. eapply dwp_mono; [by eapply IH|]. intros r d4 [Hr Hk4].
    split; [done|]. eapply kept_trans, Hk4. eexists. split; [done|]. by rewrite Hk3.
  - destruct (Z.ltb_spec rc 0); [|lia]. dstep. eapply dwp_mono; [by eapply free_pkt_spec|].
    intros _ d4 [Hd4 ->]. dstep. split; [by left|]. exists fl. split; [done|]. intros p' Hp'. cbn.
    rewrite lookup_delete_ne by (by intros <-). rewrite Hk3. auto.
Qed.

Lemma rxq_fillup_spec n notify own evs fl d :
  dev_ok own evs fl d ->
  dwp (virtio_vsockdev_rxq_fillup uk_malloc virt_to_phys vma_advise n notify)
    (fun status d' => (status = 0 \/ status = STATUS_UNDERRUN) /\ kept own evs d d') d.
Proof.
  intros Hd. unfold virtio_vsockdev_rxq_fillup. dstep. eapply dwp_mono; [by eapply rxq_fillup_loop_spec|].
  intros [status i] d1 [Hs (fl1 & Hd1 & Hk1)]. dstep. case_match.
  - eapply dwp_mono; [by eapply notify_spec|]. intros _ d2 [Hd2 Hk2]. dstep. split; [done|].
    exists fl1. by rewrite Hk2.
  - dstep. dstep. split; [done|]. by exists fl1.
Qed.

(** A packet handed to the caller: its bytes are what the device reported. *)
Definition received own evs p (d' : virtio_vsockdev) : Prop :=
  (exists fl', dev_ok (p :: own) evs fl' d') /\
  exists nb, d_pkts d' !! p = Some nb /\ sizeof_hdr <= nb_len nb.

Lemma received_kept own evs p d d' :
  received own evs p d -> kept (p :: own) evs d d' -> received own evs p d'.
Proof.
  intros (_ & nb & Hp & Hl) (fl' & Hd' & Hk). split; [by exists fl'|]. exists nb. rewrite Hk; [done|left].
Qed.

(** Some packets, but none for the caller. *)
Definition idle (d' : virtio_vsockdev) : Prop := exists own evs fl, dev_ok own evs fl d'.

Lemma rxq_dequeue_spec own evs fl d :
  dev_ok own evs fl d ->
  dwp virtio_vsockdev_rxq_dequeue (fun r d' =>
    match r with
    | (rc, None) => (~ ready QUEUE_RX d /\ d' = d) \/ (rc < 0 /\ idle d')
    | (rc, Some p) => 0 <= rc /\ received own evs p d'
    end) d.
Proof.
  intros Hd. unfold virtio_vsockdev_rxq_dequeue. dstep.
  eapply dwp_mono; [by eapply (dequeue_spec QUEUE_RX)|].
  intros r d1 [(Hno & -> & ->)|(rc & ck & len & l & own' & evs' & -> & Hrc & Hp & [-> ->] & Hd1 & Hk & Hl)].
  { replace (- ENOMSG <? 0) with true by done.
    destruct (do_queue _ _ _ _ _ Hd QUEUE_RX) as (q & vq & la & ow & Hat & _). dstep. dstep. dstep. by left. }
  destruct (Z.ltb_spec rc 0); [lia|]. specialize (Hl eq_refl).
  destruct (dev_ok_owned _ _ _ _ _ ck Hd1) as (nb & Hnb & Hok); [left|].
  dstep. apply dwp_some. dstep. apply dwp_some. dstep. dstep.
  destruct (Z.ltb_spec (nb_len nb) len) as [Hlt|Hge].
  { dstep. right. split; [done|]. by do 3 eexists. }
  pose proof Hok as [_ _ _ [R1 R2] _ L]. unfold sizeof_hdr in Hl. rewrite wrap_small by lia.
  dstep. dstep. dstep. split; [done|]. split.
  - eexists. apply dev_ok_put; [done|left|]. apply pkt_ok_len; [done|lia|lia].
  - eexists. cbn. rewrite lookup_insert_eq. split; [done|]. cbn. done.
Qed.

(** After a dequeue the queue is filled up again. *)
Lemma refill_spec q vq rc own evs fl d Φ (k : Z -> M virtio_world (Z * option positive)) :
  dev_ok own evs fl d -> queue_at d QUEUE_RX q vq ->
  (forall fill d', (fill = 0 \/ fill = STATUS_UNDERRUN) -> kept own evs d d' -> dwp (k fill) Φ d') ->
  dwp (q ← get_queue QUEUE_RX;
       fill ← virtio_vsockdev_rxq_fillup uk_malloc virt_to_phys vma_advise (u16 (q_nb_desc q - rc)) true;
       k fill) Φ d.
Proof.
  intros Hd Hat Hk. dstep. dstep. dstep. eapply dwp_mono; [by eapply rxq_fillup_spec|].
  intros fill d1 [Hf Hk1]. by apply Hk.
Qed.

Lemma queue_exists id own evs fl d : dev_ok own evs fl d -> exists q vq, queue_at d id q vq.
Proof. intros Hd. destruct (do_queue _ _ _ _ _ Hd id) as (q & vq & ? & ? & ? & _). eauto. Qed.

(** What a receiving function tells its caller, whose buffer then satisfies
    [held]. *)
Definition recv_post (held : positive -> virtio_vsockdev -> Prop) (r : Z * option positive)
    (d' : virtio_vsockdev) : Prop :=
  match r with
  | (status, None) => idle d' /\ (0 <= status -> flag_set status STATUS_SUCCESS = false)
  | (status, Some p) => held p d' /\ 0 <= status /\ flag_set status STATUS_SUCCESS = true
  end.

(** The status words. *)
Lemma recv_flags (held : positive -> virtio_vsockdev -> Prop) p fill more d :
  held p d -> fill = 0 \/ fill = STATUS_UNDERRUN -> more = 0 \/ more = STATUS_MORE ->
  recv_post held (Z.lor (Z.lor STATUS_SUCCESS fill) more, Some p) d.
Proof. intros Hr [-> | ->] [-> | ->]; by split. Qed.
Lemma recv_none (held : positive -> virtio_vsockdev -> Prop) fill d :
  idle d -> fill = 0 \/ fill = STATUS_UNDERRUN -> recv_post held (Z.lor (Z.lor 0 fill) 0, None) d.
Proof. intros Hr [-> | ->]; by split. Qed.
Lemma fills_join fill fill' :
  fill = 0 \/ fill = STATUS_UNDERRUN -> fill' = 0 \/ fill' = STATUS_UNDERRUN ->
  exists f, Z.lor (Z.lor (Z.lor 0 fill) STATUS_SUCCESS) fill' = Z.lor STATUS_SUCCESS f /\
    (f = 0 \/ f = STATUS_UNDERRUN).
Proof. intros [-> | ->] [-> | ->]; [by exists 0; auto|by exists STATUS_UNDERRUN; auto..]. Qed.

Lemma more_flag rc : (if rc =? 1 then STATUS_MORE else 0) = 0 \/ (if rc =? 1 then STATUS_MORE else 0) = STATUS_MORE.
Proof. case_match; auto. Qed.

(** The second attempt, when enabling interrupts has found a completion. *)
Lemma recv_again fill0 own evs fl d :
  dev_ok own evs fl d -> ready QUEUE_RX d -> fill0 = 0 \/ fill0 = STATUS_UNDERRUN ->
  dwp (r ← virtio_vsockdev_rxq_dequeue;
       let '(rc, pkt) := r in
       if rc <? 0 then mret (rc, pkt)
       else
         q ← get_queue QUEUE_RX;
         fill ← virtio_vsockdev_rxq_fillup uk_malloc virt_to_phys vma_advise (u16 (q_nb_desc q - rc)) true;
         let status := Z.lor (Z.lor (Z.lor 0 fill0) STATUS_SUCCESS) fill in
         rc ← intr_enable device QUEUE_RX;
         mret (Z.lor status (if rc =? 1 then STATUS_MORE else 0), pkt)) (recv_post (received own evs)) d.
Proof.
  intros Hd Hready Hfill. dstep. eapply dwp_mono; [by eapply rxq_dequeue_spec|].
  intros [rc3 [p|]] d4; cycle 1.
  { intros [[Hn _]|[Hlt Hi]]; [done|]. destruct (Z.ltb_spec rc3 0); [|lia]. dstep. split; [done|lia]. }
  intros (Hrc3 & Hr). destruct (Z.ltb_spec rc3 0); [lia|]. pose proof Hr as [(fl4 & Hd4) _].
  destruct (queue_exists QUEUE_RX _ _ _ _ Hd4) as (q4 & vq4 & Hat4).
  eapply refill_spec; [done..|]. intros fill' d5 Hfill' Hk5.
  pose proof (received_kept _ _ _ _ _ Hr Hk5) as Hr5. destruct Hk5 as (fl5 & Hd5 & _).
  dstep. eapply dwp_mono; [by eapply intr_enable_spec|]. intros rc6 d6 (Hd6 & Hk6 & _). dstep.
  destruct (fills_join fill0 fill') as (f & -> & Hf); [done..|].
  apply recv_flags; [|done|apply more_flag]. eapply received_kept; [done|by eapply kept_same].
Qed.

Lemma recv_spec own evs fl d :
  dev_ok own evs fl d ->
  dwp (virtio_vsockdev_recv uk_malloc virt_to_phys vma_advise device) (recv_post (received own evs)) d.
Proof.
  intros Hd. unfold virtio_vsockdev_recv. dstep. eapply dwp_mono; [by eapply rxq_dequeue_spec|].
  intros [rc [p|]] d1.
  - intros (Hrc & Hr). destruct (Z.ltb_spec rc 0); [lia|]. pose proof Hr as [(fl1 & Hd1) _].
    destruct (queue_exists QUEUE_RX _ _ _ _ Hd1) as (q & vq & Hat).
    eapply refill_spec; [done..|]. intros fill d2 Hfill Hk2.
    pose proof (received_kept _ _ _ _ _ Hr Hk2) as Hr2. destruct Hk2 as (fl2 & Hd2 & _).
    destruct (queue_exists QUEUE_RX _ _ _ _ Hd2) as (q2 & vq2 & Hat2). dstep. dstep. case_match.
    { dstep. apply recv_flags; auto. }
    dstep. eapply dwp_mono; [by eapply intr_enable_spec|]. intros rc' d3 (Hd3 & Hk3 & _).
    rewrite bool_decide_eq_true_2, orb_true_r by eauto. dstep.
    apply recv_flags; [|done|apply more_flag]. eapply received_kept; [done|by eapply kept_same].
  - intros [[Hno ->]|[Hrc Hi]]; cycle 1.
    { destruct (Z.ltb_spec rc 0); [|lia]. dstep. split; [done|lia]. }
    destruct (Z.ltb_spec rc 0). { dstep. split; [by do 3 eexists|lia]. }
    destruct (queue_exists QUEUE_RX _ _ _ _ Hd) as (q & vq & Hat).
    eapply refill_spec; [done..|]. intros fill d2 Hfill (fl2 & Hd2 & _).
    destruct (queue_exists QUEUE_RX _ _ _ _ Hd2) as (q2 & vq2 & Hat2). dstep. dstep. case_match.
    { dstep. apply recv_none; [by do 3 eexists|done]. }
    dstep. eapply dwp_mono; [by eapply intr_enable_spec|]. intros rc' d3 (Hd3 & Hk3 & Hrc').
    rewrite bool_decide_eq_false_2, orb_false_r by (by intros []). destruct (Z.eqb_spec rc' 0) as [->|Hz].
    { dstep. apply recv_none; [by do 3 eexists|done]. }
    destruct Hrc' as [?|[-> Hready]]; [done|]. by eapply recv_again.
Qed.

(** ** The event queue *)

Definition ev_kept own evs (d' : virtio_vsockdev) : Prop := exists fl', dev_ok own evs fl' d'.

Lemma evq_enqueue_spec e addr own evs fl d :
  dev_ok own (e :: evs) fl d -> 0 < addr -> addr + sizeof_event < 2 ^ 64 ->
  dwp (virtio_vsockdev_evq_enqueue virt_to_phys vma_advise e addr) (fun rc d' =>
    (0 <= rc /\ dev_ok own evs (fl_set QUEUE_EVENT (e :: fl_ev fl) fl) d') \/
    (rc < 0 /\ dev_ok own (e :: evs) fl d')) d.
Proof.
  unfold sizeof_event. intros Hd Ha Hw. unfold virtio_vsockdev_evq_enqueue. dstep.
  eapply is_full_get; [done|]. intros vq. destruct (virtqueue_is_full vq); [dstep; by right|].
  eapply (enqueue_buffer_spec QUEUE_EVENT e); [done|by split|done|done|done|done|]. auto.
Qed.

Lemma evq_fillup_loop_spec n i own evs fl d :
  dev_ok own evs fl d ->
  dwp (evq_fillup_loop uk_malloc virt_to_phys vma_advise n i)
    (fun r d' => (fst r = 0 \/ fst r = STATUS_UNDERRUN) /\ ev_kept own evs d') d.
Proof.
  revert i fl d. induction n as [|n IH]; intros i fl d Hd; cbn [evq_fillup_loop].
  { dstep. split; [by left|]. by exists fl. }
  dstep. eapply dwp_mono; [by eapply malloc_spec|]. intros [[addr bytes]|] d1 (Hd1 & _ & _ & Hblk); cycle 1.
  { dstep. split; [by right|]. by exists fl. }
  destruct Hblk as (M1 & _ & M3 & _). dstep. dstep. dstep. dstep.
  dstep. eapply dwp_mono; [eapply evq_enqueue_spec; [apply dev_ok_ev_new; [done|]|done|done]|].
  { apply not_elem_of_dom, is_fresh. }
  intros rc d2 [[Hrc Hd2]|[Hrc Hd2]].
  - destruct (Z.ltb_spec rc 0); [lia|]. by eapply IH.
  - destruct (Z.ltb_spec rc 0); [|lia]. dstep. unfold free_event. dstep. dstep. split; [by left|].
    exists fl. by apply dev_ok_ev_delete.
Qed.

Lemma evq_fillup_spec n notify own evs fl d :
  dev_ok own evs fl d ->
  dwp (virtio_vsockdev_evq_fillup uk_malloc virt_to_phys vma_advise n notify)
    (fun status d' => (status = 0 \/ status = STATUS_UNDERRUN) /\ ev_kept own evs d') d.
Proof.
  intros Hd. unfold virtio_vsockdev_evq_fillup. dstep. eapply dwp_mono; [by eapply evq_fillup_loop_spec|].
  intros [status i] d1 [Hs (fl1 & Hd1)]. dstep. case_match.
  - eapply dwp_mono; [by eapply notify_spec|]. intros _ d2 [Hd2 _]. dstep. split; [done|]. by exists fl1.
  - dstep. dstep. split; [done|]. by exists fl1.
Qed.

Lemma evq_dequeue_spec own evs fl d :
  dev_ok own evs fl d ->
  dwp virtio_vsockdev_evq_dequeue (fun r d' =>
    match r with
    | (rc, None) => (~ ready QUEUE_EVENT d /\ d' = d) \/ (rc < 0 /\ idle d')
    | (rc, Some e) => 0 <= rc /\ ev_kept own (e :: evs) d'
    end) d.
Proof.
  intros Hd. unfold virtio_vsockdev_evq_dequeue. dstep.
  eapply dwp_mono; [by eapply (dequeue_spec QUEUE_EVENT)|].
  intros r d1 [(Hno & -> & ->)|(rc & ck & len & l & own' & evs' & -> & Hrc & Hp & [-> ->] & Hd1 & Hk & _)].
  { replace (- ENOMSG <? 0) with true by done.
    destruct (queue_exists QUEUE_EVENT _ _ _ _ Hd) as (q & vq & Hat). dstep. dstep. dstep. by left. }
  destruct (Z.ltb_spec rc 0); [lia|]. dstep. apply dwp_some. case_match; dstep.
  - right. split; [done|]. by do 3 eexists.
  - split; [done|]. by eexists.
Qed.

Lemma ev_refill_spec rc own evs fl d Φ (k : Z -> M virtio_world (Z * option positive)) :
  dev_ok own evs fl d ->
  (forall fill d', (fill = 0 \/ fill = STATUS_UNDERRUN) -> ev_kept own evs d' -> dwp (k fill) Φ d') ->
  dwp (q ← get_queue QUEUE_EVENT;
       fill ← virtio_vsockdev_evq_fillup uk_malloc virt_to_phys vma_advise (u16 (q_nb_desc q - rc)) true;
       k fill) Φ d.
Proof.
  intros Hd Hk. destruct (queue_exists QUEUE_EVENT _ _ _ _ Hd) as (q & vq & Hat).
  dstep. dstep. dstep. eapply dwp_mono; [by eapply evq_fillup_spec|]. intros fill d1 [Hf Hk1]. by apply Hk.
Qed.

Lemma evq_again fill0 own evs fl d :
  dev_ok own evs fl d -> ready QUEUE_EVENT d -> fill0 = 0 \/ fill0 = STATUS_UNDERRUN ->
  dwp (r ← virtio_vsockdev_evq_dequeue;
       let '(rc, event) := r in
       if rc <? 0 then mret (rc, event)
       else
         q ← get_queue QUEUE_EVENT;
         fill ← virtio_vsockdev_evq_fillup uk_malloc virt_to_phys vma_advise (u16 (q_nb_desc q - rc)) true;
         let status := Z.lor (Z.lor (Z.lor 0 fill0) STATUS_SUCCESS) fill in
         rc ← intr_enable device QUEUE_EVENT;
         mret (Z.lor status (if rc =? 1 then STATUS_MORE else 0), event))
    (recv_post (fun e => ev_kept own (e :: evs))) d.
Proof.
  intros Hd Hready Hfill. dstep. eapply dwp_mono; [by eapply evq_dequeue_spec|].
  intros [rc3 [e|]] d4; cycle 1.
  { intros [[Hn _]|[Hlt Hi]]; [done|]. destruct (Z.ltb_spec rc3 0); [|lia]. dstep. split; [done|lia]. }
  intros (Hrc3 & fl4 & Hd4). destruct (Z.ltb_spec rc3 0); [lia|].
  eapply ev_refill_spec; [done|]. intros fill' d5 Hfill' (fl5 & Hd5).
  dstep. eapply dwp_mono; [by eapply intr_enable_spec|]. intros rc6 d6 (Hd6 & _). dstep.
  destruct (fills_join fill0 fill') as (f & -> & Hf); [done..|].
  apply recv_flags; [by exists fl5|done|apply more_flag].
Qed.

Lemma evq_recv_spec own evs fl d :
  dev_ok own evs fl d ->
  dwp (virtio_vsockdev_evq_recv uk_malloc virt_to_phys vma_advise device)
    (recv_post (fun e => ev_kept own (e :: evs))) d.
Proof.
  intros Hd. unfold virtio_vsockdev_evq_recv. dstep. eapply dwp_mono; [by eapply evq_dequeue_spec|].
  intros [rc [e|]] d1.
  - intros (Hrc & fl1 & Hd1). destruct (Z.ltb_spec rc 0); [lia|].
    eapply ev_refill_spec; [done..|]. intros fill d2 Hfill (fl2 & Hd2).
    destruct (queue_exists QUEUE_EVENT _ _ _ _ Hd2) as (q2 & vq2 & Hat2). dstep. dstep. case_match.
    { dstep. apply recv_flags; [by exists fl2|auto..]. }
    dstep. eapply dwp_mono; [by eapply intr_enable_spec|]. intros rc' d3 (Hd3 & Hk3 & _).
    rewrite bool_decide_eq_true_2, orb_true_r by eauto. dstep.
    apply recv_flags; [by exists fl2|done|apply more_flag].
  - intros [[Hno ->]|[Hrc Hi]]; cycle 1.
    { destruct (Z.ltb_spec rc 0); [|lia]. dstep. split; [done|lia]. }
    destruct (Z.ltb_spec rc 0). { dstep. split; [by do 3 eexists|lia]. }
    eapply ev_refill_spec; [done..|]. intros fill d2 Hfill (fl2 & Hd2).
    destruct (queue_exists QUEUE_EVENT _ _ _ _ Hd2) as (q2 & vq2 & Hat2). dstep. dstep. case_match.
    { dstep. apply recv_none; [by do 3 eexists|done]. }
    dstep. eapply dwp_mono; [by eapply intr_enable_spec|]. intros rc' d3 (Hd3 & Hk3 & Hrc').
    rewrite bool_decide_eq_false_2, orb_false_r by (by intros []). destruct (Z.eqb_spec rc' 0) as [->|Hz].
    { dstep. apply recv_none; [by do 3 eexists|done]. }
    destruct Hrc' as [?|[-> Hready]]; [done|]. by eapply evq_again.
Qed.
End receive.
