(* ===== verification/VirtioWork.v ===== *)
(** * The workers of the virtio vsock driver

    The functions that the two dispatcher threads of
    drivers/virtio/vsock/virtio_vsock.c run when a queue has something for
    them: handling one received packet or one event, and the loops around
    that.  The proofs show that nothing a device puts into a receive buffer,
    as long as it is at least a header, makes the driver or the socket layer
    fail. *)

From stdpp Require Import prelude gmap sorting.
From S2P Require Import Prelude Tree VsockBuffer Netbuf NetbufHeap Sglist Vring VringUse Vsock.
From S2P Require Import VsockTable VsockLogic VsockCore VsockSocket VsockStream QuietDriver VsockSystem.
From S2P Require Import VirtioVsock VirtioLogic VirtioTx VirtioDriver VirtioRx.

#[local] Abbreviation MW := (M virtio_world).

(** ** The workers *)

Section workers.
Context (uk_malloc : nat -> Z -> option (Z * list Z)).
Context (virt_to_phys : Z -> Z) (vma_advise : Z -> Z -> Z).
Context (device : vring -> vring).
Context (uk_sched_yield : MW unit).
(** The migration callback of the device. *)
Context (sysmigration : MW Z).
#[local] Abbreviation ops := (virtio_vsockdev_ops uk_malloc virt_to_phys vma_advise uk_sched_yield).

Definition virtio_vsockdev_work_conn_request (i : positive) (hdr : virtio_vsock_hdr) : MW Z :=
  block ← malloc uk_malloc sizeof_accept_entry;
  match block with
  | None => mret (- ENOMEM)
  | Some _ =>
      e ← new_entry (mk_addr (u32 (h_src_cid hdr)) (h_src_port hdr))
            (mk_ventry (h_buf_alloc hdr) (h_fwd_cnt hdr));
      rc ← uk_vsock_conn_request i e;
      if negb (rc =? 0) then
        virtio_vsockdev_reject_conn uk_malloc virt_to_phys vma_advise uk_sched_yield i e;;
        free_entry e;;
        mret (if rc =? - ECONNREFUSED then 0 else rc)
      else mret 0
  end.

(** The socket type of a packet type. *)
Definition sock_type_of (type : Z) : option Z :=
  if type =? VIRTIO_VSOCK_TYPE_STREAM then Some SOCK_STREAM
  else if type =? VIRTIO_VSOCK_TYPE_SEQPACKET then Some SOCK_SEQPACKET
  else None.

(** The credit information of a packet. *)
Definition update_credit (i : positive) (hdr : virtio_vsock_hdr) : MW unit :=
  if negb (h_op hdr =? VIRTIO_VSOCK_OP_REQUEST) && negb (h_op hdr =? UK_VSOCK_STATE_LISTENING) then
    put_vs i (fun vs => mk_vs (vs_type vs) (h_buf_alloc hdr) (h_fwd_cnt hdr) (vs_tx_count vs));;
    vs ← get_vs i;
    uk_vsock_notify_writable i (0 <? virtio_vsock_peer_rx_free vs)
  else mret tt.

(** The handler of a packet for the socket [i]; [nb] is the packet behind its
    header. *)
Definition handle_packet (i : positive) (hdr : virtio_vsock_hdr) (nb : uk_netbuf) : MW Z :=
  update_credit i hdr;;
  s ← get_sock i;
  let op := h_op hdr in
  if bool_decide (v_state s = LISTENING) then
    if op =? VIRTIO_VSOCK_OP_REQUEST then virtio_vsockdev_work_conn_request i hdr else mret 1
  else if op =? VIRTIO_VSOCK_OP_REQUEST then mret 1
  else if op =? VIRTIO_VSOCK_OP_RESPONSE then uk_vsock_conn_response ops i
  else if op =? VIRTIO_VSOCK_OP_RST then uk_vsock_conn_reset ops i
  else if op =? VIRTIO_VSOCK_OP_SHUTDOWN then
    uk_vsock_conn_shutdown ops i (flag_set (h_flags hdr) VIRTIO_VSOCK_SHUTDOWN_F_RECEIVE)
      (flag_set (h_flags hdr) VIRTIO_VSOCK_SHUTDOWN_F_SEND)
  else if op =? VIRTIO_VSOCK_OP_RW then
    payload ← deref (fun _ => nb_payload nb); uk_vsock_rx_payload i [payload]
  else if op =? VIRTIO_VSOCK_OP_CREDIT_REQUEST then
    virtio_vsock_work_credit_request uk_malloc virt_to_phys vma_advise uk_sched_yield i
  else mret 1.

(** From the check of the length to the end of the switch: the value of [rc]
    at the label [out_free]. *)
Definition dispatch_packet (hdr : virtio_vsock_hdr) (nb : uk_netbuf) : MW Z :=
  if nb_len nb <? h_len hdr then mret 1
  else
    cid ← get_dev d_cid;
    if negb (h_dst_cid hdr =? cid) then mret 1
    else
      match sock_type_of (h_type hdr) with
      | None => mret 1
      | Some socket_type =>
          sock ← uk_vsock_lookup socket_type (mk_addr (u32 (h_dst_cid hdr)) (h_dst_port hdr))
                   (mk_addr (u32 (h_src_cid hdr)) (h_src_port hdr));
          match sock with
          | None => mret 1
          | Some i => handle_packet i hdr nb
          end
      end.

(** What happens to a packet taken from the receive queue. *)
Definition process_packet (pkt : positive) : MW Z :=
  nb ← get_pkt pkt;
  r ← deref (fun _ => uk_netbuf_header nb (- sizeof_hdr));
  let '(rc, nb') := r in
  put_pkt pkt nb';;
  UK_ASSERT (rc =? 1);;
  hdr ← deref (fun _ => nb_read nb sizeof_hdr);
  rc ← dispatch_packet (decode_hdr hdr) nb';
  free_pkt pkt;;
  mret (if rc <? 0 then rc else 1).

Definition virtio_vsockdev_work_rx : MW Z :=
  r ← virtio_vsockdev_recv uk_malloc virt_to_phys vma_advise device;
  let '(status, pkt) := r in
  if status <? 0 then mret status
  else if negb (flag_set status STATUS_SUCCESS) then mret 0
  else
    pkt ← deref (fun _ => pkt);
    process_packet pkt.

Definition virtio_vsockdev_work_evq : MW Z :=
  r ← virtio_vsockdev_evq_recv uk_malloc virt_to_phys vma_advise device;
  let '(status, ev) := r in
  if status <? 0 then mret status
  else if negb (flag_set status STATUS_SUCCESS) then mret 0
  else
    ev ← deref (fun _ => ev);
    x ← deref (fun w : virtio_world => d_events (w_drv w) !! ev);
    rc ← (if ev_id x =? VIRTIO_VSOCK_EVENT_TRANSPORT_RESET
          then uk_vsockdev_transport_reset ops sysmigration else mret 0);
    free_event ev;;
    mret (if rc <? 0 then rc else 1).

(** The inner loop of a worker, [done] of a batch being finished; [n] bounds
    the iterations. *)
Fixpoint work_batch (work : MW Z) (n : nat) (done : Z) : MW unit :=
  if negb (done <? Z.of_nat work_batch_size) then mret tt
  else
    match n with
    | O => out_of_fuel
    | S n =>
        rc ← work;
        if rc <? 0 then
          if negb (rc =? - ENOMEM) then mret tt
          else
            uk_sched_yield;;
            rc ← work;
            work_batch work n (if rc <? 0 then done else done + 1)
        else if rc =? 0 then mret tt
        else work_batch work n (done + 1)
    end.
(** The outer loop, until enabling interrupts finds the queue empty. *)
Fixpoint work_loop (work intr_enable : MW Z) (n : nat) : MW unit :=
  match n with
  | O => out_of_fuel
  | S n =>
      work_batch work n 0;;
      queue_non_empty ← intr_enable;
      if queue_non_empty =? 0 then mret tt else work_loop work intr_enable n
  end.
Definition virtio_vsockdev_rx_work (n : nat) : MW unit :=
  virtio_vsockdev_rx_intr_disable;;
  work_loop virtio_vsockdev_work_rx (virtio_vsockdev_rx_intr_enable device) n.
Definition virtio_vsockdev_ev_work (n : nat) : MW unit :=
  virtio_vsockdev_evq_intr_disable;;
  work_loop virtio_vsockdev_work_evq (virtio_vsockdev_evq_intr_enable device) n.
End workers.

(** ** Handling a packet *)

(** The state of the core between two packets. *)
Definition settled (cid : Z) (c : core_state) : Prop := core_inv cid c /\ all_attached c.

(** Sockets that are in the table keep their file. *)
Lemma settled_update cid c c' :
  settled cid c -> core_inv cid c' ->
  (forall j sj, c_socks c' !! j = Some sj ->
    c_socks c !! j = Some sj \/ is_Some (v_posix_sock sj) \/ in_table (v_state sj) = false) ->
  settled cid c'.
Proof.
  intros [Hc Ha] Hc' H. split; [done|]. intros j sj Hj Hs.
  destruct (H j sj Hs) as [Hs0|[?|Hf]]; [|done|].
  - apply (Ha j sj); [|done]. by apply (ci_member _ _ Hc j sj), (ci_member _ _ Hc' j sj).
  - apply (ci_member _ _ Hc' j sj Hs) in Hj. congruence.
Qed.

Lemma settled_file cid ps al al' c :
  settled cid c -> c_psocks c !! ps = Some al -> al_node al' = al_node al -> settled cid (c_file ps al' c).
Proof.
  intros Hc Hp Ha. eapply settled_update; [done|by eapply core_inv_file, Ha; [apply Hc|]|]. auto.
Qed.

Lemma settled_put cid i s ps c c' :
  settled cid c -> core_inv cid c' -> c_socks c' = <[i := s]> (c_socks c) ->
  v_posix_sock s = Some ps -> settled cid c'.
Proof.
  intros Hc Hc' Hs Hp. eapply settled_update; [done..|]. intros j sj. rewrite Hs, lookup_insert_Some.
  intros [[<- <-]|[_ ?]]; eauto.
Qed.

Lemma settled_closed cid i s ps al c c' c0 :
  settled cid c0 -> close_post cid i s ps al c c' -> c_socks c = <[i := s]> (c_socks c0) -> settled cid c'.
Proof.
  intros Hc [Hc' [t ->]] Hs. eapply settled_update; [done..|]. intros j sj. rewrite closed_socks.
  case_decide; [intros [= <-]; auto|]. rewrite Hs, lookup_insert_ne by done. auto.
Qed.

Section worker_proofs.
Context `{!Allocator uk_malloc, !PageMap virt_to_phys, !Mapped vma_advise, !Progress uk_sched_yield}.
Context `{!DeviceStep device}.
Context {cid : Z} {held hev : list positive}.
Abbreviation dev_ok := (VirtioLogic.dev_ok cid).
Abbreviation vwp := (cwp (virtio_inv (cid := cid) held hev)).
Abbreviation ops := (virtio_vsockdev_ops uk_malloc virt_to_phys vma_advise uk_sched_yield).
Abbreviation settled := (settled cid).

Lemma vwp_put_vs i f s (Φ : unit -> core_state -> Prop) c :
  c_socks c !! i = Some s -> Φ tt c -> vwp (put_vs i f) Φ c.
Proof.
  intros Hs HΦ w <- Hd. cbn in Hs. unfold vsocks in Hs. rewrite lookup_fmap in Hs.
  unfold wp, put_vs. destruct (w_socks w !! i) as [[s' vs]|] eqn:Hi; [|done]. split; [done|].
  assert (core (set_socks (<[i := (s', f vs)]> (w_socks w)) w) = core w) as ->; [|done].
  unfold core, vsocks. cbn. rewrite fmap_insert, insert_id; [done|]. by rewrite lookup_fmap, Hi.
Qed.

(** Only the event EPOLLOUT of the file can change. *)
Definition credit_events (ps : positive) (al : socket_alloc) (c c' : core_state) : Prop :=
  c' = c \/ c' = c_file ps (raise EPOLLOUT al) c \/ c' = c_file ps (lower EPOLLOUT al) c.

Lemma update_credit_spec i hdr s ps al c :
  attached c i s ps al -> vwp (update_credit i hdr) (fun _ => credit_events ps al c) c.
Proof.
  intros [Hs Hps Hal]. unfold update_credit. case_match; [|cstep; by left].
  cstep. eapply vwp_put_vs; [done|]. cstep. eapply vwp_get_vs; [done|]. intros vs.
  unfold uk_vsock_notify_writable. cstep. cstep. rewrite Hps. case_match; cstep; right; auto.
Qed.

Lemma credit_settled i s ps al c c' :
  settled c -> attached c i s ps al -> credit_events ps al c c' ->
  settled c' /\ exists al', attached c' i s ps al' /\ al_node al' = al_node al.
Proof.
  intros Hc [Hs Hps Hal] He. unfold credit_events in He. destruct_or! He; subst c'.
  - split; [done|]. by exists al.
  - split; [by eapply settled_file|]. exists (raise EPOLLOUT al). split; [|done].
    split; [done..|]. apply lookup_insert_eq.
  - split; [by eapply settled_file|]. exists (lower EPOLLOUT al). split; [|done].
    split; [done..|]. apply lookup_insert_eq.
Qed.

Lemma work_conn_request_spec i hdr s ps al c :
  settled c -> attached c i s ps al ->
  vwp (virtio_vsockdev_work_conn_request uk_malloc virt_to_phys vma_advise uk_sched_yield i hdr)
    (fun _ => settled) c.
Proof.
  intros Hc Hat. pose proof Hat as [Hs Hps Hal]. unfold virtio_vsockdev_work_conn_request.
  cstep. apply vwp_malloc. intros [block|] _; [|by cstep]. cstep. apply cwp_new_entry; [done|].
  intros e He. set (a := mk_addr _ _). assert (Hc1 : core_inv cid (c_entry e a c)).
  { eapply environment_inv; [apply Hc|by constructor]. }
  cstep. eapply cwp_mono; [eapply (uk_vsock_conn_request_spec _ cid ops max_payload i s ps al e); [done|by split| |]|].
  { eexists. apply lookup_insert_eq. }
  { intros j sj Hj Hin. destruct (so_entries _ _ _ (ci_sock _ _ (proj1 Hc) _ _ Hj) e Hin) as [x Hx].
    congruence. }
  intros rc c2 [Hc2 Hpost]. case_decide.
  - destruct Hpost as [-> ->]. cbn [Z.eqb negb]. cstep. by eapply settled_put.
  - destruct Hpost as [-> ->]. cstep. cstep.
    eapply reject_conn_spec; [done|apply lookup_insert_eq|]. cstep. apply cwp_free_entry; [done|]. cstep.
    assert (c_free e (c_entry e a c) = c) as ->; [|done].
    unfold c_free, c_entry. cbn. rewrite delete_insert_id by done. by destruct c.
Qed.

(** The packets of a connection. *)
Lemma response_settled i s ps al c :
  settled c -> attached c i s ps al -> vwp (uk_vsock_conn_response ops i) (fun _ => settled) c.
Proof.
  intros Hc Hat. pose proof Hat as [Hs Hps Hal].
  eapply cwp_mono; [eapply uk_vsock_conn_response_spec; [apply _|apply Hc|done]|].
  intros rc c' [Hc' Hpost]. case_decide.
  - destruct Hpost as [_ ->]. by eapply settled_put.
  - destruct Hpost as [_ [->|[_ Hcl]]]; [done|]. eapply settled_closed; [done|done|]. by rewrite insert_id.
Qed.

Lemma reset_settled i s ps al c :
  settled c -> attached c i s ps al -> vwp (uk_vsock_conn_reset ops i) (fun _ => settled) c.
Proof.
  intros Hc Hat. pose proof Hat as [Hs Hps Hal].
  eapply cwp_mono; [eapply uk_vsock_conn_reset_spec; [apply _|apply Hc|done]|].
  intros rc c' [Hc' Hpost]. cbv zeta in Hpost. destruct (v_state s).
  all: decompose_ex Hpost; try (subst c'; by eapply settled_file).
  - destruct Hpost as [[_ ->]|(_ & t & ->)]; by eapply settled_put.
  - subst c'. by eapply settled_put.
Qed.

Lemma shutdown_settled i rx tx s ps al c :
  settled c -> attached c i s ps al -> vwp (uk_vsock_conn_shutdown ops i rx tx) (fun _ => settled) c.
Proof.
  intros Hc Hat. pose proof Hat as [Hs Hps Hal].
  eapply cwp_mono; [eapply uk_vsock_conn_shutdown_spec; [apply _|apply Hc|done]|].
  intros rc c' [Hc' Hpost]. assert (Hp1 : v_posix_sock (shut rx tx s) = Some ps) by by destruct rx, tx.
  case_decide; [|by destruct Hpost as [_ ->]]. cbv zeta in Hpost. case_match.
  - destruct Hpost as [[_ ->]|[_ Hcl]]; [by eapply settled_put|]. by eapply settled_closed.
  - destruct Hpost as [_ ->]. by eapply settled_put.
Qed.

Lemma payload_settled i packet s ps al c :
  settled c -> attached c i s ps al -> Forall (fun nb => zlen nb < 2 ^ 16) packet ->
  vwp (uk_vsock_rx_payload i packet) (fun _ => settled) c.
Proof.
  intros Hc Hat Hf. pose proof Hat as [Hs Hps Hal].
  eapply cwp_mono; [eapply uk_vsock_rx_payload_spec; [apply Hc|done|done]|].
  intros rc c' [Hc' Hpost]. case_decide; [|by destruct Hpost as [_ ->]].
  case_match; [|by destruct Hpost as [_ ->]]. destruct Hpost as (_ & rx & -> & _). by eapply settled_put.
Qed.

Lemma credit_request_settled i s ps al c :
  settled c -> attached c i s ps al ->
  vwp (virtio_vsock_work_credit_request uk_malloc virt_to_phys vma_advise uk_sched_yield i) (fun _ => settled) c.
Proof.
  intros Hc [Hs _ _]. eapply cwp_mono; [exact (law_send_credit_update _ cid (ops := ops) _ i s c eq_refl Hs)|].
  by intros ? ? ->.
Qed.

Lemma handle_packet_spec i hdr nb s ps al c :
  settled c -> attached c i s ps al -> pkt_ok nb ->
  vwp (handle_packet uk_malloc virt_to_phys vma_advise uk_sched_yield i hdr nb) (fun _ => settled) c.
Proof.
  intros Hc0 Hat0 [_ _ [_ Hm] [R1 R2] _ Hlen]. unfold handle_packet. cstep.
  eapply cwp_mono; [by eapply update_credit_spec|]. intros ? c1 Hev.
  destruct (credit_settled _ _ _ _ _ _ Hc0 Hat0 Hev) as (Hc & al' & Hat & _). pose proof Hat as [Hs _ _].
  cstep. cstep. case_match; [case_match; [by eapply work_conn_request_spec|by cstep]|].
  case_match; [by cstep|]. case_match; [by eapply response_settled|].
  case_match; [by eapply reset_settled|]. case_match; [by eapply shutdown_settled|].
  case_match; [|case_match; [by eapply credit_request_settled|by cstep]].
  cstep. apply (cwp_deref _ _ _ _ (slice (nb_data nb - nb_buf nb) (nb_len nb) (nb_mem nb))).
  { intros w _. unfold nb_payload, nb_read. rewrite memread_Some by lia. done. }
  eapply payload_settled; [done..|]. repeat constructor. rewrite zlen_slice; lia.
Qed.

Lemma dispatch_packet_spec hdr nb c :
  settled c -> pkt_ok nb ->
  vwp (dispatch_packet uk_malloc virt_to_phys vma_advise uk_sched_yield hdr nb) (fun _ => settled) c.
Proof.
  intros Hc Hnb. unfold dispatch_packet. case_match; [by cstep|]. cstep. apply vwp_cid.
  case_match; [by cstep|]. destruct (sock_type_of _) as [type|]; [|by cstep]. cstep.
  eapply (uk_vsock_lookup_spec _ cid); [apply Hc|]. intros [i|] Hl; [|by cstep].
  destruct Hl as (s & Hi & Hs & _). destruct (proj2 Hc i s Hi Hs) as [ps Hps].
  destruct (so_file _ _ _ (ci_sock _ _ (proj1 Hc) _ _ Hs) ps Hps) as (al & Hal & _).
  by eapply handle_packet_spec.
Qed.
End worker_proofs.

(** Taking the header off a packet. *)
Lemma uk_netbuf_header_pull nb :
  pkt_ok nb -> sizeof_hdr <= nb_len nb ->
  exists nb', uk_netbuf_header nb (- sizeof_hdr) = Some (1, nb') /\ pkt_ok nb' /\
    nb_len nb' = nb_len nb - sizeof_hdr /\ nb_read nb' (nb_len nb') =
      Some (slice (nb_data nb - nb_buf nb + sizeof_hdr) (nb_len nb - sizeof_hdr) (nb_mem nb)).
Proof.
  unfold sizeof_hdr. intros [[A1 A2] (F1 & F2 & F3 & F4) [B1 B2] [R1 R2] [E E'] L] Hl.
  unfold uk_netbuf_header, uk_netbuf_headroom. rewrite A2, F1.
  rewrite (wrap_small 64 (nb_data nb - nb_buf nb)) by lia. rewrite swrap_small by lia.
  destruct (_ || _) eqn:G1; [lia|]. clear G1. cbn [negb bool_decide].
  destruct (_ || _) eqn:G2; [lia|]. clear G2. destruct (Z.ltb_spec 65535 (- (44) + nb_len nb)); [lia|].
  eexists. split; [done|]. rewrite (wrap_small 64), (wrap_small 16) by lia.
  split; [split; cbn; try done; lia|]. split; [cbn; lia|]. unfold nb_read. cbn.
  rewrite memread_Some by lia. do 2 f_equal; lia.
Qed.

(** The migration callback leaves the sockets alone. *)
Class Migration (sysmigration : MW Z) : Prop :=
  migration_law cid held hev c :
    cwp (virtio_inv (cid := cid) held hev) sysmigration (fun _ c' => c' = c) c.

(** The state in which a worker starts and ends: nothing is held. *)
Definition rest (cid : Z) (w : virtio_world) : Prop :=
  settled cid (core w) /\ drv_inv (virtio_inv (cid := cid) [] []) w.

Section worker_safety.
Context `{!Allocator uk_malloc, !PageMap virt_to_phys, !Mapped vma_advise, !Progress uk_sched_yield}.
Context `{!DeviceStep device, !Migration sysmigration}.
Context {cid : Z}.
Abbreviation dev_ok := (VirtioLogic.dev_ok cid).
Abbreviation ops := (virtio_vsockdev_ops uk_malloc virt_to_phys vma_advise uk_sched_yield).
Abbreviation rest := (rest cid).
Abbreviation work_rx :=
  (virtio_vsockdev_work_rx uk_malloc virt_to_phys vma_advise device uk_sched_yield).
Abbreviation work_evq :=
  (virtio_vsockdev_work_evq uk_malloc virt_to_phys vma_advise device uk_sched_yield sysmigration).

Lemma rest_idle w d : settled cid (core w) -> idle (cid := cid) d -> rest (set_drv d w).
Proof. intros Hc Hi. by split. Qed.

Lemma rest_dwp {A} (m : MW A) w :
  rest w -> (forall own evs fl d, dev_ok own evs fl d -> dwp m (fun _ d' => idle (cid := cid) d') d) ->
  wp m (fun _ => rest) w.
Proof.
  intros [Hc (own & evs & fl & Hd)] Hm. eapply wp_mono; [|by eapply Hm].
  intros a w' (d' & -> & Hi). by apply rest_idle.
Qed.

(** The steps of [process_packet] up to the dispatch and after it. *)
Lemma process_packet_wp p nb own evs fl w Φ :
  settled cid (core w) -> dev_ok (p :: own) evs fl (w_drv w) -> d_pkts (w_drv w) !! p = Some nb ->
  sizeof_hdr <= nb_len nb ->
  (forall nb' w1, pkt_ok nb' -> nb_len nb' = nb_len nb - sizeof_hdr ->
    nb_read nb' (nb_len nb') =
      Some (slice (nb_data nb - nb_buf nb + sizeof_hdr) (nb_len nb - sizeof_hdr) (nb_mem nb)) ->
    w1 = set_drv (set_pkts (<[p := nb']> (d_pkts (w_drv w))) (w_drv w)) w ->
    dev_ok (p :: own) evs fl (w_drv w1) ->
    wp (dispatch_packet uk_malloc virt_to_phys vma_advise uk_sched_yield
          (decode_hdr (slice (nb_data nb - nb_buf nb) sizeof_hdr (nb_mem nb))) nb')
      (fun rc w2 => exists own2 evs2 fl2, dev_ok (p :: own2) evs2 fl2 (w_drv w2) /\
        forall d', dev_ok own2 evs2 fl2 d' -> d' = set_pkts (delete p (d_pkts (w_drv w2))) (w_drv w2) ->
          Φ (if rc <? 0 then rc else 1) (set_drv d' w2)) w1) ->
  wp (process_packet uk_malloc virt_to_phys vma_advise uk_sched_yield p) Φ w.
Proof.
  intros Hc Hd Hp Hl Hdisp. unfold process_packet. pose proof (do_pkt _ _ _ _ _ Hd p nb Hp) as Hok.
  destruct (uk_netbuf_header_pull nb Hok Hl) as (nb' & Hh & Hok' & Hlen' & Hread).
  apply wp_bind, (wp_deref _ _ _ nb); [done|].
  apply wp_bind, (wp_deref _ _ _ (1, nb')); [done|]. apply wp_bind, wp_ret, wp_bind, wp_ret.
  destruct Hok as [_ _ [_ Hm] [R1 R2] _ _]. pose proof Hl as Hl'. unfold sizeof_hdr in Hl'.
  apply wp_bind, (wp_deref _ _ _ (slice (nb_data nb - nb_buf nb) sizeof_hdr (nb_mem nb)));
    [unfold nb_read; apply memread_Some; unfold sizeof_hdr; lia|].
  apply wp_bind. eapply wp_mono; cycle 1.
  { apply Hdisp; [done..|]. apply dev_ok_put; [done|left|done]. }
  intros rc w2 (own2 & evs2 & fl2 & Hd2 & HΦ). apply wp_bind.
  eapply wp_mono; [|by eapply free_pkt_spec]. intros _ w3 (d3 & -> & Hd3 & Heq). apply wp_ret. by apply HΦ.
Qed.

Lemma work_rx_spec w : rest w -> wp work_rx (fun _ => rest) w.
Proof.
  intros [Hc (own & evs & fl & Hd)]. unfold virtio_vsockdev_work_rx. apply wp_bind.
  eapply wp_mono; [|by eapply recv_spec]. intros [status [p|]] w1 (d1 & -> & Hpost); cbn in Hpost.
  2: { destruct Hpost as [Hi Hs]. destruct (Z.ltb_spec status 0); [by apply rest_idle|].
       rewrite Hs by done. by apply rest_idle. }
  destruct Hpost as (((fl1 & Hd1) & nb & Hp & Hl) & Hst & Hs).
  destruct (Z.ltb_spec status 0); [lia|]. rewrite Hs. cbn [negb].
  apply wp_bind, (wp_deref _ _ _ p); [done|].
  apply (process_packet_wp p nb own evs fl1); [exact Hc|done..|]. intros nb' w2 Hok' _ _ -> Hd2.
  eapply wp_mono; cycle 1.
  { eapply (dispatch_packet_spec (cid := cid) (held := [p]) (hev := [])); [exact Hc|exact Hok'|done|].
    by exists own, evs, fl1. }
  intros rc w3 [(own3 & evs3 & fl3 & Hd3) Hc3]. exists own3, evs3, fl3. split; [done|].
  intros d' Hd' _. apply rest_idle; [done|]. by exists own3, evs3, fl3.
Qed.

Lemma transport_reset_settled held hev c :
  cid <> UK_VSOCK_CID_ANY -> settled cid c ->
  cwp (virtio_inv (cid := cid) held hev) (uk_vsockdev_transport_reset ops sysmigration)
    (fun _ => settled cid) c.
Proof.
  intros Hany [Hc Ha]. unfold uk_vsockdev_transport_reset. cstep.
  eapply cwp_mono; [by apply (uk_vsockets_term_spec _ cid ops max_payload)|]. intros rc c1 (Hc1 & _ & Ha1 & _).
  cstep; [by cstep|]. cstep. eapply cwp_mono; [apply migration_law|]. intros rc' ? ->.
  cstep; by cstep.
Qed.

Lemma work_evq_spec w : cid <> UK_VSOCK_CID_ANY -> rest w -> wp work_evq (fun _ => rest) w.
Proof.
  intros Hany [Hc (own & evs & fl & Hd)]. unfold virtio_vsockdev_work_evq. apply wp_bind.
  eapply wp_mono; [|by eapply evq_recv_spec]. intros [status [e|]] w1 (d1 & -> & Hpost); cbn in Hpost.
  2: { destruct Hpost as [Hi Hs]. destruct (Z.ltb_spec status 0); [by apply rest_idle|].
       rewrite Hs by done. by apply rest_idle. }
  destruct Hpost as ((fl1 & Hd1) & Hst & Hs).
  destruct (Z.ltb_spec status 0); [lia|]. rewrite Hs. cbn [negb].
  apply wp_bind, (wp_deref _ _ _ e); [done|].
  assert (e ∈ dom (d_events d1)) as [x Hx]%elem_of_dom.
  { rewrite <- elem_of_elements, (do_evs _ _ _ _ _ Hd1). left. }
  apply wp_bind, (wp_deref _ _ _ x); [done|]. apply wp_bind.
  assert (Hinv : drv_inv (virtio_inv (cid := cid) [] [e]) (set_drv d1 w)) by by exists own, evs, fl1.
  assert (Hev : cwp (virtio_inv (cid := cid) [] [e]) (if ev_id x =? VIRTIO_VSOCK_EVENT_TRANSPORT_RESET
    then uk_vsockdev_transport_reset ops sysmigration else mret 0) (fun _ => settled cid) (core w))
    by (case_match; [by apply transport_reset_settled|by apply cwp_ret]).
  eapply wp_mono; [|exact (Hev (set_drv d1 w) eq_refl Hinv)].
  intros rc w2 [(own2 & evs2 & fl2 & Hd2) Hc2]. apply wp_bind, wp_ret, wp_ret.
  split; [exact Hc2|]. exists own2, evs2, fl2. by apply dev_ok_ev_delete.
Qed.

(** ** The loops

    A section of a worker, up to the next point where it gives up the CPU, keeps the
    state of rest if it returns; then so do the loops. *)

Definition safe {A} (m : MW A) : Prop := forall w, rest w -> wsafe m (fun _ => rest) w.
Lemma work_batch_safe (yield : MW unit) (work : MW Z) n done : safe yield -> safe work -> safe (work_batch yield work n done).
Proof.
  intros Hyield Hwork. revert done. induction n as [|n IH]; intros done w Hw; cbn [work_batch];
    (case_match; [exact Hw|]); [exact I|].
  apply wsafe_bind. eapply wsafe_mono; [|by apply Hwork]. intros rc w1 Hw1.
  case_match; [|case_match; [exact Hw1|by apply IH]]. case_match; [exact Hw1|]. apply wsafe_bind.
  eapply wsafe_mono; [|by apply Hyield]. intros ? w2 Hw2.
  apply wsafe_bind. eapply wsafe_mono; [|by apply Hwork]. intros rc' w3 Hw3. by apply IH.
Qed.
Lemma work_loop_safe (yield : MW unit) (work enable : MW Z) n :
  safe yield -> safe work -> safe enable -> safe (work_loop yield work enable n).
Proof.
  intros Hyield Hwork Hen. induction n as [|n IH]; intros w Hw; cbn [work_loop]; [exact I|].
  apply wsafe_bind. eapply wsafe_mono; [|by apply work_batch_safe]. intros ? w1 Hw1.
  apply wsafe_bind. eapply wsafe_mono; [|by apply Hen]. intros q w2 Hw2. case_match; [exact Hw2|by apply IH].
Qed.

Lemma intr_enable_rest id w : id <> QUEUE_TX -> rest w -> wp (queue_intr_enable device id) (fun _ => rest) w.
Proof.
  intros Hid Hw. apply rest_dwp; [done|]. intros own evs fl d Hd.
  eapply dwp_mono; [by eapply queue_intr_enable_spec|]. intros rc d' [Hd' _]. by exists own, evs, fl.
Qed.
Lemma intr_disable_rest id w : rest w -> wp (queue_intr_disable id) (fun _ => rest) w.
Proof.
  intros Hw. apply rest_dwp; [done|]. intros own evs fl d Hd.
  eapply dwp_mono; [by eapply queue_intr_disable_spec|]. intros rc d' [Hd' _]. by exists own, evs, fl.
Qed.
End worker_safety.
