(* ===== verification/VirtioSetup.v ===== *)
(** * Bringing up the virtio vsock device

    The rest of drivers/virtio/vsock/virtio_vsock.c: negotiating features,
    allocating and setting up the queues, starting the device, and undoing it
    when a step fails; with the virtqueue set-up of the memory-mapped transport
    and its interrupt handler, and the event handlers of
    lib/ukvsockdev/vsockdev.c.  The proofs show that a successful probe of any
    hardware establishes the invariants of the driver and of the core. *)

From stdpp Require Import prelude gmap sorting.
From S2P Require Import Prelude Tree VsockBuffer Netbuf NetbufHeap Sglist Vring VringUse VirtioMmio Vsock.
From S2P Require Import VsockTable VsockLogic VsockCore VsockSocket VsockStream QuietDriver VsockSystem.
From S2P Require Import VirtioVsock VirtioLogic VirtioTx VirtioDriver VirtioRx VirtioWork.

#[local] Abbreviation MW := (M virtio_world).

(** ** Constants *)

Definition VIRTIO_VSOCK_F_STREAM : Z := 0.
Definition VIRTIO_VSOCK_F_SEQPACKET : Z := 1.
Definition VIRTIO_VSOCK_F_NO_IMPLIED_STREAM : Z := 2.
Definition VIRTIO_MMIO_VRING_ALIGN : Z := 2 ^ 12.
Definition U32_MAX : Z := 2 ^ 32 - 1.
Definition sizeof_virtqueue_vring : Z := 112.
Definition sizeof_desc_info : Z := 16.
Definition sizeof_queue : Z := 320.
Definition sizeof_vsockdev : Z := 208.

(** An operation of the transport on the device of the driver. *)
Definition hw {A} (m : M virtio_mmio_device A) : MW A := fun w =>
  match m (d_vdev (w_drv w)) with
  | Done (a, v) => Done (a, set_drv (set_vdev v (w_drv w)) w)
  | Abort => Abort
  | OutOfFuel => OutOfFuel
  end.

(** ** Event handlers *)

(** [_create_event_handler] with a callback; [thread] tells whether a thread
    could be created. *)
Definition create_event_handler (thread : bool) (h : uk_vsockdev_event_handler)
    : option (Z * uk_vsockdev_event_handler) :=
  if eh_dispatcher h then None
  else Some (if thread then 0 else - ENOMEM, mk_handler true 0 thread).
(** [_destroy_event_handler]: the scheduler is stored together with the
    callback. *)
Definition destroy_event_handler (h : uk_vsockdev_event_handler) : option uk_vsockdev_event_handler :=
  if eh_callback h then Some (mk_handler (eh_callback h) (eh_events h) false) else None.

Definition uk_vsockdev_rxqueue_configure (thread : bool) : MW Z :=
  h ← get_dev d_rxq_handler;
  r ← deref (fun _ => create_event_handler thread h);
  put_dev (set_rxq_handler (snd r));;
  mret (fst r).
Definition uk_vsockdev_evqueue_configure (thread : bool) : MW Z :=
  h ← get_dev d_evq_handler;
  r ← deref (fun _ => create_event_handler thread h);
  put_dev (set_evq_handler (snd r));;
  mret (fst r).
Definition uk_vsockdev_rxqueue_unconfigure : MW unit :=
  h ← get_dev d_rxq_handler;
  h ← deref (fun _ => destroy_event_handler h);
  put_dev (set_rxq_handler h).
Definition uk_vsockdev_evqueue_unconfigure : MW unit :=
  h ← get_dev d_evq_handler;
  h ← deref (fun _ => destroy_event_handler h);
  put_dev (set_evq_handler h).

Section setup.
Context (uk_malloc : nat -> Z -> option (Z * list Z)).
Context (virt_to_phys : Z -> Z) (vma_advise : Z -> Z -> Z).
Context (device : vring -> vring).
(** The hardware, the result of registering the interrupt handler, the creation
    of threads. *)
Context (hardware : list access -> Z -> Z -> Z) (irq_register : Z) (thread_create : nat -> bool).
(** The memory of a ring: an error, or its address; what fresh memory holds. *)
Context (ring_alloc : nat -> Z -> Z + Z) (uninit : Z -> list virtqueue_desc_info).

(** ** Queues *)

(** [virtqueue_create]: the queue and the address of its ring. *)
Definition create_virtqueue (nr_descs align : Z) : MW (Z + virtqueue * Z) :=
  vrq ← malloc uk_malloc (sizeof_virtqueue_vring + nr_descs * sizeof_desc_info);
  match vrq with
  | None => mret (inl (- ENOMEM))
  | Some _ =>
      n ← get_dev d_allocs;
      put_dev (set_allocs (S n));;
      match ring_alloc n (vring_size nr_descs align) with
      | inl rc => mret (inl rc)
      | inr mem =>
          features ← hw (gets m_features);
          mret (inr (virtqueue_create nr_descs (FEATURE_HAS features VIRTIO_F_EVENT_IDX) (uninit nr_descs), mem))
      end
  end.

Definition vm_setup_vq (queue_id num_desc : Z) : MW (Z + virtqueue) :=
  r ← create_virtqueue num_desc VIRTIO_MMIO_VRING_ALIGN;
  match r with
  | inl err => mret (inl err)
  | inr (vq, mem) =>
      let desc := virt_to_phys mem in
      let avail := desc + vring_avail_off num_desc in
      let used := desc + (vring_used_addr mem num_desc VIRTIO_MMIO_VRING_ALIGN - mem) in
      hw (activate_vq queue_id num_desc desc avail used);;
      hw (modify (fun m => set_m_vqs (m_vqs m ++ [queue_id]) m));;
      mret (inr vq)
  end.

Definition virtio_vsockdev_setup_queue (id : queue_id) (nb_desc : Z) : MW Z :=
  q ← get_queue id;
  if q_max_nb_desc q <? nb_desc then mret (- ENOBUFS)
  else
    features ← hw (gets m_features);
    let nb_desc :=
      if (nb_desc =? 0) || negb (FEATURE_HAS features VIRTIO_F_VERSION_1) then q_max_nb_desc q
      else nb_desc in
    if negb (POWER_OF_2 nb_desc) then mret (- EINVAL)
    else
      r ← vm_setup_vq (q_hwvq_id q) nb_desc;
      match r with
      | inl err => mret err
      | inr vq => put_queue id (fun q => set_nb_desc (set_vq q (Some vq)) nb_desc);; mret 0
      end.

(** One queue; the transport has no [vq_release]. *)
Definition release_queue (id : queue_id) : MW unit :=
  q ← get_queue id;
  match q_vq q with
  | None => mret tt
  | Some _ => put_queue id (fun q => set_vq q None)
  end.
Definition virtio_vsockdev_release_queues : MW unit :=
  release_queue QUEUE_RX;; release_queue QUEUE_TX;; release_queue QUEUE_EVENT.

(** From the first fill-up to the end of the function. *)
Definition fill_and_configure : MW Z :=
  q ← get_queue QUEUE_EVENT;
  rc ← virtio_vsockdev_evq_fillup uk_malloc virt_to_phys vma_advise (q_nb_desc q) false;
  if rc <? 0 then virtio_vsockdev_release_queues;; mret rc
  else
    q ← get_queue QUEUE_RX;
    rc ← virtio_vsockdev_rxq_fillup uk_malloc virt_to_phys vma_advise (q_nb_desc q) false;
    if rc <? 0 then virtio_vsockdev_release_queues;; mret rc
    else
      rc ← uk_vsockdev_evqueue_configure (thread_create 0);
      if negb (rc =? 0) then virtio_vsockdev_release_queues;; mret rc
      else
        rc ← uk_vsockdev_rxqueue_configure (thread_create 1);
        if negb (rc =? 0) then
          uk_vsockdev_evqueue_unconfigure;; virtio_vsockdev_release_queues;; mret rc
        else mret 0.
Definition virtio_vsockdev_setup_queues : MW Z :=
  rc ← virtio_vsockdev_setup_queue QUEUE_RX 0;
  if negb (rc =? 0) then mret rc
  else
    rc ← virtio_vsockdev_setup_queue QUEUE_TX 0;
    if negb (rc =? 0) then mret rc
    else
      rc ← virtio_vsockdev_setup_queue QUEUE_EVENT 0;
      if negb (rc =? 0) then mret rc
      else fill_and_configure.

(** A queue of the zeroed array, and the queue [i] after the loop. *)
Definition zero_queue : virtio_vsockdev_queue :=
  mk_queue None 0 0 0 0 (mk_sglist (replicate (Z.to_nat VSOCK_MAX_FRAGMENTS) (mk_seg 0 0)) 0 0 0).
Definition init_queue (hwvq_id size : Z) (q : virtio_vsockdev_queue) : virtio_vsockdev_queue :=
  mk_queue (q_vq q) hwvq_id size (q_nb_desc q) (q_intr_enabled q)
    (uk_sglist_init VSOCK_MAX_FRAGMENTS (sg_segs (q_sg q))).
Definition virtio_vsockdev_alloc_queues : MW Z :=
  block ← malloc uk_malloc (3 * sizeof_queue);
  match block with
  | None => mret (- ENOMEM)
  | Some _ =>
      put_dev (set_queues (Some (mk_queues zero_queue zero_queue zero_queue)));;
      r ← hw (vm_find_vqs hardware irq_register 3);
      let '(vq_avail, qdesc_size) := r in
      if negb (vq_avail =? 3) then put_dev (set_queues None);; mret (- ENOMEM)
      else
        n0 ← deref (fun _ => qdesc_size !! 0%nat);
        put_queue QUEUE_RX (init_queue 0 n0);;
        n1 ← deref (fun _ => qdesc_size !! 1%nat);
        put_queue QUEUE_TX (init_queue 1 n1);;
        n2 ← deref (fun _ => qdesc_size !! 2%nat);
        put_queue QUEUE_EVENT (init_queue 2 n2);;
        mret 0
  end.
Definition virtio_vsockdev_free_queues : MW unit := put_dev (set_queues None).

(** ** The device *)

(** The features the driver asks for. *)
Definition take_feature (host bitpos features : Z) : Z :=
  if FEATURE_HAS host bitpos then FEATURE_SET features bitpos else features.
Definition drv_features (host : Z) : Z :=
  take_feature host VIRTIO_F_EVENT_IDX (take_feature host VIRTIO_VSOCK_F_SEQPACKET
    (take_feature host VIRTIO_VSOCK_F_STREAM (take_feature host VIRTIO_VSOCK_F_NO_IMPLIED_STREAM
      (take_feature host VIRTIO_F_VERSION_1 0)))).
Definition virtio_vsockdev_feature_negotiate : MW Z :=
  host_features ← hw (vm_get_features hardware);
  r ← hw (vm_get hardware 0 8);
  let '(rc, bytes) := r in
  if negb (rc =? 0) then mret (- EAGAIN)
  else
    let guest_cid := le_val bytes in
    if guest_cid <? 3 then mret (- EAGAIN)
    else if U32_MAX <? guest_cid then mret (- ERANGE)
    else
      put_dev (set_cid (u32 guest_cid));;
      hw (modify (set_m_features (drv_features host_features)));;
      hw vm_set_features;;
      hw (virtio_dev_status_update (Z.lor (Z.lor STATUS_ACK STATUS_DRIVER) STATUS_FEATURES_OK)).

Definition virtio_vsockdev_start : MW Z :=
  rc ← virtio_vsockdev_rx_intr_enable device;
  if negb (rc =? 0) then mret rc
  else
    rc ← virtio_vsockdev_evq_intr_enable device;
    if negb (rc =? 0) then mret rc
    else hw virtio_dev_drv_up;; mret 0.

(** The zeroed structure. *)
Definition zero_dev (d : virtio_vsockdev) : virtio_vsockdev :=
  mk_dev 0 (d_vdev d) None (d_pkts d) (d_events d) (d_allocs d)
    (mk_handler false 0 false) (mk_handler false 0 false) (0, []) false.
Definition free_dev : MW unit := put_dev (set_freed true).
Definition virtio_vsockdev_add_dev : MW Z :=
  block ← malloc uk_malloc sizeof_vsockdev;
  match block with
  | None => mret (- ENOMEM)
  | Some _ =>
      put_dev zero_dev;;
      rc ← uk_vsockdev_register;
      if negb (rc =? 0) then free_dev;; mret rc
      else
        rc ← virtio_vsockdev_feature_negotiate;
        if negb (rc =? 0) then free_dev;; mret rc
        else
          rc ← virtio_vsockdev_alloc_queues;
          if negb (rc =? 0) then hw (virtio_dev_status_update STATUS_FAIL);; free_dev;; mret rc
          else
            rc ← virtio_vsockdev_setup_queues;
            if negb (rc =? 0) then
              virtio_vsockdev_free_queues;;
              hw (virtio_dev_status_update STATUS_FAIL);; free_dev;; mret rc
            else
              rc ← virtio_vsockdev_start;
              if negb (rc =? 0) then
                uk_vsockdev_rxqueue_unconfigure;;
                uk_vsockdev_evqueue_unconfigure;;
                virtio_vsockdev_release_queues;;
                virtio_vsockdev_free_queues;;
                hw (virtio_dev_status_update STATUS_FAIL);; free_dev;; mret rc
              else mret 0
  end.

Definition virtio_vsockdev_drv_init (drv_allocator : bool) : Z := if drv_allocator then 0 else - EINVAL.
Definition vsock_drv : virtio_driver :=
  mk_driver [VIRTIO_ID_VSOCK; VIRTIO_ID_INVALID] (Some (virtio_vsockdev_drv_init true))
    virtio_vsockdev_add_dev.

(** ** Interrupts *)

(** [virtqueue_ring_interrupt] for the queue with the given number: its callback
    runs if the device has returned something. *)
Definition virtqueue_ring_interrupt (hwvq : Z) : MW Z :=
  let id := if hwvq =? 0 then QUEUE_RX else if hwvq =? 1 then QUEUE_TX else QUEUE_EVENT in
  vq ← get_vq id;
  if negb (virtqueue_hasdata vq) then mret 1
  else
    match id with
    | QUEUE_RX => virtio_vsockdev_recv_event
    | QUEUE_TX => mret 1
    | QUEUE_EVENT => virtio_vsockdev_evq_event
    end.
Fixpoint interrupt_loop (vqs : list Z) (rc : Z) : MW Z :=
  match vqs with
  | [] => mret rc
  | vq :: vqs => r ← virtqueue_ring_interrupt vq; interrupt_loop vqs (Z.lor rc r)
  end.
Definition vm_interrupt : MW Z :=
  status ← hw (cread32 hardware INTERRUPT_STATUS);
  (if negb (status =? 0) then hw (cwrite32 INTERRUPT_ACK status) else mret tt);;
  if flag_set status INT_VRING then
    vqs ← hw (gets m_vqs);
    rc ← interrupt_loop vqs 0;
    UK_ASSERT (negb (rc =? 0));;
    mret rc
  else mret 0.
End setup.

(** ** The transport never fails *)

Lemma dwp_hw {A} (m : M virtio_mmio_device A) Q Φ d :
  wp m Q (d_vdev d) -> (forall a v, Q a v -> Φ a (set_vdev v d)) -> dwp (hw m) Φ d.
Proof.
  intros Hm HΦ w <-. unfold wp, hw in *. destruct (m (d_vdev (w_drv w))) as [[a v]| |]; [|done..].
  eexists. split; [done|]. by apply HΦ.
Qed.

(** ** Setting up the queues *)

Lemma POWER_OF_2_pow n : POWER_OF_2 n = true -> 0 < n < 2 ^ 16 -> exists k, 0 <= k <= 15 /\ n = 2 ^ k.
Proof.
  unfold POWER_OF_2. intros H Hn. assert (Z.land n (n - 1) = 0) as Hl by lia. exists (Z.log2 n).
  pose proof (Z.log2_spec n ltac:(lia)) as [H1 H2]. pose proof (Z.log2_nonneg n) as H0.
  assert (Z.log2 n < 16) by (apply Z.log2_lt_pow2; lia). split; [lia|].
  destruct (decide (n = 2 ^ Z.log2 n)) as [?|Hne]; [done|]. exfalso.
  assert (Z.log2 (n - 1) = Z.log2 n) as Hlog by (apply Z.log2_unique; lia).
  assert (Z.testbit (Z.land n (n - 1)) (Z.log2 n) = true) as Hb.
  { rewrite Z.land_spec, Z.bit_log2 by lia. rewrite <- Hlog, Z.bit_log2; [done|lia]. }
  by rewrite Hl, Z.bits_0 in Hb.
Qed.

(** What the rest of the system promises to the set-up: the allocation of a ring
    fails with an error, fresh memory has the size asked for, and registering an
    interrupt handler returns 0 or an error. *)
Class Platform (irq_register : Z) (ring_alloc : nat -> Z -> Z + Z)
    (uninit : Z -> list virtqueue_desc_info) : Prop := {
  irq_result : irq_register <= 0;
  ring_error n size rc : ring_alloc n size = inl rc -> rc < 0;
  uninit_len n : 0 <= n -> zlen (uninit n) = n
}.

(** A queue that can be set up, and one that has been. *)
Definition queue_new (q : virtio_vsockdev_queue) : Prop := 0 < q_max_nb_desc q < 2 ^ 16 /\ sg_ok (q_sg q).
Definition queue_set (q : virtio_vsockdev_queue) : Prop :=
  sg_ok (q_sg q) /\ exists k ev info, 0 <= k <= 15 /\ zlen info = 2 ^ k /\
    q_vq q = Some (virtqueue_create (2 ^ k) ev info).

(** A device that owns no buffers yet; the transport knows the queues [vqs]. *)
Definition vqs_of (d : virtio_vsockdev) : list Z := m_vqs (d_vdev d).
Record dev_new (cid : Z) (qs : queues) (vqs : list Z) (d : virtio_vsockdev) : Prop := {
  dn_cid : d_cid d = cid;
  dn_queues : d_queues d = Some qs;
  dn_pkts : d_pkts d = ∅;
  dn_evs : d_events d = ∅;
  dn_tx : d_tx_device d = (0, []);
  dn_vqs : vqs_of d = vqs;
  dn_threads : eh_dispatcher (d_rxq_handler d) = false /\ eh_dispatcher (d_evq_handler d) = false
}.

Lemma queue_set_flight q : queue_set q -> exists vq, q_vq q = Some vq /\ flight vq 0 [] [] /\ lens_ok sizeof_hdr vq.
Proof.
  intros (_ & k & ev & info & Hk & Hi & Hvq). eexists. split; [done|]. split.
  - exists [], [], (seqZ 0 (2 ^ k)), [], 0, 0, 0, 0, [], []. split; [|done]. by apply (init_inv k ev info).
  - intros j h len Hj. change (u16 (used_idx _ - last_used_desc_idx _)) with 0 in Hj. lia.
Qed.

(** With its queues set up, the device satisfies the invariant of the driver. *)
Lemma dev_new_ok cid qs vqs d :
  dev_new cid qs vqs d -> (forall id, queue_set (queue_of id qs)) -> dev_ok cid [] [] (mk_fl [] [] []) d.
Proof.
  intros [Hc Hq Hp He Ht _ _] Hs. split; [done| | | |].
  - intros id. destruct (queue_set_flight _ (Hs id)) as (vq & Hvq & Hf & Hl).
    exists (queue_of id qs), vq, 0, []. split_and!; [by exists qs|apply Hs| |done|by intros _].
    by destruct id.
  - rewrite Hp. done.
  - rewrite Hp. intros p nb. by rewrite lookup_empty.
  - rewrite He. done.
Qed.

Lemma dwp_queue_of id qs Φ d : d_queues d = Some qs -> Φ (queue_of id qs) d -> dwp (get_queue id) Φ d.
Proof. intros Hqs. apply dwp_deref. intros w <-. by rewrite Hqs. Qed.
Lemma dwp_set_queue id f qs Φ d :
  d_queues d = Some qs -> Φ tt (set_queues (Some (set_queue_of id (f (queue_of id qs)) qs)) d) ->
  dwp (put_queue id f) Φ d.
Proof. intros Hqs HΦ w <-. unfold wp, put_queue. rewrite Hqs. by eexists. Qed.

Lemma dev_new_vdev cid qs vqs v d : dev_new cid qs vqs d -> dev_new cid qs (m_vqs v) (set_vdev v d).
Proof. by intros []. Qed.
Lemma dev_new_allocs cid qs vqs n d : dev_new cid qs vqs d -> dev_new cid qs vqs (set_allocs n d).
Proof. by intros []. Qed.
Lemma dev_new_queues cid qs vqs qs' d : dev_new cid qs vqs d -> dev_new cid qs' vqs (set_queues (Some qs') d).
Proof. by intros []. Qed.
Lemma dev_ok_vdev cid own evs fl v d : dev_ok cid own evs fl d -> dev_ok cid own evs fl (set_vdev v d).
Proof. intros [? Hq ? ? ?]. split; [done|intros id; by eapply queue_ok_same, Hq|done..]. Qed.

Section bring_up.
Context `{!Allocator uk_malloc, !PageMap virt_to_phys, !Mapped vma_advise, !DeviceStep device}.
Context (hardware : list access -> Z -> Z -> Z) (thread_create : nat -> bool).
Context `{!Platform irq_register ring_alloc uninit}.
Context {cid : Z}.
Implicit Types (d : virtio_vsockdev) (qs : queues).
#[local] Abbreviation setup_queue := (virtio_vsockdev_setup_queue uk_malloc virt_to_phys ring_alloc uninit).
#[local] Abbreviation setup_queues :=
  (virtio_vsockdev_setup_queues uk_malloc virt_to_phys vma_advise thread_create ring_alloc uninit).

Lemma malloc_new size qs vqs d :
  dev_new cid qs vqs d -> dwp (malloc uk_malloc size) (fun _ d' => dev_new cid qs vqs d') d.
Proof. intros Hd. unfold malloc. dstep. dstep. dstep. dstep. dstep. by apply dev_new_allocs. Qed.

Lemma create_virtqueue_spec k align qs vqs d :
  0 <= k <= 15 -> dev_new cid qs vqs d ->
  dwp (create_virtqueue uk_malloc ring_alloc uninit (2 ^ k) align) (fun r d' => dev_new cid qs vqs d' /\
    match r with
    | inl rc => rc < 0
    | inr (vq, _) => exists ev info, zlen info = 2 ^ k /\ vq = virtqueue_create (2 ^ k) ev info
    end) d.
Proof.
  intros Hk Hd. unfold create_virtqueue. dstep. eapply dwp_mono; [by eapply malloc_new|].
  intros [block|] d1 Hd1; [|by dstep]. dstep. dstep. dstep. dstep.
  destruct (ring_alloc _ _) as [rc|mem] eqn:Hr.
  - dstep. split; [by apply dev_new_allocs|]. by eapply ring_error.
  - dstep. eapply (dwp_hw _ (fun f v => v = d_vdev d1)); [done|]. intros f v ->. dstep.
    split; [by destruct Hd1|]. eexists _, _. split; [|done]. by apply uninit_len, Z.pow_nonneg.
Qed.

Lemma vm_setup_vq_spec hwvq k qs vqs d :
  0 <= k <= 15 -> dev_new cid qs vqs d ->
  dwp (vm_setup_vq uk_malloc virt_to_phys ring_alloc uninit hwvq (2 ^ k)) (fun r d' =>
    match r with
    | inl rc => rc < 0 /\ dev_new cid qs vqs d'
    | inr vq => dev_new cid qs (vqs ++ [hwvq]) d' /\ exists ev info, zlen info = 2 ^ k /\ vq = virtqueue_create (2 ^ k) ev info
    end) d.
Proof.
  intros Hk Hd. unfold vm_setup_vq. dstep. eapply dwp_mono; [by eapply create_virtqueue_spec|].
  intros [rc|[vq mem]] d1 [Hd1 Hr]; [by dstep|]. dstep.
  eapply (dwp_hw _ _ _ _ (activate_vq_total _ _ _ _ _ _)). intros _ v [l ->]. dstep.
  eapply (dwp_hw _ (fun _ v => m_vqs v = m_vqs (d_vdev d1) ++ [hwvq])); [done|]. intros _ v' Hv'. dstep.
  split; [|done]. destruct Hd1 as [? ? ? ? ? Hvqs ?]. unfold vqs_of in Hvqs. split; try done. unfold vqs_of. cbn. by rewrite Hv', Hvqs.
Qed.

Lemma setup_queue_spec id qs vqs d :
  dev_new cid qs vqs d -> queue_new (queue_of id qs) ->
  dwp (setup_queue id 0) (fun rc d' => rc = 0 -> exists q,
    dev_new cid (set_queue_of id q qs) (vqs ++ [q_hwvq_id (queue_of id qs)]) d' /\ queue_set q) d.
Proof.
  intros Hd [Hn Hsg]. set (q := queue_of id qs) in *.
  unfold virtio_vsockdev_setup_queue. dstep. eapply dwp_queue_of; [apply Hd|]. fold q.
  destruct (Z.ltb_spec (q_max_nb_desc q) 0); [lia|]. dstep.
  eapply (dwp_hw _ (fun _ v => v = d_vdev d)); [done|]. intros f v ->. cbn [Z.eqb orb].
  assert (Hd1 : dev_new cid qs vqs (set_vdev (d_vdev d) d)) by by destruct Hd.
  destruct (POWER_OF_2 (q_max_nb_desc q)) eqn:Hp; cbn [negb]; [|by dstep].
  destruct (POWER_OF_2_pow _ Hp Hn) as (k & Hk & ->). dstep.
  eapply dwp_mono; [by eapply vm_setup_vq_spec|]. intros [rc|vq] d2; [intros [Hr _]; dstep; lia|intros [Hd2 Hr]].
  - dstep. eapply dwp_set_queue; [apply Hd2|]. dstep. intros _. eexists. split; [by eapply dev_new_queues|].
    split; [done|]. destruct Hr as (ev & info & Hi & ->). by exists k, ev, info.
Qed.

(** ** The event handlers

    Filling the queues and enabling interrupts leave the handlers and the list
    of queues of the transport alone. *)

Definition handlers (d : virtio_vsockdev) : uk_vsockdev_event_handler * uk_vsockdev_event_handler * list Z :=
  (d_rxq_handler d, d_evq_handler d, vqs_of d).
Definition keeps {A} (m : MW A) : Prop :=
  forall w, wlp m (fun _ w' => handlers (w_drv w') = handlers (w_drv w)) w.

Lemma keeps_bind {A B} (m : MW A) (f : A -> MW B) : keeps m -> (forall a, keeps (f a)) -> keeps (m ≫= f).
Proof.
  intros Hm Hf w. apply wlp_bind. eapply wlp_mono; [|apply Hm]. intros a w1 H1.
  eapply wlp_mono; [|apply Hf]. intros b w2 H2. by rewrite H2.
Qed.
Lemma keeps_ret {A} (a : A) : keeps (mret a).
Proof. done. Qed.
Lemma keeps_deref {A} (f : virtio_world -> option A) : keeps (deref f).
Proof. intros w. unfold wlp, deref. by destruct (f w). Qed.
Lemma keeps_get {A} (f : virtio_vsockdev -> A) : keeps (get_dev f).
Proof. done. Qed.
Lemma keeps_put f : (forall d, handlers (f d) = handlers d) -> keeps (put_dev f).
Proof. intros H w. apply H. Qed.
Lemma keeps_put_queue id f : keeps (put_queue id f).
Proof. intros w. unfold wlp, put_queue. by destruct (d_queues (w_drv w)). Qed.

Create HintDb keeps.
#[local] Hint Resolve keeps_ret keeps_deref keeps_get keeps_put keeps_put_queue : keeps.
Ltac keep :=
  repeat first
    [ apply keeps_bind; [|intros ?]
    | progress (unfold get_vq, vq_update, vq_step, put_vq, get_queue, get_pkt, put_pkt, free_pkt, free_event,
        malloc, alloc_pkt, sg_single, enqueue_sg, intr_enable)
    | case_match ];
  auto with keeps.

Lemma rxq_fillup_keeps n notify :
  keeps (virtio_vsockdev_rxq_fillup uk_malloc virt_to_phys vma_advise n notify).
Proof.
  assert (forall n i, keeps (rxq_fillup_loop uk_malloc virt_to_phys vma_advise n i)) as Hloop.
  { clear n. intros n. induction n as [|n IH]; intros i; cbn [rxq_fillup_loop]; unfold virtio_vsockdev_rxq_enqueue; keep. }
  unfold virtio_vsockdev_rxq_fillup. apply keeps_bind; [apply Hloop|]. intros [status i]. keep.
Qed.
Lemma evq_fillup_keeps n notify :
  keeps (virtio_vsockdev_evq_fillup uk_malloc virt_to_phys vma_advise n notify).
Proof.
  assert (forall n i, keeps (evq_fillup_loop uk_malloc virt_to_phys vma_advise n i)) as Hloop.
  { clear n. intros n. induction n as [|n IH]; intros i; cbn [evq_fillup_loop]; unfold virtio_vsockdev_evq_enqueue; keep. }
  unfold virtio_vsockdev_evq_fillup. apply keeps_bind; [apply Hloop|]. intros [status i]. keep.
Qed.
Lemma queue_intr_enable_keeps id : keeps (queue_intr_enable device id).
Proof. unfold queue_intr_enable. keep. Qed.

Lemma dwp_keeps {A} (m : MW A) Φ d :
  keeps m -> dwp m Φ d -> dwp m (fun a d' => Φ a d' /\ handlers d' = handlers d) d.
Proof.
  intros Hk Hm w Hw. eapply wp_mono; [|apply wp_wlp; [by apply Hm|apply Hk]].
  intros a w' [(d' & -> & HΦ) H]. exists d'. cbn in H. by rewrite <- Hw.
Qed.

(** ** The device is up *)

Definition configured (d : virtio_vsockdev) : Prop :=
  eh_callback (d_rxq_handler d) = true /\ eh_callback (d_evq_handler d) = true.
(** A started device: the invariant holds and both workers have a handler. *)
Definition up (d : virtio_vsockdev) : Prop :=
  configured d /\ vqs_of d = [0; 1; 2] /\ exists fl, dev_ok cid [] [] fl d.

Lemma release_queues_spec qs d :
  d_queues d = Some qs -> dwp virtio_vsockdev_release_queues (fun _ _ => True) d.
Proof.
  assert (Hone : forall id qs d, d_queues d = Some qs ->
    dwp (release_queue id) (fun _ d' => exists qs', d_queues d' = Some qs') d).
  { clear. intros id qs d Hd. unfold release_queue. dstep. eapply dwp_queue_of; [done|].
    case_match; [eapply dwp_set_queue; [done|]|dstep]; by eexists. }
  intros Hd. unfold virtio_vsockdev_release_queues. dstep. eapply dwp_mono; [by eapply Hone|].
  intros _ d1 [qs1 H1]. dstep. eapply dwp_mono; [by eapply Hone|]. intros _ d2 [qs2 H2].
  by eapply dwp_mono; [eapply Hone|].
Qed.

Lemma dev_ok_queues own evs fl d : dev_ok cid own evs fl d -> exists qs, d_queues d = Some qs.
Proof. intros Hd. destruct (do_queue _ _ _ _ _ Hd QUEUE_RX) as (? & ? & ? & ? & (qs & Hq & _) & _). by exists qs. Qed.
Lemma fill_and_configure_spec fl d :
  dev_ok cid [] [] fl d ->
  eh_dispatcher (d_rxq_handler d) = false -> eh_dispatcher (d_evq_handler d) = false -> vqs_of d = [0; 1; 2] ->
  dwp (fill_and_configure uk_malloc virt_to_phys vma_advise thread_create) (fun rc d' => rc = 0 -> up d') d.
Proof.
  intros Hd Hrx Hev Hvqs. unfold fill_and_configure. destruct (dev_ok_queues _ _ _ _ Hd) as [qs Hqs].
  dstep. eapply dwp_queue_of; [done|]. dstep.
  eapply dwp_mono; [eapply dwp_keeps; [apply evq_fillup_keeps|by eapply evq_fillup_spec]|].
  intros rc d1 [[Hrc (fl1 & Hd1)] Hk1]. destruct (Z.ltb_spec rc 0); [destruct Hrc as [->| ->]; done|].
  destruct (dev_ok_queues _ _ _ _ Hd1) as [qs1 Hqs1]. dstep. eapply dwp_queue_of; [done|]. dstep.
  eapply dwp_mono; [eapply dwp_keeps; [apply rxq_fillup_keeps|by eapply rxq_fillup_spec]|].
  intros rc2 d2 [[Hrc2 (fl2 & Hd2 & _)] Hk2]. destruct (Z.ltb_spec rc2 0); [destruct Hrc2 as [->| ->]; done|].
  rewrite Hk1 in Hk2. injection Hk2 as Hr2 He2 Hv2. destruct (dev_ok_queues _ _ _ _ Hd2) as [qs2 Hqs2].
  unfold uk_vsockdev_evqueue_configure, uk_vsockdev_rxqueue_configure, create_event_handler.
  dstep. dstep. dstep. dstep. rewrite He2, Hev. eapply dwp_some. dstep. dstep. dstep. cbn [fst snd].
  destruct (thread_create 0); [change (0 =? 0) with true|change (- ENOMEM =? 0) with false]; cbn [negb].
  2: { dstep. eapply dwp_mono; [by eapply release_queues_spec|]. intros _ d3 _. by dstep. }
  dstep. dstep. dstep. cbn. dstep. rewrite Hr2, Hrx. eapply dwp_some. dstep. dstep. dstep. cbn [fst snd].
  destruct (thread_create 1); [change (0 =? 0) with true|change (- ENOMEM =? 0) with false]; cbn [negb].
  - dstep. intros _. split; [done|]. split; [by rewrite <- Hvqs, <- Hv2|]. exists fl2. split; apply Hd2.
  - unfold uk_vsockdev_evqueue_unconfigure, destroy_event_handler. dstep. dstep. dstep. cbn. dstep.
    eapply dwp_some. dstep. dstep. eapply dwp_mono; [by eapply release_queues_spec|]. intros _ d3 _. by dstep.
Qed.

Lemma setup_queues_spec qs d :
  dev_new cid qs [] d -> (forall id, queue_new (queue_of id qs)) ->
  q_hwvq_id (qs_rx qs) = 0 -> q_hwvq_id (qs_tx qs) = 1 -> q_hwvq_id (qs_ev qs) = 2 ->
  dwp setup_queues (fun rc d' => rc = 0 -> up d') d.
Proof.
  intros Hd Hq Hrx Htx Hev. unfold virtio_vsockdev_setup_queues. dstep.
  eapply dwp_mono; [by eapply setup_queue_spec|]. intros rc1 d1 Hs1.
  destruct (Z.eqb_spec rc1 0) as [E1|]; cbn [negb]; [|by dstep]. destruct (Hs1 E1) as (q1 & Hd1 & Hq1). dstep.
  eapply dwp_mono; [eapply setup_queue_spec; [done|apply (Hq QUEUE_TX)]|]. intros rc2 d2 Hs2.
  destruct (Z.eqb_spec rc2 0) as [E2|]; cbn [negb]; [|by dstep]. destruct (Hs2 E2) as (q2 & Hd2 & Hq2). dstep.
  eapply dwp_mono; [eapply setup_queue_spec; [done|apply (Hq QUEUE_EVENT)]|]. intros rc3 d3 Hs3.
  destruct (Z.eqb_spec rc3 0) as [E3|]; cbn [negb]; [|by dstep]. destruct (Hs3 E3) as (q3 & Hd3 & Hq3).
  eapply fill_and_configure_spec; [|apply Hd3..|]; [by eapply dev_new_ok; [done|intros []]|].
  rewrite (dn_vqs _ _ _ _ Hd3). cbn. by rewrite Hrx, Htx, Hev.
Qed.

(** The device structure right after its allocation. *)
Definition dev_zero d : Prop :=
  d_queues d = None /\ d_pkts d = ∅ /\ d_events d = ∅ /\ d_tx_device d = (0, []) /\ vqs_of d = [] /\
  eh_dispatcher (d_rxq_handler d) = false /\ eh_dispatcher (d_evq_handler d) = false.

Lemma alloc_queues_spec d :
  dev_zero d -> d_cid d = cid ->
  dwp (virtio_vsockdev_alloc_queues uk_malloc hardware irq_register) (fun rc d' => rc = 0 ->
    exists qs, dev_new cid qs [] d' /\ (forall id, queue_new (queue_of id qs)) /\
      q_hwvq_id (qs_rx qs) = 0 /\ q_hwvq_id (qs_tx qs) = 1 /\ q_hwvq_id (qs_ev qs) = 2) d.
Proof.
  intros (Hq & Hp & He & Ht & Hv & Hth) Hc. unfold virtio_vsockdev_alloc_queues, malloc. dstep. dstep. dstep. dstep. dstep. dstep.
  destruct (uk_malloc _ _) as [block|]; [|by dstep]. dstep. dstep. dstep.
  eapply (dwp_hw _ _ _ _ (vm_find_vqs_total hardware irq_register 3 _ (irq_result (Platform := _)) ltac:(lia))).
  intros [avail sizes] v [[l ->] Hs]. cbn [fst snd] in Hs. destruct (Z.eqb_spec avail 3) as [Ha|]; cbn [negb]; cycle 1.
  { dstep. dstep. by dstep. }
  destruct (Hs Ha) as [Hlen Hf]. destruct sizes as [|n0 [|n1 [|n2 [|]]]]; try done.
  apply Forall_cons in Hf as [H0 Hf]. apply Forall_cons in Hf as [H1 Hf]. apply Forall_cons in Hf as [H2 _].
  cbn. dstep. eapply dwp_some. dstep. eapply dwp_set_queue; [done|]. dstep. eapply dwp_some. dstep.
  eapply dwp_set_queue; [done|]. dstep. eapply dwp_some. dstep. eapply dwp_set_queue; [done|]. dstep.
  intros _. eexists. split; [by split|]. split; [|done]. intros [];
    (split; [done|]); (split; [|done]); unfold sg_wf; cbn; split_and!; try done; constructor.
Qed.

Lemma feature_negotiate_spec d :
  dev_zero d ->
  dwp (virtio_vsockdev_feature_negotiate hardware) (fun rc d' => dev_zero d' /\
    (rc = 0 -> 3 <= d_cid d' < 2 ^ 32)) d.
Proof.
  intros Hz. unfold virtio_vsockdev_feature_negotiate. dstep.
  eapply (dwp_hw _ _ _ _ (vm_get_features_total hardware _)). intros host v1 [l1 ->]. dstep.
  eapply (dwp_hw _ _ _ _ (vm_get_8_total hardware 0 _)). intros [rc bytes] v2 (Hrc & Hz8 & Hb & l2 & ->).
  cbn [fst snd] in *. rewrite Hrc. cbn [negb Z.eqb]. destruct (Z.ltb_spec (le_val bytes) 3); [by dstep|].
  destruct (Z.ltb_spec U32_MAX (le_val bytes)); [by dstep|]. dstep. dstep. dstep.
  eapply (dwp_hw _ (fun _ v => m_vqs v = vqs_of d)); [done|]. intros _ v3 H3. dstep.
  eapply (dwp_hw _ _ _ _ (vm_set_features_total _)). intros _ v4 (f4 & l4 & ->).
  eapply dwp_hw; [by apply status_update_total|]. intros rc' v5 [-> [l5 ->]].
  split; [destruct Hz as (? & ? & ? & ? & Hv & ?); unfold dev_zero, vqs_of in *; cbn; by rewrite H3|].
  intros _. cbn. unfold U32_MAX in *. rewrite wrap_small by lia. lia.
Qed.

Lemma start_spec d :
  up d ->
  dwp (virtio_vsockdev_start device) (fun rc d' => up d') d.
Proof.
  intros (Hc & Hv & fl & Hd). unfold virtio_vsockdev_start, virtio_vsockdev_rx_intr_enable, virtio_vsockdev_evq_intr_enable.
  assert (Hkeep : forall d', handlers d' = handlers d -> dev_ok cid [] [] fl d' -> up d').
  { intros d' [= Hr He Hv'] Hd'. split; [|split; [by rewrite Hv'|by exists fl]]. unfold configured. by rewrite Hr, He. }
  dstep. eapply dwp_mono; [eapply dwp_keeps; [apply queue_intr_enable_keeps|by eapply queue_intr_enable_spec]|].
  intros rc d1 [(Hd1 & _) Hk1]. case_match; [dstep; by apply Hkeep|].
  dstep. eapply dwp_mono; [eapply dwp_keeps; [apply queue_intr_enable_keeps|by eapply queue_intr_enable_spec]|].
  intros rc2 d2 [(Hd2 & _) Hk2]. rewrite Hk1 in Hk2.
  case_match; [dstep; by apply Hkeep|]. dstep.
  eapply (dwp_hw _ (fun _ v => exists l, v = set_m_log l (d_vdev d2))).
  { unfold virtio_dev_drv_up. apply wp_bind. eapply wp_mono; [|by apply status_update_total]. by intros ? ? [_ ?]. }
  intros _ v [l ->]. dstep. apply Hkeep; [done|]. by apply dev_ok_vdev.
Qed.
End bring_up.

(** ** Probing *)

(** A state before the device is probed: no sockets, no device, no buffers. *)
Record power_on (w : virtio_world) : Prop := {
  po_socks : w_socks w = ∅;
  po_next : 0 <= w_port_alloc_next w < 2 ^ 32;
  po_dev : w_main_dev w = false;
  po_pkts : d_pkts (w_drv w) = ∅;
  po_evs : d_events (w_drv w) = ∅
}.

(** A failed probe frees the device structure.  If it had been registered, it
    stays registered. *)
Definition probe_failed (w' : virtio_world) : Prop :=
  w_main_dev w' = false \/ (w_main_dev w' = true /\ d_freed (w_drv w') = true /\ w_socks w' = ∅).
Definition probed (rc : Z) (w' : virtio_world) : Prop :=
  if rc =? 0 then 3 <= d_cid (w_drv w') < 2 ^ 32 /\ rest (d_cid (w_drv w')) w' /\ configured (w_drv w') /\
    vqs_of (w_drv w') = [0; 1; 2]
  else probe_failed w'.

Lemma wp_dwp {A} (m : MW A) Φ w Q :
  dwp m Φ (w_drv w) -> (forall a d', Φ a d' -> Q a (set_drv d' w)) -> wp m Q w.
Proof. intros Hm HQ. eapply wp_mono; [|by apply Hm]. intros a w' (d' & -> & H). by apply HQ. Qed.

(** The world once the empty socket layer is registered. *)
Lemma registered_rest cid fl d (w : virtio_world) :
  w_socks w = ∅ -> w_sockets w = E -> w_main_dev w = true -> 0 <= w_port_alloc_next w < 2 ^ 32 ->
  dev_ok cid [] [] fl d -> rest cid (set_drv d w).
Proof.
  intros Hs Ht Hm Hn Hd. split; [|by exists [], [], fl]. unfold settled, core, vsocks. cbn. rewrite Hs, Ht, Hm.
  split; [|intros i s Hi; by apply elem_of_nil in Hi].
  split; try done; cbn; [split|..]; try (intros; by simplify_map_eq).
  - by exists 0%nat; constructor.
  - constructor.
  - intros i Hi. by apply elem_of_nil in Hi.
Qed.

Section probe.
Context `{!Allocator uk_malloc, !PageMap virt_to_phys, !Mapped vma_advise, !DeviceStep device}.
Context (hardware : list access -> Z -> Z -> Z) (thread_create : nat -> bool).
Context `{!Platform irq_register ring_alloc uninit}.
#[local] Abbreviation add_dev :=
  (virtio_vsockdev_add_dev uk_malloc virt_to_phys vma_advise device hardware irq_register thread_create
     ring_alloc uninit).

(** What all failing paths end with. *)
Lemma free_probed rc (w : virtio_world) :
  w_main_dev w = true -> w_socks w = ∅ -> rc <> 0 ->
  wp (free_dev;; mret rc) (fun rc' w' => probed rc' w') w.
Proof.
  intros Hm Hs Hrc. apply wp_bind. unfold wp at 1, free_dev, put_dev, modify. apply wp_ret. unfold probed.
  rewrite (proj2 (Z.eqb_neq rc 0) Hrc). by right.
Qed.
Lemma fail_probed rc (w : virtio_world) :
  w_main_dev w = true -> w_socks w = ∅ -> rc <> 0 ->
  wp (hw (virtio_dev_status_update STATUS_FAIL);; free_dev;; mret rc) (fun rc' w' => probed rc' w') w.
Proof.
  intros Hm Hs Hrc. apply wp_bind. eapply wp_dwp; [eapply dwp_hw; [by apply status_update_total|]|].
  { intros a v _. instantiate (1 := fun _ _ => True). done. }
  intros _ d' _. by apply free_probed.
Qed.

(** Registering the device with the socket layer. *)
Lemma register_wp (w : virtio_world) Q :
  w_main_dev w = false -> Q 0 (set_sockets E (set_main_dev true w)) -> wp uk_vsockdev_register Q w.
Proof.
  intros Hm HQ. unfold uk_vsockdev_register, vsockdev_get. apply wp_bind. unfold wp at 1, gets. rewrite Hm. exact HQ.
Qed.

(** Taking a started device down again. *)
Lemma teardown_spec cid d :
  up (cid := cid) d ->
  dwp (uk_vsockdev_rxqueue_unconfigure;; uk_vsockdev_evqueue_unconfigure;; virtio_vsockdev_release_queues)
    (fun _ _ => True) d.
Proof.
  intros ([Hr He] & _ & fl & Hd). destruct (dev_ok_queues _ _ _ _ Hd) as [qs Hqs].
  unfold uk_vsockdev_rxqueue_unconfigure, uk_vsockdev_evqueue_unconfigure, destroy_event_handler.
  dstep. dstep. dstep. rewrite Hr. dstep. eapply dwp_some. dstep. dstep. dstep. dstep. cbn. rewrite He.
  dstep. eapply dwp_some. dstep. by eapply release_queues_spec.
Qed.

(** From the negotiation of features to the end, the device being registered. *)
Lemma add_dev_registered w :
  w_socks w = ∅ -> w_sockets w = E -> w_main_dev w = true -> 0 <= w_port_alloc_next w < 2 ^ 32 ->
  dev_zero (w_drv w) ->
  wp (rc ← virtio_vsockdev_feature_negotiate hardware;
      if negb (rc =? 0) then free_dev;; mret rc
      else
        rc ← virtio_vsockdev_alloc_queues uk_malloc hardware irq_register;
        if negb (rc =? 0) then hw (virtio_dev_status_update STATUS_FAIL);; free_dev;; mret rc
        else
          rc ← virtio_vsockdev_setup_queues uk_malloc virt_to_phys vma_advise thread_create ring_alloc uninit;
          if negb (rc =? 0) then
            virtio_vsockdev_free_queues;;
            hw (virtio_dev_status_update STATUS_FAIL);; free_dev;; mret rc
          else
            rc ← virtio_vsockdev_start device;
            if negb (rc =? 0) then
              uk_vsockdev_rxqueue_unconfigure;;
              uk_vsockdev_evqueue_unconfigure;;
              virtio_vsockdev_release_queues;;
              virtio_vsockdev_free_queues;;
              hw (virtio_dev_status_update STATUS_FAIL);; free_dev;; mret rc
            else mret 0) (fun rc w' => probed rc w') w.
Proof.
  intros Hs Ht Hm Hn Hz. apply wp_bind. eapply wp_dwp; [by apply feature_negotiate_spec|]. intros rc d2 [Hz2 Hcid].
  destruct (Z.eqb_spec rc 0) as [->|Hrc]; cbn [negb]; [specialize (Hcid eq_refl)|]; cycle 1.
  { by apply free_probed. }
  apply wp_bind. eapply wp_dwp; [by eapply alloc_queues_spec|]. intros rc d3 Hd3.
  destruct (Z.eqb_spec rc 0) as [->|Hrc]; cbn [negb]; [|by apply fail_probed]. destruct (Hd3 eq_refl) as (qs & Hnew & Hqs & Hq0 & Hq1 & Hq2).
  apply wp_bind. eapply wp_dwp; [by eapply setup_queues_spec|]. intros rc d4 Hup.
  destruct (Z.eqb_spec rc 0) as [->|Hrc]; cbn [negb]; [specialize (Hup eq_refl)|]; cycle 1.
  { apply wp_bind. unfold wp at 1, virtio_vsockdev_free_queues, put_dev, modify. by apply fail_probed. }
  apply wp_bind. eapply wp_dwp; [by eapply start_spec|]. intros rc d5 Hup5.
  destruct (Z.eqb_spec rc 0) as [->|Hrc]; cbn [negb].
  - destruct Hup5 as (Hc & Hv & fl & Hok). apply wp_ret. unfold probed. cbn [Z.eqb].
    replace (d_cid _) with (d_cid d2) by (symmetry; apply (do_cid _ _ _ _ _ Hok)).
    split; [exact Hcid|]. split; [by apply (registered_rest _ fl)|done].
  - pose proof (teardown_spec _ _ Hup5) as Ht5. specialize (Ht5 (set_drv d5 (set_drv d4 (set_drv d3 (set_drv d2 w)))) eq_refl).
    rewrite !wp_bind in Ht5. apply wp_bind. eapply wp_mono; [|exact Ht5]. intros [] w6 H6. cbv beta in H6.
    rewrite wp_bind in H6. apply wp_bind. eapply wp_mono; [|exact H6]. intros [] w7 H7. cbv beta in H7.
    apply wp_bind. eapply wp_mono; [|exact H7]. intros _ w8 (d8 & -> & _).
    apply wp_bind. unfold wp at 1, virtio_vsockdev_free_queues, put_dev, modify. by apply fail_probed.
Qed.

Lemma add_dev_spec w : power_on w -> vqs_of (w_drv w) = [] -> wp add_dev (fun rc w' => probed rc w') w.
Proof.
  intros [Hs Hn Hm Hp He] Hv. unfold virtio_vsockdev_add_dev, malloc.
  apply wp_bind, wp_bind. unfold wp at 1, get_dev, gets. apply wp_bind. unfold wp at 1, put_dev, modify.
  apply wp_ret. destruct (uk_malloc _ _) as [block|]; [|by left]. apply wp_bind. unfold wp at 1, put_dev, modify.
  apply wp_bind, register_wp; [done|]. cbn [negb Z.eqb]. by apply add_dev_registered.
Qed.

(** *** The bus and the transport above it *)

Lemma wp_hw {A} (m : M virtio_mmio_device A) (Q : A -> virtio_world -> Prop) w :
  wp m (fun a v => Q a (set_drv (set_vdev v (w_drv w)) w)) (d_vdev (w_drv w)) -> wp (hw m) Q w.
Proof. unfold wp, hw. by destruct (m (d_vdev (w_drv w))) as [[a v]| |]. Qed.

Lemma power_on_vdev v w : power_on w -> power_on (set_drv (set_vdev v (w_drv w)) w).
Proof. by intros []. Qed.

(** Accesses of the transport before the driver is called. *)
Lemma power_on_read off (Q : Z -> virtio_world -> Prop) w :
  power_on w -> (forall x w', power_on w' -> Q x w') -> wp (hw (cread32 hardware off)) Q w.
Proof. intros Hw HQ. apply wp_hw, wp_ioreg_read; [lia|]. intros x l _. by apply HQ, power_on_vdev. Qed.
Lemma power_on_modify f (Q : unit -> virtio_world -> Prop) w :
  power_on w -> (forall w', power_on w' -> Q tt w') -> wp (hw (modify f)) Q w.
Proof. intros Hw HQ. apply wp_hw. by apply HQ, power_on_vdev. Qed.

#[local] Abbreviation drv :=
  (vsock_drv uk_malloc virt_to_phys vma_advise device hardware irq_register thread_create ring_alloc uninit).

Lemma device_reinit_total v : wp virtio_device_reinit (fun rc _ => rc = 0) v.
Proof.
  unfold virtio_device_reinit. apply wp_bind, wp_ioreg_write. intros l1. apply wp_bind. unfold wp at 1, modify.
  apply wp_bind. eapply wp_mono; [|by apply status_update_total]. intros rc1 v1 [-> _]. cbn [negb Z.eqb].
  apply wp_bind. eapply wp_mono; [|by apply status_update_total]. by intros rc2 v2 [-> _].
Qed.

Lemma power_on_probed rc w' : rc <> 0 -> power_on w' -> probed rc w'.
Proof. intros Hrc Hw'. unfold probed. rewrite (proj2 (Z.eqb_neq rc 0) Hrc). left. apply Hw'. Qed.

Lemma find_match_vsock id :
  find_match_drv [drv] id = Some (if VIRTIO_ID_VSOCK =? id then Some drv else None).
Proof. cbn. by destruct (match id with Zpos _ => _ | _ => _ end). Qed.

Lemma bus_register_spec w :
  power_on w -> wp (virtio_bus_register_device (@hw) [drv]) (fun rc w' => probed rc w') w.
Proof.
  intros Hw. pose proof power_on_probed as Hoff.
  unfold virtio_bus_register_device. apply wp_bind, wp_hw. unfold wp at 1, gets.
  apply wp_bind. unfold wp at 1, deref. rewrite find_match_vsock.
  destruct (_ =? _); [|by apply Hoff, power_on_vdev].
  apply wp_bind, wp_hw. eapply wp_mono; [|apply device_reinit_total]. intros rc v ->. cbn [negb Z.eqb].
  apply wp_bind, wp_hw. unfold wp at 1, modify. apply wp_bind.
  eapply wp_mono; [|by apply add_dev_spec; [do 3 apply power_on_vdev|]]. intros rc w2 Hp. destruct (Z.eqb_spec rc 0) as [->|Hrc]; cbn [negb]; [exact Hp|].
  apply wp_bind, wp_hw. eapply wp_mono; [|by apply status_update_total]. intros _ v' _. apply wp_ret.
  unfold probed in *. rewrite (proj2 (Z.eqb_neq rc 0) Hrc) in *. destruct Hp as [Hm|(Hm & Hf & Hs)]; [by left|by right].
Qed.

Lemma mmio_add_dev_spec block base w :
  power_on w -> wp (virtio_mmio_add_dev (@hw) hardware [drv] block base) (fun rc w' => probed rc w') w.
Proof.
  intros Hw. pose proof power_on_probed as Hoff.
  unfold virtio_mmio_add_dev. destruct block; [|by apply Hoff]. cbn [negb]. case_match; [by apply Hoff|].
  apply wp_bind, power_on_read; [done|]. intros magic w1 P1. case_match; [by apply Hoff|].
  apply wp_bind, power_on_read; [done|]. intros version w2 P2. apply wp_bind, power_on_modify; [done|]. intros w3 P3.
  case_match; [by apply Hoff|].
  apply wp_bind, power_on_read; [done|]. intros id w4 P4. apply wp_bind, power_on_modify; [done|]. intros w5 P5.
  case_match; [by apply Hoff|].
  apply wp_bind, power_on_read; [done|]. intros vendor w6 P6. apply wp_bind, power_on_modify; [done|]. intros w7 P7.
  pose proof bus_register_spec. apply wp_bind. case_match; [apply power_on_modify|apply wp_ret]; auto.
Qed.
End probe.

(** ** Interrupts *)

(** The device has returned buffers in the queue [id]. *)
Definition has_work (id : queue_id) (d : virtio_vsockdev) : bool :=
  match d_queues d ≫= (fun qs => q_vq (queue_of id qs)) with
  | Some vq => virtqueue_hasdata vq
  | None => false
  end.
Definition hwvq_of (id : queue_id) : Z :=
  match id with QUEUE_RX => 0 | QUEUE_TX => 1 | QUEUE_EVENT => 2 end.
Definition wakeups (d : virtio_vsockdev) : Z * Z :=
  (eh_events (d_rxq_handler d), eh_events (d_evq_handler d)).

Section interrupt.
Context {cid : Z}.
Implicit Types (d : virtio_vsockdev) (own evs : list positive) (fl : flights).

Lemma has_work_at id q vq d : queue_at d id q vq -> has_work id d = virtqueue_hasdata vq.
Proof. intros (qs & Hqs & Hq & Hvq). unfold has_work. rewrite Hqs. cbn. by rewrite Hq, Hvq. Qed.
Lemma has_work_other id id' q d : id <> id' -> has_work id' (with_queue d id q) = has_work id' d.
Proof.
  intros Hne. unfold has_work, with_queue. cbn. destruct (d_queues d) as [qs|]; [|done]. cbn.
  rewrite queue_of_set. by destruct id, id'.
Qed.

(** The callback of a queue: interrupts off, the worker woken. *)
Lemma queue_event_spec id notify own evs fl d :
  dev_ok cid own evs fl d ->
  dwp (queue_event id notify) (fun rc d' => rc = 1 /\ exists q', d' = notify (with_queue d id q') /\
    dev_ok cid own evs fl (with_queue d id q')) d.
Proof.
  intros Hd. destruct (do_queue _ _ _ _ _ Hd id) as (q & vq & la & ow & Hat & Hsg & Hf & Ht & Hh).
  unfold queue_event, vq_update. dstep. eapply dwp_vq_step; [done..|]. dstep.
  set (q1 := set_vq q (Some (virtqueue_intr_disable vq))).
  assert (Hat1 : queue_at (with_queue d id q1) id q1 (virtqueue_intr_disable vq)) by by eapply queue_at_with.
  dstep. dstep. dstep. dstep. split; [done|]. rewrite with_queue_with. eexists. split; [done|].
  eapply (dev_ok_requeue _ _ _ _ _ id q vq _ (virtqueue_intr_disable vq)); try done.
  - intros la' ow' l'. apply flight_same, same_rings_disable.
  - intros Hh' Hid. eapply lens_same; [apply same_rings_disable|]. by apply Hh'.
Qed.

Lemma dev_ok_rxq own evs fl h d : dev_ok cid own evs fl d -> dev_ok cid own evs fl (set_rxq_handler h d).
Proof. intros [? Hq ? ? ?]. split; [done|intros id; by eapply queue_ok_same, Hq|done..]. Qed.
Lemma dev_ok_evq own evs fl h d : dev_ok cid own evs fl d -> dev_ok cid own evs fl (set_evq_handler h d).
Proof. intros [? Hq ? ? ?]. split; [done|intros id; by eapply queue_ok_same, Hq|done..]. Qed.

(** One queue of the transport: its worker is woken if there is work. *)
Definition woken (id : queue_id) (d : virtio_vsockdev) : Z * Z :=
  let '(rx, ev) := wakeups d in
  if has_work id d then
    match id with QUEUE_RX => (rx + 1, ev) | QUEUE_TX => (rx, ev) | QUEUE_EVENT => (rx, ev + 1) end
  else (rx, ev).

Lemma ring_interrupt_spec id own evs fl d :
  dev_ok cid own evs fl d ->
  dwp (virtqueue_ring_interrupt (hwvq_of id)) (fun rc d' => rc = 1 /\ dev_ok cid own evs fl d' /\
    wakeups d' = woken id d /\ (forall id', id <> id' -> has_work id' d' = has_work id' d)) d.
Proof.
  intros Hd. destruct (do_queue _ _ _ _ _ Hd id) as (q & vq & la & ow & Hat & _).
  unfold virtqueue_ring_interrupt, woken. rewrite (has_work_at _ _ _ _ Hat).
  replace (if hwvq_of id =? 0 then _ else _) with id by by destruct id. cbv zeta. dstep. dstep.
  destruct (virtqueue_hasdata vq) eqn:Hh; cbn [negb]; [|by dstep].
  destruct id; [| by dstep |]; (eapply dwp_mono; [by apply queue_event_spec|]);
    intros rc d' (-> & q' & -> & Hd'); split_and!; try done.
  - by apply dev_ok_rxq.
  - intros id' Hid. by apply (has_work_other QUEUE_RX id').
  - by apply dev_ok_evq.
  - intros id' Hid. by apply (has_work_other QUEUE_EVENT id').
Qed.

Lemma interrupt_loop_spec own evs fl d :
  dev_ok cid own evs fl d ->
  dwp (interrupt_loop [0; 1; 2] 0) (fun rc d' => rc = 1 /\ dev_ok cid own evs fl d' /\
    fst (wakeups d') = fst (wakeups d) + (if has_work QUEUE_RX d then 1 else 0) /\
    snd (wakeups d') = snd (wakeups d) + (if has_work QUEUE_EVENT d then 1 else 0)) d.
Proof.
  intros Hd. cbn [interrupt_loop]. dstep. eapply dwp_mono; [by apply (ring_interrupt_spec QUEUE_RX)|].
  intros rc1 d1 (-> & Hd1 & W1 & O1). dstep. eapply dwp_mono; [by apply (ring_interrupt_spec QUEUE_TX)|].
  intros rc2 d2 (-> & Hd2 & W2 & O2). dstep. eapply dwp_mono; [by apply (ring_interrupt_spec QUEUE_EVENT)|].
  intros rc3 d3 (-> & Hd3 & W3 & O3). dstep. split; [done|]. split; [done|].
  assert (H2 : wakeups d2 = wakeups d1) by (rewrite W2; unfold woken; destruct (wakeups d1); by case_match).
  unfold woken in W3, W1. rewrite H2, W1, O2, O1 in W3 by done. destruct (wakeups d) as [rx ev]. rewrite W3.
  destruct (has_work QUEUE_RX d), (has_work QUEUE_EVENT d); cbn; lia.
Qed.
End interrupt.
