(* ===== verification/VirtioSample.v ===== *)
(** * A concrete environment for the virtio vsock driver

    An allocator, an address map and a device that completes transmit buffers
    whenever the CPU is given up: the environment assumed by the theorems about
    the driver exists, and the driver runs in it. *)

From stdpp Require Import prelude gmap.
From S2P Require Import Prelude Tree VsockBuffer Netbuf NetbufHeap Sglist Vring VringUse VirtioMmio Vsock.
From S2P Require Import VsockTable VsockLogic VsockCore VsockSocket VsockStream QuietDriver VsockSystem.
From S2P Require Import VirtioVsock VirtioLogic VirtioTx VirtioDriver VirtioRx VirtioWork VirtioSetup.

#[local] Abbreviation MW := (M virtio_world).

Definition sample_malloc (n : nat) (size : Z) : option (Z * list Z) :=
  if (0 <=? size) && (size <? 2 ^ 40) then Some (4096, replicate (Z.to_nat size) 0) else None.

#[export] Instance sample_allocator : Allocator sample_malloc.
Proof.
  intros n size addr bytes. unfold sample_malloc. destruct (_ && _) eqn:Hb; [|done]. intros [= <- <-].
  unfold zlen. rewrite length_replicate. split_and!; [lia|done|lia|lia].
Qed.

Definition sample_advise (a n : Z) : Z := 0.
#[export] Instance sample_mapped : Mapped sample_advise.
Proof. by intros. Qed.

#[export] Instance sample_device : DeviceStep id.
Proof. split; [intros q la ow cks H; exists la, ow|intros q H]; by destruct q. Qed.

Definition sample_migration : MW Z := mret 0.
#[export] Instance sample_migration_law : Migration sample_migration.
Proof. intros cid held hev c. by apply cwp_ret. Qed.

(** ** A device that completes transmit buffers *)

(** The device completes a head it has taken, or takes the next one and
    completes it: the queue and the device's own side. *)
Definition complete (vq : virtqueue) (h : Z) : option virtqueue :=
  ring ← zput (used_ring (vr vq)) (used_idx (vr vq) mod num (vr vq)) (h, 0);
  Some (set_vring vq (set_used (vr vq) (u16 (used_idx (vr vq) + 1)) ring)).
Definition device_turn (vq : virtqueue) (la : Z) (ow : list Z) : option (virtqueue * (Z * list Z)) :=
  match ow with
  | h :: ow => vq ← complete vq h; Some (vq, (la, ow))
  | [] =>
      if la =? avail_idx (vr vq) then None
      else
        h ← zget (avail_ring (vr vq)) (la mod num (vr vq));
        vq ← complete vq h;
        Some (vq, (u16 (la + 1), []))
  end.
Definition sample_turn (d : virtio_vsockdev) : virtio_vsockdev :=
  default d (
    qs ← d_queues d;
    vq ← q_vq (qs_tx qs);
    '(vq, side) ← device_turn vq (fst (d_tx_device d)) (snd (d_tx_device d));
    Some (set_tx_device side (with_queue d QUEUE_TX (set_vq (qs_tx qs) (Some vq))))).
Definition sample_yield : MW unit := put_dev sample_turn.

Lemma complete_inv vq la ow1 h ow2 sent ret free chains A L U D la' lu :
  vsys_inv (mk_vsys vq la (ow1 ++ h :: ow2) sent ret) free chains A L U D la' lu ->
  exists vq', complete vq h = Some vq' /\
    vsys_inv (mk_vsys vq' la (ow1 ++ ow2) sent ret) free chains A L (U + 1) D la' (lu ++ [h]).
Proof.
  intros I. pose proof (vi_q _ _ _ _ _ _ _ _ _ I) as Hq. cbn in Hq.
  pose proof (vq_inv_num _ _ _ Hq) as Hn.
  pose proof (Z.mod_pos_bound (used_idx (vr vq)) (num (vr vq)) ltac:(lia)) as Hm.
  unfold complete. rewrite zput_Some by (rewrite (inv_used _ _ _ Hq); lia). cbn. eexists. split; [done|].
  eapply inv_complete; [done|]. apply zput_Some. rewrite (inv_used _ _ _ Hq). lia.
Qed.

Lemma device_turn_flight vq la ow cks :
  flight vq la ow cks ->
  match device_turn vq la ow with
  | Some (vq', (la', ow')) => flight vq' la' ow' cks /\ virtqueue_hasdata vq' = true
  | None => cks <> [] -> virtqueue_hasdata vq = true
  end.
Proof.
  intros (sent & ret & free & chains & A & L & U & D & la' & lu & I & Hp). unfold device_turn.
  assert (Hdone : forall q l o fr ch a b c e l' u h,
    vsys_inv (mk_vsys q l o sent ret) fr ch a b c e l' (u ++ [h]) -> map fst ch ≡ₚ cks ->
    flight q l o cks /\ virtqueue_hasdata q = true).
  { intros q l o fr ch a b c e l' u h I' Hp'. split; [by do 10 eexists|].
    pose proof (hasdata_iff I') as Hh. cbn in Hh. rewrite Hh. by destruct u. }
  destruct ow as [|h ow].
  - destruct (Z.eqb_spec la (avail_idx (vr vq))) as [->|Hne].
    + intros Hc. pose proof (hasdata_iff I) as Hh. cbn in Hh. rewrite Hh.
      rewrite bool_decide_eq_false_2; [done|]. intros ->.
      pose proof (vi_bound I) as HB. cbn in HB. pose proof (vq_inv_num _ _ _ (vi_q _ _ _ _ _ _ _ _ _ I)) as Hn.
      pose proof (zlen_nonneg free) as Hfr. pose proof (zlen_nonneg la') as Hla.
      assert (A = L).
      { apply u16_inj; [rewrite (vi_la _ _ _ _ _ _ _ _ _ I); unfold zlen in *; cbn in *; lia|].
        rewrite <- (vi_avail _ _ _ _ _ _ _ _ _ I). symmetry. rewrite <- (vi_last_avail _ _ _ _ _ _ _ _ _ I). done. }
      pose proof (vi_la _ _ _ _ _ _ _ _ _ I) as Hl. pose proof (vi_heads _ _ _ _ _ _ _ _ _ I) as Hh'.
      destruct la'; [|unfold zlen in Hl; cbn in Hl; lia]. cbn in Hh'.
      apply Permutation_nil_r in Hh'. destruct chains; [|done]. cbn in Hp. apply Permutation_nil_l in Hp. done.
    + pose proof (vi_q _ _ _ _ _ _ _ _ _ I) as Hq. cbn in Hq. pose proof (vq_inv_num _ _ _ Hq) as Hn.
      pose proof (Z.mod_pos_bound la (num (vr vq)) ltac:(lia)) as Hm.
      destruct (zget_Some (avail_ring (vr vq)) (la mod num (vr vq))) as [h Hh].
      { rewrite (inv_avail _ _ _ Hq). lia. }
      destruct (inv_take _ _ _ _ _ _ _ _ _ _ _ _ _ _ I Hne Hh) as [la2 I2].
      destruct (complete_inv _ _ [] _ [] _ _ _ _ _ _ _ _ _ _ I2) as (vq' & Hc & I3).
      rewrite Hh. cbn. rewrite Hc. cbn. by eapply Hdone.
  - destruct (complete_inv _ _ [] _ _ _ _ _ _ _ _ _ _ _ _ I) as (vq' & Hc & I3).
    rewrite Hc. cbn. by eapply Hdone.
Qed.

(** The transmit queue and the device's side of it change together. *)
Lemma dev_ok_tx_turn cid own evs fl d q vq vq' la ow :
  dev_ok cid own evs fl d -> queue_at d QUEUE_TX q vq -> flight vq' la ow (fl_tx fl) ->
  dev_ok cid own evs fl (set_tx_device (la, ow) (with_queue d QUEUE_TX (set_vq q (Some vq')))).
Proof.
  intros [Hc Hq Hp Hk He] Hat Hf. split; try done. intros id. destruct (Hq id) as (q0 & vq0 & la0 & ow0 & Hat0 & Hsg & Hf0 & _ & Hh).
  destruct (decide (id = QUEUE_TX)) as [->|Hne].
  - destruct (queue_at_inj _ _ _ _ _ _ Hat Hat0) as [-> ->]. exists (set_vq q (Some vq')), vq', la, ow.
    split_and!; try done. by apply (queue_at_with d QUEUE_TX q vq).
  - exists q0, vq0, la0, ow0. split_and!; try done.
    by apply (queue_at_other d QUEUE_TX id q0 vq0).
Qed.

#[export] Instance sample_progress : Progress sample_yield.
Proof.
  intros cid own evs fl d Hd _. apply dwp_put_dev.
  destruct (do_queue _ _ _ _ _ Hd QUEUE_TX) as (q & vq & la & ow & Hat & Hsg & Hf & Ht & _).
  specialize (Ht eq_refl). pose proof (device_turn_flight vq la ow _ Hf) as Hturn.
  pose proof Hat as (qs & Hqs & Hq & Hvq). cbn in Hq. unfold sample_turn. rewrite Hqs. cbn. rewrite Hq, Hvq, Ht. cbn.
  destruct (device_turn vq la ow) as [[vq' [la' ow']]|]; cbn.
  - destruct Hturn as [Hf' Hh]. split_and!; [by eapply dev_ok_tx_turn| |done].
    intros _. exists (set_vq q (Some vq')), vq'. split; [|done]. by apply (queue_at_with d QUEUE_TX q vq).
  - split_and!; [done| |done]. intros Hne. exists q, vq. split; [done|]. by apply Hturn.
Qed.

(** ** A device that has just been started *)

Definition sample_sg : uk_sglist := uk_sglist_init VSOCK_MAX_FRAGMENTS (replicate 17 (mk_seg 0 0)).
Definition sample_queue (hwvq : Z) : virtio_vsockdev_queue :=
  mk_queue (Some (virtqueue_create (2 ^ 5) false (repeat (mk_info None 0) 32))) hwvq 32 32 0 sample_sg.
Definition sample_vdev : virtio_mmio_device := mk_mmio 0 [0; 1; 2] VIRTIO_ID_VSOCK DEV_INITIALIZED 2 0 [].
Definition sample_dev (cid : Z) : virtio_vsockdev :=
  mk_dev cid sample_vdev (Some (mk_queues (sample_queue 0) (sample_queue 1) (sample_queue 2))) ∅ ∅ 0
    (mk_handler true 0 true) (mk_handler true 0 true) (0, []) false.

Lemma sample_flight : flight (virtqueue_create (2 ^ 5) false (repeat (mk_info None 0) 32)) 0 [] [].
Proof.
  exists [], [], (seqZ 0 (2 ^ 5)), [], 0, 0, 0, 0, [], []. split; [|done].
  by apply (init_inv 5 false (repeat (mk_info None 0) 32)).
Qed.

Lemma sample_dev_ok cid : dev_ok cid [] [] (mk_fl [] [] []) (sample_dev cid).
Proof.
  split; try done. intros id.
  exists (sample_queue (match id with QUEUE_RX => 0 | QUEUE_TX => 1 | QUEUE_EVENT => 2 end)),
    (virtqueue_create (2 ^ 5) false (repeat (mk_info None 0) 32)), 0, [].
  split_and!; [by destruct id; eexists| |destruct id; exact sample_flight|done|].
  - split; [|done]. unfold sg_wf. cbn. split_and!; try done; constructor.
  - intros _ k h len Hk. change (u16 (used_idx _ - last_used_desc_idx _)) with 0 in Hk. lia.
Qed.

(** ** A started device with one packet, and one open socket

    The socket is that of [sample_world]; the packet 1 holds [payload]. *)

Definition sample_pkt (payload : list Z) : uk_netbuf :=
  mk_netbuf None None 0 4096 (zlen payload) 1 0 4096 (zlen payload) 0 None true payload.
Definition sample_dev_pkt (cid : Z) (payload : list Z) : virtio_vsockdev :=
  set_pkts {[1%positive := sample_pkt payload]} (sample_dev cid).

Lemma sample_pkt_ok payload : zlen payload < 2 ^ 16 -> pkt_ok (sample_pkt payload).
Proof. intros H. pose proof (zlen_nonneg payload). split; cbn; try done; lia. Qed.

Lemma sample_dev_pkt_ok cid payload :
  zlen payload < 2 ^ 16 -> dev_ok cid [1%positive] [] (mk_fl [] [] []) (sample_dev_pkt cid payload).
Proof.
  intros H. destruct (sample_dev_ok cid) as [Hc Hq _ _ He]. split; try done.
  intros p nb. cbn. intros [_ <-]%lookup_singleton_Some. by apply sample_pkt_ok.
Qed.

Definition sample_vs : virtio_vsock := mk_vs VIRTIO_VSOCK_TYPE_STREAM 16 (2 ^ 32 - 4) 6.
Definition sample_vworld (s : uk_vsock) (d : virtio_vsockdev) : virtio_world :=
  mk_world (sample_tree (v_state s)) 1 {[1%positive := (s, sample_vs)]} ∅
    {[1%positive := sample_file]} true d.

Lemma sample_vworld_core s d : core (sample_vworld s d) = core (sample_world s ∅).
Proof. unfold core, vsocks. cbn. by rewrite !map_fmap_singleton. Qed.

Lemma sample_vworld_settled peer d :
  settled 3 (core (sample_vworld (sample_sock OPEN peer []) d)).
Proof.
  rewrite sample_vworld_core. split.
  - apply sample_inv; try done; [by intros [|]|constructor|by intros ? ?%elem_of_nil].
  - intros i s _. rewrite sample_socks. intros [_ <-]%lookup_singleton_Some. by exists 1%positive.
Qed.

(** ** Hardware

    The registers of a modern device with three queues of 32 descriptors and the
    CID 3, whose interrupt is pending, and the state before it is probed. *)

Definition sample_hardware (log : list access) (width off : Z) : Z :=
  if off =? MAGIC_VALUE then MAGIC
  else if off =? VERSION then 2
  else if off =? DEVICE_ID then VIRTIO_ID_VSOCK
  else if off =? DEVICE_FEATURES then 1
  else if off =? QUEUE_NUM_MAX then 32
  else if off =? INTERRUPT_STATUS then INT_VRING
  else if off =? CONFIG then 3
  else 0.
Definition sample_ring_alloc (n : nat) (size : Z) : Z + Z := inr 65536.
Definition sample_uninit (n : Z) : list virtqueue_desc_info := replicate (Z.to_nat n) (mk_info None 0).
#[export] Instance sample_platform : Platform 0 sample_ring_alloc sample_uninit.
Proof.
  split; [done|done|]. intros n Hn. unfold zlen, sample_uninit. rewrite length_replicate. lia.
Qed.
Definition sample_off : virtio_world :=
  mk_world E 0 ∅ ∅ ∅ false
    (mk_dev 0 (mk_mmio 0 [] 0 DEV_RESET 0 0 []) None ∅ ∅ 0 (mk_handler false 0 false) (mk_handler false 0 false)
       (0, []) false).
Lemma sample_power_on : power_on sample_off.
Proof. done. Qed.
