(* ===== verification/Suspend.v ===== *)
(** * Calls that give up the CPU

    A driver that waits for room in a queue gives up the CPU in the middle of a
    call, and the other threads may then enter the stack.  [suspend] stands for
    that point: the run ends there, as one that has not returned; and so does
    [wait_for_room], which also fails when there is no reason to wait.  The order [⊑]
    relates a run that ends early to one that goes on, and every function of the
    socket layer is monotone in the operations of the driver: up to the first
    point where the CPU is given up a call does the same whatever happens there. *)

From stdpp Require Import prelude gmap.
From S2P Require Import Prelude Tree VsockBuffer Netbuf NetbufHeap Sglist Vring VringUse Vsock VsockSystem.
From S2P Require Import VirtioVsock VirtioLogic VirtioTx VirtioDriver VirtioRx VirtioWork VirtioSetup VirtioSample.

(** The thread is taken off the CPU. *)
Definition suspend {S} : M S unit := out_of_fuel.
(** The same for a thread that waits for room in the transmit queue: it may do so
    only when the queue is full. *)
Definition wait_for_room : M virtio_world unit := fun w => if tx_full (w_drv w) then OutOfFuel else Abort.

(** ** Runs that end early *)

#[export] Instance run_order {S A} : SqSubsetEq (M S A) := fun m m' => forall s, m s = OutOfFuel \/ m s = m' s.
#[export] Instance run_order_refl {S A} : Reflexive (⊑@{M S A}).
Proof. intros m s. by right. Qed.
#[export] Instance run_order_trans {S A} : Transitive (⊑@{M S A}).
Proof. intros m1 m2 m3 H1 H2 s. destruct (H1 s) as [?| ->]; [by left|apply H2]. Qed.

Lemma suspend_least {S A} (m : M S A) : out_of_fuel ⊑ m.
Proof. intros s. by left. Qed.
Lemma bind_order {S A B} (m m' : M S A) (f f' : A -> M S B) :
  m ⊑ m' -> (forall a, f a ⊑ f' a) -> (m ≫= f) ⊑ (m' ≫= f').
Proof.
  intros Hm Hf s. unfold mbind, M_bind. destruct (Hm s) as [-> | ->]; [by left|].
  destruct (m' s) as [[a s']| |]; [apply Hf|by right..].
Qed.
(** The shorter run has not failed, and what it has returned the longer one returns. *)
Lemma run_safe {S A} (m m' : M S A) Q s : m ⊑ m' -> wsafe m' Q s -> wsafe m Q s.
Proof. intros Hm. unfold wsafe. by destruct (Hm s) as [-> | ->]. Qed.
Lemma run_done {S A} (m m' : M S A) s r : m ⊑ m' -> m s = Done r -> m' s = Done r.
Proof. intros Hm Hs. destruct (Hm s) as [He|He]; congruence. Qed.

Create HintDb runs discriminated.
#[export] Hint Constants Opaque : runs.
#[export] Hint Resolve suspend_least : runs.
(** [runs] goes through a computation. *)
Ltac runs := repeat first
  [ lazymatch goal with |- ?m ⊑ ?m' => constr_eq m m'; exact (fun s => or_intror eq_refl) end
  | lazymatch goal with |- (_ ≫= _) ⊑ (_ ≫= _) => apply bind_order; [|intros ?] end
  | lazymatch goal with |- match _ with _ => _ end ⊑ _ => case_match end
  | solve [auto with runs] ].

(** ** The socket layer *)

Section core.
Context {P Q D : Type}.
#[local] Abbreviation MW := (M (world P Q D)).

Record ops_order (o o' : uk_vsockdev_ops P Q D) : Prop := {
  oo_get_cid : op_get_cid o ⊑ op_get_cid o';
  oo_create t p : op_create o t p ⊑ op_create o' t p;
  oo_accept i e : op_accept o i e ⊑ op_accept o' i e;
  oo_free i e : op_free_accept_entry o i e ⊑ op_free_accept_entry o' i e;
  oo_send i b : op_send o i b ⊑ op_send o' i b;
  oo_connect i : op_connect o i ⊑ op_connect o' i;
  oo_shutdown i r t : op_shutdown o i r t ⊑ op_shutdown o' i r t;
  oo_reset i : op_reset o i ⊑ op_reset o' i;
  oo_destroy i : op_destroy o i ⊑ op_destroy o' i;
  oo_credit : option_Forall2 (fun f f' => forall i, f i ⊑ f' i) (op_send_credit_update o) (op_send_credit_update o')
}.

Context (o o' : uk_vsockdev_ops P Q D) (Ho : ops_order o o').
#[local] Hint Resolve oo_get_cid oo_create oo_accept oo_free oo_send oo_connect oo_shutdown oo_reset oo_destroy : runs.

Lemma dev_op_order {A} (m m' : MW A) : m ⊑ m' -> dev_op m ⊑ dev_op m'.
Proof. intros Hm. unfold dev_op. runs. Qed.
#[local] Hint Resolve dev_op_order : runs.

Lemma drain_loop_order i n : drain_loop o i n ⊑ drain_loop o' i n.
Proof. induction n as [|n IH]; cbn [drain_loop]; runs. Qed.
#[local] Hint Resolve drain_loop_order : runs.
Lemma close_local_order i : close_local o i ⊑ close_local o' i.
Proof. unfold close_local, uk_vsock_drain_accept_queue. runs. Qed.
#[local] Hint Resolve close_local_order : runs.
Lemma uk_vsock_close_order i force : uk_vsock_close o i force ⊑ uk_vsock_close o' i force.
Proof. unfold uk_vsock_close. runs. Qed.
#[local] Hint Resolve uk_vsock_close_order : runs.
Lemma uk_vsock_conn_response_order i : uk_vsock_conn_response o i ⊑ uk_vsock_conn_response o' i.
Proof. unfold uk_vsock_conn_response. runs. Qed.
Lemma uk_vsock_conn_reset_order i : uk_vsock_conn_reset o i ⊑ uk_vsock_conn_reset o' i.
Proof. unfold uk_vsock_conn_reset. runs. Qed.
Lemma uk_vsock_conn_shutdown_order i rx tx : uk_vsock_conn_shutdown o i rx tx ⊑ uk_vsock_conn_shutdown o' i rx tx.
Proof. unfold uk_vsock_conn_shutdown. runs. Qed.
Lemma term_loop_order cur ret n : term_loop o cur ret n ⊑ term_loop o' cur ret n.
Proof. revert cur ret. induction n as [|n IH]; intros cur ret; cbn [term_loop]; runs. Qed.
#[local] Hint Resolve uk_vsock_conn_response_order uk_vsock_conn_reset_order uk_vsock_conn_shutdown_order term_loop_order : runs.
Lemma uk_vsockets_term_order : uk_vsockets_term o ⊑ uk_vsockets_term o'.
Proof. unfold uk_vsockets_term. runs. Qed.
Lemma transport_reset_order m : uk_vsockdev_transport_reset o m ⊑ uk_vsockdev_transport_reset o' m.
Proof. unfold uk_vsockdev_transport_reset, uk_vsockets_term. runs. Qed.
Lemma bind_svm_order ps svm : bind_svm o ps svm ⊑ bind_svm o' ps svm.
Proof. unfold bind_svm. runs. Qed.
#[local] Hint Resolve uk_vsockets_term_order bind_svm_order : runs.
Lemma vsock_bind_order ps addr len : vsock_bind o ps addr len ⊑ vsock_bind o' ps addr len.
Proof. unfold vsock_bind. runs. Qed.
Lemma connect_svm_order i svm : connect_svm o i svm ⊑ connect_svm o' i svm.
Proof. unfold connect_svm, connect_setup. runs. Qed.
Lemma write_loop_order ps i iov n : write_loop o ps i iov n ⊑ write_loop o' ps i iov n.
Proof. revert n. induction iov as [|b iov IH]; intros n; cbn [write_loop]; runs. Qed.
Lemma credit_update_order i : credit_update o i ⊑ credit_update o' i.
Proof. unfold credit_update. destruct (oo_credit _ _ Ho); runs. Qed.
#[local] Hint Resolve vsock_bind_order connect_svm_order write_loop_order credit_update_order : runs.
Lemma read_loop_order i iov n got : read_loop o i iov n got ⊑ read_loop o' i iov n got.
Proof. revert n got. induction iov as [|b iov IH]; intros n got; cbn [read_loop]; runs. Qed.
#[local] Hint Resolve read_loop_order : runs.

Lemma exec_order k : exec o k ⊑ exec o' k.
Proof.
  destruct k; cbn [exec]; unfold ignore, vsock_create, vsock_listen, vsock_accept4, vsock_connect, vsock_shutdown, vsock_close,
    uk_vsock_destroy, vsock_write, vsock_sendto, vsock_read, vsock_recvfrom; runs.
Qed.
End core.

(** ** The driver *)

Section driver.
Context (uk_malloc : nat -> Z -> option (Z * list Z)) (virt_to_phys : Z -> Z) (vma_advise : Z -> Z -> Z).
Context (device : vring -> vring) (sysmigration : M virtio_world Z).
Context (y y' : M virtio_world unit) (Hy : y ⊑ y').
#[local] Hint Resolve Hy : runs.
#[local] Hint Transparent virtio_world : runs.

Lemma xmit_retry_loop_order p n :
  xmit_retry_loop virt_to_phys vma_advise y p n ⊑ xmit_retry_loop virt_to_phys vma_advise y' p n.
Proof. induction n as [|n IH]; cbn [xmit_retry_loop]; runs. Qed.
#[local] Hint Resolve xmit_retry_loop_order : runs.
Lemma send_hdr_order hdr :
  send_hdr uk_malloc virt_to_phys vma_advise y hdr ⊑ send_hdr uk_malloc virt_to_phys vma_advise y' hdr.
Proof. unfold send_hdr, virtio_vsockdev_xmit_retry. runs. Qed.
#[local] Hint Resolve send_hdr_order : runs.
Lemma reject_conn_order i e :
  virtio_vsockdev_reject_conn uk_malloc virt_to_phys vma_advise y i e ⊑
  virtio_vsockdev_reject_conn uk_malloc virt_to_phys vma_advise y' i e.
Proof. unfold virtio_vsockdev_reject_conn. runs. Qed.
#[local] Hint Resolve reject_conn_order : runs.
Lemma credit_request_order i :
  virtio_vsock_work_credit_request uk_malloc virt_to_phys vma_advise y i ⊑
  virtio_vsock_work_credit_request uk_malloc virt_to_phys vma_advise y' i.
Proof. unfold virtio_vsock_work_credit_request. runs. Qed.
#[local] Hint Resolve credit_request_order : runs.

#[local] Abbreviation ops := (virtio_vsockdev_ops uk_malloc virt_to_phys vma_advise).
Lemma virtio_ops_order : ops_order (ops y) (ops y').
Proof.
  split; intros; cbn; try done; try (constructor; intros i; unfold virtio_vsock_send_credit_update);
    unfold virtio_vsock_accept, virtio_vsock_conn_respond, virtio_vsock_connect, virtio_vsock_shutdown, virtio_vsock_reset; runs.
Qed.

Lemma call_order k : exec (ops y) k ⊑ exec (ops y') k.
Proof. apply exec_order, virtio_ops_order. Qed.
Lemma conn_request_order i hdr :
  virtio_vsockdev_work_conn_request uk_malloc virt_to_phys vma_advise y i hdr ⊑
  virtio_vsockdev_work_conn_request uk_malloc virt_to_phys vma_advise y' i hdr.
Proof. unfold virtio_vsockdev_work_conn_request. runs. Qed.
#[local] Hint Resolve conn_request_order : runs.
Lemma handle_packet_order i hdr nb :
  handle_packet uk_malloc virt_to_phys vma_advise y i hdr nb ⊑ handle_packet uk_malloc virt_to_phys vma_advise y' i hdr nb.
Proof.
  pose proof (uk_vsock_conn_response_order _ _ virtio_ops_order). pose proof (uk_vsock_conn_reset_order _ _ virtio_ops_order).
  pose proof (uk_vsock_conn_shutdown_order _ _ virtio_ops_order). unfold handle_packet. runs.
Qed.
Lemma dispatch_packet_order hdr nb :
  dispatch_packet uk_malloc virt_to_phys vma_advise y hdr nb ⊑ dispatch_packet uk_malloc virt_to_phys vma_advise y' hdr nb.
Proof. pose proof handle_packet_order. unfold dispatch_packet. runs. Qed.
Lemma process_packet_order p :
  process_packet uk_malloc virt_to_phys vma_advise y p ⊑ process_packet uk_malloc virt_to_phys vma_advise y' p.
Proof. pose proof dispatch_packet_order. unfold process_packet. runs. Qed.
Lemma work_rx_order :
  virtio_vsockdev_work_rx uk_malloc virt_to_phys vma_advise device y ⊑
  virtio_vsockdev_work_rx uk_malloc virt_to_phys vma_advise device y'.
Proof. pose proof process_packet_order. unfold virtio_vsockdev_work_rx. runs. Qed.
Lemma work_evq_order :
  virtio_vsockdev_work_evq uk_malloc virt_to_phys vma_advise device y sysmigration ⊑
  virtio_vsockdev_work_evq uk_malloc virt_to_phys vma_advise device y' sysmigration.
Proof. pose proof (transport_reset_order _ _ virtio_ops_order). unfold virtio_vsockdev_work_evq. runs. Qed.
End driver.

(** ** A run that goes on

    Where a thread waits for room, the device of VirtioSample.v completes a buffer. *)

Definition go_on : M virtio_world unit := fun w => if tx_full (w_drv w) then sample_yield w else Abort.
#[export] Instance go_on_progress : Progress go_on.
Proof.
  intros cid own evs fl d Hd Hfull w Hw. unfold wp, go_on. rewrite Hw, Hfull. by apply yield_progress.
Qed.
Lemma wait_order : wait_for_room ⊑ go_on.
Proof. intros w. unfold wait_for_room, go_on. destruct (tx_full _); [by left|by right]. Qed.
Lemma suspend_order : suspend ⊑ go_on.
Proof. apply suspend_least. Qed.
