(* ===== verification/VirtioProps.v ===== *)
(** * Properties of the vsock stack on the virtio driver

    The core of lib/ukvsockdev on top of drivers/virtio/vsock as one system:
    the probe of the device, safety under every sequence of calls, interrupts and
    sections of the workers, the packets a send puts on the wire, what arrives at the
    other end, the turns of the blocking transmit, what may happen while it waits, and
    the behaviour without memory. *)

From stdpp Require Import prelude gmap sorting.
From S2P Require Import Prelude Tree VsockBuffer Netbuf NetbufHeap Sglist Vring VringUse VirtioMmio Vsock.
From S2P Require Import VsockTable VsockLogic VsockCore VsockSocket VsockStream QuietDriver VsockSystem.
From S2P Require Import VirtioVsock VirtioLogic VirtioTx VirtioDriver VirtioRx VirtioWork VirtioSetup VirtioSample Suspend.

#[local] Abbreviation MW := (M virtio_world).
#[local] Arguments encode_hdr : simpl never.

(** ** Computations that leave the driver's part alone *)

(** The driver's parts of sockets and entries, and the device, are those of [w]. *)
Definition frozen (w : virtio_world) (m : gmap positive virtio_vsock)
    (es : gmap positive virtio_vsock_accept_entry) (d : virtio_vsockdev) : Prop :=
  m = snd <$> w_socks w /\ es = snd <$> w_entries w /\ d = w_drv w.

Lemma frozen_refl w : drv_inv (frozen w) w.
Proof. done. Qed.

Lemma fmap_pair_eq {A B} (m1 m2 : gmap positive (A * B)) :
  fst <$> m1 = fst <$> m2 -> snd <$> m1 = snd <$> m2 -> m1 = m2.
Proof.
  intros H1 H2. apply map_eq. intros i.
  pose proof (f_equal (lookup i) H1) as E1. pose proof (f_equal (lookup i) H2) as E2.
  rewrite !lookup_fmap in E1. rewrite !lookup_fmap in E2.
  destruct (m1 !! i) as [[a b]|], (m2 !! i) as [[a' b']|]; cbn in *; congruence.
Qed.

(** The parts of a state determine it. *)
Lemma frozen_eq (w w' : virtio_world) : core w' = core w -> drv_inv (frozen w) w' -> w' = w.
Proof.
  intros Hc (H1 & H2 & H3). destruct w as [t n m e p b d], w' as [t' n' m' e' p' b' d'].
  unfold core, vsocks in Hc. cbn in *. injection Hc as -> -> Hm He -> ->. subst d'.
  by rewrite (fmap_pair_eq _ _ Hm H1), (fmap_pair_eq _ _ He H2).
Qed.

Lemma wp_frozen {A} (m : MW A) (Φ : A -> core_state -> Prop) w :
  cwp (frozen w) m Φ (core w) -> wp m (fun a w' => drv_inv (frozen w) w' /\ Φ a (core w')) w.
Proof. intros H. by apply H. Qed.


(** ** Delivery *)

(** An address fits into the fields of a packet. *)
Definition addr_ok (a : uk_vsockaddr) : Prop := 0 <= a_cid a < 2 ^ 32 /\ 0 <= a_port a < 2 ^ 32.

(** The packet, taken apart by the receiver. *)
Lemma packet_parts nb (hdr data : list Z) :
  pkt_ok nb -> zlen hdr = sizeof_hdr -> nb_payload nb = Some (hdr ++ data) ->
  nb_len nb = sizeof_hdr + zlen data /\
  slice (nb_data nb - nb_buf nb) sizeof_hdr (nb_mem nb) = hdr /\
  slice (nb_data nb - nb_buf nb + sizeof_hdr) (nb_len nb - sizeof_hdr) (nb_mem nb) = data.
Proof.
  intros [_ _ [_ Hm] [R1 R2] _ L] Hl Hp. unfold nb_payload, nb_read in Hp.
  rewrite memread_Some in Hp by lia. injection Hp as Hp. pose proof (zlen_nonneg data) as Hd.
  assert (Hlen : nb_len nb = sizeof_hdr + zlen data).
  { rewrite <- Hl, <- zlen_app, <- Hp. symmetry. apply zlen_slice; lia. }
  unfold sizeof_hdr in *. assert (Hn : Z.to_nat 44 = length hdr) by (unfold zlen in Hl; lia).
  split; [done|]. split.
  - rewrite <- (slice_take _ 44 (nb_len nb)), Hp, Hn by lia. apply take_app_length.
  - rewrite <- slice_drop, Hp, Hn by lia. apply drop_app_length.
Qed.

Section delivery.
Context {uk_malloc : nat -> Z -> option (Z * list Z)} {virt_to_phys : Z -> Z} {vma_advise : Z -> Z -> Z}.
Context {uk_sched_yield : MW unit} {cid : Z}.

(** The search for the receiver of a packet. *)
Lemma lookup_exact i s type peer (w : virtio_world) Φ :
  core_inv cid (core w) -> c_socks (core w) !! i = Some s -> v_state s = OPEN ->
  exact type (v_local s) peer s -> Φ (Some i) w ->
  wp (uk_vsock_lookup type (v_local s) peer) Φ w.
Proof.
  intros Hc Hs Ho He HΦ. assert (Hi : i ∈ members (core w)) by (apply (ci_member _ _ Hc i s Hs); by rewrite Ho).
  assert (Hl : cwp (frozen w) (uk_vsock_lookup type (v_local s) peer)
    (fun r c => c = core w /\ lookup_post (core w) type (v_local s) peer r) (core w))
    by by eapply (uk_vsock_lookup_spec _ cid); [apply Hc|].
  eapply wp_mono; [|apply wp_frozen, Hl].
  intros r w' [Hf [Hcore Hr]]. rewrite (frozen_eq w w' Hcore Hf).
  destruct r as [j|]; cycle 1. { destruct Hr as [Hn _]. by destruct (Hn i s). }
  destruct Hr as (sj & Hj & Hsj & [Hej|[Hn _]]); [|by destruct (Hn i s)].
  replace j with i; [done|]. eapply (table_unique cid); [apply Hc|done..|]. unfold exact in *. congruence.
Qed.

(** The driver's part of a socket after a packet with the credit information of
    [hdr]. *)
Definition credited (hdr : virtio_vsock_hdr) (vs : virtio_vsock) : virtio_vsock :=
  mk_vs (vs_type vs) (h_buf_alloc hdr) (h_fwd_cnt hdr) (vs_tx_count vs).
Definition writable_event (vs : virtio_vsock) (al : socket_alloc) : socket_alloc :=
  if 0 <? virtio_vsock_peer_rx_free vs then raise EPOLLOUT al else lower EPOLLOUT al.

Lemma update_credit_wp i hdr s vs ps al (w : virtio_world) :
  w_socks w !! i = Some (s, vs) -> v_posix_sock s = Some ps -> w_psocks w !! ps = Some al ->
  h_op hdr <> VIRTIO_VSOCK_OP_REQUEST -> h_op hdr <> UK_VSOCK_STATE_LISTENING ->
  wp (update_credit i hdr) (fun _ w' =>
    w' = set_psocks (<[ps := writable_event (credited hdr vs) al]> (w_psocks w))
           (with_sock i s (credited hdr vs) w)) w.
Proof.
  intros Hi Hps Hal H1 H2. unfold update_credit.
  rewrite (proj2 (Z.eqb_neq _ _) H1), (proj2 (Z.eqb_neq _ _) H2). cbn [negb andb].
  apply wp_bind. unfold wp at 1, put_vs. rewrite Hi. fold (credited hdr vs).
  apply wp_bind. eapply wp_vs; [apply lookup_insert_eq|].
  apply wp_bind. eapply wp_sock; [apply lookup_insert_eq|]. rewrite Hps.
  unfold writable_event. destruct (0 <? _); unfold wp, posix_sock_event_set, posix_sock_event_clear, posix_sock_events; cbn; by rewrite Hal.
Qed.

Lemma core_with_sock i s vs vs' (w : virtio_world) :
  w_socks w !! i = Some (s, vs) -> core (with_sock i s vs' w) = core w.
Proof.
  intros Hi. unfold core, vsocks, with_sock. cbn. rewrite fmap_insert, insert_id; [done|].
  by rewrite lookup_fmap, Hi.
Qed.

(** A data packet for the open socket [i]. *)
Lemma handle_rw i hdr nb s vs ps al data (w : virtio_world) :
  core_inv cid (core w) -> w_socks w !! i = Some (s, vs) -> v_state s = OPEN ->
  v_posix_sock s = Some ps -> w_psocks w !! ps = Some al ->
  h_op hdr = VIRTIO_VSOCK_OP_RW -> nb_payload nb = Some data -> zlen data < 2 ^ 16 ->
  zlen data <= b_capacity (v_rx s) - b_count (v_rx s) ->
  let vs' := credited hdr vs in
  wp (handle_packet uk_malloc virt_to_phys vma_advise uk_sched_yield i hdr nb) (fun rc w' => rc = 0 /\
    w_drv w' = w_drv w /\ snd <$> w_socks w' !! i = Some vs' /\
    core_inv cid (core w') /\
    exists rx, core w' = c_put i (set_rx s rx) (c_file ps (raise EPOLLIN (writable_event vs' al)) (core w)) /\
      contents rx = contents (v_rx s) ++ data) w.
Proof.
  intros Hc Hi Ho Hps Hal Hop Hnb H16 Hroom vs'. unfold handle_packet. apply wp_bind.
  eapply wp_mono; [|apply (update_credit_wp i hdr s vs ps al); [done..|by rewrite Hop|by rewrite Hop]].
  intros ? w1 Hw1. fold vs' in Hw1.
  assert (Hcore : core w1 = c_file ps (writable_event vs' al) (core w)).
  { rewrite Hw1. unfold c_file. rewrite <- (core_with_sock i s vs vs' w) by done. done. }
  assert (Hi1 : w_socks w1 !! i = Some (s, vs')) by (rewrite Hw1; apply lookup_insert_eq).
  assert (Hnode : al_node (writable_event vs' al) = al_node al) by (unfold writable_event; by case_match).
  assert (Hc1 : core_inv cid (core w1)) by (rewrite Hcore; by eapply core_inv_file).
  assert (Hat : attached (core w1) i s ps (writable_event vs' al)).
  { split; [by cbn; unfold vsocks; rewrite lookup_fmap, Hi1|done|]. rewrite Hcore. apply lookup_insert_eq. }
  apply wp_bind. eapply wp_sock; [done|]. rewrite Hop, Ho. cbn -[nb_payload].
  apply wp_bind, (wp_deref _ _ _ data); [done|].
  eapply wp_mono; [|apply wp_frozen; eapply uk_vsock_rx_payload_spec; [exact Hc1|exact Hat|by repeat constructor]].
  intros rc w2 [(Hf1 & _ & Hf3) [Hc2 Hpost]]. rewrite decide_True in Hpost by done. cbn [concat] in Hpost.
  rewrite app_nil_r in Hpost. destruct (Z.leb_spec (zlen data) (b_capacity (v_rx s) - b_count (v_rx s))); [|lia].
  destruct Hpost as (-> & rx & Hw2 & Hcont & _). split_and!; [done|by rewrite Hf3, Hw1| |done|].
  - rewrite <- lookup_fmap, Hf1, lookup_fmap, Hi1. done.
  - exists rx. split; [|done]. rewrite Hw2, Hcore. unfold c_put, c_file. cbn. by rewrite insert_insert_eq.
Qed.

(** The socket [s0] of another machine is the peer of [s]. *)
Record peers (s0 : uk_vsock) (vs0 : virtio_vsock) (s : uk_vsock) : Prop := {
  pe_local : v_local s0 = v_peer s /\ addr_ok (v_peer s);
  pe_peer : v_peer s0 = v_local s /\ addr_ok (v_local s);
  pe_type : vs_type vs0 = VIRTIO_VSOCK_TYPE_STREAM /\ v_sock_type s = SOCK_STREAM
}.

(** The header of a packet from a peer, as the receiver reads it. *)
Lemma wire_from_peer s0 vs0 s len :
  peers s0 vs0 s -> 0 <= len < 2 ^ 32 ->
  let hdr := wire_hdr (sock_hdr (a_cid (v_local s0)) s0 vs0 VIRTIO_VSOCK_OP_RW 0 len) in
  h_len hdr = len /\ h_op hdr = VIRTIO_VSOCK_OP_RW /\ h_type hdr = VIRTIO_VSOCK_TYPE_STREAM /\
  h_dst_cid hdr = a_cid (v_local s) /\
  mk_addr (u32 (h_dst_cid hdr)) (h_dst_port hdr) = v_local s /\
  mk_addr (u32 (h_src_cid hdr)) (h_src_port hdr) = v_peer s.
Proof.
  intros [[H1 [A1 A2]] [H2 [B1 B2]] [H3 _]] Hl. cbn. rewrite H1, H2, H3.
  rewrite (wrap_small 64 (a_cid (v_local s))), (wrap_small 64 (a_cid (v_peer s))) by lia.
  split_and!; try done; [by apply wrap_small|..]; rewrite !wrap_small by lia.
  - by destruct (v_local s).
  - by destruct (v_peer s).
Qed.

(** The dispatch of such a packet. *)
Lemma dispatch_rw i s vs ps al s0 vs0 data nb' own evs fl p (w : virtio_world) :
  settled cid (core w) -> dev_ok cid (p :: own) evs fl (w_drv w) ->
  w_socks w !! i = Some (s, vs) -> v_state s = OPEN -> v_posix_sock s = Some ps ->
  w_psocks w !! ps = Some al -> peers s0 vs0 s ->
  zlen data <= b_capacity (v_rx s) - b_count (v_rx s) -> zlen data < 2 ^ 16 ->
  nb_len nb' = zlen data -> nb_payload nb' = Some data ->
  let hdr := wire_hdr (sock_hdr (a_cid (v_local s0)) s0 vs0 VIRTIO_VSOCK_OP_RW 0 (zlen data)) in
  wp (dispatch_packet uk_malloc virt_to_phys vma_advise uk_sched_yield hdr nb') (fun rc w' => rc = 0 /\
    w_drv w' = w_drv w /\ snd <$> w_socks w' !! i = Some (credited hdr vs) /\
    core_inv cid (core w') /\
    exists rx, core w' = c_put i (set_rx s rx)
        (c_file ps (raise EPOLLIN (writable_event (credited hdr vs) al)) (core w)) /\
      contents rx = contents (v_rx s) ++ data) w.
Proof.
  intros Hc Hd Hi Ho Hps Hal Hpeer Hroom H16 Hlen Hnb hdr. pose proof (zlen_nonneg data) as Hpos.
  destruct (wire_from_peer s0 vs0 s (zlen data) Hpeer) as (E1 & E2 & E3 & E4 & E5 & E6); [lia|].
  fold hdr in E1, E2, E3, E4, E5, E6.
  assert (Hs : c_socks (core w) !! i = Some s) by (cbn; unfold vsocks; by rewrite lookup_fmap, Hi).
  assert (Hcid : a_cid (v_local s) = d_cid (w_drv w)).
  { rewrite (do_cid _ _ _ _ _ Hd). destruct (to_alive _ _ (ci_table _ _ (proj1 Hc)) i) as (s' & Hs' & <-);
      [apply (ci_member _ _ (proj1 Hc) i s Hs); by rewrite Ho|]. congruence. }
  unfold dispatch_packet. rewrite E1, Hlen, Z.ltb_irrefl. apply wp_bind.
  unfold wp at 1, get_dev, gets. rewrite E4, <- Hcid, Z.eqb_refl, <- E4, E3. cbn [negb].
  change (sock_type_of VIRTIO_VSOCK_TYPE_STREAM) with (Some SOCK_STREAM). cbn iota beta.
  apply wp_bind. rewrite E5, E6. apply (lookup_exact i s); [apply Hc|done|done| |].
  { unfold exact, uk_vsock_sockaddr_key. by rewrite (proj2 (pe_type _ _ _ Hpeer)). }
  apply handle_rw; try done. apply Hc.
Qed.

(** C2: Data crosses the wire intact.  When the packet that a socket's send puts
    on the wire (header and bytes, as [rw_packet] has them) arrives in the
    receive queue of the machine of its peer, and the peer is open and has
    room, the receive worker appends exactly the bytes that were sent to the
    peer's receive buffer, marks the file readable, stores the sender's buffer
    size and counter truncated to 32 bits as the new credit, frees the packet,
    and touches no other socket, no other packet and no queue.  The CPU is not
    given up: it holds for every scheduler. *)
Theorem packet_delivered p nb own evs fl w i s vs ps al s0 vs0 data :
  settled cid (core w) -> dev_ok cid (p :: own) evs fl (w_drv w) -> d_pkts (w_drv w) !! p = Some nb ->
  nb_payload nb = Some (rw_packet s0 vs0 data) ->
  w_socks w !! i = Some (s, vs) -> v_state s = OPEN -> v_posix_sock s = Some ps ->
  w_psocks w !! ps = Some al -> peers s0 vs0 s ->
  zlen data <= b_capacity (v_rx s) - b_count (v_rx s) ->
  let vs' := mk_vs (vs_type vs) (u32 (b_capacity (v_rx s0))) (u32 (b_total_processed (v_rx s0)))
               (vs_tx_count vs) in
  exists w' rx, process_packet uk_malloc virt_to_phys vma_advise uk_sched_yield p w = Done (1, w') /\
    core w' = c_put i (set_rx s rx) (c_file ps (raise EPOLLIN (writable_event vs' al)) (core w)) /\
    contents rx = contents (v_rx s) ++ data /\
    snd <$> w_socks w' !! i = Some vs' /\ core_inv cid (core w') /\
    w_drv w' = set_pkts (delete p (d_pkts (w_drv w))) (w_drv w) /\ dev_ok cid own evs fl (w_drv w').
Proof.
  intros Hc Hd Hp Hpl Hi Ho Hps Hal Hpeer Hroom vs'.
  pose proof (do_pkt _ _ _ _ _ Hd p nb Hp) as Hok. pose proof (zlen_nonneg data) as Hpos.
  destruct (packet_parts nb _ data Hok (encode_hdr_length _) Hpl) as (Hlen & Hh & Hdata).
  pose proof Hok as [_ _ _ _ _ L]. pose proof Hlen as Hlen0. unfold sizeof_hdr in Hlen0.
  assert (Hwp : wp (process_packet uk_malloc virt_to_phys vma_advise uk_sched_yield p) (fun rc w' =>
    rc = 1 /\ exists rx, core w' = c_put i (set_rx s rx) (c_file ps (raise EPOLLIN (writable_event vs' al)) (core w)) /\
    contents rx = contents (v_rx s) ++ data /\
    snd <$> w_socks w' !! i = Some vs' /\ core_inv cid (core w') /\
    w_drv w' = set_pkts (delete p (d_pkts (w_drv w))) (w_drv w) /\ dev_ok cid own evs fl (w_drv w')) w).
  { eapply (process_packet_wp p nb own evs fl); [done..|unfold sizeof_hdr; lia|].
    intros nb' w1 _ Hlen' Hread -> Hd1. rewrite Hh, decode_encode_wire.
    eapply wp_mono; [|apply (dispatch_rw i s vs ps al s0 vs0 data nb' own evs fl p); try done;
      [lia|rewrite Hlen', Hlen; lia|unfold nb_payload; by rewrite Hread, Hdata]].
    intros rc w2 (-> & Hdrv & Hvs & Hc2 & rx & Hcore & Hcont). exists own, evs, fl. rewrite Hdrv. split; [exact Hd1|].
    intros d' Hd' Heq. split; [done|]. exists rx. split_and!; try done. cbn. rewrite Heq. cbn.
    by rewrite delete_insert_eq. }
  apply wp_elim in Hwp as (rc & w' & He & -> & rx & Hpost). by exists w', rx.
Qed.
End delivery.

(** ** Sending *)

(** Bytes that the peer has not acknowledged, as both ends count them. *)
Definition unacknowledged (vs : virtio_vsock) : Z := u32 (vs_tx_count vs - vs_peer_fwd_count vs).

Lemma window_kept vs n :
  0 <= vs_peer_buf_alloc vs < 2 ^ 32 -> unacknowledged vs <= vs_peer_buf_alloc vs ->
  0 <= n <= virtio_vsock_peer_rx_free vs ->
  unacknowledged (credit_used vs n) = unacknowledged vs + n /\
  unacknowledged (credit_used vs n) <= vs_peer_buf_alloc vs.
Proof.
  unfold virtio_vsock_peer_rx_free, unacknowledged, credit_used. intros Ha Hu Hn. cbn.
  set (u := vs_tx_count vs - vs_peer_fwd_count vs) in *. pose proof (wrap_range 32 u ltac:(lia)) as Hr.
  rewrite (wrap_small 32 (_ - u32 u)) in Hn by lia.
  assert (u32 (u32 (vs_tx_count vs + n) - vs_peer_fwd_count vs) = u32 u + n) as ->; [|lia].
  unfold wrap in *. rewrite Zminus_mod_idemp_l.
  replace (vs_tx_count vs + n - vs_peer_fwd_count vs) with (u + n) by (unfold u; lia).
  rewrite <- Zplus_mod_idemp_l. apply Z.mod_small. lia.
Qed.

Section driver_claims.
Context `{!Allocator uk_malloc, !PageMap virt_to_phys, !Mapped vma_advise}.
Context {uk_sched_yield : MW unit} {cid : Z}.
#[local] Abbreviation ops := (virtio_vsockdev_ops uk_malloc virt_to_phys vma_advise uk_sched_yield).

(** C3: A send of 1 to 65491 bytes, the most that a packet can carry, puts one packet
    on the transmit queue with the socket's header followed by the first [n] bytes of
    the buffer, [n] being the smaller of the peer's free window and the buffer, counts
    them as sent and returns [n]; everything else in flight was so before.  Or it
    returns an error, and then nothing has been queued: the sockets are unchanged, and
    only completed buffers may have left the transmit queue; the error is -EAGAIN, and
    nothing at all has changed, when the window is full.  In both cases the receive and
    the event queue have the same buffers, and the packets that the caller holds are
    still its own and unchanged.  A sender with no more bytes on the way than the
    peer's window keeps to the window, at every wrap-around of the 32-bit counters; the
    premise fails after the peer has made its window smaller. *)
Theorem send_outcome i buf s vs w own evs fl :
  w_socks w !! i = Some (s, vs) -> dev_ok cid own evs fl (w_drv w) -> 0 < zlen buf <= max_payload ->
  let n := Z.min (virtio_vsock_peer_rx_free vs) (zlen buf) in
  exists rc w' fl' d', virtio_vsock_send uk_malloc virt_to_phys vma_advise i buf w = Done (rc, w') /\
    dev_ok cid own evs fl' d' /\ fl_rx fl' = fl_rx fl /\ fl_ev fl' = fl_ev fl /\
    (forall p, p ∈ own -> d_pkts d' !! p = d_pkts (w_drv w) !! p) /\
    ((rc < 0 /\ w' = set_drv d' w /\ fl_tx fl' ⊆ fl_tx fl /\ (n = 0 -> rc = - EAGAIN /\ d' = w_drv w)) \/
     (rc = n /\ 0 < n /\ w' = set_drv d' (with_sock i s (credit_used vs n) w) /\
      wired fl' d' (rw_packet s vs (slice 0 n buf)) /\ tail (fl_tx fl') ⊆ fl_tx fl /\
      (0 <= vs_peer_buf_alloc vs < 2 ^ 32 -> unacknowledged vs <= vs_peer_buf_alloc vs ->
       unacknowledged (credit_used vs n) = unacknowledged vs + n /\
       unacknowledged (credit_used vs n) <= vs_peer_buf_alloc vs))).
Proof.
  intros Hi Hd Hb n.
  pose proof (virtio_vsock_send_spec i buf s vs w own evs fl Hi Hd Hb) as Hwp.
  apply wp_elim in Hwp as (rc & w' & He & fl' & d' & Hd' & (K1 & K2 & K3) & Hcase). exists rc, w', fl', d'.
  do 5 (split; [done|]). fold n in Hcase. destruct Hcase as [?|(? & ? & ? & ? & ?)]; [by left|].
  right. split_and!; try done. intros Ha Hu. apply window_kept; [done..|]. lia.
Qed.

(** C4: A turn of the blocking transmit, whatever the scheduler does.  The packet is put
    on the transmit queue as the newest one in flight, and the call returns 0; or an
    error other than -EAGAIN is returned and the packet is still the caller's; or the
    queue is full, with everything that the device has completed reclaimed, fewer
    descriptors left than the packet needs and buffers of the device's in flight: then,
    and only then, the CPU is given up, with the packet unchanged and the driver's
    invariant holding, and the next turn is made in the state that the other threads
    leave.  In no case is a buffer of another queue touched. *)
Theorem xmit_retry_turn p nb own evs fl n w :
  dev_ok cid (p :: own) evs fl (w_drv w) -> d_pkts (w_drv w) !! p = Some nb -> 0 < nb_len nb ->
  let turn := xmit_retry_loop virt_to_phys vma_advise uk_sched_yield p in
  exists rc d' fl', fl_rx fl' = fl_rx fl /\ fl_ev fl' = fl_ev fl /\ d_pkts d' !! p = Some nb /\
    ((rc = 0 /\ turn (S n) w = Done (rc, set_drv d' w) /\ dev_ok cid own evs fl' d' /\
      exists txs, fl_tx fl' = p :: txs /\ txs ⊆ fl_tx fl) \/
     (dev_ok cid (p :: own) evs fl' d' /\ fl_tx fl' ⊆ fl_tx fl /\
      ((rc < 0 /\ rc <> - EAGAIN /\ turn (S n) w = Done (rc, set_drv d' w)) \/
       (tx_full d' = true /\ fl_tx fl' <> [] /\ turn (S n) w = (uk_sched_yield;; turn n) (set_drv d' w))))).
Proof.
  intros Hd Hp Hl turn. pose proof (xmit_spec p nb own evs fl (w_drv w) Hd Hp Hl w eq_refl) as Hwp.
  apply wp_elim in Hwp as (rc & w' & He & d' & -> & fl' & [X0 X1 X2 X3 X4 X5] & Ha).
  destruct (dev_ok_disjoint _ _ _ _ _ p Hd) as [Hnt Hnr]; [left|]. exists rc, d', fl'.
  do 2 (split; [done|]). split; [by rewrite X3|]. unfold turn. cbn [xmit_retry_loop]. unfold mbind, M_bind. rewrite He.
  destruct (Z.eqb_spec rc 0) as [->|Hrc]; [left; by destruct (X4 eq_refl)|]. right.
  destruct (X5 Hrc) as (Hd' & Hsub & _). do 2 (split; [done|]).
  destruct (Z.eqb_spec rc (- EAGAIN)) as [E|Hne]; [right; by destruct (Ha E) as (? & ? & _)|left; split_and!; [lia|done..]].
Qed.

(** The calls of the operations that need memory for a packet. *)
Inductive sender : Type :=
  | SendData (buf : list Z) | SendConnect | SendShutdown (rx tx : bool) | SendReset | SendCredit.
Definition run_sender (k : sender) (i : positive) : MW Z :=
  match k with
  | SendData buf => op_send ops i buf
  | SendConnect => op_connect ops i
  | SendShutdown rx tx => op_shutdown ops i rx tx
  | SendReset => op_reset ops i
  | SendCredit => virtio_vsock_send_credit_update uk_malloc virt_to_phys vma_advise uk_sched_yield i
  end.

(** C38: Without memory for a packet every sending operation returns -ENOMEM and
    has no effect at all: no queue, packet or socket changes, only the
    allocator has been asked once.  Data that does not fit into the peer's
    window is refused before that. *)
Theorem no_memory_no_effect k i s vs w :
  w_socks w !! i = Some (s, vs) ->
  (forall size, uk_malloc (d_allocs (w_drv w)) size = None) ->
  (match k with SendData buf => 0 < zlen buf <= max_payload /\ 0 < virtio_vsock_peer_rx_free vs | _ => True end) ->
  run_sender k i w = Done (- ENOMEM, set_drv (set_allocs (S (d_allocs (w_drv w))) (w_drv w)) w).
Proof.
  intros Hi Hm Hk.
  assert (Hh : forall hdr, send_hdr uk_malloc virt_to_phys vma_advise uk_sched_yield hdr w =
    Done (- ENOMEM, set_drv (set_allocs (S (d_allocs (w_drv w))) (w_drv w)) w)).
  { intros hdr. unfold send_hdr, alloc_pkt, malloc, get_dev, put_dev, gets, modify, deref, mbind, M_bind.
    cbn. by rewrite Hm. }
  assert (Hs : vsocks w !! i = Some s) by (unfold vsocks; by rewrite lookup_fmap, Hi).
  destruct k; cbn in Hk |- *; unfold virtio_vsock_send, virtio_vsock_connect, virtio_vsock_shutdown,
    virtio_vsock_reset, virtio_vsock_send_credit_update, virtio_vsock_work_credit_request; cbn;
    unfold mbind, M_bind, get_sock, get_vs, get_dev, gets, deref; rewrite ?Hs, ?Hi; cbn; rewrite ?Hh; try done.
  unfold max_payload in Hk. pose proof (peer_rx_free_range vs).
  destruct (Z.eqb_spec (zlen buf) 0); [lia|]. cbn. rewrite Hs. cbn. rewrite Hi. cbn.
  destruct (Z.eqb_spec (Z.min (virtio_vsock_peer_rx_free vs) (zlen buf)) 0); [lia|].
  unfold alloc_pkt, malloc, put_dev, modify, deref, mbind, M_bind, get_dev, gets. cbn. rewrite Hm.
  unfold uk_netbuf_alloc_buf. destruct (_ && _) eqn:G; [done|]. unfold sizeof_hdr in G. lia.
Qed.

End driver_claims.

(** ** The whole stack *)

Section stack.
Context `{!Allocator uk_malloc, !PageMap virt_to_phys, !Mapped vma_advise}.
Context `{!DeviceStep device, !Migration sysmigration}.
Context {cid : Z} (hardware : list access -> Z -> Z -> Z).
#[local] Abbreviation vinv := (virtio_inv (cid := cid) [] []).

(** Calls and sections of the workers run up to the point where they wait for room in
    the transmit queue; the loops of the workers up to the point where they give up the
    CPU for whatever reason. *)
#[local] Abbreviation ops := (virtio_vsockdev_ops uk_malloc virt_to_phys vma_advise wait_for_room).
#[local] Abbreviation work_rx :=
  (virtio_vsockdev_work_rx uk_malloc virt_to_phys vma_advise device wait_for_room).
#[local] Abbreviation work_evq :=
  (virtio_vsockdev_work_evq uk_malloc virt_to_phys vma_advise device wait_for_room sysmigration).
#[local] Abbreviation rx_work :=
  (virtio_vsockdev_rx_work uk_malloc virt_to_phys vma_advise device suspend).
#[local] Abbreviation ev_work :=
  (virtio_vsockdev_ev_work uk_malloc virt_to_phys vma_advise device suspend sysmigration).

(** The states that the following reach, in any order: calls of the application,
    the sections of the two workers (masking the interrupt of a queue, handling one
    packet or one event, unmasking the interrupt) between which they give up the CPU,
    interrupts, the device (which may rewrite rings and receive buffers within the
    invariant) and the rest of the system. *)
Inductive stack_reach (w0 : virtio_world) : virtio_world -> Prop :=
  | sr_start : stack_reach w0 w0
  | sr_call k w w' : stack_reach w0 w -> admissible cid max_payload k (core w) ->
      exec ops k w = Done (tt, w') -> stack_reach w0 w'
  | sr_env w w' : stack_reach w0 w -> environment (core w) (core w') -> drv_inv vinv w' ->
      stack_reach w0 w'
  | sr_dev w w' : stack_reach w0 w -> core w' = core w -> drv_inv vinv w' -> stack_reach w0 w'
  | sr_irq rc w w' : stack_reach w0 w -> vqs_of (w_drv w) = [0; 1; 2] ->
      vm_interrupt hardware w = Done (rc, w') -> stack_reach w0 w'
  | sr_mask id rc w w' : stack_reach w0 w -> all_attached (core w) ->
      queue_intr_disable id w = Done (rc, w') -> stack_reach w0 w'
  | sr_unmask id rc w w' : stack_reach w0 w -> all_attached (core w) -> id <> QUEUE_TX ->
      queue_intr_enable device id w = Done (rc, w') -> stack_reach w0 w'
  | sr_rx rc w w' : stack_reach w0 w -> all_attached (core w) -> work_rx w = Done (rc, w') ->
      stack_reach w0 w'
  | sr_ev rc w w' : stack_reach w0 w -> all_attached (core w) -> work_evq w = Done (rc, w') ->
      stack_reach w0 w'.

(** A state of rest is one of the good states of the core. *)
Lemma rest_good w : rest cid w <-> good vinv cid w /\ all_attached (core w).
Proof. unfold rest, settled, good. tauto. Qed.
#[local] Abbreviation safe := (safe (cid := cid)).

Lemma wsafe_Done {S A} (m : M S A) Q s a s' : wsafe m Q s -> m s = Done (a, s') -> Q a s'.
Proof. unfold wsafe. intros H E. by rewrite E in H. Qed.
Lemma wp_safe {A} (m : MW A) : (forall w, rest cid w -> wp m (fun _ => rest cid) w) -> safe m.
Proof. intros Hm w Hw. eapply wsafe_wp; [by apply Hm|done]. Qed.
Lemma run_rest {A} (m m' : MW A) : m ⊑ m' -> safe m' -> safe m.
Proof. intros Hm Hs w Hw. eapply run_safe; [exact Hm|]. by apply Hs. Qed.

(** A run that stops where it waits for room is the beginning of one that goes on. *)
Lemma work_rx_safe y : y ⊑ go_on -> safe (virtio_vsockdev_work_rx uk_malloc virt_to_phys vma_advise device y).
Proof. intros Hy. eapply run_rest; [by apply work_rx_order|]. apply wp_safe. intros w. by apply work_rx_spec. Qed.
Lemma work_evq_safe y :
  cid <> UK_VSOCK_CID_ANY -> y ⊑ go_on ->
  safe (virtio_vsockdev_work_evq uk_malloc virt_to_phys vma_advise device y sysmigration).
Proof.
  intros Hany Hy. eapply run_rest; [by apply work_evq_order|]. apply wp_safe. intros w. by apply work_evq_spec.
Qed.
Lemma enable_safe id : id <> QUEUE_TX -> safe (queue_intr_enable device id).
Proof. intros Hid. apply wp_safe. intros w. by apply intr_enable_rest. Qed.
Lemma disable_safe id : safe (queue_intr_disable id).
Proof. apply wp_safe. intros w. by apply intr_disable_rest. Qed.
Lemma worker_safe (work : MW Z) id n :
  id <> QUEUE_TX -> safe work ->
  safe (queue_intr_disable id;; work_loop suspend work (queue_intr_enable device id) n).
Proof.
  intros Hid Hwork w Hw. apply wsafe_bind. eapply wsafe_mono; [|by apply disable_safe]. intros ? w1 Hw1.
  apply work_loop_safe; [by intros w2 _|done|by apply enable_safe|done].
Qed.
Lemma call_safe k w :
  good vinv cid w -> admissible cid max_payload k (core w) -> wsafe (exec ops k) (fun _ => good vinv cid) w.
Proof.
  intros Hw Hk. eapply run_safe; [apply call_order, wait_order|].
  destruct (returns_cwp vinv cid (exec (virtio_vsockdev_ops uk_malloc virt_to_phys vma_advise go_on) k) w
    (fun _ _ => True) Hw) as ([] & w' & He & Hg' & _); [|unfold wsafe; by rewrite He].
  eapply cwp_mono; [eapply (call_spec _ cid _ max_payload); [apply Hw|done]|]. done.
Qed.

(** The calls that may send a control packet, and so may have to wait for room. *)
Definition may_wait (k : call) : bool :=
  match k with
  | Accept _ _ _ | Connect _ _ _ | Shutdown _ _ | Close _ | Read _ _ | Recvfrom _ _ => true
  | Response _ | PeerReset _ | PeerShutdown _ _ _ | TransportReset => true
  | _ => false
  end.
Lemma call_returns k w :
  good vinv cid w -> admissible cid max_payload k (core w) -> may_wait k = false ->
  exists w', exec ops k w = Done (tt, w') /\ good vinv cid w'.
Proof.
  intros Hw Hk Hm. pose (ops' := virtio_vsockdev_ops uk_malloc virt_to_phys vma_advise go_on).
  assert (exec ops k = exec ops' k) as -> by (destruct k; (discriminate Hm || reflexivity)).
  destruct (returns_cwp vinv cid (exec ops' k) w (fun _ _ => True) Hw) as ([] & w' & He & Hg' & _); [|by exists w'].
  eapply cwp_mono; [eapply (call_spec _ cid _ max_payload); [apply Hw|done]|]. done.
Qed.

(** An interrupt changes the device structure only, within the invariant. *)
Definition interrupted (status rc : Z) (d d' : virtio_vsockdev) : Prop :=
  if flag_set status INT_VRING then
    rc = 1 /\ fst (wakeups d') = fst (wakeups d) + (if has_work QUEUE_RX d then 1 else 0) /\
    snd (wakeups d') = snd (wakeups d) + (if has_work QUEUE_EVENT d then 1 else 0)
  else rc = 0 /\ wakeups d' = wakeups d.
Lemma interrupt_tail status l own evs fl d :
  dev_ok cid own evs fl d -> vqs_of d = [0; 1; 2] ->
  dwp (if flag_set status INT_VRING then
         vqs ← hw (gets m_vqs); rc ← interrupt_loop vqs 0; UK_ASSERT (negb (rc =? 0));; mret rc
       else mret 0)
    (fun rc d' => dev_ok cid own evs fl d' /\ interrupted status rc d d') (set_vdev (set_m_log l (d_vdev d)) d).
Proof.
  intros Hd Hvqs. unfold interrupted. case_match; [|dstep; by split; [apply dev_ok_vdev|]]. dstep.
  eapply (dwp_hw _ (fun x v => x = [0; 1; 2] /\ v = set_m_log l (d_vdev d))); [done|]. intros ? ? [-> ->]. dstep.
  eapply dwp_mono; [by eapply interrupt_loop_spec; do 2 apply dev_ok_vdev|]. intros rc d' (-> & Hd' & W1 & W2).
  dstep. apply dwp_assert; [done|]. by dstep.
Qed.
Lemma interrupt_spec own evs fl d :
  dev_ok cid own evs fl d -> vqs_of d = [0; 1; 2] ->
  dwp (vm_interrupt hardware) (fun rc d' => dev_ok cid own evs fl d' /\
    interrupted (u32 (hardware (m_log (d_vdev d)) 4 INTERRUPT_STATUS)) rc d d') d.
Proof.
  intros Hd Hvqs. set (status := u32 _). unfold vm_interrupt. dstep.
  eapply (dwp_hw _ (fun x v => x = status /\ exists l, v = set_m_log l (d_vdev d))); [split; [done|by eexists]|].
  intros x v [-> [l ->]]. clearbody status. dstep. case_match; [|dstep; by apply interrupt_tail].
  eapply (dwp_hw _ (fun _ v => exists l, v = set_m_log l (d_vdev d))); [by eexists|].
  intros _ v' [l' ->]. by apply (interrupt_tail status l' own evs fl d).
Qed.
Lemma interrupt_good w :
  good vinv cid w -> vqs_of (w_drv w) = [0; 1; 2] ->
  exists rc w', vm_interrupt hardware w = Done (rc, w') /\ good vinv cid w' /\ core w' = core w.
Proof.
  intros [Hc (own & evs & fl & Hd)] Hvqs. pose proof (interrupt_spec _ _ _ _ Hd Hvqs w eq_refl) as Hwp.
  apply wp_elim in Hwp as (rc & w' & He & d' & -> & Hd' & _). exists rc, (set_drv d' w).
  split; [done|]. split; [|done]. split; [done|by exists own, evs, fl].
Qed.

(** C5: No work is left without a worker.  When the device raises its interrupt,
    the handler returns, keeps the invariant, and wakes the receive worker if
    the device has returned a packet and the event worker if it has returned an
    event, once each; an interrupt of another device on the line wakes nobody. *)
Theorem interrupt_wakes own evs fl w :
  dev_ok cid own evs fl (w_drv w) -> vqs_of (w_drv w) = [0; 1; 2] ->
  let status := u32 (hardware (m_log (d_vdev (w_drv w))) 4 INTERRUPT_STATUS) in
  exists rc d', vm_interrupt hardware w = Done (rc, set_drv d' w) /\ dev_ok cid own evs fl d' /\
    (if flag_set status INT_VRING then
       rc = 1 /\
       eh_events (d_rxq_handler d') = eh_events (d_rxq_handler (w_drv w)) + (if has_work QUEUE_RX (w_drv w) then 1 else 0) /\
       eh_events (d_evq_handler d') = eh_events (d_evq_handler (w_drv w)) + (if has_work QUEUE_EVENT (w_drv w) then 1 else 0)
     else rc = 0 /\ wakeups d' = wakeups (w_drv w)).
Proof.
  intros Hd Hvqs status. pose proof (interrupt_spec _ _ _ _ Hd Hvqs w eq_refl) as Hwp.
  apply wp_elim in Hwp as (rc & w' & He & d' & -> & Hd' & Hpost). by exists rc, d'.
Qed.

Lemma stack_reach_good w0 w :
  cid <> UK_VSOCK_CID_ANY -> good vinv cid w0 -> stack_reach w0 w -> good vinv cid w.
Proof.
  intros Hany H0.
  assert (Hsec : forall A (m : MW A) a w w', safe m -> good vinv cid w -> all_attached (core w) -> m w = Done (a, w') -> good vinv cid w').
  { intros A m a w1 w2 Hm Hg Ha He. apply rest_good. apply (wsafe_Done m (fun _ => rest cid) w1 a w2); [|done]. apply Hm. by apply rest_good. }
  induction 1 as [|k w w' _ IH Ha He|w w' _ [Hc Hd] He Hd'|w w' _ [Hc Hd] He Hd'|rc w w' _ IH Hv He|id rc w w' _ IH Ha He
    |id rc w w' _ IH Ha Hid He|rc w w' _ IH Ha He|rc w w' _ IH Ha He].
  - done.
  - exact (wsafe_Done _ _ _ _ _ (call_safe k w IH Ha) He).
  - split; [by eapply environment_inv|done].
  - split; [by rewrite He|done].
  - destruct (interrupt_good w IH Hv) as (rc2 & w2 & He2 & Hg & _). rewrite He in He2. by injection He2 as -> ->.
  - by eapply Hsec; [apply disable_safe|..].
  - by eapply Hsec; [apply (enable_safe id)|..].
  - by eapply Hsec; [apply work_rx_safe, wait_order|..].
  - by eapply Hsec; [apply work_evq_safe, wait_order|..].
Qed.

(** What holds in every state of the running stack. *)
Definition stack_ok (w : virtio_world) : Prop :=
  good vinv cid w /\
  (forall k, admissible cid max_payload k (core w) ->
    wsafe (exec ops k) (fun _ => good vinv cid) w /\
    (may_wait k = false -> exists w', exec ops k w = Done (tt, w') /\ good vinv cid w')) /\
  (vqs_of (w_drv w) = [0; 1; 2] ->
    exists rc w', vm_interrupt hardware w = Done (rc, w') /\ good vinv cid w' /\ core w' = core w) /\
  (all_attached (core w) ->
    wsafe work_rx (fun _ w' => good vinv cid w' /\ all_attached (core w')) w /\
    wsafe work_evq (fun _ w' => good vinv cid w' /\ all_attached (core w')) w /\
    forall n, rx_work n w <> Abort /\ ev_work n w <> Abort).

Lemma good_stack_ok w : cid <> UK_VSOCK_CID_ANY -> good vinv cid w -> stack_ok w.
Proof.
  intros Hany Hw. split; [done|]. split; [intros k Hk; split; [by apply call_safe|by apply call_returns]|].
  split; [by apply interrupt_good|]. intros Ha. pose proof (proj2 (rest_good w) (conj Hw Ha)) as Hrest.
  assert (Hsec : forall A (m : MW A), safe m -> wsafe m (fun _ w' => good vinv cid w' /\ all_attached (core w')) w).
  { intros A m Hm. eapply wsafe_mono; [|by apply Hm]. intros ? w'. apply rest_good. }
  assert (Hloop : forall m : MW unit, safe m -> m w <> Abort).
  { intros m Hm E. specialize (Hm w Hrest). unfold wsafe in Hm. by rewrite E in Hm. }
  split_and!.
  - by apply Hsec, work_rx_safe, wait_order.
  - by apply Hsec, work_evq_safe, wait_order.
  - intros n. split; apply Hloop, worker_safe; try done.
    + by apply work_rx_safe, suspend_order.
    + by apply work_evq_safe, suspend_order.
Qed.
End stack.
#[global] Arguments stack_reach uk_malloc virt_to_phys vma_advise device sysmigration cid hardware : clear implicits.
#[global] Arguments stack_ok uk_malloc virt_to_phys vma_advise device sysmigration cid hardware : clear implicits.

Section boot.
Context `{!Allocator uk_malloc, !PageMap virt_to_phys, !Mapped vma_advise}.
Context `{!DeviceStep device, !Migration sysmigration, !Platform irq_register ring_alloc uninit}.
Context (hardware : list access -> Z -> Z -> Z) (thread_create : nat -> bool).

(** C1: The whole stack is safe, from the probe of the device on, up to the points where
    a thread waits for room in the transmit queue.  Whatever the registers of the
    hardware return, the probe returns.  If it succeeds, the device has a CID of at
    least 3, which for the rest must not be 4294967295, the wildcard that the driver
    does not exclude.  Consider any sequence of admissible calls of the application,
    interrupts, device activity, whatever bytes the device has put into the receive
    buffers (each packet being at least a header long), and sections of the receive and
    event workers, made while the sockets of the table have their files.  Each of these
    runs without an interruption, as threads are switched only where they give up the
    CPU; the workers do so between their sections.  After each such sequence the state
    is good: the core's invariant holds, and every packet and event buffer is either in
    flight in exactly one queue or accounted for.  In every such state every admissible
    call and every section of a worker returns in a good state or waits, which it does
    only when the transmit queue is full ([wait_for_room]); it never fails an assertion
    or accesses invalid memory.  The calls that send no control packet, writing data
    among them, return, and so does every interrupt.  No number of iterations of the
    workers' loops fails.  What happens after a wait during which other threads have
    entered the stack is not covered, and not safe, see [close_race].  If the probe
    fails, no device is registered, or the registered one has been freed. *)
Theorem stack_safe block base w0 :
  power_on w0 ->
  exists rc w1, virtio_mmio_add_dev (@hw) hardware
      [vsock_drv uk_malloc virt_to_phys vma_advise device hardware irq_register thread_create ring_alloc uninit]
      block base w0 = Done (rc, w1) /\
    (rc <> 0 -> probe_failed w1) /\
    (rc = 0 -> let cid := d_cid (w_drv w1) in
      3 <= cid < 2 ^ 32 /\ vqs_of (w_drv w1) = [0; 1; 2] /\ all_attached (core w1) /\
      (cid <> UK_VSOCK_CID_ANY -> forall w,
        stack_reach uk_malloc virt_to_phys vma_advise device sysmigration cid hardware w1 w ->
        stack_ok uk_malloc virt_to_phys vma_advise device sysmigration cid hardware w)).
Proof.
  intros Hw0. pose proof (mmio_add_dev_spec hardware thread_create block base w0 Hw0) as Hwp.
  apply wp_elim in Hwp as (rc & w1 & He & Hp). exists rc, w1. split; [done|]. unfold probed in Hp.
  destruct (Z.eqb_spec rc 0) as [->|Hrc]; (split; [done || by intros|]); [|done].
  intros _ cid. destruct Hp as (Hcid & Hrest & _ & Hvqs). apply rest_good in Hrest as [Hg Ha].
  split_and!; [apply Hcid..|done|done|]. intros Hany w Hr. eapply good_stack_ok; [done..|]. by eapply stack_reach_good.
Qed.
End boot.

(** ** Witnesses

    In the environment of [VirtioSample]: a socket connected to port 9 of
    context 2, and a started device. *)

#[local] Abbreviation sample_ops :=
  (virtio_vsockdev_ops sample_malloc linear_map sample_advise sample_yield).
Definition sample_open : uk_vsock := sample_sock OPEN (mk_addr 2 9) [].
Definition sample_remote : uk_vsock :=
  mk_vsock OPEN false false 0 SOCK_STREAM (mk_addr 2 9) (mk_addr 3 5) sample_rx [] 0 2 (Some 1%positive).
Definition sample_data : list Z := [104; 105; 33].
Definition sample_wire : list Z := rw_packet sample_remote sample_vs sample_data.

Lemma packet_delivered_witness :
  let w := sample_vworld sample_open (sample_dev_pkt 3 sample_wire) in
  exists w' rx, process_packet sample_malloc linear_map sample_advise sample_yield 1%positive w = Done (1, w') /\
    core w' = c_put 1%positive (set_rx sample_open rx)
      (c_file 1%positive (raise EPOLLIN (writable_event (mk_vs 1 8 7 6) sample_file)) (core w)) /\
    contents rx = [3; 4; 5; 6] ++ sample_data /\
    snd <$> w_socks w' !! 1%positive = Some (mk_vs 1 8 7 6) /\ core_inv 3 (core w') /\
    w_drv w' = set_pkts (delete 1%positive (d_pkts (w_drv w))) (w_drv w) /\ dev_ok 3 [] [] (mk_fl [] [] []) (w_drv w').
Proof.
  apply (packet_delivered 1%positive (sample_pkt sample_wire) [] [] (mk_fl [] [] []) _ 1%positive sample_open
    sample_vs 1%positive sample_file sample_remote sample_vs sample_data); try done.
  - apply sample_vworld_settled.
  - by apply sample_dev_pkt_ok.
Defined.

Lemma send_outcome_witness :
  let w := sample_vworld sample_open (sample_dev 3) in
  let n := Z.min (virtio_vsock_peer_rx_free sample_vs) 3 in
  exists rc w' fl' d', virtio_vsock_send sample_malloc linear_map sample_advise 1%positive sample_data w
      = Done (rc, w') /\
    dev_ok 3 [] [] fl' d' /\ fl_rx fl' = [] /\ fl_ev fl' = [] /\
    (forall p, p ∈ [] -> d_pkts d' !! p = d_pkts (w_drv w) !! p) /\
    ((rc < 0 /\ w' = set_drv d' w /\ fl_tx fl' ⊆ [] /\ (n = 0 -> rc = - EAGAIN /\ d' = w_drv w)) \/
     (rc = n /\ 0 < n /\ w' = set_drv d' (with_sock 1%positive sample_open (credit_used sample_vs n) w) /\
      wired fl' d' (rw_packet sample_open sample_vs (slice 0 n sample_data)) /\ tail (fl_tx fl') ⊆ [] /\
      (0 <= vs_peer_buf_alloc sample_vs < 2 ^ 32 -> unacknowledged sample_vs <= vs_peer_buf_alloc sample_vs ->
       unacknowledged (credit_used sample_vs n) = unacknowledged sample_vs + n /\
       unacknowledged (credit_used sample_vs n) <= vs_peer_buf_alloc sample_vs))).
Proof.
  apply (send_outcome 1%positive sample_data sample_open sample_vs _ [] [] (mk_fl [] [] [])); [done| |done].
  apply sample_dev_ok.
Defined.

Lemma xmit_retry_turn_witness :
  let w := sample_vworld sample_open (sample_dev_pkt 3 sample_wire) in
  let turn := xmit_retry_loop linear_map sample_advise sample_yield 1%positive in
  exists rc d' fl', fl_rx fl' = [] /\ fl_ev fl' = [] /\ d_pkts d' !! 1%positive = Some (sample_pkt sample_wire) /\
    ((rc = 0 /\ turn 32%nat w = Done (rc, set_drv d' w) /\ dev_ok 3 [] [] fl' d' /\
      exists txs, fl_tx fl' = 1%positive :: txs /\ txs ⊆ []) \/
     (dev_ok 3 [1%positive] [] fl' d' /\ fl_tx fl' ⊆ [] /\
      ((rc < 0 /\ rc <> - EAGAIN /\ turn 32%nat w = Done (rc, set_drv d' w)) \/
       (tx_full d' = true /\ fl_tx fl' <> [] /\ turn 32%nat w = (sample_yield;; turn 31%nat) (set_drv d' w))))).
Proof.
  apply (xmit_retry_turn 1%positive (sample_pkt sample_wire) [] [] (mk_fl [] [] []) 31); [|done..].
  by apply sample_dev_pkt_ok.
Defined.

(** An allocator that has run out of memory. *)
Definition no_malloc (n : nat) (size : Z) : option (Z * list Z) := None.
#[export] Instance no_allocator : Allocator no_malloc.
Proof. done. Qed.

Lemma no_memory_no_effect_witness :
  let w := sample_vworld sample_open (sample_dev 3) in
  run_sender (uk_malloc := no_malloc) (virt_to_phys := linear_map) (vma_advise := sample_advise)
      (uk_sched_yield := sample_yield) (SendData sample_data) 1%positive w
    = Done (- ENOMEM, set_drv (set_allocs 1 (sample_dev 3)) w).
Proof. apply (no_memory_no_effect (SendData sample_data) 1%positive sample_open sample_vs); done. Defined.

Lemma interrupt_wakes_witness :
  let w := sample_vworld sample_open (sample_dev 3) in
  exists rc d', vm_interrupt sample_hardware w = Done (rc, set_drv d' w) /\ dev_ok 3 [] [] (mk_fl [] [] []) d' /\
    rc = 1 /\ eh_events (d_rxq_handler d') = 0 + 0 /\ eh_events (d_evq_handler d') = 0 + 0.
Proof. apply (interrupt_wakes (cid := 3) sample_hardware [] [] (mk_fl [] [] [])); [apply sample_dev_ok|done]. Defined.

(** The probe of the hardware of [VirtioSample] succeeds. *)
Lemma stack_safe_witness :
  let probe := virtio_mmio_add_dev (@hw) sample_hardware
      [vsock_drv sample_malloc linear_map sample_advise id sample_hardware 0 (fun _ => true)
         sample_ring_alloc sample_uninit] true 4096 in
  match probe sample_off with Done (rc, w) => rc = 0 /\ d_cid (w_drv w) = 3 | _ => False end /\
  exists rc w1, probe sample_off = Done (rc, w1) /\ (rc <> 0 -> probe_failed w1) /\
    (rc = 0 -> let cid := d_cid (w_drv w1) in
      3 <= cid < 2 ^ 32 /\ vqs_of (w_drv w1) = [0; 1; 2] /\ all_attached (core w1) /\
      (cid <> UK_VSOCK_CID_ANY -> forall w,
        stack_reach sample_malloc linear_map sample_advise id sample_migration cid sample_hardware w1 w ->
        stack_ok sample_malloc linear_map sample_advise id sample_migration cid sample_hardware w)).
Proof.
  split; [vm_compute; split; reflexivity|].
  apply (stack_safe sample_hardware (fun _ => true) true 4096 sample_off sample_power_on).
Defined.

(** ** A race

    What other threads may do while a call waits for room. *)

Fixpoint execs (o : uk_vsockdev_ops virtio_vsock virtio_vsock_accept_entry virtio_vsockdev) (ks : list call) : MW unit :=
  match ks with
  | [] => mret tt
  | k :: ks => exec o k;; execs o ks
  end.

(** [close] of an open connection tells the peer first; when the transmit queue is full
    it waits there, in a state in which it has decided already that the socket is open
    and in the table.  If the receive worker handles a reset of that connection
    meanwhile, which takes the socket out of the table, [close] then removes a node that
    is not in the tree.  Here 32 calls of [shutdown] fill the queue, and the device
    completes one buffer while [close] waits. *)
Theorem close_race :
  let w := sample_vworld sample_open (sample_dev 3) in
  let fill := replicate 32 (Shutdown 1%positive SHUT_RD) in
  let ops := virtio_vsockdev_ops sample_malloc linear_map sample_advise in
  let others := sample_yield;; exec (ops wait_for_room) (PeerReset 1%positive) in
  execs (ops wait_for_room) (fill ++ [Close 1%positive]) w = OutOfFuel /\
  execs (ops others) (fill ++ [Close 1%positive]) w = Abort /\
  match execs (ops others) fill w with Done (_, w') => tx_full (w_drv w') = true | _ => False end /\
  match execs (ops sample_yield) (fill ++ [Close 1%positive]) w with Done (_, w') => w_socks w' = ∅ | _ => False end.
Proof. vm_compute. repeat split; reflexivity. Qed.
