(* ===== verification/Bitmap.v ===== *)
(** * Bitmaps: lib/ukbitops

    The bit scans of bitscan.h, the population count of bitcount.h and the
    operations on arrays of 64-bit words of bitmap.h.  An operation is [None] when
    it accesses a word outside the array or does what C leaves undefined: a scan of
    zero, a shift by a negative count or by 64 and more.  Sizes and positions are
    below 2^31, so the [int] arithmetic of the code does not overflow. *)

From stdpp Require Import base option list numbers.
From S2P Require Import Prelude.

(** ** Words *)

Definition UK_BITS_PER_LONG : Z := 64.
Definition ULONG_MAX : Z := 2 ^ 64 - 1.
(** [~x] and [x << n] on an unsigned long. *)
Definition lnot64 (x : Z) : Z := u64 (Z.lnot x).
Definition shl64 (x n : Z) : Z := u64 (Z.shiftl x n).
Definition shr64 (x n : Z) : option Z := if (0 <=? n) && (n <? 64) then Some (Z.shiftr x n) else None.

Definition UK_BITMAP_FIRST_WORD_MASK (start : Z) : Z := shl64 ULONG_MAX (start mod UK_BITS_PER_LONG).
Definition UK_BITMAP_LAST_WORD_MASK (n : Z) : option Z := shr64 ULONG_MAX (u32 (UK_BITS_PER_LONG - n)).
Definition UK_BITS_TO_LONGS (n : Z) : Z := (n + (UK_BITS_PER_LONG - 1)) / UK_BITS_PER_LONG.
Definition UK_BIT_MASK (nr : Z) : Z := shl64 1 (Z.land nr (UK_BITS_PER_LONG - 1)).
Definition UK_BIT_WORD (nr : Z) : Z := nr / UK_BITS_PER_LONG.

Fixpoint ctz (p : positive) : Z :=
  match p with xO p => 1 + ctz p | _ => 0 end.
Definition uk_ctzl (x : Z) : option Z := match x with Zpos p => Some (ctz p) | _ => None end.
Definition uk_clzl (x : Z) : option Z := match x with Zpos p => Some (63 - Z.log2 (Zpos p)) | _ => None end.
Definition uk_lssbl (x : Z) : option Z := uk_ctzl x.
Definition uk_mssbl (x : Z) : option Z := c ← uk_clzl x; Some (64 - 1 - c).

(** ** Arrays of words *)

Definition load (a : list Z) (i : Z) : option Z := if i <? 0 then None else a !! Z.to_nat i.
Definition store (a : list Z) (i v : Z) : option (list Z) :=
  _ ← load a i; Some (<[Z.to_nat i := v]> a).

(** The loop over whole words and the last, partial word, shared by the four
    forward scans; [f] is the identity or the complement. *)
Fixpoint scan_loop (f : Z -> Z) (addr : list Z) (size bit : Z) : option Z :=
  if UK_BITS_PER_LONG <=? size then
    match addr with
    | [] => None
    | w :: addr =>
        if f w =? 0 then scan_loop f addr (size - UK_BITS_PER_LONG) (bit + UK_BITS_PER_LONG)
        else l ← uk_lssbl (f w); Some (bit + l)
    end
  else if size =? 0 then Some bit
  else
    w ← load addr 0;
    m ← UK_BITMAP_LAST_WORD_MASK size;
    let mask := Z.land (f w) m in
    if mask =? 0 then Some (bit + size) else l ← uk_lssbl mask; Some (bit + l).

Definition scan_from (f : Z -> Z) (addr : list Z) (size offset : Z) : option Z :=
  if size <=? offset then Some size
  else
    let pos := offset / UK_BITS_PER_LONG in
    let offs := offset mod UK_BITS_PER_LONG in
    let bit := UK_BITS_PER_LONG * pos in
    let addr := drop (Z.to_nat pos) addr in
    if negb (offs =? 0) then
      w ← load addr 0;
      m ← UK_BITMAP_LAST_WORD_MASK offs;
      let mask := Z.land (f w) (lnot64 m) in
      if negb (mask =? 0) then l ← uk_lssbl mask; Some (bit + l)
      else if size - bit <=? UK_BITS_PER_LONG then Some size
      else scan_loop f (drop 1 addr) (size - (bit + UK_BITS_PER_LONG)) (bit + UK_BITS_PER_LONG)
    else scan_loop f addr (size - bit) bit.

Definition uk_find_first_bit (addr : list Z) (size : Z) : option Z := scan_loop id addr size 0.
Definition uk_find_first_zero_bit (addr : list Z) (size : Z) : option Z := scan_loop lnot64 addr size 0.
Definition uk_find_next_bit (addr : list Z) (size offset : Z) : option Z := scan_from id addr size offset.
Definition uk_find_next_zero_bit (addr : list Z) (size offset : Z) : option Z :=
  scan_from lnot64 addr size offset.

Fixpoint last_loop (addr : list Z) (pos : nat) (size : Z) : option Z :=
  match pos with
  | O => Some size
  | S pos =>
      w ← load addr (Z.of_nat pos);
      if w =? 0 then last_loop addr pos size
      else m ← uk_mssbl w; Some (UK_BITS_PER_LONG * Z.of_nat pos + m)
  end.
Definition uk_find_last_bit (addr : list Z) (size : Z) : option Z :=
  let pos := size / UK_BITS_PER_LONG in
  let offs := size mod UK_BITS_PER_LONG in
  if negb (offs =? 0) then
    w ← load addr pos;
    m ← UK_BITMAP_LAST_WORD_MASK offs;
    let mask := Z.land w m in
    if negb (mask =? 0) then k ← uk_mssbl mask; Some (UK_BITS_PER_LONG * pos + k)
    else last_loop addr (Z.to_nat pos) size
  else last_loop addr (Z.to_nat pos) size.

(** ** Single bits, through the bytes of the array *)

Definition load8 (a : list Z) (k : Z) : option Z :=
  w ← load a (k / 8); Some (u8 (Z.shiftr w (8 * (k mod 8)))).
Definition store8 (a : list Z) (k b : Z) : option (list Z) :=
  w ← load a (k / 8);
  let s := 8 * (k mod 8) in
  store a (k / 8) (Z.lor (Z.land w (lnot64 (Z.shiftl 255 s))) (Z.shiftl b s)).

Definition fetch_and (a : list Z) (k m : Z) : option (Z * list Z) :=
  v ← load8 a k; a ← store8 a k (Z.land v m); Some (v, a).
Definition fetch_or (a : list Z) (k m : Z) : option (Z * list Z) :=
  v ← load8 a k; a ← store8 a k (Z.lor v m); Some (v, a).

Definition uk_test_and_clear_bit (nr : Z) (a : list Z) : option (bool * list Z) :=
  let mask := u8 (Z.shiftl 1 (Z.land nr 7)) in
  '(orig, a) ← fetch_and a (Z.shiftr nr 3) (u8 (Z.lnot mask));
  Some (negb (Z.land orig mask =? 0), a).
Definition uk_test_and_set_bit (nr : Z) (a : list Z) : option (bool * list Z) :=
  let mask := u8 (Z.shiftl 1 (Z.land nr 7)) in
  '(orig, a) ← fetch_or a (Z.shiftr nr 3) mask;
  Some (negb (Z.land orig mask =? 0), a).
Definition uk_set_bit (nr : Z) (a : list Z) : option (list Z) := '(_, a) ← uk_test_and_set_bit nr a; Some a.
Definition uk_clear_bit (nr : Z) (a : list Z) : option (list Z) := '(_, a) ← uk_test_and_clear_bit nr a; Some a.
Definition uk_test_bit (nr : Z) (a : list Z) : option bool :=
  b ← load8 a (Z.shiftr nr 3); Some (negb (Z.land (Z.shiftl 1 (Z.land nr 7)) b =? 0)).

(** ** Whole bitmaps and ranges *)

(** [memset] of the first [n] words. *)
Definition fill_words (a : list Z) (n v : Z) : option (list Z) :=
  if (0 <=? n) && (n <=? zlen a) then Some (replicate (Z.to_nat n) v ++ drop (Z.to_nat n) a) else None.

Definition uk_bitmap_zero (a : list Z) (size : Z) : option (list Z) := fill_words a (UK_BITS_TO_LONGS size) 0.
Definition uk_bitmap_fill (a : list Z) (size : Z) : option (list Z) :=
  let tail := Z.land size (UK_BITS_PER_LONG - 1) in
  a ← fill_words a (UK_BIT_WORD size) ULONG_MAX;
  if tail =? 0 then Some a
  else m ← UK_BITMAP_LAST_WORD_MASK tail; store a (UK_BIT_WORD size) m.

(** The loop over the whole words with an early exit, and the masked last word. *)
Fixpoint all_words (p : Z -> bool) (a : list Z) (n : nat) : option bool :=
  match n with
  | O => Some true
  | S n => match a with [] => None | w :: a => if p w then all_words p a n else Some false end
  end.
Definition all_bits (p : Z -> bool) (last : Z -> Z -> bool) (a : list Z) (size : Z) : option bool :=
  let tail := Z.land size (UK_BITS_PER_LONG - 1) in
  b ← all_words p a (Z.to_nat (UK_BIT_WORD size));
  if negb b then Some false
  else if tail =? 0 then Some true
  else
    mask ← UK_BITMAP_LAST_WORD_MASK tail;
    w ← load a (UK_BIT_WORD size);
    Some (last w mask).
Definition uk_bitmap_full (a : list Z) (size : Z) : option bool :=
  all_bits (fun w => w =? ULONG_MAX) (fun w m => Z.land w m =? m) a size.
Definition uk_bitmap_empty (a : list Z) (size : Z) : option bool :=
  all_bits (fun w => w =? 0) (fun w m => Z.land w m =? 0) a size.

(** The loop of [uk_bitmap_set] and [uk_bitmap_clear]; [op] changes one word. *)
Fixpoint range_loop (op : Z -> Z -> Z) (map : list Z) (size nr bits mask : Z) : option (list Z) :=
  if 0 <=? nr - bits then
    match map with
    | [] => None
    | w :: map => r ← range_loop op map size (nr - bits) UK_BITS_PER_LONG ULONG_MAX; Some (op w mask :: r)
    end
  else if nr =? 0 then Some map
  else
    m ← UK_BITMAP_LAST_WORD_MASK size;
    match map with [] => None | w :: map => Some (op w (Z.land mask m) :: map) end.
Definition bitmap_range (op : Z -> Z -> Z) (map : list Z) (start nr : Z) : option (list Z) :=
  let size := u32 (start + nr) in
  let bits := UK_BITS_PER_LONG - start mod UK_BITS_PER_LONG in
  let k := Z.to_nat (UK_BIT_WORD start) in
  if zlen map <? UK_BIT_WORD start then None
  else
    r ← range_loop op (drop k map) size nr bits (UK_BITMAP_FIRST_WORD_MASK start);
    Some (take k map ++ r).
Definition uk_bitmap_set : list Z -> Z -> Z -> option (list Z) := bitmap_range Z.lor.
Definition uk_bitmap_clear : list Z -> Z -> Z -> option (list Z) :=
  bitmap_range (fun w mask => Z.land w (lnot64 mask)).

(** [uk_bitmap_find_next_zero_area_off]; every retry starts further to the
    right, so the size bounds their number. *)
Fixpoint zero_area_loop (map : list Z) (size start nr align_mask align_offset : Z) (n : nat) : option Z :=
  match n with
  | O => None
  | S n =>
      index ← uk_find_next_zero_bit map size start;
      let index := u32 (Z.land (u32 (index + align_offset + align_mask)) (u32 (Z.lnot align_mask)) - align_offset) in
      let e := u32 (index + nr) in
      if size <? e then Some e
      else
        i ← uk_find_next_bit map e index;
        if i <? e then zero_area_loop map size (u32 (i + 1)) nr align_mask align_offset n else Some index
  end.
Definition uk_bitmap_find_next_zero_area_off (map : list Z) (size start nr align_mask align_offset : Z) : option Z :=
  zero_area_loop map size start nr align_mask align_offset (S (Z.to_nat size)).
Definition uk_bitmap_find_next_zero_area (map : list Z) (size start nr align_mask : Z) : option Z :=
  uk_bitmap_find_next_zero_area_off map size start nr align_mask 0.

(** ** Regions of 2^order bits *)

Inductive reg_op : Set := REG_OP_ISFREE | REG_OP_ALLOC | REG_OP_RELEASE.

Fixpoint reg_free (map : list Z) (index : Z) (mask : Z) (n : nat) : option bool :=
  match n with
  | O => Some true
  | S n =>
      w ← load map index;
      if negb (Z.land w mask =? 0) then Some false else reg_free map (index + 1) mask n
  end.
Fixpoint reg_update (op : Z -> Z) (map : list Z) (index : Z) (n : nat) : option (list Z) :=
  match n with
  | O => Some map
  | S n => w ← load map index; map ← store map index (op w); reg_update op map (index + 1) n
  end.
Definition reg_mask (pos order : Z) : Z :=
  let nbitsinlong := Z.min (Z.shiftl 1 order) UK_BITS_PER_LONG in
  let mask := shl64 1 (nbitsinlong - 1) in
  shl64 (u64 (mask + (mask - 1))) (pos - pos / UK_BITS_PER_LONG * UK_BITS_PER_LONG).
Definition uk_bitopts_reg_op (map : list Z) (pos order : Z) (op : reg_op) : option (bool * list Z) :=
  let index := pos / UK_BITS_PER_LONG in
  let n := Z.to_nat (UK_BITS_TO_LONGS (Z.shiftl 1 order)) in
  let mask := reg_mask pos order in
  match op with
  | REG_OP_ISFREE => b ← reg_free map index mask n; Some (b, map)
  | REG_OP_ALLOC => map ← reg_update (fun w => Z.lor w mask) map index n; Some (false, map)
  | REG_OP_RELEASE => map ← reg_update (fun w => Z.land w (lnot64 mask)) map index n; Some (false, map)
  end.

(** The loop over the positions; [bits] bounds their number. *)
Fixpoint free_region_loop (map : list Z) (bits order pos : Z) (n : nat) : option (Z * list Z) :=
  match n with
  | O => None
  | S n =>
      let e := pos + Z.shiftl 1 order in
      if bits <? e then Some (- ENOMEM, map)
      else
        '(free, _) ← uk_bitopts_reg_op map pos order REG_OP_ISFREE;
        if negb free then free_region_loop map bits order e n
        else '(_, map) ← uk_bitopts_reg_op map pos order REG_OP_ALLOC; Some (pos, map)
  end.
Definition uk_bitmap_find_free_region (map : list Z) (bits order : Z) : option (Z * list Z) :=
  free_region_loop map bits order 0 (S (Z.to_nat bits)).
Definition EBUSY : Z := 16.
Definition uk_bitmap_allocate_region (map : list Z) (pos order : Z) : option (Z * list Z) :=
  '(free, _) ← uk_bitopts_reg_op map pos order REG_OP_ISFREE;
  if negb free then Some (- EBUSY, map)
  else '(_, map) ← uk_bitopts_reg_op map pos order REG_OP_ALLOC; Some (0, map).
Definition uk_bitmap_release_region (map : list Z) (pos order : Z) : option (list Z) :=
  '(_, map) ← uk_bitopts_reg_op map pos order REG_OP_RELEASE; Some map.

(** ** Counting, comparing and combining *)

Definition uk_bitcount64 (x : Z) : Z :=
  let x := u64 (Z.land x 0x5555555555555555 + Z.shiftr (Z.land x 0xaaaaaaaaaaaaaaaa) 1) in
  let x := u64 (Z.land x 0x3333333333333333 + Z.shiftr (Z.land x 0xcccccccccccccccc) 2) in
  let x := Z.land (u64 (x + Z.shiftr x 4)) 0x0f0f0f0f0f0f0f0f in
  let x := u64 (x + Z.shiftr x 8) in
  let x := u64 (x + Z.shiftr x 16) in
  Z.land (u64 (x + Z.shiftr x 32)) 0x000000ff.

Fixpoint weight_loop (a : list Z) (n : nat) (retval : Z) : option Z :=
  match n with
  | O => Some retval
  | S n => match a with [] => None | w :: a => weight_loop a n (u32 (retval + uk_bitcount64 w)) end
  end.
Definition uk_bitmap_weight (a : list Z) (size : Z) : option Z :=
  let tail := Z.land size (UK_BITS_PER_LONG - 1) in
  r ← weight_loop a (Z.to_nat (UK_BIT_WORD size)) 0;
  if tail =? 0 then Some r
  else
    mask ← UK_BITMAP_LAST_WORD_MASK tail;
    w ← load a (UK_BIT_WORD size);
    Some (u32 (r + uk_bitcount64 (Z.land w mask))).

Fixpoint equal_words (a b : list Z) (n : nat) : option bool :=
  match n, a, b with
  | O, _, _ => Some true
  | S n, x :: a, y :: b => if x =? y then equal_words a b n else Some false
  | S _, _, _ => None
  end.
Definition uk_bitmap_equal (pa pb : list Z) (size : Z) : option bool :=
  let tail := Z.land size (UK_BITS_PER_LONG - 1) in
  b ← equal_words pa pb (Z.to_nat (UK_BIT_WORD size));
  if negb b then Some false
  else if tail =? 0 then Some true
  else
    mask ← UK_BITMAP_LAST_WORD_MASK tail;
    x ← load pa (UK_BIT_WORD size);
    y ← load pb (UK_BIT_WORD size);
    Some (Z.land (Z.lxor x y) mask =? 0).

(** The loops that write [dst] word by word from one or two other bitmaps. *)
Fixpoint combine_words (op : Z -> Z -> Z) (dst a b : list Z) (n : nat) : option (list Z) :=
  match n, dst, a, b with
  | O, _, _, _ => Some dst
  | S n, _ :: dst, x :: a, y :: b => r ← combine_words op dst a b n; Some (op x y :: r)
  | S _, _, _, _ => None
  end.
Definition bitmap_combine (op : Z -> Z -> Z) (dst src1 src2 : list Z) (size : Z) : option (list Z) :=
  combine_words op dst src1 src2 (Z.to_nat (UK_BITS_TO_LONGS size)).
Definition uk_bitmap_complement (dst src : list Z) (size : Z) : option (list Z) :=
  bitmap_combine (fun x _ => lnot64 x) dst src src size.
Definition uk_bitmap_or : list Z -> list Z -> list Z -> Z -> option (list Z) := bitmap_combine Z.lor.
Definition uk_bitmap_and : list Z -> list Z -> list Z -> Z -> option (list Z) := bitmap_combine Z.land.
Definition uk_bitmap_xor : list Z -> list Z -> list Z -> Z -> option (list Z) := bitmap_combine Z.lxor.

(** * Proofs *)

(** ** Bits of words *)

Definition word_ok (w : Z) : Prop := 0 <= w < 2 ^ 64.
Definition words_ok (a : list Z) : Prop := Forall word_ok a.

(** The bit at a position of an array: the meaning of a bitmap. *)
Definition bit_at (a : list Z) (i : Z) : bool :=
  match load a (i / 64) with Some w => Z.testbit w (i mod 64) | None => false end.

Lemma word_testbit w i : word_ok w -> 64 <= i -> Z.testbit w i = false.
Proof.
  intros [? ?] ?. destruct (Z.eq_dec w 0) as [->|]; [apply Z.bits_0|].
  apply Z.bits_above_log2; [lia|]. assert (Z.log2 w < 64) by (apply Z.log2_lt_pow2; lia). lia.
Qed.

Lemma word_bits w : (forall i, 64 <= i -> Z.testbit w i = false) -> word_ok w.
Proof.
  intros Hb. cut (w = u64 w); [intros ->; by apply wrap_range|]. unfold wrap.
  apply Z.bits_inj'. intros i Hi. destruct (Z.lt_ge_cases i 64).
  - by rewrite Z.mod_pow2_bits_low by lia.
  - by rewrite Z.mod_pow2_bits_high, Hb by lia.
Qed.

Lemma land_ok v m : word_ok v -> word_ok (Z.land v m).
Proof. intros. apply word_bits. intros i ?. by rewrite Z.land_spec, word_testbit by done. Qed.
Lemma lor_ok v m : word_ok v -> word_ok m -> word_ok (Z.lor v m).
Proof. intros. apply word_bits. intros i ?. by rewrite Z.lor_spec, !word_testbit by done. Qed.

Lemma wrap_testbit w z i : 0 <= w -> 0 <= i -> Z.testbit (wrap w z) i = (i <? w) && Z.testbit z i.
Proof.
  intros. unfold wrap. destruct (Z.ltb_spec i w); [by rewrite Z.mod_pow2_bits_low|].
  rewrite Z.mod_pow2_bits_high by lia. done.
Qed.

Lemma lnot64_testbit w i : 0 <= i < 64 -> Z.testbit (lnot64 w) i = negb (Z.testbit w i).
Proof.
  intros. unfold lnot64. rewrite wrap_testbit by lia.
  rewrite (proj2 (Z.ltb_lt i 64)) by lia. simpl. by rewrite Z.lnot_spec by lia.
Qed.

Lemma lnot64_ok w : word_ok (lnot64 w).
Proof. apply wrap_range. lia. Qed.

Lemma ones_testbit n i : 0 <= n -> 0 <= i -> Z.testbit (2 ^ n - 1) i = (i <? n).
Proof.
  intros. rewrite <- (Z.ones_equiv n) || (replace (2 ^ n - 1) with (Z.ones n) by (rewrite Z.ones_equiv; lia)).
  destruct (Z.ltb_spec i n); [apply Z.ones_spec_low; lia|apply Z.ones_spec_high; lia].
Qed.

Lemma last_word_mask n : 0 < n <= 64 -> UK_BITMAP_LAST_WORD_MASK n = Some (2 ^ n - 1).
Proof.
  intros. unfold UK_BITMAP_LAST_WORD_MASK, shr64, UK_BITS_PER_LONG. rewrite wrap_small by lia.
  rewrite (proj2 (Z.leb_le 0 (64 - n))), (proj2 (Z.ltb_lt (64 - n) 64)) by lia. simpl. f_equal.
  unfold ULONG_MAX. apply Z.bits_inj'. intros i Hi.
  rewrite Z.shiftr_spec, !ones_testbit by lia. destruct (Z.ltb_spec (i + (64 - n)) 64), (Z.ltb_spec i n); lia.
Qed.

(** The lowest set bit. *)
Definition lowest (w l : Z) : Prop :=
  0 <= l < 64 /\ Z.testbit w l = true /\ (forall i, 0 <= i < l -> Z.testbit w i = false).

Lemma ctz_spec p :
  0 <= ctz p /\ Z.testbit (Zpos p) (ctz p) = true /\ (forall i, 0 <= i < ctz p -> Z.testbit (Zpos p) i = false).
Proof.
  induction p as [p IH|p IH|]; simpl; split_and!; try lia; try done.
  - replace (Zpos p~0) with (2 * Zpos p) by lia. replace (1 + ctz p) with (Z.succ (ctz p)) by lia.
    rewrite Z.testbit_even_succ by lia. apply IH.
  - intros i Hi. replace (Zpos p~0) with (2 * Zpos p) by lia. destruct (Z.eq_dec i 0) as [->|].
    + apply Z.testbit_even_0.
    + replace i with (Z.succ (i - 1)) by lia. rewrite Z.testbit_even_succ by lia. apply IH. lia.
Qed.

Lemma lssbl_spec w : word_ok w -> w <> 0 -> exists l, uk_lssbl w = Some l /\ lowest w l.
Proof.
  intros Hw Hn. destruct w as [|p|p]; [done| |destruct Hw; lia]. exists (ctz p). split; [done|].
  destruct (ctz_spec p) as (? & Hbit & ?). split_and!; try done.
  destruct (Z.lt_ge_cases (ctz p) 64); [done|]. by rewrite word_testbit in Hbit by (done || lia).
Qed.

(** ** Scans *)

(** The reference: try one position after the other. *)
Fixpoint first_from (P : Z -> bool) (i : Z) (n : nat) : Z :=
  match n with O => i | S n => if P i then i else first_from P (i + 1) n end.
Definition linear_scan (P : Z -> bool) (size offset : Z) : Z :=
  if size <=? offset then size else first_from P offset (Z.to_nat (size - offset)).

Definition next (P : Z -> bool) (lo hi r : Z) : Prop :=
  lo <= r /\ (forall i, lo <= i < r -> i < hi -> P i = false) /\ (r < hi -> P r = true).

Lemma first_from_spec P i n :
  next P i (i + Z.of_nat n) (first_from P i n) /\ first_from P i n <= i + Z.of_nat n.
Proof.
  revert i. induction n as [|n IH]; intros i; simpl.
  - unfold next. split_and!; try intros; lia.
  - destruct (P i) eqn:Hi; [unfold next; split_and!; try intros; try done; lia|].
    destruct (IH (i + 1)) as [(H1 & H2 & H3) H4]. unfold next. split_and!; try lia.
    + intros j ? ?. destruct (Z.eq_dec j i) as [->|]; [done|]. apply H2; lia.
    + intros. apply H3. lia.
Qed.

Lemma next_unique P lo hi r r' : next P lo hi r -> next P lo hi r' -> Z.min r hi = Z.min r' hi.
Proof.
  intros (? & Hf & Ht) (? & Hf' & Ht').
  destruct (Z.lt_trichotomy r r') as [|[->|]]; [|done|].
  - destruct (Z.lt_ge_cases r hi); [|lia]. rewrite Hf' in Ht by lia. naive_solver.
  - destruct (Z.lt_ge_cases r' hi); [|lia]. rewrite Hf in Ht' by lia. naive_solver.
Qed.

Lemma next_linear P size offset r :
  offset < size -> next P offset size r -> Z.min r size = linear_scan P size offset.
Proof.
  intros Hlt Hn. unfold linear_scan. rewrite (proj2 (Z.leb_gt _ _)) by lia.
  destruct (first_from_spec P offset (Z.to_nat (size - offset))) as [Hs ?].
  replace (offset + Z.of_nat (Z.to_nat (size - offset))) with size in * by lia.
  rewrite (next_unique _ _ _ _ _ Hn Hs). lia.
Qed.

Lemma next_ext P Q lo hi r : (forall i, lo <= i < hi -> P i = Q i) -> next P lo hi r -> next Q lo hi r.
Proof.
  intros He (? & Hf & Ht). split_and!; [done| |].
  - intros i ? ?. rewrite <- He by lia. auto.
  - intros. rewrite <- He by lia. auto.
Qed.

(** Skip a part without a hit. *)
Lemma next_skip P lo mid hi r :
  lo <= mid -> (forall i, lo <= i < mid -> P i = false) -> next P mid hi r -> next P lo hi r.
Proof.
  intros ? Hf (? & Hf' & ?). split_and!; [lia| |done].
  intros i ? ?. destruct (Z.lt_ge_cases i mid); [apply Hf|apply Hf']; lia.
Qed.

Definition fbit (f : Z -> Z) (a : list Z) (i : Z) : bool :=
  match load a (i / 64) with Some w => Z.testbit (f w) (i mod 64) | None => false end.

Lemma load_cons w a i : 0 < i -> load (w :: a) i = load a (i - 1).
Proof.
  intros. unfold load. rewrite (proj2 (Z.ltb_ge i 0)), (proj2 (Z.ltb_ge (i - 1) 0)) by lia.
  by replace (Z.to_nat i) with (S (Z.to_nat (i - 1))) by lia.
Qed.

Lemma fbit_head f w a i : 0 <= i < 64 -> fbit f (w :: a) i = Z.testbit (f w) i.
Proof. intros. unfold fbit. by rewrite Z.div_small, Z.mod_small by lia. Qed.

Lemma fbit_tail f w a i : 64 <= i -> fbit f (w :: a) i = fbit f a (i - 64).
Proof.
  intros. unfold fbit. rewrite load_cons by (assert (1 <= i / 64) by (apply Z.div_le_lower_bound; lia); lia).
  replace (i - 64) with (i + (-1) * 64) by lia. by rewrite Z.div_add, Z.mod_add by lia.
Qed.

(** The lowest bit of a word, masked from [lo] up to [hi], is the next hit in it. *)
Lemma masked_next v m lo hi bit :
  word_ok v -> word_ok m -> 0 <= lo -> hi <= 64 ->
  (forall i, 0 <= i < 64 -> Z.testbit m i = (lo <=? i) && (i <? hi)) ->
  (Z.land v m = 0 -> forall i, lo <= i < hi -> Z.testbit v i = false) /\
  (Z.land v m <> 0 -> exists l, uk_lssbl (Z.land v m) = Some l /\ lo <= l < hi /\
    next (fun i => Z.testbit v (i - bit)) (bit + lo) (bit + hi) (bit + l)).
Proof.
  intros Hv Hm ? ? Hbits. split.
  - intros Hz i Hi. assert (Hb : Z.testbit (Z.land v m) i = false) by (rewrite Hz; apply Z.bits_0).
    rewrite Z.land_spec, Hbits in Hb by lia. destruct (Z.leb_spec lo i), (Z.ltb_spec i hi); try lia.
    by destruct (Z.testbit v i).
  - intros Hn. destruct (lssbl_spec (Z.land v m)) as (l & Hl & Hr & Ht & Hf); [|done|].
    { by apply land_ok. }
    rewrite Z.land_spec, Hbits in Ht by lia.
    apply andb_prop in Ht as [Htv Htm]. apply andb_prop in Htm as [?%Z.leb_le ?%Z.ltb_lt].
    exists l. split_and!; try done. split_and!; [lia| |].
    + intros i ? ?. specialize (Hf (i - bit) ltac:(lia)). rewrite Z.land_spec, Hbits in Hf by lia.
      destruct (Z.leb_spec lo (i - bit)), (Z.ltb_spec (i - bit) hi); try lia. by destruct (Z.testbit v (i - bit)).
    + intros. by replace (bit + l - bit) with l by lia.
Qed.

Lemma ones_ok n : 0 <= n <= 64 -> word_ok (2 ^ n - 1).
Proof.
  intros. pose proof (Z.pow_pos_nonneg 2 n). pose proof (Z.pow_le_mono_r 2 n 64). unfold word_ok. lia.
Qed.

Lemma land_max w : word_ok w -> Z.land w (2 ^ 64 - 1) = w.
Proof.
  intros Hw. replace (2 ^ 64 - 1) with (Z.ones 64) by done. rewrite Z.land_ones by lia.
  apply Z.mod_small, Hw.
Qed.

Lemma last_word_next v n bit :
  word_ok v -> 0 < n <= 64 ->
  let P := fun i => Z.testbit v (i - bit) in
  let mask := Z.land v (2 ^ n - 1) in
  (mask = 0 -> next P bit (bit + n) (bit + n)) /\
  (mask <> 0 -> exists l, uk_lssbl mask = Some l /\ l < n /\ next P bit (bit + n) (bit + l)).
Proof.
  intros Hv Hn P mask. destruct (masked_next v (2 ^ n - 1) 0 n bit) as [H0 H1]; try done; try lia.
  { apply ones_ok. lia. }
  { intros i Hi. rewrite ones_testbit by lia. destruct (Z.leb_spec 0 i); [done|lia]. }
  rewrite Z.add_0_r in H1. split.
  - intros Hz. unfold next. split_and!; [lia| |lia]. intros i ? ?. apply (H0 Hz). lia.
  - intros Hz. destruct (H1 Hz) as (l & ? & ? & ?). exists l. split_and!; [done|lia|done].
Qed.

Lemma scan_loop_spec f addr size bit :
  (forall w, word_ok w -> word_ok (f w)) -> words_ok addr -> 0 <= size <= 64 * zlen addr ->
  exists r, scan_loop f addr size bit = Some r /\ r <= bit + size /\
    next (fun i => fbit f addr (i - bit)) bit (bit + size) r.
Proof.
  intros Hf. revert size bit. induction addr as [|w addr IH]; intros size bit Hok Hsize.
  { assert (size = 0) as -> by (unfold zlen in Hsize; simpl in Hsize; lia).
    exists bit. unfold next. split_and!; try done; try intros; lia. }
  rewrite zlen_cons in Hsize. inversion_clear Hok as [|? ? Hw Hok'].
  unfold scan_loop; fold scan_loop. unfold UK_BITS_PER_LONG. destruct (Z.leb_spec 64 size) as [Hge|Hlt].
  - destruct (last_word_next (f w) 64 bit) as [H0 H1]; [by apply Hf|lia|]. cbv zeta in H0, H1.
    rewrite land_max in H0, H1 by by apply Hf.
    destruct (Z.eqb_spec (f w) 0) as [Hz|Hz].
    + destruct (IH (size - 64) (bit + 64) Hok' ltac:(lia)) as (r & -> & ? & Hnext).
      exists r. split_and!; [done|lia|]. apply (next_skip _ _ (bit + 64)); [lia| |].
      * intros i Hi. rewrite fbit_head by lia. rewrite Hz. apply Z.bits_0.
      * replace (bit + 64 + (size - 64)) with (bit + size) in Hnext by lia.
        eapply next_ext, Hnext. intros i Hi. simpl. rewrite fbit_tail by lia. f_equal. lia.
    + destruct (H1 Hz) as (l & -> & ? & Ha & Hb & Hc). exists (bit + l). split_and!; [done|lia|].
      unfold next. split_and!; [done| |].
      * intros i ? ?. rewrite fbit_head by lia. apply Hb; lia.
      * intros. rewrite fbit_head by lia. apply Hc; lia.
  - destruct (Z.eqb_spec size 0) as [->|Hnz].
    { exists bit. unfold next. split_and!; try done; try intros; lia. }
    simpl. rewrite last_word_mask by lia. simpl.
    destruct (last_word_next (f w) size bit) as [H0 H1]; [by apply Hf|lia|]. simpl in H0, H1.
    assert (Hext : forall r, next (fun i => Z.testbit (f w) (i - bit)) bit (bit + size) r ->
      next (fun i => fbit f (w :: addr) (i - bit)) bit (bit + size) r).
    { intros r. apply next_ext. intros i ?. by rewrite fbit_head by lia. }
    destruct (Z.eqb_spec (Z.land (f w) (2 ^ size - 1)) 0) as [Hz|Hz].
    + exists (bit + size). split_and!; [done|lia|auto].
    + destruct (H1 Hz) as (l & -> & ? & ?). exists (bit + l). split_and!; [done|lia|auto].
Qed.

Lemma load_drop a k i : 0 <= k -> 0 <= i -> load (drop (Z.to_nat k) a) i = load a (k + i).
Proof.
  intros. unfold load. rewrite (proj2 (Z.ltb_ge i 0)), (proj2 (Z.ltb_ge (k + i) 0)) by lia.
  rewrite lookup_drop. f_equal. lia.
Qed.

Lemma fbit_drop f a k i : 0 <= k -> 0 <= i -> fbit f (drop (Z.to_nat k) a) i = fbit f a (64 * k + i).
Proof.
  intros. unfold fbit. rewrite load_drop by (try apply Z.div_pos; lia).
  replace (64 * k + i) with (i + k * 64) by lia. rewrite Z.div_add, Z.mod_add by lia. by rewrite Z.add_comm.
Qed.

Lemma fbit_at f a k i w :
  load a k = Some w -> 64 * k <= i < 64 * k + 64 -> fbit f a i = Z.testbit (f w) (i - 64 * k).
Proof.
  intros Hl ?. unfold fbit. assert (i / 64 = k) as Hk by (symmetry; apply (Z.div_unique i 64 k (i - 64 * k)); lia).
  rewrite Z.mod_eq by lia. by rewrite Hk, Hl.
Qed.

Lemma words_ok_drop n a : words_ok a -> words_ok (drop n a).
Proof. apply Forall_drop. Qed.

Lemma load_ok a i w : words_ok a -> load a i = Some w -> word_ok w.
Proof.
  unfold load. intros Ha. destruct (i <? 0); [done|]. intros Hl. by eapply (Forall_lookup_1 _ _ _ _ Ha Hl).
Qed.

Lemma load_Some a i : 0 <= i < zlen a -> exists w, load a i = Some w.
Proof.
  intros. unfold load, zlen in *. rewrite (proj2 (Z.ltb_ge i 0)) by lia.
  apply lookup_lt_is_Some_2. lia.
Qed.

(** The first word of a scan that starts inside it. *)
Lemma first_word_next v offs bit :
  word_ok v -> 0 < offs < 64 ->
  let P := fun i => Z.testbit v (i - bit) in
  let mask := Z.land v (lnot64 (2 ^ offs - 1)) in
  (mask = 0 -> forall i, bit + offs <= i < bit + 64 -> P i = false) /\
  (mask <> 0 -> exists l, uk_lssbl mask = Some l /\ l < 64 /\ next P (bit + offs) (bit + 64) (bit + l)).
Proof.
  intros Hv Ho P mask. destruct (masked_next v (lnot64 (2 ^ offs - 1)) offs 64 bit) as [H0 H1]; try done; try lia.
  { apply lnot64_ok. }
  { intros i Hi. rewrite lnot64_testbit, ones_testbit by lia.
    destruct (Z.ltb_spec i offs), (Z.leb_spec offs i), (Z.ltb_spec i 64); lia. }
  split.
  - intros Hz i ?. apply (H0 Hz). lia.
  - intros Hz. destruct (H1 Hz) as (l & ? & ? & ?). exists l. split_and!; [done|lia|done].
Qed.

Lemma scan_from_spec f addr size offset :
  (forall w, word_ok w -> word_ok (f w)) -> words_ok addr -> 0 <= offset < size -> size <= 64 * zlen addr ->
  exists r, scan_from f addr size offset = Some r /\ next (fbit f addr) offset size r.
Proof.
  intros Hf Hok Ho Hsize. unfold scan_from, UK_BITS_PER_LONG. rewrite (proj2 (Z.leb_gt size offset)) by lia.
  pose proof (Z.div_mod offset 64 ltac:(lia)) as Hdm. pose proof (Z.mod_pos_bound offset 64 ltac:(lia)) as Hm.
  set (pos := offset / 64) in *. set (offs := offset mod 64) in *.
  assert (Hpos : 0 <= pos) by (apply Z.div_pos; lia).
  assert (Hlen : zlen (drop (Z.to_nat pos) addr) = zlen addr - pos) by (apply zlen_drop; lia).
  destruct (Z.eqb_spec offs 0) as [Hz|Hz]; simpl negb; cbv iota.
  - destruct (scan_loop_spec f (drop (Z.to_nat pos) addr) (size - 64 * pos) (64 * pos)) as (r & -> & _ & Hn);
      [done|by apply words_ok_drop|lia|]. exists r. split; [done|].
    replace (64 * pos + (size - 64 * pos)) with size in Hn by lia.
    replace offset with (64 * pos) by lia. eapply next_ext, Hn. intros i ?. simpl.
    rewrite fbit_drop by lia. f_equal. lia.
  - destruct (load_Some (drop (Z.to_nat pos) addr) 0 ltac:(lia)) as [w Hw].
    assert (Hwok : word_ok (f w)) by (eapply Hf, load_ok; [by apply words_ok_drop|done]).
    assert (Hw' : load addr pos = Some w) by (rewrite load_drop in Hw by lia; by rewrite Z.add_0_r in Hw).
    rewrite Hw. simpl mbind. rewrite last_word_mask by lia. simpl mbind.
    destruct (first_word_next (f w) offs (64 * pos) Hwok ltac:(lia)) as [H0 H1]. cbv zeta in H0, H1.
    assert (Hin : forall i, 64 * pos <= i < 64 * pos + 64 -> fbit f addr i = Z.testbit (f w) (i - 64 * pos)).
    { intros. by apply fbit_at. }
    destruct (Z.eqb_spec (Z.land (f w) (lnot64 (2 ^ offs - 1))) 0) as [Hm0|Hm0]; simpl negb; cbv iota.
    + destruct (Z.leb_spec (size - 64 * pos) 64).
      * exists size. split; [done|]. unfold next. split_and!; [lia| |lia].
        intros i ? ?. rewrite Hin by lia. apply (H0 Hm0). lia.
      * rewrite drop_drop. replace (Z.to_nat pos + 1)%nat with (Z.to_nat (pos + 1)) by lia.
        destruct (scan_loop_spec f (drop (Z.to_nat (pos + 1)) addr) (size - (64 * pos + 64)) (64 * pos + 64))
          as (r & -> & _ & Hn); [done|by apply words_ok_drop|rewrite zlen_drop by lia; lia|].
        exists r. split; [done|]. replace (64 * pos + 64 + (size - (64 * pos + 64))) with size in Hn by lia.
        apply (next_skip _ _ (64 * pos + 64)); [lia| |].
        { intros i Hi. rewrite Hin by lia. apply (H0 Hm0). lia. }
        eapply next_ext, Hn. intros i ?. simpl. rewrite fbit_drop by lia. f_equal. lia.
    + destruct (H1 Hm0) as (l & -> & ? & Ha & Hb & Hc). exists (64 * pos + l). split; [done|].
      unfold next. split_and!; [lia| |].
      * intros i ? ?. rewrite Hin by lia. apply Hb; lia.
      * intros. rewrite Hin by lia. apply Hc; lia.
Qed.

Lemma fbit_id a i : fbit id a i = bit_at a i.
Proof. done. Qed.
Lemma fbit_lnot a i : words_ok a -> 0 <= i < 64 * zlen a -> fbit lnot64 a i = negb (bit_at a i).
Proof.
  intros. unfold fbit, bit_at. pose proof (Z.mod_pos_bound i 64 ltac:(lia)).
  destruct (load_Some a (i / 64)) as [w ->];
    [split; [apply Z.div_pos; lia|apply Z.div_lt_upper_bound; lia]|].
  by apply lnot64_testbit.
Qed.

(** The reference for the last set bit below [size]. *)
Fixpoint last_from (P : Z -> bool) (size : Z) (n : nat) : Z :=
  match n with O => size | S n => if P (Z.of_nat n) then Z.of_nat n else last_from P size n end.

Lemma last_from_hit P size n r :
  0 <= r < Z.of_nat n -> P r = true -> (forall i, r < i < Z.of_nat n -> P i = false) -> last_from P size n = r.
Proof.
  induction n as [|n IH]; intros Hr HP Hab; [lia|]. simpl. destruct (Z.eq_dec r (Z.of_nat n)) as [->|]; [by rewrite HP|].
  rewrite Hab by lia. apply IH; [lia|done|]. intros; apply Hab; lia.
Qed.
Lemma last_from_skip P size n m :
  (m <= n)%nat -> (forall i, Z.of_nat m <= i < Z.of_nat n -> P i = false) -> last_from P size n = last_from P size m.
Proof.
  intros Hle. induction Hle as [|n Hle IH]; [done|]. intros Hab. simpl. rewrite Hab by lia. apply IH.
  intros; apply Hab; lia.
Qed.

(** The highest set bit of a word. *)
Lemma mssbl_spec w : word_ok w -> w <> 0 ->
  exists m, uk_mssbl w = Some m /\ 0 <= m < 64 /\ Z.testbit w m = true /\
    forall i, m < i -> Z.testbit w i = false.
Proof.
  intros Hw Hn. destruct w as [|p|p]; [done| |destruct Hw; lia]. unfold word_ok in Hw.
  exists (Z.log2 (Zpos p)). pose proof (Z.log2_nonneg (Zpos p)).
  assert (Z.log2 (Zpos p) < 64) by (apply Z.log2_lt_pow2; lia). split_and!; try lia.
  - unfold uk_mssbl, uk_clzl. cbn [mbind option_bind]. f_equal. lia.
  - apply Z.bit_log2. lia.
  - intros. apply Z.bits_above_log2; lia.
Qed.

Lemma bit_at_word a k i w : load a k = Some w -> 64 * k <= i < 64 * k + 64 -> bit_at a i = Z.testbit w (i - 64 * k).
Proof. apply (fbit_at id). Qed.

Lemma last_loop_spec a pos size :
  words_ok a -> Z.of_nat pos <= zlen a -> last_loop a pos size = Some (last_from (bit_at a) size (64 * pos)).
Proof.
  intros Ha. induction pos as [|pos IH]; intros Hlen; [done|]. cbn [last_loop].
  destruct (load_Some a (Z.of_nat pos) ltac:(lia)) as [w Hw]. rewrite Hw. simpl mbind.
  pose proof (load_ok _ _ _ Ha Hw) as Hok. unfold UK_BITS_PER_LONG.
  destruct (Z.eqb_spec w 0) as [->|Hnz].
  - rewrite IH by lia. f_equal. symmetry. apply last_from_skip; [lia|]. intros i Hi.
    rewrite (bit_at_word _ _ _ _ Hw) by lia. apply Z.bits_0.
  - destruct (mssbl_spec w Hok Hnz) as (m & -> & ? & Hm & Hab). simpl mbind. f_equal. symmetry.
    apply last_from_hit; [lia| |].
    + rewrite (bit_at_word _ _ _ _ Hw) by lia. by replace (64 * Z.of_nat pos + m - 64 * Z.of_nat pos) with m by lia.
    + intros i Hi. rewrite (bit_at_word _ _ _ _ Hw) by lia. apply Hab. lia.
Qed.

Lemma find_last_spec a size :
  words_ok a -> 0 <= size <= 64 * zlen a ->
  uk_find_last_bit a size = Some (last_from (bit_at a) size (Z.to_nat size)).
Proof.
  intros Ha Hs. unfold uk_find_last_bit, UK_BITS_PER_LONG.
  pose proof (Z.div_mod size 64 ltac:(lia)) as Hdm. pose proof (Z.mod_pos_bound size 64 ltac:(lia)).
  assert (0 <= size / 64) by (apply Z.div_pos; lia).
  set (pos := size / 64) in *. set (offs := size mod 64) in *.
  assert (Hrest : (forall i, 64 * pos <= i < size -> bit_at a i = false) ->
    last_loop a (Z.to_nat pos) size = Some (last_from (bit_at a) size (Z.to_nat size))).
  { intros Hab. rewrite last_loop_spec by (done || lia). f_equal. symmetry. apply last_from_skip; [lia|].
    intros i ?. apply Hab. lia. }
  destruct (Z.eqb_spec offs 0); simpl negb; cbv iota; [apply Hrest; lia|].
  destruct (load_Some a pos ltac:(lia)) as [w Hw]. rewrite Hw. simpl mbind.
  rewrite last_word_mask by lia. simpl mbind.
  pose proof (load_ok _ _ _ Ha Hw) as Hok.
  assert (Hbit : forall i, 0 <= i < offs -> bit_at a (64 * pos + i) = Z.testbit (Z.land w (2 ^ offs - 1)) i).
  { intros i Hi. rewrite (bit_at_word _ _ _ _ Hw) by lia. rewrite Z.land_spec, ones_testbit by lia.
    rewrite (proj2 (Z.ltb_lt i offs)) by lia. rewrite andb_true_r. f_equal. lia. }
  destruct (Z.eqb_spec (Z.land w (2 ^ offs - 1)) 0) as [Hz|Hz]; simpl negb; cbv iota.
  - apply Hrest. intros i Hi. replace i with (64 * pos + (i - 64 * pos)) by lia.
    rewrite Hbit by lia. rewrite Hz. apply Z.bits_0.
  - destruct (mssbl_spec _ (land_ok _ (2 ^ offs - 1) Hok) Hz) as (m & -> & ? & Hm & Hab). simpl mbind. f_equal.
    assert (m < offs).
    { rewrite Z.land_spec, ones_testbit in Hm by lia. apply andb_prop in Hm as [_ ?%Z.ltb_lt]. done. }
    symmetry. apply last_from_hit; [lia|rewrite Hbit by lia; done|].
    intros i Hi. replace i with (64 * pos + (i - 64 * pos)) by lia. rewrite Hbit by lia. apply Hab. lia.
Qed.

(** C39: The word-wise scans of bitmap.h agree with trying one bit after the
    other: the first set bit, the first clear bit, the next set bit and the next
    clear bit from a position on, and the last set bit, below the size of the
    bitmap.  The scans from a position may report no hit by any number from the
    size on; the others report it by the size. *)
Theorem bitmap_scan_equiv a size offset :
  words_ok a -> 0 <= offset -> 0 <= size < 2 ^ 31 -> size <= 64 * zlen a ->
  let clear i := negb (bit_at a i) in
  uk_find_first_bit a size = Some (linear_scan (bit_at a) size 0) /\
  uk_find_first_zero_bit a size = Some (linear_scan clear size 0) /\
  (exists r, uk_find_next_bit a size offset = Some r /\ Z.min r size = linear_scan (bit_at a) size offset) /\
  (exists r, uk_find_next_zero_bit a size offset = Some r /\ Z.min r size = linear_scan clear size offset) /\
  uk_find_last_bit a size = Some (last_from (bit_at a) size (Z.to_nat size)).
Proof.
  intros Ha Ho Hs Hlen clear.
  assert (Hfirst : forall f P, (forall w, word_ok w -> word_ok (f w)) ->
    (forall i, 0 <= i < size -> fbit f a i = P i) -> scan_loop f a size 0 = Some (linear_scan P size 0)).
  { intros f P Hf HP. destruct (scan_loop_spec f a size 0) as (r & -> & ? & Hn); [done|done|lia|]. f_equal.
    destruct (Z.eq_dec size 0) as [->|]; [unfold linear_scan; destruct Hn; simpl; lia|].
    rewrite <- (next_linear P size 0 r); [lia|lia|]. eapply next_ext, Hn. intros i Hi. simpl.
    rewrite Z.sub_0_r. apply HP. lia. }
  assert (Hnext : forall f P, (forall w, word_ok w -> word_ok (f w)) ->
    (forall i, 0 <= i < size -> fbit f a i = P i) ->
    exists r, scan_from f a size offset = Some r /\ Z.min r size = linear_scan P size offset).
  { intros f P Hf HP. destruct (Z.lt_ge_cases offset size) as [Hlt|Hge].
    - destruct (scan_from_spec f a size offset) as (r & -> & Hn); [done|done|lia|lia|]. exists r. split; [done|].
      apply next_linear; [done|]. eapply next_ext, Hn. intros i Hi. simpl. apply HP. lia.
    - exists size. unfold scan_from, linear_scan. rewrite (proj2 (Z.leb_le size offset)) by lia. split; [done|lia]. }
  assert (Hclear : forall i, 0 <= i < size -> fbit lnot64 a i = clear i) by (intros; apply fbit_lnot; [done|lia]).
  split_and!.
  - by apply Hfirst.
  - apply Hfirst; [intros; apply lnot64_ok|done].
  - by apply Hnext.
  - apply Hnext; [intros; apply lnot64_ok|done].
  - by apply find_last_spec; [|lia].
Qed.
Lemma bitmap_scan_equiv_witness :
  uk_find_next_bit [2 ^ 10; 0; 2 ^ 5] 140 11 = Some 133 /\
  exists r, uk_find_next_bit [2 ^ 10; 0; 2 ^ 5] 140 11 = Some r /\
    Z.min r 140 = linear_scan (bit_at [2 ^ 10; 0; 2 ^ 5]) 140 11.
Proof.
  split; [reflexivity|].
  apply (bitmap_scan_equiv [2 ^ 10; 0; 2 ^ 5] 140 11); [|lia|lia|vm_compute; discriminate].
  repeat constructor; vm_compute; congruence.
Defined.

(** ** Single bits *)

Lemma shl1_testbit j i : 0 <= j -> 0 <= i -> Z.testbit (Z.shiftl 1 j) i = (i =? j).
Proof.
  intros. rewrite Z.shiftl_spec by lia. destruct (Z.eqb_spec i j) as [->|].
  - by rewrite Z.sub_diag.
  - destruct (Z.lt_ge_cases i j); [by rewrite Z.testbit_neg_r by lia|].
    replace 1 with (2 ^ 0) by done. rewrite Z.pow2_bits_eqb by lia. lia.
Qed.

Lemma bits_0_iff x : 0 <= x -> (x =? 0) = true <-> (forall i, 0 <= i -> Z.testbit x i = false).
Proof.
  intros. rewrite Z.eqb_eq. split; [intros -> i ?; apply Z.bits_0|].
  intros Hb. apply Z.bits_inj'. intros i ?. by rewrite Z.bits_0, Hb.
Qed.

(** A test of one bit with a mask. *)
Lemma land_bit x j : 0 <= j -> negb (Z.land x (Z.shiftl 1 j) =? 0) = Z.testbit x j.
Proof.
  intros Hj. destruct (Z.testbit x j) eqn:Hb.
  - destruct (Z.eqb_spec (Z.land x (Z.shiftl 1 j)) 0) as [Hz|]; [|done].
    assert (Hf : Z.testbit (Z.land x (Z.shiftl 1 j)) j = false) by (rewrite Hz; apply Z.bits_0).
    rewrite Z.land_spec, shl1_testbit, Z.eqb_refl, Hb in Hf by lia. done.
  - destruct (Z.eqb_spec (Z.land x (Z.shiftl 1 j)) 0) as [|Hz]; [done|]. exfalso. apply Hz.
    apply Z.bits_inj'. intros i ?. rewrite Z.bits_0, Z.land_spec, shl1_testbit by lia.
    destruct (Z.eqb_spec i j) as [->|]; [by rewrite Hb|by rewrite andb_false_r].
Qed.

Lemma land7 n : Z.land n 7 = n mod 8.
Proof. change 7 with (Z.ones 3). by rewrite Z.land_ones by lia. Qed.
Lemma land63 n : Z.land n (UK_BITS_PER_LONG - 1) = n mod 64.
Proof. change (UK_BITS_PER_LONG - 1) with (Z.ones 6). by rewrite Z.land_ones by lia. Qed.

(** The word, the byte in it and the bit in that of a position. *)
Lemma byte_pos nr : 0 <= nr ->
  Z.shiftr nr 3 / 8 = nr / 64 /\ 8 * (Z.shiftr nr 3 mod 8) + nr mod 8 = nr mod 64 /\
  0 <= 8 * (Z.shiftr nr 3 mod 8) <= 56 /\ 0 <= nr mod 8 < 8.
Proof.
  intros. rewrite Z.shiftr_div_pow2 by lia. change (2 ^ 3) with 8.
  rewrite Z.div_div by lia. pose proof (Z.mod_pos_bound nr 8 ltac:(lia)).
  pose proof (Z.mod_pos_bound (nr / 8) 8 ltac:(lia)). split_and!; try lia; try done.
  rewrite (Z.mod_eq nr 64), (Z.mod_eq (nr / 8) 8), (Z.mod_eq nr 8) by lia. rewrite Z.div_div by lia.
  change (8 * 8) with 64. lia.
Qed.

Lemma lookup_store a i v a' j :
  store a i v = Some a' -> load a' j = if j =? i then Some v else load a j.
Proof.
  unfold store. destruct (load a i) as [w|] eqn:Hl; [|done]. simpl. intros [= <-]. unfold load in *.
  destruct (Z.ltb_spec i 0); [done|]. destruct (Z.eqb_spec j i) as [->|].
  - destruct (Z.ltb_spec i 0); [lia|]. rewrite list_lookup_insert_eq; [done|]. by eapply lookup_lt_Some.
  - destruct (Z.ltb_spec j 0); [done|]. rewrite list_lookup_insert_ne by lia. done.
Qed.

Lemma store_Some a i v : 0 <= i < zlen a -> word_ok v -> words_ok a ->
  exists a', store a i v = Some a' /\ words_ok a' /\ zlen a' = zlen a /\
    forall j, bit_at a' j = if j / 64 =? i then Z.testbit v (j mod 64) else bit_at a j.
Proof.
  intros Hi Hv Ha. destruct (load_Some a i Hi) as [w Hw].
  assert (He : store a i v = Some (<[Z.to_nat i := v]> a)) by (unfold store; by rewrite Hw).
  eexists. split_and!; [done| | |].
  - by apply Forall_insert.
  - unfold zlen. by rewrite length_insert.
  - intros j. unfold bit_at. rewrite (lookup_store _ _ _ _ _ He). by destruct (_ =? _).
Qed.

Lemma load8_spec a nr w :
  0 <= nr -> load a (nr / 64) = Some w ->
  exists b, load8 a (Z.shiftr nr 3) = Some b /\ 0 <= b < 2 ^ 8 /\
    forall j, 0 <= j -> Z.testbit b j = (j <? 8) && Z.testbit w (8 * (Z.shiftr nr 3 mod 8) + j).
Proof.
  intros Hnr Hw. destruct (byte_pos nr Hnr) as (H1 & H2 & H3 & H4). unfold load8. rewrite H1, Hw. simpl mbind.
  eexists. split_and!; [done|by apply wrap_range..|]. intros j Hj. rewrite wrap_testbit by lia.
  rewrite Z.shiftr_spec by lia. by rewrite Z.add_comm.
Qed.

Lemma test_bit_spec a nr :
  0 <= nr < 64 * zlen a -> uk_test_bit nr a = Some (bit_at a nr).
Proof.
  intros Hnr. destruct (byte_pos nr) as (H1 & H2 & H3 & H4); [lia|].
  destruct (load_Some a (nr / 64)) as [w Hw]; [split; [apply Z.div_pos|apply Z.div_lt_upper_bound]; lia|].
  destruct (load8_spec a nr w ltac:(lia) Hw) as (b & Hb & ? & Hbits). unfold uk_test_bit. rewrite Hb. simpl mbind.
  f_equal. rewrite Z.land_comm, land7, land_bit by lia. rewrite Hbits by lia. rewrite H2.
  unfold bit_at. rewrite Hw. by rewrite (proj2 (Z.ltb_lt (nr mod 8) 8)) by lia.
Qed.

Lemma byte_testbit b j : 0 <= b < 2 ^ 8 -> 8 <= j -> Z.testbit b j = false.
Proof.
  intros. destruct (Z.eq_dec b 0) as [->|]; [apply Z.bits_0|].
  apply Z.bits_above_log2; [lia|]. assert (Z.log2 b < 8) by (apply Z.log2_lt_pow2; lia). lia.
Qed.

Lemma byte_ok b s : 0 <= b < 2 ^ 8 -> 0 <= s <= 56 -> word_ok (Z.shiftl b s).
Proof. intros. apply word_bits. intros i ?. rewrite Z.shiftl_spec by lia. apply byte_testbit; lia. Qed.

(** Replacing a byte replaces its eight bits. *)
Lemma store8_spec a nr b :
  words_ok a -> 0 <= nr < 64 * zlen a -> 0 <= b < 2 ^ 8 ->
  exists a', store8 a (Z.shiftr nr 3) b = Some a' /\ words_ok a' /\ zlen a' = zlen a /\
    forall j, 0 <= j -> bit_at a' j = if j / 8 =? nr / 8 then Z.testbit b (j mod 8) else bit_at a j.
Proof.
  intros Ha Hnr Hb. destruct (byte_pos nr) as (H1 & H2 & H3 & H4); [lia|].
  assert (Hk : 0 <= nr / 64 < zlen a) by (split; [apply Z.div_pos|apply Z.div_lt_upper_bound]; lia).
  destruct (load_Some a (nr / 64) Hk) as [w Hw].
  set (s := 8 * (Z.shiftr nr 3 mod 8)) in *. pose proof (load_ok _ _ _ Ha Hw) as Hwok.
  set (v := Z.lor (Z.land w (lnot64 (Z.shiftl 255 s))) (Z.shiftl b s)).
  assert (Hv : word_ok v) by (apply lor_ok; [by apply land_ok|by apply byte_ok]).
  destruct (store_Some a (nr / 64) v Hk Hv Ha) as (a' & He & Hok' & Hlen & Hbits).
  exists a'. split_and!; try done.
  { unfold store8. rewrite H1, Hw. done. }
  assert (Hvb : forall i, 0 <= i < 64 -> Z.testbit v i = if (s <=? i) && (i <? s + 8) then Z.testbit b (i - s) else Z.testbit w i).
  { intros i Hi. unfold v. rewrite Z.lor_spec, Z.land_spec, lnot64_testbit, !Z.shiftl_spec by lia.
    change 255 with (2 ^ 8 - 1). destruct (Z.leb_spec s i).
    - rewrite ones_testbit by lia. destruct (Z.ltb_spec (i - s) 8), (Z.ltb_spec i (s + 8)); try lia; simpl.
      + by rewrite andb_false_r.
      + rewrite andb_true_r, (byte_testbit b (i - s)) by lia. by rewrite orb_false_r.
    - rewrite !(Z.testbit_neg_r _ (i - s)) by lia. simpl. by rewrite andb_true_r, orb_false_r. }
  intros j Hj. rewrite Hbits. destruct (byte_pos j Hj) as (J1 & J2 & J3 & J4).
  rewrite Z.shiftr_div_pow2 in J1, J2, J3 by lia. change (2 ^ 3) with 8 in *.
  subst s. rewrite Z.shiftr_div_pow2 in * by lia. change (2 ^ 3) with 8 in *.
  destruct (Z.eqb_spec (j / 8) (nr / 8)) as [E8|N8].
  - rewrite <- J1, E8, H1, Z.eqb_refl. rewrite Hvb by (apply Z.mod_pos_bound; lia).
    rewrite <- J2, E8. set (t := 8 * ((nr / 8) mod 8)) in *.
    destruct (Z.leb_spec t (t + j mod 8)), (Z.ltb_spec (t + j mod 8) (t + 8)); try lia. simpl. f_equal. lia.
  - destruct (Z.eqb_spec (j / 64) (nr / 64)) as [E64|N64]; [|done].
    rewrite Hvb by (apply Z.mod_pos_bound; lia). unfold bit_at. rewrite E64, Hw.
    assert ((j / 8) mod 8 <> (nr / 8) mod 8).
    { intros Heq. apply N8. rewrite (Z.div_mod (j / 8) 8), (Z.div_mod (nr / 8) 8) by lia.
      rewrite J1, H1, Heq. by rewrite E64. }
    destruct (Z.leb_spec (8 * ((nr / 8) mod 8)) (j mod 64)), (Z.ltb_spec (j mod 64) (8 * ((nr / 8) mod 8) + 8));
      try done. exfalso. lia.
Qed.

(** An atomic update of the byte of a bit by [g]. *)
Lemma byte_update_spec a nr g :
  words_ok a -> 0 <= nr < 64 * zlen a -> (forall v, 0 <= v < 2 ^ 8 -> 0 <= g v < 2 ^ 8) ->
  exists v a', load8 a (Z.shiftr nr 3) = Some v /\ 0 <= v < 2 ^ 8 /\ Z.testbit v (nr mod 8) = bit_at a nr /\
    store8 a (Z.shiftr nr 3) (g v) = Some a' /\ words_ok a' /\ zlen a' = zlen a /\
    (forall j, 0 <= j -> bit_at a' j =
      if j / 8 =? nr / 8 then Z.testbit (g v) (j mod 8) else bit_at a j) /\
    (forall j, 0 <= j -> j / 8 = nr / 8 -> Z.testbit v (j mod 8) = bit_at a j).
Proof.
  intros Ha Hnr Hg.
  destruct (load_Some a (nr / 64)) as [w Hw]; [split; [apply Z.div_pos|apply Z.div_lt_upper_bound]; lia|].
  destruct (load8_spec a nr w ltac:(lia) Hw) as (v & Hv & Hvok & Hbits).
  assert (Hold : forall j, 0 <= j -> j / 8 = nr / 8 -> Z.testbit v (j mod 8) = bit_at a j).
  { intros j Hj He. destruct (byte_pos j Hj) as (J1 & J2 & J3 & J4). destruct (byte_pos nr) as (H1 & _); [lia|].
    rewrite Z.shiftr_div_pow2 in * by lia. change (2 ^ 3) with 8 in *. rewrite Hbits by lia.
    rewrite (proj2 (Z.ltb_lt (j mod 8) 8)) by lia. simpl. rewrite <- He, J2. unfold bit_at.
    rewrite <- J1, He, H1, Hw. done. }
  destruct (store8_spec a nr (g v) Ha Hnr (Hg _ Hvok)) as (a' & Hs & Hok & Hlen & Hnew).
  exists v, a'. split_and!; try done; try lia. apply Hold; [lia|done].
Qed.

Lemma bit_mask8 nr : 0 <= nr -> u8 (Z.shiftl 1 (Z.land nr 7)) = Z.shiftl 1 (nr mod 8).
Proof.
  intros. rewrite land7. apply wrap_small. pose proof (Z.mod_pos_bound nr 8 ltac:(lia)).
  rewrite Z.shiftl_1_l. split; [apply Z.pow_nonneg; lia|]. apply Z.pow_lt_mono_r; lia.
Qed.

Lemma byte_bits b : (forall i, 8 <= i -> Z.testbit b i = false) -> 0 <= b < 2 ^ 8.
Proof.
  intros Hb. cut (b = u8 b); [intros ->; by apply wrap_range|]. unfold wrap.
  apply Z.bits_inj'. intros i Hi. destruct (Z.lt_ge_cases i 8).
  - by rewrite Z.mod_pow2_bits_low by lia.
  - by rewrite Z.mod_pow2_bits_high, Hb by lia.
Qed.

Lemma same_byte i j : i / 8 = j / 8 -> i mod 8 = j mod 8 -> i = j.
Proof. intros. rewrite (Z.div_mod i 8), (Z.div_mod j 8) by lia. congruence. Qed.

Lemma test_and_set_bit_spec a nr :
  words_ok a -> 0 <= nr < 64 * zlen a ->
  exists a', uk_test_and_set_bit nr a = Some (bit_at a nr, a') /\ words_ok a' /\ zlen a' = zlen a /\
    forall j, 0 <= j -> bit_at a' j = (j =? nr) || bit_at a j.
Proof.
  intros Ha Hnr. pose proof (Z.mod_pos_bound nr 8 ltac:(lia)).
  destruct (byte_update_spec a nr (fun v => Z.lor v (Z.shiftl 1 (nr mod 8))) Ha Hnr) as
    (v & a' & Hl & Hv & Hb & Hs & Hok & Hlen & Hnew & Hold).
  { intros v Hv. apply byte_bits. intros i ?. rewrite Z.lor_spec, byte_testbit, shl1_testbit by lia. lia. }
  exists a'. unfold uk_test_and_set_bit, fetch_or. rewrite bit_mask8 by lia. rewrite Hl. simpl mbind.
  rewrite Hs. simpl mbind. rewrite land_bit, Hb by lia. split_and!; try done.
  intros j Hj. rewrite Hnew by lia. pose proof (Z.mod_pos_bound j 8 ltac:(lia)).
  destruct (Z.eqb_spec (j / 8) (nr / 8)) as [He|Hne].
  - rewrite Z.lor_spec, shl1_testbit, Hold by lia.
    destruct (Z.eqb_spec (j mod 8) (nr mod 8)), (Z.eqb_spec j nr) as [->|];
      try (by rewrite orb_true_r); try (by rewrite orb_false_r); try congruence.
    exfalso. by apply n, same_byte.
  - destruct (Z.eqb_spec j nr) as [->|]; [done|]. done.
Qed.

Lemma test_and_clear_bit_spec a nr :
  words_ok a -> 0 <= nr < 64 * zlen a ->
  exists a', uk_test_and_clear_bit nr a = Some (bit_at a nr, a') /\ words_ok a' /\ zlen a' = zlen a /\
    forall j, 0 <= j -> bit_at a' j = negb (j =? nr) && bit_at a j.
Proof.
  intros Ha Hnr. pose proof (Z.mod_pos_bound nr 8 ltac:(lia)).
  destruct (byte_update_spec a nr (fun v => Z.land v (u8 (Z.lnot (Z.shiftl 1 (nr mod 8))))) Ha Hnr) as
    (v & a' & Hl & Hv & Hb & Hs & Hok & Hlen & Hnew & Hold).
  { intros v Hv. apply byte_bits. intros i ?. by rewrite Z.land_spec, byte_testbit by lia. }
  exists a'. unfold uk_test_and_clear_bit, fetch_and. rewrite bit_mask8 by lia. rewrite Hl. simpl mbind.
  rewrite Hs. simpl mbind. rewrite land_bit, Hb by lia. split_and!; try done.
  intros j Hj. rewrite Hnew by lia. pose proof (Z.mod_pos_bound j 8 ltac:(lia)).
  destruct (Z.eqb_spec (j / 8) (nr / 8)) as [He|Hne].
  - rewrite Z.land_spec, wrap_testbit, Z.lnot_spec, shl1_testbit, Hold by lia.
    rewrite (proj2 (Z.ltb_lt (j mod 8) 8)) by lia. simpl. rewrite andb_comm.
    destruct (Z.eqb_spec (j mod 8) (nr mod 8)), (Z.eqb_spec j nr) as [->|]; try done; try congruence.
    exfalso. by apply n, same_byte.
  - destruct (Z.eqb_spec j nr) as [->|]; [done|]. done.
Qed.

(** ** Whole bitmaps *)

Lemma ulong_max_ok : word_ok ULONG_MAX.
Proof. by apply (ones_ok 64). Qed.

Lemma fill_words_spec a n v :
  words_ok a -> word_ok v -> 0 <= n <= zlen a ->
  exists a', fill_words a n v = Some a' /\ words_ok a' /\ zlen a' = zlen a /\
    forall j, bit_at a' j = if (0 <=? j) && (j <? 64 * n) then Z.testbit v (j mod 64) else bit_at a j.
Proof.
  intros Ha Hv Hn. unfold fill_words.
  rewrite (proj2 (Z.leb_le 0 n)), (proj2 (Z.leb_le n (zlen a))) by lia. simpl. eexists. split; [done|]. split_and!.
  - apply Forall_app. split; [by apply Forall_replicate|by apply Forall_drop].
  - unfold zlen in *. rewrite length_app, length_replicate, length_drop. lia.
  - intros j. unfold bit_at, load. pose proof (Z.div_mod j 64 ltac:(lia)).
    pose proof (Z.mod_pos_bound j 64 ltac:(lia)).
    destruct (Z.ltb_spec (j / 64) 0), (Z.leb_spec 0 j), (Z.ltb_spec j (64 * n)); try lia; simpl; try done.
    + rewrite lookup_app_l, lookup_replicate_2; [done|lia|rewrite length_replicate; lia].
    + rewrite lookup_app_r; rewrite length_replicate; [|lia]. rewrite lookup_drop.
      by replace (Z.to_nat n + (Z.to_nat (j / 64) - Z.to_nat n))%nat with (Z.to_nat (j / 64)) by lia.
Qed.

Lemma bit_at_0 a j : j < 0 \/ 64 * zlen a <= j -> bit_at a j = false.
Proof.
  intros Hj. unfold bit_at, load. pose proof (Z.div_mod j 64 ltac:(lia)).
  pose proof (Z.mod_pos_bound j 64 ltac:(lia)). destruct (Z.ltb_spec (j / 64) 0); [done|].
  rewrite lookup_ge_None_2; [done|]. unfold zlen in Hj. lia.
Qed.

Lemma bitmap_fill_spec a size :
  words_ok a -> 0 <= size <= 64 * zlen a ->
  exists a', uk_bitmap_fill a size = Some a' /\ words_ok a' /\ zlen a' = zlen a /\
    forall j, 0 <= j < size -> bit_at a' j = true.
Proof.
  intros Ha Hs. unfold uk_bitmap_fill. rewrite land63. unfold UK_BIT_WORD, UK_BITS_PER_LONG.
  pose proof (Z.div_mod size 64 ltac:(lia)). pose proof (Z.mod_pos_bound size 64 ltac:(lia)).
  assert (0 <= size / 64) by (apply Z.div_pos; lia).
  destruct (fill_words_spec a (size / 64) ULONG_MAX Ha ulong_max_ok) as (a1 & -> & Hok1 & Hl1 & Hb1); [lia|].
  simpl mbind.
  assert (Hones : forall j, 0 <= j < 64 * (size / 64) -> bit_at a1 j = true).
  { intros j Hj. rewrite Hb1. destruct (Z.leb_spec 0 j), (Z.ltb_spec j (64 * (size / 64))); try lia. simpl.
    unfold ULONG_MAX. rewrite ones_testbit by (try apply Z.mod_pos_bound; lia).
    apply Z.ltb_lt. apply Z.mod_pos_bound. lia. }
  destruct (Z.eqb_spec (size mod 64) 0).
  { exists a1. split_and!; try done; try lia. intros. apply Hones. lia. }
  rewrite last_word_mask by lia. simpl mbind.
  destruct (store_Some a1 (size / 64) (2 ^ (size mod 64) - 1)) as (a2 & -> & Hok2 & Hl2 & Hb2);
    [lia|apply ones_ok; lia|done|].
  exists a2. split_and!; [done|done|lia|]. intros j Hj. rewrite Hb2.
  destruct (Z.eqb_spec (j / 64) (size / 64)) as [He|Hne].
  - rewrite ones_testbit by (try apply Z.mod_pos_bound; lia). apply Z.ltb_lt. rewrite !Z.mod_eq, He by lia. lia.
  - apply Hones. pose proof (Z.div_mod j 64 ltac:(lia)). pose proof (Z.mod_pos_bound j 64 ltac:(lia)). lia.
Qed.

(** ** Population count *)

(** The reference: the number of set bits among the lowest [n]. *)
Fixpoint popcount (n : nat) (x : Z) : Z :=
  match n with O => 0 | S n => popcount n x + (if Z.testbit x (Z.of_nat n) then 1 else 0) end.

(** A number as its lowest [k] bits and the rest. *)
Lemma split_testbit k x y i :
  0 <= k -> 0 <= x < 2 ^ k -> 0 <= i ->
  Z.testbit (x + 2 ^ k * y) i = if i <? k then Z.testbit x i else Z.testbit y (i - k).
Proof.
  intros Hk Hx Hi. destruct (Z.ltb_spec i k).
  - rewrite <- (Z.mod_pow2_bits_low _ k) by lia. rewrite Z.mul_comm, Z.mod_add by lia. by rewrite Z.mod_small.
  - replace i with (i - k + k) at 1 by lia. rewrite <- Z.div_pow2_bits by lia.
    rewrite Z.mul_comm, Z.div_add by lia. by rewrite Z.div_small.
Qed.

Lemma low_testbit k x i : 0 <= x < 2 ^ k -> 0 <= k <= i -> Z.testbit x i = false.
Proof. intros. rewrite <- (Z.mod_small x (2 ^ k)) by done. by rewrite Z.mod_pow2_bits_high by lia. Qed.

Lemma land_split k lo hi lo' hi' :
  0 <= k -> 0 <= lo < 2 ^ k -> 0 <= lo' < 2 ^ k ->
  Z.land (lo + 2 ^ k * hi) (lo' + 2 ^ k * hi') = Z.land lo lo' + 2 ^ k * Z.land hi hi'.
Proof.
  intros Hk Hlo Hlo'.
  assert (Hl : 0 <= Z.land lo lo' < 2 ^ k).
  { replace (Z.land lo lo') with (Z.land lo lo' mod 2 ^ k); [apply Z.mod_pos_bound; lia|].
    apply Z.bits_inj'. intros i Hi. destruct (Z.lt_ge_cases i k); [by rewrite Z.mod_pow2_bits_low by lia|].
    rewrite Z.mod_pow2_bits_high, Z.land_spec by lia. by rewrite (low_testbit k) by lia. }
  apply Z.bits_inj'. intros i Hi. rewrite Z.land_spec, !split_testbit by lia.
  destruct (i <? k); by rewrite Z.land_spec.
Qed.

(** A number as a list of [k]-bit fields, the lowest first. *)
Fixpoint fields (k : Z) (l : list Z) : Z :=
  match l with [] => 0 | d :: l => d + 2 ^ k * fields k l end.
Definition digits (k m : Z) (l : list Z) : Prop := Forall (fun d => 0 <= d <= m) l /\ m < 2 ^ k.
Fixpoint total (l : list Z) : Z := match l with [] => 0 | d :: l => d + total l end.

Lemma fields_range k m l : 0 <= k -> digits k m l -> 0 <= fields k l < 2 ^ (k * zlen l).
Proof.
  intros Hk [Hl Hm]. induction Hl as [|d l Hd _ IH]; cbn [fields].
  { unfold zlen; simpl. rewrite Z.mul_0_r. simpl. lia. }
  rewrite zlen_cons. pose proof (zlen_nonneg l). pose proof (Z.pow_pos_nonneg 2 k).
  replace (k * (zlen l + 1)) with (k + k * zlen l) by lia. rewrite Z.pow_add_r by nia. nia.
Qed.

Lemma shiftr_fields k m d l : 0 <= k -> digits k m (d :: l) -> Z.shiftr (fields k (d :: l)) k = fields k l.
Proof.
  intros Hk [Hl Hm]. inversion_clear Hl. cbn [fields]. rewrite Z.shiftr_div_pow2 by lia.
  pose proof (Z.pow_pos_nonneg 2 k). rewrite Z.mul_comm, Z.div_add by lia. rewrite Z.div_small by lia. done.
Qed.

Lemma land_fields {A} k (x y z : A -> Z) l :
  0 <= k -> Forall (fun p => 0 <= x p < 2 ^ k /\ 0 <= y p < 2 ^ k /\ Z.land (x p) (y p) = z p) l ->
  Z.land (fields k (map x l)) (fields k (map y l)) = fields k (map z l).
Proof.
  intros Hk Hl. induction Hl as [|p l (? & ? & Hp) _ IH]; [done|]. cbn [fields map].
  by rewrite land_split, IH, Hp by done.
Qed.

Lemma add_fields {A} k (x y : A -> Z) l :
  fields k (map x l) + fields k (map y l) = fields k (map (fun p => x p + y p) l).
Proof. induction l as [|p l IH]; [done|]. cbn [fields map]. rewrite <- IH. ring. Qed.

Lemma scale_fields {A} k c (x : A -> Z) l : fields k (map (fun p => c * x p) l) = c * fields k (map x l).
Proof. induction l as [|p l IH]; cbn [fields map]; [ring|]. rewrite IH. ring. Qed.

Fixpoint pair_up (l : list Z) : list (Z * Z) :=
  match l with a :: b :: l => (a, b) :: pair_up l | _ => [] end.
Definition sums (l : list Z) : list Z := map (fun p : Z * Z => fst p + snd p) (pair_up l).

Lemma pair_up_spec k m n l :
  0 <= k -> length l = (2 * n)%nat -> Forall (fun d => 0 <= d <= m) l ->
  fields k l = fields (k + k) (map (fun p : Z * Z => fst p + 2 ^ k * snd p) (pair_up l)) /\
  total (sums l) = total l /\ length (pair_up l) = n /\
  Forall (fun p : Z * Z => 0 <= fst p <= m /\ 0 <= snd p <= m) (pair_up l) /\
  Forall (fun d => 0 <= d <= m + m) (sums l).
Proof.
  intros Hk. revert l. induction n as [|n IH]; intros l Hlen Hd.
  { destruct l; [|done]. split_and!; done || constructor. }
  destruct l as [|a [|b l]]; simpl in Hlen; try lia. inversion_clear Hd as [|? ? Ha Hd']. inversion_clear Hd' as [|? ? Hb Hd].
  destruct (IH l ltac:(lia) Hd) as (H1 & H2 & H3 & H4 & H5). unfold sums in *. cbn [fields pair_up map total length fst snd].
  split_and!; try (constructor; [simpl; lia|done]); try lia.
  rewrite H1, Z.pow_add_r by lia. ring.
Qed.

(** A mask repeated over all fields keeps the lower or the upper half of each. *)
Lemma mask_fields k m c (z : Z * Z -> Z) n l :
  0 <= k -> m < 2 ^ k -> length l = (2 * n)%nat -> Forall (fun d => 0 <= d <= m) l -> 0 <= c < 2 ^ (k + k) ->
  (forall a b, 0 <= a < 2 ^ k -> 0 <= b < 2 ^ k -> Z.land (a + 2 ^ k * b) c = z (a, b)) ->
  Z.land (fields k l) (fields (k + k) (replicate n c)) = fields (k + k) (map z (pair_up l)).
Proof.
  intros Hk Hm Hlen Hd Hc Hz. destruct (pair_up_spec k m n l Hk Hlen Hd) as (-> & _ & Hn & Hp & _).
  replace (replicate n c) with (map (fun _ : Z * Z => c) (pair_up l)).
  - apply land_fields; [lia|]. eapply Forall_impl; [|exact Hp]. intros [a b] [Ha Hb]. cbn [fst snd] in *.
    pose proof (Z.pow_pos_nonneg 2 k). split_and!; try lia; [|apply Hz; lia]. rewrite Z.pow_add_r by lia. nia.
  - rewrite <- Hn. clear. by induction (pair_up l) as [|? ? IH]; simpl; f_equal.
Qed.

Lemma land_low k a b : 0 <= k -> 0 <= a < 2 ^ k -> Z.land (a + 2 ^ k * b) (2 ^ k - 1) = a.
Proof.
  intros. replace (2 ^ k - 1) with (Z.ones k) by (rewrite Z.ones_equiv; lia). rewrite Z.land_ones by lia.
  rewrite Z.mul_comm, Z.mod_add by lia. by apply Z.mod_small.
Qed.
Lemma land_high k a b :
  0 <= k -> 0 <= a < 2 ^ k -> 0 <= b < 2 ^ k -> Z.land (a + 2 ^ k * b) (2 ^ k * (2 ^ k - 1)) = 2 ^ k * b.
Proof.
  intros. replace (2 ^ k * (2 ^ k - 1)) with (0 + 2 ^ k * (2 ^ k - 1)) by lia.
  rewrite land_split by lia. rewrite Z.land_0_r. f_equal.
  replace b with (b + 2 ^ k * 0) at 1 by lia. rewrite land_low by lia. lia.
Qed.

(** One step of the count: neighbouring fields are added. *)
Lemma swar_step k m n l :
  0 <= k -> m < 2 ^ k -> length l = (2 * n)%nat -> Forall (fun d => 0 <= d <= m) l ->
  Z.land (fields k l) (fields (k + k) (replicate n (2 ^ k - 1))) +
  Z.shiftr (Z.land (fields k l) (fields (k + k) (replicate n (2 ^ k * (2 ^ k - 1))))) k = fields (k + k) (sums l).
Proof.
  intros Hk Hm Hlen Hd. pose proof (Z.pow_pos_nonneg 2 k). pose proof (Z.pow_add_r 2 k k).
  rewrite (mask_fields k m _ fst), (mask_fields k m _ (fun p => 2 ^ k * snd p)); try done; try nia.
  - rewrite scale_fields, Z.shiftr_div_pow2, Z.mul_comm, Z.div_mul by lia. apply add_fields.
  - intros a b ? ?. by apply land_high.
  - intros a b ? ?. by apply land_low.
Qed.

Lemma sums_length l n : length l = (2 * n)%nat -> length (sums l) = n.
Proof.
  unfold sums. rewrite length_map. revert l. induction n as [|n IH]; intros l Hl.
  - by destruct l.
  - destruct l as [|a [|b l]]; simpl in *; try lia. rewrite IH; lia.
Qed.

(** A number of 16 fields of four bits with values up to 4: the masked sum with
    its shift. *)
Lemma swar_nibbles l :
  length l = 16%nat -> Forall (fun d => 0 <= d <= 4) l ->
  Z.land (u64 (fields 4 l + Z.shiftr (fields 4 l) 4)) 0x0f0f0f0f0f0f0f0f = fields 8 (sums l).
Proof.
  intros Hlen Hd. destruct l as [|d0 [|d1 [|d2 [|d3 [|d4 [|d5 [|d6 [|d7 [|d8 [|d9 [|d10 [|d11 [|d12 [|d13 [|d14 [|d15 [|]]]]]]]]]]]]]]]]]; try done.
  rewrite (shiftr_fields _ 4) by (done || lia).
  repeat match goal with H : Forall _ (_ :: _) |- _ => inversion_clear H end.
  rewrite wrap_small by (cbn [fields]; lia).
  set (L := [(d0 + d1, d1 + d2); (d2 + d3, d3 + d4); (d4 + d5, d5 + d6); (d6 + d7, d7 + d8); (d8 + d9, d9 + d10); (d10 + d11, d11 + d12); (d12 + d13, d13 + d14); (d14 + d15, d15 + 0)]).
  match goal with |- Z.land ?x _ = _ =>
    replace x with (fields 8 (map (fun p : Z * Z => p.1 + 2 ^ 4 * p.2) L)) by (cbn [L fields map fst snd]; lia) end.
  change 0x0f0f0f0f0f0f0f0f with (fields 8 (map (fun _ : Z * Z => 15) L)).
  change (fields 8 (sums _)) with (fields 8 (map fst L)).
  apply land_fields; [lia|]. unfold L. repeat (apply Forall_cons_2; [cbn [fst snd]|]); [..|constructor].
  all: (split_and!; [lia|lia|lia|lia|apply (land_low 4); lia]).
Qed.

Ltac nowrap t :=
  match goal with |- context [u64 (fields 8 ?l + fields 8 ?m)] =>
    rewrite (wrap_small 64 (fields 8 l + fields 8 m)) by t end.

(** Eight fields of eight bits with values up to 8: the sum of all of them. *)
Lemma swar_bytes l :
  length l = 8%nat -> Forall (fun d => 0 <= d <= 8) l ->
  let x := u64 (fields 8 l + Z.shiftr (fields 8 l) 8) in
  let x := u64 (x + Z.shiftr x 16) in
  Z.land (u64 (x + Z.shiftr x 32)) 0xff = total l.
Proof.
  intros Hlen Hd. cbv zeta. destruct l as [|d0 [|d1 [|d2 [|d3 [|d4 [|d5 [|d6 [|d7 [|]]]]]]]]]; try done.
  repeat match goal with H : Forall _ (_ :: _) |- _ => inversion_clear H end.
  rewrite (shiftr_fields _ 8); [|lia|split; [repeat constructor; lia|lia]].
  nowrap ltac:(cbn [fields]; lia).
  set (l1 := [d0 + d1; d1 + d2; d2 + d3; d3 + d4; d4 + d5; d5 + d6; d6 + d7; d7]).
  match goal with |- context [Z.shiftr ?x 16] => replace x with (fields 8 l1) by (unfold l1; cbn [fields]; lia) end.
  assert (H16 : Z.shiftr (fields 8 l1) 16 = fields 8 (drop 2 l1)).
  { change 16 with (8 + 8). rewrite <- Z.shiftr_shiftr by lia. unfold l1. cbn [drop].
    do 2 (rewrite (shiftr_fields 8 16); [|lia|split; [repeat constructor; lia|lia]]). done. }
  rewrite H16. clear H16. nowrap ltac:(unfold l1; cbn [fields drop]; lia).
  set (l2 := [d0 + d1 + (d2 + d3); d1 + d2 + (d3 + d4); d2 + d3 + (d4 + d5); d3 + d4 + (d5 + d6);
              d4 + d5 + (d6 + d7); d5 + d6 + d7; d6 + d7; d7]).
  match goal with |- context [Z.shiftr ?x 32] => replace x with (fields 8 l2) by (unfold l1, l2; cbn [fields drop]; lia) end.
  assert (H32 : Z.shiftr (fields 8 l2) 32 = fields 8 (drop 4 l2)).
  { change 32 with (8 + (8 + (8 + 8))). rewrite <- !Z.shiftr_shiftr by lia. unfold l2. cbn [drop].
    do 4 (rewrite (shiftr_fields 8 32); [|lia|split; [repeat constructor; lia|lia]]). done. }
  rewrite H32. clear H32. nowrap ltac:(unfold l2; cbn [fields drop]; lia).
  match goal with |- Z.land ?x _ = ?t => set (r := (x - t) / 2 ^ 8);
    replace x with (t + 2 ^ 8 * r) end.
  - apply (land_low 8); [lia|]. cbn [total]. lia.
  - unfold r, l2. cbn [fields drop total].
    match goal with |- _ + 2 ^ 8 * (?n / _) = _ => replace n with
      (((d1 + d2 + (d3 + d4) + (d5 + d6 + d7)) + 2 ^ 8 * (((d2 + d3 + (d4 + d5)) + (d6 + d7)) +
        2 ^ 8 * ((d3 + d4 + (d5 + d6) + d7) + 2 ^ 8 * (d4 + d5 + (d6 + d7) + 2 ^ 8 * (d5 + d6 + d7 + 2 ^ 8 * (d6 + d7 + 2 ^ 8 * d7)))))) * 2 ^ 8) by lia end.
    rewrite Z.div_mul by lia. lia.
Qed.

(** The bits of a word, the lowest first. *)
Definition bits_of (n : nat) (x : Z) : list Z := map (fun i => Z.b2z (Z.testbit x (Z.of_nat i))) (seq 0 n).

Lemma total_app l1 l2 : total (l1 ++ l2) = total l1 + total l2.
Proof. induction l1 as [|d l1 IH]; simpl; [done|]. rewrite IH. ring. Qed.
Lemma fields_app k l1 l2 : 0 <= k -> fields k (l1 ++ l2) = fields k l1 + 2 ^ (k * zlen l1) * fields k l2.
Proof.
  intros Hk. induction l1 as [|d l1 IH]; cbn [fields app].
  - unfold zlen. simpl. rewrite Z.mul_0_r. simpl. lia.
  - rewrite zlen_cons, IH. replace (k * (zlen l1 + 1)) with (k + k * zlen l1) by lia.
    pose proof (zlen_nonneg l1). rewrite Z.pow_add_r by nia. ring.
Qed.

Lemma bits_of_spec n x :
  0 <= x -> fields 1 (bits_of n x) = x mod 2 ^ Z.of_nat n /\ total (bits_of n x) = popcount n x /\
  length (bits_of n x) = n /\ Forall (fun d => 0 <= d <= 1) (bits_of n x).
Proof.
  intros Hx. assert (Hlen : forall n, length (bits_of n x) = n) by (intros; unfold bits_of; by rewrite length_map, length_seq).
  split_and!; [| |done|].
  - induction n as [|n IH]; [by rewrite Z.mod_1_r|].
    unfold bits_of in *. rewrite seq_S, map_app, fields_app, IH by lia. cbn [map fields].
    unfold zlen. rewrite length_map, length_seq, Z.mul_1_l, Z.mul_0_r, Z.add_0_r, Nat.add_0_l.
    rewrite Nat2Z.inj_succ, Z.testbit_spec' by lia.
    pose proof (Z.pow_pos_nonneg 2 (Z.of_nat n)). rewrite Z.pow_succ_r by lia.
    rewrite (Z.mul_comm 2), Z.rem_mul_r by lia. lia.
  - induction n as [|n IH]; [done|]. unfold bits_of in *. rewrite seq_S, map_app, total_app, IH. cbn [map total popcount].
    rewrite Nat.add_0_l. by destruct (Z.testbit x (Z.of_nat n)).
  - unfold bits_of. apply Forall_map, Forall_true. intros i. simpl. destruct (Z.testbit _ _); simpl; lia.
Qed.

(** The branch-free population count of a 64-bit word is the number of its set
    bits. *)
Theorem bitcount64_equiv x : word_ok x -> uk_bitcount64 x = popcount 64 x.
Proof.
  intros [Hx0 Hx1]. destruct (bits_of_spec 64 x Hx0) as (Hf & Ht & Hlen & Hb).
  rewrite Z.mod_small in Hf by (change (Z.of_nat 64) with 64; lia). set (l0 := bits_of 64 x) in *. rewrite <- Ht, <- Hf.
  destruct (pair_up_spec 1 1 32 l0 ltac:(lia) Hlen Hb) as (_ & T1 & _ & _ & B1). pose proof (sums_length l0 32 Hlen) as L1.
  destruct (pair_up_spec 2 2 16 (sums l0) ltac:(lia) L1 B1) as (_ & T2 & _ & _ & B2). pose proof (sums_length _ 16 L1) as L2.
  destruct (pair_up_spec 4 4 8 (sums (sums l0)) ltac:(lia) L2 B2) as (_ & T3 & _ & _ & B3). pose proof (sums_length _ 8 L2) as L3.
  unfold uk_bitcount64.
  assert (Hu : forall k m l, 0 <= k -> digits k m l -> k * zlen l = 64 -> u64 (fields k l) = fields k l).
  { intros k m l Hk Hd He. apply wrap_small. rewrite <- He. by apply (fields_range k m). }
  pose proof (swar_step 1 1 32 l0 ltac:(lia) ltac:(lia) Hlen Hb) as S1.
  change (fields (1 + 1) (replicate 32 (2 ^ 1 - 1))) with 0x5555555555555555 in S1.
  change (fields (1 + 1) (replicate 32 (2 ^ 1 * (2 ^ 1 - 1)))) with 0xaaaaaaaaaaaaaaaa in S1.
  rewrite S1, (Hu _ 2) by (try lia; try (split; [done|lia]); unfold zlen; rewrite L1; lia).
  pose proof (swar_step 2 2 16 (sums l0) ltac:(lia) ltac:(lia) L1 B1) as S2.
  change (fields (2 + 2) (replicate 16 (2 ^ 2 - 1))) with 0x3333333333333333 in S2.
  change (fields (2 + 2) (replicate 16 (2 ^ 2 * (2 ^ 2 - 1)))) with 0xcccccccccccccccc in S2.
  change (1 + 1) with 2. rewrite S2, (Hu _ 4) by (try lia; try (split; [done|lia]); unfold zlen; rewrite L2; lia).
  change (2 + 2) with 4. rewrite swar_nibbles by done. rewrite swar_bytes by done. congruence.
Qed.
Lemma bitcount64_equiv_witness : uk_bitcount64 (2 ^ 63 + 2 ^ 40 + 5) = 4 /\ uk_bitcount64 (2 ^ 63 + 2 ^ 40 + 5) = popcount 64 (2 ^ 63 + 2 ^ 40 + 5).
Proof. split; [reflexivity|]. apply bitcount64_equiv. split; vm_compute; congruence. Defined.

(** ** Ranges *)

Section range.
Context (op : Z -> Z -> Z) (c : bool).
(** [op] sets the bits of the mask to [c] and keeps the others. *)
Hypothesis op_ok : forall w m, word_ok w -> word_ok m -> word_ok (op w m).
Hypothesis op_bit : forall w m i, 0 <= i < 64 -> Z.testbit (op w m) i = if Z.testbit m i then c else Z.testbit w i.

Lemma bit_at_head w a j : 0 <= j < 64 -> bit_at (w :: a) j = Z.testbit w j.
Proof. intros Hj. exact (fbit_head id w a j Hj). Qed.
Lemma bit_at_tail w a j : 64 <= j -> bit_at (w :: a) j = bit_at a (j - 64).
Proof. intros Hj. exact (fbit_tail id w a j Hj). Qed.

Lemma bit_at_drop a k j : 0 <= k -> 0 <= j -> bit_at (drop (Z.to_nat k) a) j = bit_at a (64 * k + j).
Proof. intros Hk Hj. exact (fbit_drop id a k j Hk Hj). Qed.

Lemma range_loop_spec map size s nr mask :
  words_ok map -> 0 <= s < 64 -> 0 <= nr -> s + nr <= 64 * zlen map -> word_ok mask ->
  (forall i, 0 <= i < 64 -> Z.testbit mask i = (s <=? i)) ->
  nr = 0 \/ (s + nr) mod 64 = 0 \/ s + nr = size /\ size <= 64 ->
  exists map', range_loop op map size nr (64 - s) mask = Some map' /\ words_ok map' /\ zlen map' = zlen map /\
    forall j, 0 <= j -> bit_at map' j = if (s <=? j) && (j <? s + nr) then c else bit_at map j.
Proof.
  revert s nr mask. induction map as [|w map IH]; intros s nr mask Hok Hs Hnr Hlen Hm Hmask Hcase.
  { unfold zlen in Hlen. simpl in Hlen. assert (nr = 0) as -> by lia. exists []. unfold range_loop.
    rewrite (proj2 (Z.leb_gt 0 (0 - (64 - s)))) by lia. simpl. split_and!; try done.
    intros j ?. destruct (Z.leb_spec s j), (Z.ltb_spec j (s + 0)); try done; lia. }
  rewrite zlen_cons in Hlen. inversion_clear Hok as [|? ? Hw Hok']. cbn [range_loop].
  destruct (Z.leb_spec 0 (nr - (64 - s))) as [Hge|Hlt].
  - destruct (IH 0 (nr - (64 - s)) ULONG_MAX) as (m' & Heq & Hok2 & Hl2 & Hb2); try done; try lia.
    + intros i Hi. unfold ULONG_MAX. rewrite ones_testbit by lia.
      destruct (Z.ltb_spec i 64), (Z.leb_spec 0 i); lia.
    + replace (0 + (nr - (64 - s))) with (s + nr + (-1) * 64) by lia. rewrite Z.mod_add by lia. lia.
    + unfold UK_BITS_PER_LONG. replace (64 - 0) with 64 in Heq by lia. rewrite Heq. simpl mbind.
      eexists. split_and!; [done|constructor; [by apply op_ok|done]|rewrite !zlen_cons; lia|].
      intros j Hj. destruct (Z.lt_ge_cases j 64).
      * rewrite !bit_at_head, op_bit, Hmask by lia. destruct (Z.leb_spec s j), (Z.ltb_spec j (s + nr)); try done; lia.
      * rewrite !bit_at_tail, Hb2 by lia.
        destruct (Z.leb_spec 0 (j - 64)), (Z.ltb_spec (j - 64) (0 + (nr - (64 - s)))), (Z.leb_spec s j),
          (Z.ltb_spec j (s + nr)); try done; lia.
  - destruct (Z.eqb_spec nr 0) as [->|Hn0].
    { eexists. split_and!; [done|by constructor|by rewrite zlen_cons|].
      intros j ?. destruct (Z.leb_spec s j), (Z.ltb_spec j (s + 0)); try done; lia. }
    assert (s + nr = size /\ size <= 64) as [He Hle].
    { destruct Hcase as [|[Hmod|]]; [done| |done]. rewrite Z.mod_small in Hmod; lia. }
    rewrite last_word_mask by lia. simpl mbind. eexists.
    split_and!; [done|constructor; [apply op_ok; [done|by apply land_ok]|done]|by rewrite !zlen_cons|].
    intros j Hj. destruct (Z.lt_ge_cases j 64).
    + rewrite !bit_at_head, op_bit, Z.land_spec, Hmask, ones_testbit by lia. by rewrite He.
    + rewrite !bit_at_tail by lia. destruct (Z.leb_spec s j), (Z.ltb_spec j (s + nr)); try done; lia.
Qed.

(** A range that ends inside a word other than the first: the mask of the last
    word is an undefined shift. *)
Lemma range_loop_undefined map size s nr mask :
  0 <= s < 64 -> 0 < nr -> s + nr <= 64 * zlen map -> 64 < size < 2 ^ 31 -> (s + nr) mod 64 <> 0 ->
  range_loop op map size nr (64 - s) mask = None.
Proof.
  revert s nr mask. induction map as [|w map IH]; intros s nr mask Hs Hnr Hlen Hsize Hmod.
  { unfold zlen in Hlen. simpl in Hlen. lia. }
  rewrite zlen_cons in Hlen. cbn [range_loop].
  destruct (Z.leb_spec 0 (nr - (64 - s))) as [Hge|Hlt].
  - destruct (Z.eq_dec (nr - (64 - s)) 0) as [He|].
    { exfalso. apply Hmod. replace (s + nr) with (1 * 64) by lia. by apply Z.mod_mul. }
    pose proof (IH 0 (nr - (64 - s)) ULONG_MAX) as IH0. unfold UK_BITS_PER_LONG. rewrite Z.sub_0_r in IH0.
    rewrite IH0; [done|lia..|]. replace (0 + (nr - (64 - s))) with (s + nr + (-1) * 64) by lia. by rewrite Z.mod_add by lia.
  - rewrite (proj2 (Z.eqb_neq nr 0)) by lia. unfold UK_BITMAP_LAST_WORD_MASK, shr64, UK_BITS_PER_LONG.
    assert (u32 (64 - size) = 64 - size + 2 ^ 32) as -> by (unfold wrap; symmetry; apply (Z.mod_unique _ _ (-1)); lia).
    destruct (Z.ltb_spec (64 - size + 2 ^ 32) 64); [lia|]. by rewrite andb_false_r.
Qed.

Lemma bitmap_range_spec map start nr :
  words_ok map -> 0 <= start -> 0 <= nr -> start + nr <= 64 * zlen map -> start + nr < 2 ^ 31 ->
  if (nr =? 0) || ((start + nr) mod 64 =? 0) || (start + nr <=? 64) then
    exists map', bitmap_range op map start nr = Some map' /\ words_ok map' /\ zlen map' = zlen map /\
      forall j, 0 <= j -> bit_at map' j = if (start <=? j) && (j <? start + nr) then c else bit_at map j
  else bitmap_range op map start nr = None.
Proof.
  intros Hok H0 Hnr Hlen Hmax. unfold bitmap_range, UK_BIT_WORD, UK_BITS_PER_LONG.
  rewrite (wrap_small 32) by lia. pose proof (Z.div_mod start 64 ltac:(lia)) as Hdm.
  pose proof (Z.mod_pos_bound start 64 ltac:(lia)) as Hs. set (s := start mod 64) in *. set (k := start / 64) in *.
  assert (Hk : 0 <= k) by (apply Z.div_pos; lia). rewrite (proj2 (Z.ltb_ge (zlen map) k)) by lia.
  assert (Hsum : (s + nr) mod 64 = (start + nr) mod 64).
  { replace (start + nr) with (s + nr + k * 64) by lia. by rewrite Z.mod_add by lia. }
  assert (Hdrop : zlen (drop (Z.to_nat k) map) = zlen map - k) by (apply zlen_drop; lia).
  assert (Hmask : forall i, 0 <= i < 64 -> Z.testbit (UK_BITMAP_FIRST_WORD_MASK start) i = (s <=? i)).
  { intros i Hi. unfold UK_BITMAP_FIRST_WORD_MASK, shl64, UK_BITS_PER_LONG. fold s.
    rewrite wrap_testbit, (proj2 (Z.ltb_lt i 64)), Z.shiftl_spec by lia. simpl andb.
    destruct (Z.leb_spec s i); [|by apply Z.testbit_neg_r; lia]. unfold ULONG_MAX. rewrite ones_testbit by lia. lia. }
  destruct (_ || _) eqn:Hcase.
  - destruct (range_loop_spec (drop (Z.to_nat k) map) (start + nr) s nr (UK_BITMAP_FIRST_WORD_MASK start))
      as (m' & -> & Hok' & Hl' & Hb'); try done; try lia.
    + by apply words_ok_drop.
    + apply wrap_range. lia.
    + simpl mbind. eexists. split_and!; [done| | |].
      * apply Forall_app. split; [by apply Forall_take|done].
      * rewrite zlen_app, Hl', Hdrop. unfold zlen. rewrite length_take. unfold zlen in *. lia.
      * intros j Hj. assert (Htl : length (take (Z.to_nat k) map) = Z.to_nat k) by (rewrite length_take; unfold zlen in *; lia).
        destruct (Z.lt_ge_cases j (64 * k)) as [Hlt|Hge].
        -- assert (j / 64 < k) by (apply Z.div_lt_upper_bound; lia). assert (0 <= j / 64) by (apply Z.div_pos; lia).
           unfold bit_at, load. destruct (Z.ltb_spec (j / 64) 0); [lia|].
           rewrite lookup_app_l, lookup_take_lt by lia. destruct (Z.leb_spec start j); [lia|]. done.
        -- assert (bit_at map j = bit_at (drop (Z.to_nat k) map) (j - 64 * k)) as ->
             by (rewrite bit_at_drop by lia; f_equal; lia).
           assert (bit_at (take (Z.to_nat k) map ++ m') j = bit_at m' (j - 64 * k)) as ->.
           { rewrite <- (drop_app_length' (take (Z.to_nat k) map) m' (Z.to_nat k)) at 2 by done.
             rewrite bit_at_drop by lia. f_equal. lia. }
           rewrite Hb' by lia. destruct (Z.leb_spec s (j - 64 * k)), (Z.ltb_spec (j - 64 * k) (s + nr)),
             (Z.leb_spec start j), (Z.ltb_spec j (start + nr)); try done; lia.
  - rewrite !orb_false_iff, !Z.eqb_neq, Z.leb_gt in Hcase. destruct Hcase as [[? ?] ?].
    rewrite range_loop_undefined; [done|lia|lia|lia|lia|]. by rewrite Hsum.
Qed.
End range.
