(* ===== verification/Fmap.v ===== *)
(** * The lock-free descriptor map: lib/posix-fdtab/fmap.h

    Every function is a program over single atomic accesses to the bitmap of free
    indices and the array of entries, so that the accesses of several threads can
    be interleaved.  [run] executes a program alone, [step] is one access of one
    of the threads.  A loop that retries after a lost race has a bound on its
    rounds; a thread that reaches it waits for ever. *)

From stdpp Require Import base option list gmap numbers.
From S2P Require Import Prelude Bitmap.

(** ** Memory and its accesses *)

(** [struct uk_fmap]: the words of the bitmap, ones for free indices, its size in
    bits, and the entries, 0 for NULL. *)
Record uk_fmap : Type := mk_fmap { fm_bitmap : list Z; fm_size : Z; fm_map : list Z }.
Definition set_bitmap (b : list Z) (m : uk_fmap) : uk_fmap := mk_fmap b (fm_size m) (fm_map m).
Definition set_map (l : list Z) (m : uk_fmap) : uk_fmap := mk_fmap (fm_bitmap m) (fm_size m) l.

(** An atomic access: a word or a byte of the bitmap read, [uk_and] and [uk_or] on
    a word, an entry read, [uk_exchange_n] on an entry, [uk_sched_yield]. *)
Inductive fm_access : Type :=
  | LoadWord (i : Z)
  | LoadByte (k : Z)
  | And (i mask : Z)
  | Or (i mask : Z)
  | LoadPtr (i : Z)
  | Exchange (i p : Z)
  | Yield.

Definition perform (a : fm_access) (m : uk_fmap) : option (Z * uk_fmap) :=
  match a with
  | LoadWord i => w ← load (fm_bitmap m) i; Some (w, m)
  | LoadByte k => b ← load8 (fm_bitmap m) k; Some (b, m)
  | And i mask =>
      w ← load (fm_bitmap m) i; b ← store (fm_bitmap m) i (Z.land w mask); Some (w, set_bitmap b m)
  | Or i mask =>
      w ← load (fm_bitmap m) i; b ← store (fm_bitmap m) i (Z.lor w mask); Some (w, set_bitmap b m)
  | LoadPtr i => p ← load (fm_map m) i; Some (p, m)
  | Exchange i p => q ← load (fm_map m) i; l ← store (fm_map m) i p; Some (q, set_map l m)
  | Yield => Some (0, m)
  end.

(** ** Programs *)

Inductive prog (A : Type) : Type :=
  | Ret (a : A)
  | Act (a : fm_access) (k : Z -> prog A)
  | Fail  (** a failed UK_ASSERT or an access outside the bitmap *)
  | Spin. (** the bound on retries is reached *)
Arguments Ret {A}.
Arguments Act {A}.
Arguments Fail {A}.
Arguments Spin {A}.

Fixpoint prog_bind {A B} (f : A -> prog B) (p : prog A) : prog B :=
  match p with
  | Ret a => f a
  | Act a k => Act a (fun z => prog_bind f (k z))
  | Fail => Fail
  | Spin => Spin
  end.
#[global] Instance prog_ret : MRet prog := fun A a => Ret a.
#[global] Instance prog_mbind : MBind prog := fun A B f p => prog_bind f p.
Definition act (a : fm_access) : prog Z := Act a Ret.
Definition uk_assert (b : bool) : prog unit := if b then Ret tt else Fail.

(** A program run alone. *)
Fixpoint run {A} (p : prog A) : M uk_fmap A :=
  match p with
  | Ret a => mret a
  | Act a k => fun m => match perform a m with Some (z, m) => run (k z) m | None => Abort end
  | Fail => abort
  | Spin => out_of_fuel
  end.

(** ** The bitmap *)

Section fmap.
(** The size of the map, and the bound on retries. *)
Context (size : Z) (retries : nat).

Definition INRANGE (i : Z) : bool := (0 <=? i) && (i <? size).

Definition uk_bmap_reserve (idx : Z) : prog Z :=
  if negb (INRANGE idx) then mret (-1)
  else
    let mask := UK_BIT_MASK idx in
    v ← act (And (UK_BIT_WORD idx) (lnot64 mask));
    mret (if Z.land v mask =? 0 then 1 else 0).
Definition uk_bmap_free (idx : Z) : prog Z :=
  if negb (INRANGE idx) then mret (-1)
  else
    let mask := UK_BIT_MASK idx in
    v ← act (Or (UK_BIT_WORD idx) mask);
    mret (if Z.land v mask =? 0 then 0 else 1).
(** [uk_test_bit], on the byte that holds the bit. *)
Definition uk_bmap_isfree (idx : Z) : prog Z :=
  if negb (INRANGE idx) then mret (-1)
  else
    b ← act (LoadByte (Z.shiftr idx 3));
    mret (if Z.land (Z.shiftl 1 (Z.land idx 7)) b =? 0 then 0 else 1).

(** [uk_find_next_bit] on the words as they are read, one after the other. *)
Fixpoint read_words (i : Z) (n : nat) : prog (list Z) :=
  match n with
  | O => mret []
  | S n => w ← act (LoadWord i); ws ← read_words (i + 1) n; mret (w :: ws)
  end.
Definition find_next_bit (min : Z) : prog Z :=
  ws ← read_words 0 (Z.to_nat (UK_BITS_TO_LONGS size));
  match uk_find_next_bit ws size min with Some pos => mret pos | None => Fail end.

Fixpoint request_loop (min : Z) (n : nat) : prog Z :=
  match n with
  | O => Spin
  | S n =>
      pos ← find_next_bit (u64 min);
      if size <=? pos then mret size
      else
        r ← uk_bmap_reserve pos;
        if negb (r =? 0) then request_loop min n else mret pos
  end.
Definition uk_bmap_request (min : Z) : prog Z := request_loop min retries.

(** ** The map *)

Definition uk_fmap_set (idx p : Z) : prog unit :=
  if negb (INRANGE idx) then mret tt
  else
    (if negb (p =? 0) then uk_bmap_reserve idx else uk_bmap_free idx);;
    act (Exchange idx p);; mret tt.

Fixpoint lookup_loop (idx : Z) (n : nat) : prog Z :=
  match n with
  | O => Spin
  | S n =>
      got ← act (LoadPtr idx);
      if negb (got =? 0) then mret got
      else
        f ← uk_bmap_isfree idx;
        if negb (f =? 0) then mret 0
        else act Yield;; lookup_loop idx n
  end.
Definition uk_fmap_lookup (idx : Z) : prog Z :=
  if negb (INRANGE idx) then mret 0 else lookup_loop idx retries.

Definition uk_fmap_put (p min : Z) : prog Z :=
  pos ← uk_bmap_request min;
  if negb (INRANGE pos) then mret pos
  else
    got ← act (Exchange pos p);
    uk_assert (got =? 0);;
    mret pos.

Fixpoint take_loop (idx : Z) (n : nat) : prog Z :=
  match n with
  | O => Spin
  | S n =>
      f ← uk_bmap_isfree idx;
      if negb (f =? 0) then mret 0
      else
        got ← act (Exchange idx 0);
        if got =? 0 then act Yield;; take_loop idx n
        else
          v ← uk_bmap_free idx;
          uk_assert (v =? 0);;
          mret got
  end.
Definition uk_fmap_take (idx : Z) : prog Z :=
  if negb (INRANGE idx) then mret 0 else take_loop idx retries.

Fixpoint critical_take_loop (idx : Z) (n : nat) : prog Z :=
  match n with
  | O => Spin
  | S n =>
      got ← act (Exchange idx 0);
      if negb (got =? 0) then mret got
      else
        f ← uk_bmap_isfree idx;
        if negb (f =? 0) then mret 0
        else act Yield;; critical_take_loop idx n
  end.
Definition uk_fmap_critical_take (idx : Z) : prog Z :=
  if negb (INRANGE idx) then mret 0 else critical_take_loop idx retries.

Definition uk_fmap_critical_put (idx p : Z) : prog Z :=
  if negb (INRANGE idx) then mret (-1)
  else
    uk_bmap_reserve idx;;
    got ← act (Exchange idx p);
    uk_assert (got =? 0);;
    mret 0.

(** The return value, and what [*prev] is set to. *)
Fixpoint xchg_loop (idx p : Z) (n : nat) : prog (Z * option Z) :=
  match n with
  | O => Spin
  | S n =>
      r ← uk_bmap_reserve idx;
      if negb (r =? 0) then
        got ← uk_fmap_critical_take idx;
        if negb (got =? 0) then uk_fmap_critical_put idx p;; mret (0, Some got)
        else act Yield;; xchg_loop idx p n
      else
        got ← act (Exchange idx p);
        uk_assert (got =? 0);;
        mret (0, None)
  end.
Definition uk_fmap_xchg (idx p : Z) : prog (Z * option Z) :=
  uk_assert (negb (p =? 0));;
  if negb (INRANGE idx) then mret (-1, None) else xchg_loop idx p retries.
End fmap.

(** [uk_fmap_init]: called before there are other threads. *)
Definition uk_fmap_init (m : uk_fmap) : option uk_fmap :=
  b ← uk_bitmap_fill (fm_bitmap m) (fm_size m);
  Some (mk_fmap b (fm_size m) (replicate (Z.to_nat (fm_size m)) 0)).

(** * Proofs *)

(** ** Single accesses *)

Definition bm_ok (size : Z) (m : uk_fmap) : Prop :=
  fm_size m = size /\ words_ok (fm_bitmap m) /\ size <= 64 * zlen (fm_bitmap m) /\ zlen (fm_map m) = size.

Section access.
Context (size : Z).
#[local] Abbreviation free m := (bit_at (fm_bitmap m)).
#[local] Abbreviation entry m := (load (fm_map m)).

Lemma bit_mask_spec i : 0 <= i -> UK_BIT_MASK i = Z.shiftl 1 (i mod 64) /\ word_ok (UK_BIT_MASK i).
Proof.
  intros Hi. unfold UK_BIT_MASK. rewrite land63. pose proof (Z.mod_pos_bound i 64 ltac:(lia)).
  split; [|apply wrap_range; lia]. apply wrap_small. rewrite Z.shiftl_1_l.
  split; [apply Z.pow_nonneg; lia|]. apply Z.pow_lt_mono_r; lia.
Qed.

Lemma mask_test w i : 0 <= i -> (Z.land w (UK_BIT_MASK i) =? 0) = negb (Z.testbit w (i mod 64)).
Proof.
  intros Hi. destruct (bit_mask_spec i Hi) as [-> _]. rewrite <- land_bit by (apply Z.mod_pos_bound; lia).
  by rewrite negb_involutive.
Qed.

Lemma same_word i j : i / 64 = j / 64 -> i mod 64 = j mod 64 -> i = j.
Proof. intros. rewrite (Z.div_mod i 64), (Z.div_mod j 64) by lia. congruence. Qed.

(** An update of the word of index [i] that changes its bit only. *)
Lemma word_update m i (f : Z -> Z) c :
  bm_ok size m -> 0 <= i < size ->
  (forall w, word_ok w -> word_ok (f w)) ->
  (forall w j, 0 <= j < 64 -> Z.testbit (f w) j = if j =? i mod 64 then c else Z.testbit w j) ->
  exists w b, load (fm_bitmap m) (UK_BIT_WORD i) = Some w /\ Z.testbit w (i mod 64) = free m i /\
    store (fm_bitmap m) (UK_BIT_WORD i) (f w) = Some b /\ bm_ok size (set_bitmap b m) /\
    forall j, 0 <= j -> bit_at b j = if j =? i then c else free m j.
Proof.
  intros (Hs & Hw & Hb & Hm) Hi Hf Hbit. unfold UK_BIT_WORD, UK_BITS_PER_LONG.
  assert (Hk : 0 <= i / 64 < zlen (fm_bitmap m)) by (split; [apply Z.div_pos|apply Z.div_lt_upper_bound]; lia).
  destruct (load_Some _ _ Hk) as [w Hl]. pose proof (load_ok _ _ _ Hw Hl) as Hwok.
  destruct (store_Some _ _ (f w) Hk (Hf _ Hwok) Hw) as (b & Hst & Hok & Hlen & Hbits).
  exists w, b. split_and!; try done.
  - unfold bit_at. by rewrite Hl.
  - unfold bm_ok. simpl. split_and!; try done; lia.
  - intros j Hj. rewrite Hbits. pose proof (Z.mod_pos_bound j 64 ltac:(lia)).
    destruct (Z.eqb_spec (j / 64) (i / 64)) as [E|N].
    + rewrite Hbit by lia. destruct (Z.eqb_spec (j mod 64) (i mod 64)) as [E2|N2], (Z.eqb_spec j i) as [->|N3]; try done.
      * exfalso. by apply N3, same_word.
      * unfold bit_at. by rewrite E, Hl.
    + destruct (Z.eqb_spec j i) as [->|]; done.
Qed.

Lemma perform_and m i :
  bm_ok size m -> 0 <= i < size ->
  exists w b, perform (And (UK_BIT_WORD i) (lnot64 (UK_BIT_MASK i))) m = Some (w, set_bitmap b m) /\
    (Z.land w (UK_BIT_MASK i) =? 0) = negb (free m i) /\ bm_ok size (set_bitmap b m) /\
    forall j, 0 <= j -> bit_at b j = if j =? i then false else free m j.
Proof.
  intros Hm Hi. destruct (bit_mask_spec i ltac:(lia)) as [He _].
  destruct (word_update m i (fun w => Z.land w (lnot64 (UK_BIT_MASK i))) false Hm Hi) as (w & b & Hl & Ht & Hst & Hok & Hb).
  - intros. by apply land_ok.
  - intros w j Hj. rewrite Z.land_spec, lnot64_testbit, He, shl1_testbit by (try apply Z.mod_pos_bound; lia).
    destruct (j =? i mod 64); [apply andb_false_r|apply andb_true_r].
  - exists w, b. unfold perform. rewrite Hl. simpl mbind. rewrite Hst. split_and!; try done.
    by rewrite mask_test, Ht by lia.
Qed.

Lemma perform_or m i :
  bm_ok size m -> 0 <= i < size ->
  exists w b, perform (Or (UK_BIT_WORD i) (UK_BIT_MASK i)) m = Some (w, set_bitmap b m) /\
    (Z.land w (UK_BIT_MASK i) =? 0) = negb (free m i) /\ bm_ok size (set_bitmap b m) /\
    forall j, 0 <= j -> bit_at b j = if j =? i then true else free m j.
Proof.
  intros Hm Hi. destruct (bit_mask_spec i ltac:(lia)) as [He Hmok].
  destruct (word_update m i (fun w => Z.lor w (UK_BIT_MASK i)) true Hm Hi) as (w & b & Hl & Ht & Hst & Hok & Hb).
  - intros. by apply lor_ok.
  - intros w j Hj. rewrite Z.lor_spec, He, shl1_testbit by (try apply Z.mod_pos_bound; lia).
    destruct (j =? i mod 64); [apply orb_true_r|apply orb_false_r].
  - exists w, b. unfold perform. rewrite Hl. simpl mbind. rewrite Hst. split_and!; try done.
    by rewrite mask_test, Ht by lia.
Qed.

Lemma perform_isfree m i :
  bm_ok size m -> 0 <= i < size ->
  exists b, perform (LoadByte (Z.shiftr i 3)) m = Some (b, m) /\
    (Z.land (Z.shiftl 1 (Z.land i 7)) b =? 0) = negb (free m i).
Proof.
  intros (Hs & Hw & Hb & Hm) Hi. pose proof (test_bit_spec (fm_bitmap m) i ltac:(lia)) as Ht.
  unfold uk_test_bit in Ht. unfold perform. destruct (load8 _ _) as [b|]; [|done]. simpl in Ht |- *.
  exists b. split; [done|]. injection Ht as Ht. by rewrite <- Ht, negb_involutive.
Qed.

Lemma perform_ptr m i :
  bm_ok size m -> 0 <= i < size -> exists p, entry m i = Some p /\ perform (LoadPtr i) m = Some (p, m).
Proof.
  intros (_ & _ & _ & Hm) Hi. destruct (load_Some (fm_map m) i ltac:(lia)) as [p Hp]. exists p.
  split; [done|]. unfold perform. by rewrite Hp.
Qed.

Lemma perform_exchange m i p :
  bm_ok size m -> 0 <= i < size ->
  exists q l, entry m i = Some q /\ perform (Exchange i p) m = Some (q, set_map l m) /\ bm_ok size (set_map l m) /\
    forall j, load l j = if j =? i then Some p else entry m j.
Proof.
  intros (Hs & Hw & Hb & Hm) Hi. destruct (load_Some (fm_map m) i ltac:(lia)) as [q Hq].
  assert (Hst : store (fm_map m) i p = Some (<[Z.to_nat i := p]> (fm_map m))) by (unfold store; by rewrite Hq).
  exists q. eexists. split_and!; [done|unfold perform; rewrite Hq; simpl mbind; by rewrite Hst| |].
  - unfold bm_ok. simpl. split_and!; try done. unfold zlen. rewrite length_insert. apply Hm.
  - intros j. apply (lookup_store _ _ _ _ _ Hst).
Qed.
End access.

(** ** A map used by one thread at a time *)

(** The state of one index: free, or used with its entry. *)
Definition slot (f : bool) (e a : option Z) : Prop :=
  match a with
  | None => f = true /\ e = Some 0
  | Some p => f = false /\ e = Some p /\ p <> 0
  end.
(** The map stands for the finite map [A] from indices to entries. *)
Record represents (size : Z) (m : uk_fmap) (A : gmap Z Z) : Prop := {
  rep_ok : bm_ok size m;
  rep_slot i : 0 <= i < size -> slot (bit_at (fm_bitmap m) i) (load (fm_map m) i) (A !! i);
  rep_dom i p : A !! i = Some p -> 0 <= i < size
}.

Lemma run_bind {A B} (p : prog A) (f : A -> prog B) m Q :
  wp (run p) (fun a => wp (run (f a)) Q) m -> wp (run (p ≫= f)) Q m.
Proof.
  revert m. induction p as [a|a k IH| |]; intros m Hp; [done| |done|done].
  unfold wp in *. simpl in *. destruct (perform a m) as [[z m']|]; [|done]. by apply IH.
Qed.
Lemma run_ret {A} (a : A) m (Q : A -> uk_fmap -> Prop) : Q a m -> wp (run (mret a)) Q m.
Proof. done. Qed.
Lemma run_act a m z m' (Q : Z -> uk_fmap -> Prop) : perform a m = Some (z, m') -> Q z m' -> wp (run (act a)) Q m.
Proof. intros Hp Hq. unfold wp. simpl. by rewrite Hp. Qed.
Lemma run_assert b m (Q : unit -> uk_fmap -> Prop) : b = true -> Q tt m -> wp (run (uk_assert b)) Q m.
Proof. by intros ->. Qed.

Section sequential.
Context (size : Z) (retries : nat) (Hsize : 0 <= size < 2 ^ 31).

Lemma inrange i : 0 <= i < size -> INRANGE size i = true.
Proof. intros. unfold INRANGE. lia. Qed.
Lemma not_inrange i : ~ 0 <= i < size -> INRANGE size i = false.
Proof. intros. unfold INRANGE. lia. Qed.

Lemma rep_set_map m A i p l :
  represents size m A -> 0 <= i < size -> bm_ok size (set_map l m) ->
  (forall j, load l j = if j =? i then Some p else load (fm_map m) j) ->
  bit_at (fm_bitmap m) i = false -> p <> 0 -> represents size (set_map l m) (<[i:=p]> A).
Proof.
  intros [_ Hs Hd] Hi Hok Hl Hb Hp. split; [done| |].
  - intros j Hj. simpl. rewrite Hl. destruct (Z.eqb_spec j i) as [->|].
    + by rewrite lookup_insert_eq.
    + rewrite lookup_insert_ne by done. by apply Hs.
  - intros j q. destruct (Z.eq_dec i j) as [->|]; [done|]. rewrite lookup_insert_ne by done. apply Hd.
Qed.

Lemma reserve_run m i (Q : Z -> uk_fmap -> Prop) :
  bm_ok size m -> 0 <= i < size ->
  (forall b, bm_ok size (set_bitmap b m) ->
    (forall j, 0 <= j -> bit_at b j = if j =? i then false else bit_at (fm_bitmap m) j) ->
    Q (if bit_at (fm_bitmap m) i then 0 else 1) (set_bitmap b m)) ->
  wp (run (uk_bmap_reserve size i)) Q m.
Proof.
  intros Hm Hi HQ. unfold uk_bmap_reserve. rewrite inrange by done. simpl negb. cbv iota.
  destruct (perform_and size m i Hm Hi) as (w & b & Hp & Ht & Hok & Hb).
  apply run_bind. eapply run_act; [done|]. apply run_ret. rewrite Ht.
  specialize (HQ b Hok Hb). by destruct (bit_at _ i).
Qed.
Lemma free_run m i (Q : Z -> uk_fmap -> Prop) :
  bm_ok size m -> 0 <= i < size ->
  (forall b, bm_ok size (set_bitmap b m) ->
    (forall j, 0 <= j -> bit_at b j = if j =? i then true else bit_at (fm_bitmap m) j) ->
    Q (if bit_at (fm_bitmap m) i then 1 else 0) (set_bitmap b m)) ->
  wp (run (uk_bmap_free size i)) Q m.
Proof.
  intros Hm Hi HQ. unfold uk_bmap_free. rewrite inrange by done. simpl negb. cbv iota.
  destruct (perform_or size m i Hm Hi) as (w & b & Hp & Ht & Hok & Hb).
  apply run_bind. eapply run_act; [done|]. apply run_ret. rewrite Ht.
  specialize (HQ b Hok Hb). by destruct (bit_at _ i).
Qed.
Lemma isfree_run m i (Q : Z -> uk_fmap -> Prop) :
  bm_ok size m -> 0 <= i < size -> Q (if bit_at (fm_bitmap m) i then 1 else 0) m ->
  wp (run (uk_bmap_isfree size i)) Q m.
Proof.
  intros Hm Hi HQ. unfold uk_bmap_isfree. rewrite inrange by done. simpl negb. cbv iota.
  destruct (perform_isfree size m i Hm Hi) as (b & Hp & Ht).
  apply run_bind. eapply run_act; [done|]. apply run_ret. rewrite Ht. by destruct (bit_at _ i).
Qed.

Lemma read_words_run m i n (Q : list Z -> uk_fmap -> Prop) :
  0 <= i -> i + Z.of_nat n <= zlen (fm_bitmap m) ->
  Q (take n (drop (Z.to_nat i) (fm_bitmap m))) m -> wp (run (read_words i n)) Q m.
Proof.
  revert i Q. induction n as [|n IH]; intros i Q Hi Hn HQ; [done|].
  destruct (load_Some (fm_bitmap m) i ltac:(lia)) as [w Hw]. cbn [read_words].
  apply run_bind. eapply run_act; [unfold perform; by rewrite Hw|]. apply run_bind. apply IH; [lia|lia|].
  apply run_ret. unfold load in Hw. rewrite (proj2 (Z.ltb_ge i 0)) in Hw by lia.
  rewrite (drop_S _ _ _ Hw) in HQ. simpl in HQ. by replace (Z.to_nat (i + 1)) with (S (Z.to_nat i)) by lia.
Qed.

Lemma bits_to_longs m : bm_ok size m -> 0 <= UK_BITS_TO_LONGS size <= zlen (fm_bitmap m) /\ size <= 64 * UK_BITS_TO_LONGS size.
Proof.
  intros (_ & _ & Hb & _). unfold UK_BITS_TO_LONGS, UK_BITS_PER_LONG.
  pose proof (Z.div_mod (size + (64 - 1)) 64 ltac:(lia)). pose proof (Z.mod_pos_bound (size + (64 - 1)) 64 ltac:(lia)). lia.
Qed.

(** The search for a free index. *)
Lemma find_next_run m min (Q : Z -> uk_fmap -> Prop) :
  bm_ok size m -> 0 <= min ->
  (forall r, Z.min r size = linear_scan (bit_at (fm_bitmap m)) size min -> Q r m) ->
  wp (run (find_next_bit size min)) Q m.
Proof.
  intros Hm Hmin HQ. destruct (bits_to_longs m Hm) as [Hn Hle]. destruct Hm as (_ & Hw & _ & _).
  unfold find_next_bit. apply run_bind. apply read_words_run; [lia|lia|]. rewrite drop_0.
  set (ws := take (Z.to_nat (UK_BITS_TO_LONGS size)) (fm_bitmap m)).
  assert (Hwl : zlen ws = UK_BITS_TO_LONGS size) by (unfold ws, zlen in *; rewrite length_take; lia).
  assert (Hwok : words_ok ws) by by apply Forall_take.
  assert (Hbit : forall j, 0 <= j < size -> bit_at ws j = bit_at (fm_bitmap m) j).
  { intros j Hj. unfold bit_at, load. destruct (Z.ltb_spec (j / 64) 0); [done|].
    assert (j / 64 < UK_BITS_TO_LONGS size) by (apply Z.div_lt_upper_bound; lia).
    unfold ws. by rewrite lookup_take_lt by lia. }
  destruct (Z.lt_ge_cases min size) as [Hlt|Hge].
  - destruct (scan_from_spec id ws size min) as (r & Hr & Hnext); [done|done|lia|lia|].
    unfold uk_find_next_bit. rewrite Hr. apply run_ret, HQ. apply next_linear; [done|].
    eapply next_ext, Hnext. intros j Hj. apply Hbit. lia.
  - unfold uk_find_next_bit, scan_from. rewrite (proj2 (Z.leb_le size min)) by lia. apply run_ret, HQ.
    unfold linear_scan. rewrite (proj2 (Z.leb_le size min)) by lia. lia.
Qed.

(** The lowest unused index from [min] on; the size if there is none. *)
Definition lowest_free {V} (A : gmap Z V) (min : Z) : Z :=
  linear_scan (fun i => bool_decide (A !! i = None)) size min.

Lemma linear_scan_ext P Q min :
  (forall i, min <= i < size -> P i = Q i) -> linear_scan P size min = linear_scan Q size min.
Proof.
  intros He. unfold linear_scan. destruct (Z.leb_spec size min); [done|].
  assert (Hn : min + Z.of_nat (Z.to_nat (size - min)) <= size) by lia. revert Hn.
  generalize (Z.to_nat (size - min)) as n. intros n Hn.
  assert (forall n i, min <= i -> i + Z.of_nat n <= size -> first_from P i n = first_from Q i n) as Hind; [|by apply Hind; lia].
  clear n Hn. induction n as [|n IH]; intros i Hi Hn; [done|]. simpl. rewrite He by lia.
  destruct (Q i); [done|]. apply IH; lia.
Qed.

Lemma lowest_free_fmap {V W} (f : V -> W) A min : lowest_free (f <$> A) min = lowest_free A min.
Proof.
  apply linear_scan_ext. intros i _. rewrite lookup_fmap. by destruct (A !! i).
Qed.
Lemma rep_free m A i : represents size m A -> 0 <= i < size -> bit_at (fm_bitmap m) i = bool_decide (A !! i = None).
Proof.
  intros [_ Hs _] Hi. specialize (Hs i Hi). unfold slot in Hs. destruct (A !! i); destruct Hs as [-> _]; done.
Qed.

Lemma lowest_free_spec {V} (A : gmap Z V) min :
  0 <= min -> let i := lowest_free A min in i <= size /\ (i < size -> min <= i /\ A !! i = None).
Proof.
  intros Hmin i. unfold i, lowest_free, linear_scan. destruct (Z.leb_spec size min); [lia|].
  destruct (first_from_spec (fun i => bool_decide (A !! i = None)) min (Z.to_nat (size - min))) as [(H1 & H2 & H3) H4].
  replace (min + Z.of_nat (Z.to_nat (size - min))) with size in * by lia. split; [lia|].
  intros Hlt. split; [done|]. specialize (H3 Hlt). by apply bool_decide_eq_true in H3.
Qed.

(** Reserving a free index or one in use, and freeing one. *)
Lemma rep_reserve m A i b :
  represents size m A -> 0 <= i < size -> bm_ok size (set_bitmap b m) ->
  (forall j, 0 <= j -> bit_at b j = if j =? i then false else bit_at (fm_bitmap m) j) ->
  is_Some (A !! i) -> represents size (set_bitmap b m) A.
Proof.
  intros [_ Hs Hd] Hi Hok Hb [p Hp]. split; [done| |done]. intros j Hj. simpl. rewrite Hb by lia.
  destruct (Z.eqb_spec j i) as [->|]; [|by apply Hs]. specialize (Hs i Hi). rewrite Hp in *. by destruct Hs.
Qed.

(** Writing an entry to an index whose bit was free. *)
Lemma rep_put m A i p b l :
  represents size m A -> 0 <= i < size -> p <> 0 -> bm_ok size (set_map l (set_bitmap b m)) ->
  (forall j, 0 <= j -> bit_at b j = if j =? i then false else bit_at (fm_bitmap m) j) ->
  (forall j, load l j = if j =? i then Some p else load (fm_map m) j) ->
  represents size (set_map l (set_bitmap b m)) (<[i:=p]> A).
Proof.
  intros [_ Hs Hd] Hi Hp Hok Hb Hl. split; [done| |].
  - intros j Hj. simpl. rewrite Hb, Hl by lia. destruct (Z.eqb_spec j i) as [->|].
    + by rewrite lookup_insert_eq.
    + rewrite lookup_insert_ne by done. by apply Hs.
  - intros j q. destruct (Z.eq_dec i j) as [->|]; [done|]. rewrite lookup_insert_ne by done. apply Hd.
Qed.
Lemma rep_take m A i b l :
  represents size m A -> 0 <= i < size -> bm_ok size (set_bitmap b (set_map l m)) ->
  (forall j, 0 <= j -> bit_at b j = if j =? i then true else bit_at (fm_bitmap m) j) ->
  (forall j, load l j = if j =? i then Some 0 else load (fm_map m) j) ->
  represents size (set_bitmap b (set_map l m)) (delete i A).
Proof.
  intros [_ Hs Hd] Hi Hok Hb Hl. split; [done| |].
  - intros j Hj. simpl. rewrite Hb, Hl by lia. destruct (Z.eqb_spec j i) as [->|].
    + by rewrite lookup_delete_eq.
    + rewrite lookup_delete_ne by done. by apply Hs.
  - intros j q Hq. apply lookup_delete_Some in Hq as [_ Hq]. by eapply Hd.
Qed.

Context (Hretries : (0 < retries)%nat).

Lemma retries_S : exists n, retries = S n.
Proof. exists (pred retries). lia. Qed.

Lemma lookup_run m A i :
  represents size m A ->
  wp (run (uk_fmap_lookup size retries i)) (fun r m' => r = default 0 (A !! i) /\ m' = m) m.
Proof.
  intros Hr. unfold uk_fmap_lookup. destruct (decide (0 <= i < size)) as [Hi|Hi].
  - rewrite inrange by done. cbn [negb]. destruct retries_S as [n HS]. rewrite HS. cbn [lookup_loop].
    destruct (perform_ptr size m i (rep_ok _ _ _ Hr) Hi) as (p & He & Hp).
    apply run_bind. eapply run_act; [done|].
    pose proof (rep_slot _ _ _ Hr i Hi) as Hs. rewrite He in Hs. unfold slot in Hs.
    destruct (A !! i) as [q|] eqn:HA; simpl default.
    + destruct Hs as (_ & [= ->] & Hn). rewrite (proj2 (Z.eqb_neq q 0)) by done. by apply run_ret.
    + destruct Hs as (Hf & [= ->]). cbn [negb Z.eqb]. apply run_bind. apply isfree_run; [apply Hr|done|]. rewrite Hf. cbn [negb Z.eqb].
      by apply run_ret.
  - rewrite not_inrange by done. cbn [negb Z.eqb]. apply run_ret. split; [|done].
    destruct (A !! i) as [p|] eqn:HA; [|done]. destruct Hi. by eapply rep_dom.
Qed.

Lemma put_run m A p min :
  represents size m A -> p <> 0 ->
  wp (run (uk_fmap_put size retries p min)) (fun i m' => i = lowest_free A (u64 min) /\
    represents size m' (if i <? size then <[i:=p]> A else A)) m.
Proof.
  intros Hr Hp. assert (0 <= u64 min) as Hmin by (unfold u64, wrap; apply Z.mod_pos_bound; lia). pose proof (rep_ok _ _ _ Hr) as Hok. unfold uk_fmap_put, uk_bmap_request.
  destruct retries_S as [n HS]. rewrite HS. cbn [request_loop]. set (min' := u64 min) in *.
  apply run_bind, run_bind. apply find_next_run; [done|lia|]. intros r Hscan.
  assert (Z.min r size = lowest_free A min') as Hlow.
  { rewrite Hscan. apply linear_scan_ext. intros j Hj. apply rep_free; [done|lia]. }
  destruct (lowest_free_spec A min' ltac:(lia)) as [Hle Hfree]. set (i := lowest_free A min') in *.
  destruct (Z.leb_spec size r).
  - apply run_ret. rewrite not_inrange by lia. cbn [negb Z.eqb]. apply run_ret. split; [lia|].
    by rewrite (proj2 (Z.ltb_ge size size)) by lia.
  - assert (r = i) as -> by lia. destruct Hfree as [Hmi HA]; [lia|].
    apply run_bind. apply reserve_run; [done|lia|]. intros b Hokb Hb.
    rewrite (rep_free m A i) by (done || lia). rewrite bool_decide_true by done. cbn [negb Z.eqb]. apply run_ret.
    rewrite inrange by lia. cbn [negb].
    destruct (perform_exchange size (set_bitmap b m) i p Hokb ltac:(lia)) as (q & l & Hq & Hx & Hokl & Hl).
    apply run_bind. eapply run_act; [done|].
    pose proof (rep_slot _ _ _ Hr i ltac:(lia)) as Hs. rewrite HA in Hs. destruct Hs as [_ Hz]. simpl in Hq.
    rewrite Hz in Hq. injection Hq as <-. apply run_bind. apply run_assert; [done|]. apply run_ret.
    split; [done|]. rewrite (proj2 (Z.ltb_lt i size)) by lia. apply rep_put; try done; lia.
Qed.

Lemma take_run m A i :
  represents size m A ->
  wp (run (uk_fmap_take size retries i)) (fun r m' => r = default 0 (A !! i) /\ represents size m' (delete i A)) m.
Proof.
  intros Hr. pose proof (rep_ok _ _ _ Hr) as Hok. unfold uk_fmap_take. destruct (decide (0 <= i < size)) as [Hi|Hi].
  - rewrite inrange by done. cbn [negb]. destruct retries_S as [n HS]. rewrite HS. cbn [take_loop].
    apply run_bind. apply isfree_run; [done|done|]. rewrite (rep_free m A i) by done.
    pose proof (rep_slot _ _ _ Hr i Hi) as Hs. destruct (A !! i) as [p|] eqn:HA; simpl default.
    + rewrite bool_decide_false by done. cbn [negb Z.eqb]. destruct Hs as (Hf & He & Hn).
      destruct (perform_exchange size m i 0 Hok Hi) as (q & l & Hq & Hx & Hokl & Hl).
      rewrite He in Hq. injection Hq as <-. apply run_bind. eapply run_act; [done|].
      rewrite (proj2 (Z.eqb_neq p 0)) by done. apply run_bind. apply free_run; [done|done|].
      intros b Hokb Hb. cbn [set_map fm_bitmap] in Hb |- *. rewrite Hf. apply run_bind. apply run_assert; [done|]. apply run_ret.
      split; [done|]. by apply rep_take.
    + rewrite bool_decide_true by done. cbn [negb Z.eqb]. apply run_ret. split; [done|]. by rewrite delete_id.
  - rewrite not_inrange by done. cbn [negb Z.eqb]. apply run_ret.
    destruct (A !! i) as [p|] eqn:HA; [destruct Hi; by eapply rep_dom|]. split; [done|]. by rewrite delete_id.
Qed.

(** The map while the entry of index [i] is taken out by [uk_fmap_critical_take]. *)
Definition locked (m : uk_fmap) (A : gmap Z Z) (i : Z) : Prop :=
  bm_ok size m /\ 0 <= i < size /\ bit_at (fm_bitmap m) i = false /\ load (fm_map m) i = Some 0 /\
  (forall j, 0 <= j < size -> j <> i -> slot (bit_at (fm_bitmap m) j) (load (fm_map m) j) (A !! j)) /\
  (forall j p, A !! j = Some p -> 0 <= j < size).

Lemma critical_take_loop_run m A i n :
  represents size m A -> 0 <= i < size ->
  wp (run (critical_take_loop size i (S n))) (fun r m' => r = default 0 (A !! i) /\
    (if A !! i is Some _ then locked m' A i else represents size m' A)) m.
Proof.
  intros Hr Hi. pose proof (rep_ok _ _ _ Hr) as Hok. cbn [critical_take_loop].
  destruct (perform_exchange size m i 0 Hok Hi) as (q & l & Hq & Hx & Hokl & Hl).
  pose proof (rep_slot _ _ _ Hr i Hi) as Hs. rewrite Hq in Hs. apply run_bind. eapply run_act; [done|].
  destruct (A !! i) as [p|] eqn:HA; simpl default.
  - destruct Hs as (Hf & [= ->] & Hn). rewrite (proj2 (Z.eqb_neq p 0)) by done. cbn [negb]. apply run_ret.
    split; [done|]. unfold locked. cbn [set_map fm_bitmap fm_map]. rewrite Hl, Z.eqb_refl.
    split_and!; try done; try lia.
    + intros j Hj Hne. rewrite Hl, (proj2 (Z.eqb_neq j i)) by done. by apply Hr.
    + apply Hr.
  - destruct Hs as (Hf & [= ->]). cbn [negb Z.eqb]. apply run_bind. apply isfree_run; [done|done|].
    cbn [set_map fm_bitmap]. rewrite Hf. cbn [negb Z.eqb]. apply run_ret. split; [done|].
    split; [done| |apply Hr]. intros j Hj. cbn [set_map fm_bitmap fm_map]. rewrite Hl.
    destruct (Z.eqb_spec j i) as [->|]; [by rewrite Hf, HA|by apply Hr].
Qed.

Lemma critical_take_run m A i :
  represents size m A ->
  wp (run (uk_fmap_critical_take size retries i)) (fun r m' => r = default 0 (A !! i) /\
    (if A !! i is Some _ then locked m' A i else represents size m' A)) m.
Proof.
  intros Hr. unfold uk_fmap_critical_take. destruct (decide (0 <= i < size)) as [Hi|Hi].
  - rewrite inrange by done. cbn [negb]. destruct retries_S as [n HS]. rewrite HS. by apply critical_take_loop_run.
  - rewrite not_inrange by done. cbn [negb]. apply run_ret.
    destruct (A !! i) as [p|] eqn:HA; [destruct Hi; by eapply rep_dom|done].
Qed.

Lemma critical_put_run m A i p :
  locked m A i -> p <> 0 ->
  wp (run (uk_fmap_critical_put size i p)) (fun r m' => r = 0 /\ represents size m' (<[i:=p]> A)) m.
Proof.
  intros (Hok & Hi & Hf & He & Hs & Hd) Hp. unfold uk_fmap_critical_put. rewrite inrange by done. cbn [negb].
  apply run_bind. apply reserve_run; [done|done|]. intros b Hokb Hb.
  destruct (perform_exchange size (set_bitmap b m) i p Hokb Hi) as (q & l & Hq & Hx & Hokl & Hl).
  apply run_bind. eapply run_act; [done|]. cbn [set_bitmap fm_map] in Hq. rewrite He in Hq. injection Hq as <-.
  apply run_bind. apply run_assert; [done|]. apply run_ret. split; [done|]. split; [done| |].
  - intros j Hj. cbn [set_map set_bitmap fm_bitmap fm_map]. rewrite Hb, Hl by lia. cbn [set_bitmap fm_map].
    destruct (Z.eqb_spec j i) as [->|]; [by rewrite lookup_insert_eq|]. rewrite lookup_insert_ne by done. by apply Hs.
  - intros j q. destruct (Z.eq_dec i j) as [->|]; [done|]. rewrite lookup_insert_ne by done. apply Hd.
Qed.

Lemma xchg_run m A i p :
  represents size m A -> p <> 0 -> 0 <= i < size ->
  wp (run (uk_fmap_xchg size retries i p)) (fun r m' => r = (0, A !! i) /\ represents size m' (<[i:=p]> A)) m.
Proof.
  intros Hr Hp Hi. pose proof (rep_ok _ _ _ Hr) as Hok. unfold uk_fmap_xchg.
  rewrite (proj2 (Z.eqb_neq p 0)) by done. apply run_bind. apply run_assert; [done|].
  rewrite inrange by done. cbn [negb]. destruct retries_S as [n HS]. rewrite HS. cbn [xchg_loop].
  apply run_bind. apply reserve_run; [done|done|]. intros b Hokb Hb. rewrite (rep_free m A i) by done.
  destruct (A !! i) as [q|] eqn:HA.
  - rewrite bool_decide_false by done. cbn [negb Z.eqb]. rewrite <- HS. apply run_bind.
    eapply wp_mono; [|apply critical_take_run, (rep_reserve m A i b); done].
    intros r m1 [-> Hl]. rewrite HA in *. simpl default.
    pose proof (rep_slot _ _ _ Hr i Hi) as Hs. rewrite HA in Hs. destruct Hs as (_ & _ & Hq).
    rewrite (proj2 (Z.eqb_neq q 0)) by done. cbn [negb]. apply run_bind.
    eapply wp_mono; [|by apply critical_put_run]. intros r m2 [_ Hm2]. apply run_ret. done.
  - rewrite bool_decide_true by done. cbn [negb Z.eqb].
    destruct (perform_exchange size (set_bitmap b m) i p Hokb Hi) as (q & l & Hq & Hx & Hokl & Hl).
    apply run_bind. eapply run_act; [done|]. pose proof (rep_slot _ _ _ Hr i Hi) as Hs. rewrite HA in Hs.
    destruct Hs as [_ Hz]. cbn [set_bitmap fm_map] in Hq. rewrite Hz in Hq. injection Hq as <-.
    apply run_bind. apply run_assert; [done|]. apply run_ret. split; [done|]. by apply rep_put.
Qed.
End sequential.

Lemma init_represents m size :
  0 <= size -> words_ok (fm_bitmap m) -> fm_size m = size -> size <= 64 * zlen (fm_bitmap m) ->
  exists m', uk_fmap_init m = Some m' /\ represents size m' ∅.
Proof.
  intros H0 Hw Hs Hb. destruct (bitmap_fill_spec (fm_bitmap m) size Hw ltac:(lia)) as (b & Hf & Hok & Hl & Hbit).
  unfold uk_fmap_init. rewrite Hs, Hf. simpl. eexists. split; [done|]. split.
  - unfold bm_ok. simpl. split_and!; try done; [lia|]. unfold zlen. rewrite length_replicate. lia.
  - intros i Hi. simpl. rewrite lookup_empty, Hbit by lia. split; [done|].
    unfold load. rewrite (proj2 (Z.ltb_ge i 0)) by lia. apply lookup_replicate_2. lia.
  - intros i p. by rewrite lookup_empty.
Qed.
