(* ===== verification/FmapThreads.v ===== *)
(** * The descriptor map under concurrent threads

    Any number of threads call the functions of [Fmap]; their atomic accesses are
    interleaved arbitrarily.  The main result is linearizability: every execution
    can be explained by an order of the calls, each taking effect at one moment
    between its invocation and its return, that is a run of a finite map with
    locks.  In particular no assertion of fmap.h fails, an entry is handed out by
    at most one take, and an entry under [uk_fmap_critical_take] stays in place. *)

From stdpp Require Import base option list gmap sets numbers.
From S2P Require Import Prelude Bitmap Fmap.

(** ** Threads *)

Definition tid : Type := nat.
Inductive fm_op : Type :=
  | OLookup (i : Z)
  | OPut (p min : Z)
  | OTake (i : Z)
  | OCriticalTake (i : Z)
  | OCriticalPut (i p : Z)
  | OXchg (i p : Z).
(** The return value, and the previous entry in the case of [uk_fmap_xchg]. *)
Definition res : Type := Z * option Z.

Section threads.
Context (size : Z) (retries : nat).

Definition plain (p : prog Z) : prog res := z ← p; mret (z, None).
Definition code (o : fm_op) : prog res :=
  match o with
  | OLookup i => plain (uk_fmap_lookup size retries i)
  | OPut p min => plain (uk_fmap_put size retries p min)
  | OTake i => plain (uk_fmap_take size retries i)
  | OCriticalTake i => plain (uk_fmap_critical_take size retries i)
  | OCriticalPut i p => plain (uk_fmap_critical_put size i p)
  | OXchg i p => uk_fmap_xchg size retries i p
  end.

(** A thread between two calls or in one, with the indices it has taken by
    [uk_fmap_critical_take] and not put back. *)
Inductive thread : Type :=
  | Idle (locks : gset Z)
  | Busy (locks : gset Z) (o : fm_op) (p : prog res).

(** What callers have to respect: entries are not NULL, and a critical put
    follows a critical take. *)
Definition allowed (locks : gset Z) (o : fm_op) : Prop :=
  match o with
  | OPut p min => p <> 0
  | OXchg i p => p <> 0
  | OCriticalPut i p => p <> 0 /\ i ∈ locks
  | _ => True
  end.
Definition locks_after (locks : gset Z) (o : fm_op) (r : res) : gset Z :=
  match o with
  | OCriticalTake i => if r.1 =? 0 then locks else {[i]} ∪ locks
  | OCriticalPut i _ => locks ∖ {[i]}
  | _ => locks
  end.

Inductive label : Type :=
  | Inv (t : tid) (o : fm_op)
  | Lin (t : tid) (o : fm_op) (r : res)
  | Res (t : tid) (o : fm_op) (r : res).

(** The map and the threads; a step is a call, an access or a return. *)
Definition config : Type := uk_fmap * gmap tid thread.
Inductive step : config -> list label -> config -> Prop :=
  | step_call m T t locks o :
      T !! t = Some (Idle locks) -> allowed locks o ->
      step (m, T) [Inv t o] (m, <[t := Busy locks o (code o)]> T)
  | step_access m T t locks o a k z m' :
      T !! t = Some (Busy locks o (Act a k)) -> perform a m = Some (z, m') ->
      step (m, T) [] (m', <[t := Busy locks o (k z)]> T)
  | step_return m T t locks o r :
      T !! t = Some (Busy locks o (Ret r)) ->
      step (m, T) [Res t o r] (m, <[t := Idle (locks_after locks o r)]> T).
(** The executions from an empty map with idle threads, with their calls and returns. *)
Inductive exec (c0 : config) : list label -> config -> Prop :=
  | exec_start : exec c0 [] c0
  | exec_step h c l c' : exec c0 h c -> step c l c' -> exec c0 (h ++ l) c'.

(** The execution of a given schedule. *)
Inductive move : Type := Call (t : tid) (o : fm_op) | Go (t : tid).
Definition allowedb (locks : gset Z) (o : fm_op) : bool :=
  match o with
  | OPut p min => negb (p =? 0)
  | OXchg i p => negb (p =? 0)
  | OCriticalPut i p => negb (p =? 0) && bool_decide (i ∈ locks)
  | _ => true
  end.
Definition play (c : config) (mv : move) : option (list label * config) :=
  let '(m, T) := c in
  match mv with
  | Call t o =>
      match T !! t with
      | Some (Idle locks) =>
          if allowedb locks o then Some ([Inv t o], (m, <[t := Busy locks o (code o)]> T)) else None
      | _ => None
      end
  | Go t =>
      match T !! t with
      | Some (Busy locks o (Act a k)) =>
          '(z, m) ← perform a m; Some ([], (m, <[t := Busy locks o (k z)]> T))
      | Some (Busy locks o (Ret r)) => Some ([Res t o r], (m, <[t := Idle (locks_after locks o r)]> T))
      | _ => None
      end
  end.
Fixpoint schedule (c : config) (l : list move) : option (list label * config) :=
  match l with
  | [] => Some ([], c)
  | mv :: l => '(h1, c) ← play c mv; '(h2, c) ← schedule c l; Some (h1 ++ h2, c)
  end.

(** A thread is at a failed assertion or an invalid access. *)
Definition failed (c : config) : Prop :=
  exists t locks o p, c.2 !! t = Some (Busy locks o p) /\
    match p with Fail => True | Act a _ => perform a c.1 = None | _ => False end.

(** ** The abstract map *)

(** The entries, and the thread that holds an entry critically. *)
Definition spec_state : Type := gmap Z Z * gmap Z tid.
Inductive spec_step (t : tid) : fm_op -> res -> spec_state -> spec_state -> Prop :=
  | spec_lookup i A L : spec_step t (OLookup i) (default 0 (A !! i), None) (A, L) (A, L)
  | spec_put p min i A L :
      u64 min <= i < size -> A !! i = None -> L !! i = None ->
      spec_step t (OPut p min) (i, None) (A, L) (<[i := p]> A, L)
  | spec_put_full p min A L : spec_step t (OPut p min) (size, None) (A, L) (A, L)
  | spec_take i p A L :
      A !! i = Some p -> L !! i = None -> spec_step t (OTake i) (p, None) (A, L) (delete i A, L)
  | spec_take_none i A L : A !! i = None -> spec_step t (OTake i) (0, None) (A, L) (A, L)
  | spec_critical_take i p A L :
      A !! i = Some p -> L !! i = None ->
      spec_step t (OCriticalTake i) (p, None) (A, L) (A, <[i := t]> L)
  | spec_critical_take_none i A L :
      A !! i = None -> spec_step t (OCriticalTake i) (0, None) (A, L) (A, L)
  | spec_critical_put i p A L :
      L !! i = Some t -> spec_step t (OCriticalPut i p) (0, None) (A, L) (<[i := p]> A, delete i L)
  | spec_xchg i p A L :
      0 <= i < size -> L !! i = None ->
      spec_step t (OXchg i p) (0, A !! i) (A, L) (<[i := p]> A, L)
  | spec_xchg_range i p A L :
      ~ 0 <= i < size -> spec_step t (OXchg i p) (-1, None) (A, L) (A, L).

(** The effects in a history, in order, as a run of the abstract map. *)
Inductive legal : list label -> spec_state -> Prop :=
  | legal_nil : legal [] (∅, ∅)
  | legal_lin h s t o r s' : legal h s -> spec_step t o r s s' -> legal (h ++ [Lin t o r]) s'
  | legal_inv h s t o : legal h s -> legal (h ++ [Inv t o]) s
  | legal_res h s t o r : legal h s -> legal (h ++ [Res t o r]) s.

(** The protocol of one thread: a call, its effect, its return with the same result. *)
Inductive phase : Type := PIdle | PCalled (o : fm_op) | PDone (o : fm_op) (r : res).
Inductive protocol (t : tid) : list label -> phase -> Prop :=
  | proto_nil : protocol t [] PIdle
  | proto_inv h o : protocol t h PIdle -> protocol t (h ++ [Inv t o]) (PCalled o)
  | proto_lin h o r : protocol t h (PCalled o) -> protocol t (h ++ [Lin t o r]) (PDone o r)
  | proto_res h o r : protocol t h (PDone o r) -> protocol t (h ++ [Res t o r]) PIdle
  | proto_other h l ph :
      protocol t h ph -> match l with Inv u _ | Lin u _ _ | Res u _ _ => u <> t end ->
      protocol t (h ++ [l]) ph.

Definition visible (l : label) : bool := match l with Lin _ _ _ => false | _ => true end.
(** [h'] explains the execution history [h] and leads to the state [s]. *)
Definition linearization (h h' : list label) (s : spec_state) : Prop :=
  List.filter visible h' = h /\ legal h' s /\ forall t, exists ph, protocol t h' ph.

(** * Proofs *)

Context (Hsize : 0 <= size < 2 ^ 31).

(** ** Ghost state *)

(** What a thread has at an index between two accesses: the index reserved, without
    an entry; its entry taken out by a critical take; its entry taken out inside
    [uk_fmap_xchg]. *)
Inductive hold : Type := Reserved | Locked (p : Z) | XLocked (p : Z).
Record ghost : Type := mk_ghost { gA : gmap Z Z; gL : gmap Z tid; gH : gmap Z (tid * hold) }.
Definition abs (g : ghost) : spec_state := (gA g, gL g).

Definition held_state (t : tid) (h : hold) (a : option Z) (l : option tid) : Prop :=
  match h with
  | Reserved => a = None /\ l = None
  | Locked p => a = Some p /\ p <> 0 /\ l = Some t
  | XLocked p => a = Some p /\ p <> 0 /\ l = None
  end.
Definition slot_inv (f : bool) (e a : option Z) (l : option tid) (h : option (tid * hold)) : Prop :=
  match h with
  | Some (t, h) => f = false /\ e = Some 0 /\ held_state t h a l
  | None => l = None /\ slot f e a
  end.
Record ginv (m : uk_fmap) (g : ghost) : Prop := {
  gi_ok : bm_ok size m;
  gi_slot i : 0 <= i < size ->
    slot_inv (bit_at (fm_bitmap m) i) (load (fm_map m) i) (gA g !! i) (gL g !! i) (gH g !! i);
  gi_out i : ~ 0 <= i < size -> gA g !! i = None /\ gL g !! i = None /\ gH g !! i = None
}.

(** What thread [t] holds, and that a step of [t] changes nothing of the others. *)
Definition agrees (t : tid) (own : gmap Z hold) (g : ghost) : Prop :=
  forall i h, own !! i = Some h <-> gH g !! i = Some (t, h).
Definition frame (t : tid) (g g' : ghost) : Prop :=
  forall u i h, u <> t -> gH g !! i = Some (u, h) <-> gH g' !! i = Some (u, h).

(** The effect of call [o] happens now, or nothing does. *)
Definition lstep (t : tid) (o : fm_op) (ev ev' : option res) (s s' : spec_state) : Prop :=
  (ev' = ev /\ s' = s) \/ (exists r, ev = None /\ ev' = Some r /\ spec_step t o r s s').

(** Thread [t] in call [o] can run [p] from what it holds and whether the effect
    has happened, in any state the others leave, without failing. *)
Fixpoint twp {A} (t : tid) (o : fm_op) (p : prog A) (own : gmap Z hold) (ev : option res)
    (Q : A -> gmap Z hold -> option res -> Prop) : Prop :=
  forall m g, ginv m g -> agrees t own g ->
  match p with
  | Ret a => exists ev', lstep t o ev ev' (abs g) (abs g) /\ Q a own ev'
  | Act a k => exists z m' g' own' ev', perform a m = Some (z, m') /\ ginv m' g' /\ agrees t own' g' /\
      frame t g g' /\ lstep t o ev ev' (abs g) (abs g') /\ twp t o (k z) own' ev' Q
  | Fail => False
  | Spin => True
  end.

Lemma lstep_refl t o ev s : lstep t o ev ev s s.
Proof. by left. Qed.
Lemma lstep_trans t o ev ev1 ev2 s s' :
  lstep t o ev ev1 s s -> lstep t o ev1 ev2 s s' -> lstep t o ev ev2 s s'.
Proof.
  intros [[-> _]|(r & -> & -> & Hs)] [[-> ->]|(r' & Hr & -> & Hs')]; try done.
  - by left.
  - right. by exists r'.
  - right. by exists r.
Qed.

Lemma twp_bind {A B} t o (p : prog A) (f : A -> prog B) own ev Q :
  twp t o p own ev (fun a own' ev' => twp t o (f a) own' ev' Q) -> twp t o (p ≫= f) own ev Q.
Proof.
  revert own ev. induction p as [a|a k IH| |]; intros own ev Hp.
  - change (twp t o (f a) own ev Q). simpl in Hp.
    destruct (f a) as [b|a' k'| |] eqn:Hf; simpl in *; intros m g Hg Ho;
      destruct (Hp m g Hg Ho) as (ev1 & Hs1 & Hp1); specialize (Hp1 m g Hg Ho).
    + destruct Hp1 as (ev2 & Hs2 & HQ). exists ev2. split; [by eapply lstep_trans|done].
    + destruct Hp1 as (z & m' & g' & own' & ev2 & ? & ? & ? & ? & Hs2 & ?).
      exists z, m', g', own', ev2. split_and!; try done. by eapply lstep_trans.
    + done.
    + done.
  - intros m g Hg Ho. destruct (Hp m g Hg Ho) as (z & m' & g' & own' & ev' & ? & ? & ? & ? & ? & Hk).
    exists z, m', g', own', ev'. split_and!; try done. by apply IH.
  - intros m g Hg Ho. by apply (Hp m g).
  - by intros m g Hg Ho.
Qed.

Lemma twp_ret {A} t o (a : A) own ev (Q : A -> gmap Z hold -> option res -> Prop) :
  Q a own ev -> twp t o (mret a) own ev Q.
Proof. intros HQ m g _ _. exists ev. split; [apply lstep_refl|done]. Qed.
(** The effect of a call that happens when it returns. *)
Lemma twp_ret_effect {A} t o (a : A) own r (Q : A -> gmap Z hold -> option res -> Prop) :
  (forall s, (forall i, ~ 0 <= i < size -> s.1 !! i = None) -> spec_step t o r s s) -> Q a own (Some r) ->
  twp t o (mret a) own None Q.
Proof.
  intros Hs HQ m g Hg _. exists (Some r). split; [|done]. right. exists r. split_and!; try done.
  apply Hs. intros i Hi. by apply (gi_out _ _ Hg).
Qed.

Lemma twp_act t o a own ev (Q : Z -> gmap Z hold -> option res -> Prop) :
  (forall m g, ginv m g -> agrees t own g -> exists z m' g' own' ev', perform a m = Some (z, m') /\
    ginv m' g' /\ agrees t own' g' /\ frame t g g' /\ lstep t o ev ev' (abs g) (abs g') /\ Q z own' ev') ->
  twp t o (act a) own ev Q.
Proof.
  intros Ha m g Hg Ho. destruct (Ha m g Hg Ho) as (z & m' & g' & own' & ev' & ? & ? & ? & ? & ? & HQ).
  exists z, m', g', own', ev'. split_and!; try done. intros ? ? _ _. exists ev'. split; [apply lstep_refl|done].
Qed.

Lemma twp_assert t o b own ev (Q : unit -> gmap Z hold -> option res -> Prop) :
  b = true -> Q tt own ev -> twp t o (uk_assert b) own ev Q.
Proof. intros ->. apply (twp_ret t o tt). Qed.

(** The state before the first access may be looked at. *)
Lemma twp_state {A} t o (p : prog A) own ev Q :
  (forall m g, ginv m g -> agrees t own g -> twp t o p own ev Q) -> twp t o p own ev Q.
Proof. destruct p; intros Hp m g Hg Ho; apply (Hp m g Hg Ho m g Hg Ho). Qed.

Lemma twp_mono {A} t o (p : prog A) own ev (Q R : A -> gmap Z hold -> option res -> Prop) :
  (forall a own' ev', Q a own' ev' -> R a own' ev') -> twp t o p own ev Q -> twp t o p own ev R.
Proof.
  intros HQR. revert own ev. induction p as [a|a k IH| |]; intros own ev Hp m g Hg Ho; specialize (Hp m g Hg Ho); try done.
  - destruct Hp as (ev' & ? & ?). exists ev'. auto.
  - destruct Hp as (z & m' & g' & own' & ev' & ? & ? & ? & ? & ? & ?). exists z, m', g', own', ev'. split_and!; auto.
Qed.

(** ** The accesses of a thread *)

Lemma agrees_insert t own g i h A L :
  agrees t own g -> agrees t (<[i:=h]> own) (mk_ghost A L (<[i:=(t, h)]> (gH g))).
Proof.
  intros Ha j k. simpl. destruct (Z.eq_dec i j) as [->|].
  - rewrite !lookup_insert_eq. naive_solver.
  - rewrite !lookup_insert_ne by done. apply Ha.
Qed.
Lemma agrees_delete t own g i A L :
  agrees t own g -> agrees t (delete i own) (mk_ghost A L (delete i (gH g))).
Proof.
  intros Ha j k. simpl. destruct (Z.eq_dec i j) as [->|].
  - rewrite !lookup_delete_eq. naive_solver.
  - rewrite !lookup_delete_ne by done. apply Ha.
Qed.
Lemma frame_insert t g i h A L : gH g !! i = None -> frame t g (mk_ghost A L (<[i:=(t, h)]> (gH g))).
Proof.
  intros Hn u j k Hu. simpl. destruct (Z.eq_dec i j) as [->|].
  - rewrite lookup_insert_eq, Hn. naive_solver.
  - by rewrite lookup_insert_ne.
Qed.
Lemma frame_delete t g i h A L : gH g !! i = Some (t, h) -> frame t g (mk_ghost A L (delete i (gH g))).
Proof.
  intros Hn u j k Hu. simpl. destruct (Z.eq_dec i j) as [->|].
  - rewrite lookup_delete_eq, Hn. naive_solver.
  - by rewrite lookup_delete_ne.
Qed.

(** A step that touches index [i] only. *)
Lemma ginv_update m g m' g' i :
  ginv m g -> 0 <= i < size -> bm_ok size m' ->
  (forall j, 0 <= j -> j <> i -> bit_at (fm_bitmap m') j = bit_at (fm_bitmap m) j /\ load (fm_map m') j = load (fm_map m) j) ->
  (forall j, j <> i -> gA g' !! j = gA g !! j /\ gL g' !! j = gL g !! j /\ gH g' !! j = gH g !! j) ->
  slot_inv (bit_at (fm_bitmap m') i) (load (fm_map m') i) (gA g' !! i) (gL g' !! i) (gH g' !! i) ->
  ginv m' g'.
Proof.
  intros [_ Hs Ho] Hi Hok Hm Hg Hsi. split; [done| |].
  - intros j Hj. destruct (Z.eq_dec j i) as [->|Hne]; [done|].
    destruct (Hm j ltac:(lia) Hne) as [-> ->]. destruct (Hg j Hne) as (-> & -> & ->). by apply Hs.
  - intros j Hj. assert (j <> i) as Hne by lia. destruct (Hg j Hne) as (-> & -> & ->). by apply Ho.
Qed.
(** A write that changes nothing. *)
Lemma ginv_same m g m' :
  ginv m g -> bm_ok size m' ->
  (forall j, 0 <= j < size -> bit_at (fm_bitmap m') j = bit_at (fm_bitmap m) j /\ load (fm_map m') j = load (fm_map m) j) ->
  ginv m' g.
Proof.
  intros [_ Hs Ho] Hok Hm. split; [done| |done]. intros j Hj. destruct (Hm j Hj) as [-> ->]. by apply Hs.
Qed.

Lemma frame_refl t g : frame t g g.
Proof. done. Qed.

Section calls.
Context (t : tid) (o : fm_op).
#[local] Abbreviation post A := (A -> gmap Z hold -> option res -> Prop).

Lemma twp_yield own ev (Q : post Z) : Q 0 own ev -> twp t o (act Yield) own ev Q.
Proof.
  intros HQ. apply twp_act. intros m g Hg Ho. exists 0, m, g, own, ev.
  split_and!; try done. apply lstep_refl.
Qed.

Lemma isfree_twp i own ev ev' (Q : post Z) :
  0 <= i < size ->
  (forall s, s.1 !! i = None -> lstep t o ev ev' s s) ->
  Q 0 own ev -> Q 1 own ev' -> twp t o (uk_bmap_isfree size i) own ev Q.
Proof.
  intros Hi Hs HQ0 HQ1. unfold uk_bmap_isfree. rewrite inrange by done. cbn [negb]. apply twp_bind, twp_act.
  intros m g Hg Ho. destruct (perform_isfree size m i (gi_ok _ _ Hg) Hi) as (b & Hp & Ht).
  pose proof (gi_slot _ _ Hg i Hi) as Hsl. destruct (bit_at (fm_bitmap m) i) eqn:Hb; cbn [negb] in Ht.
  - exists b, m, g, own, ev'. split_and!; try done.
    + apply Hs. simpl. unfold slot_inv in Hsl. destruct (gH g !! i) as [[u h]|]; [by destruct Hsl|].
      destruct Hsl as [_ Hsl]. unfold slot in Hsl. destruct (gA g !! i); [by destruct Hsl|done].
    + rewrite Ht. by apply twp_ret.
  - exists b, m, g, own, ev. split_and!; try done; [apply lstep_refl|]. rewrite Ht. by apply twp_ret.
Qed.

Lemma ptr_twp i own ev (ev' : Z -> option res) (Q : post Z) :
  0 <= i < size ->
  (forall q s, q <> 0 -> s.1 !! i = Some q -> lstep t o ev (ev' q) s s) ->
  Q 0 own ev -> (forall q, q <> 0 -> Q q own (ev' q)) -> twp t o (act (LoadPtr i)) own ev Q.
Proof.
  intros Hi Hs HQ0 HQ. apply twp_act. intros m g Hg Ho.
  destruct (perform_ptr size m i (gi_ok _ _ Hg) Hi) as (q & He & Hp).
  pose proof (gi_slot _ _ Hg i Hi) as Hsl. rewrite He in Hsl. destruct (Z.eq_dec q 0) as [->|Hq].
  - exists 0, m, g, own, ev. split_and!; try done. apply lstep_refl.
  - exists q, m, g, own, (ev' q). split_and!; try done; [|by apply HQ]. apply Hs; [done|]. simpl.
    unfold slot_inv in Hsl. destruct (gH g !! i) as [[u h]|]; [destruct Hsl as (_ & [= ?] & _); done|].
    destruct Hsl as [_ Hsl]. unfold slot in Hsl. destruct (gA g !! i) as [p|]; destruct Hsl as [_ Hsl].
    + destruct Hsl as [[= ->] _]. done.
    + by injection Hsl.
Qed.

(** Reserving: done by this thread if the index was free, else without effect. *)
Lemma reserve_twp i own ev (Q : post Z) :
  0 <= i < size ->
  Q 1 own ev -> (own !! i = None -> Q 0 (<[i:=Reserved]> own) ev) -> twp t o (uk_bmap_reserve size i) own ev Q.
Proof.
  intros Hi HQ1 HQ0. unfold uk_bmap_reserve. rewrite inrange by done. cbn [negb]. apply twp_bind, twp_act.
  intros m g Hg Ho. pose proof (gi_ok _ _ Hg) as Hok.
  destruct (perform_and size m i Hok Hi) as (w & b & Hp & Ht & Hokb & Hb).
  pose proof (gi_slot _ _ Hg i Hi) as Hsl. destruct (bit_at (fm_bitmap m) i) eqn:Hbit; cbn [negb] in Ht.
  - unfold slot_inv in Hsl. destruct (gH g !! i) as [[u h]|] eqn:HH; [by destruct Hsl|]. destruct Hsl as [HL Hsl].
    unfold slot in Hsl. destruct (gA g !! i) as [p|] eqn:HA; [by destruct Hsl|]. destruct Hsl as [_ He].
    exists w, (set_bitmap b m), (mk_ghost (gA g) (gL g) (<[i:=(t, Reserved)]> (gH g))), (<[i:=Reserved]> own), ev.
    split_and!; [done| |by apply agrees_insert|by apply frame_insert|apply lstep_refl|].
    + apply (ginv_update m g _ _ i); try done; simpl.
      * intros j Hj Hne. rewrite Hb by done. by rewrite (proj2 (Z.eqb_neq j i)) by done.
      * intros j Hne. by rewrite lookup_insert_ne.
      * rewrite Hb, Z.eqb_refl, lookup_insert_eq by lia. simpl. done.
    + rewrite Ht. apply twp_ret, HQ0. destruct (own !! i) as [h|] eqn:Hown; [|done].
      apply Ho in Hown. congruence.
  - exists w, (set_bitmap b m), g, own, ev.
    split_and!; [done| |done|done|apply lstep_refl|rewrite Ht; by apply twp_ret].
    apply (ginv_same m); try done. intros j Hj. split; [|done]. simpl. rewrite Hb by lia.
    destruct (Z.eqb_spec j i) as [->|]; done.
Qed.

Lemma free_twp i own ev (Q : post Z) :
  0 <= i < size -> own !! i = Some Reserved -> Q 0 (delete i own) ev -> twp t o (uk_bmap_free size i) own ev Q.
Proof.
  intros Hi Hown HQ. unfold uk_bmap_free. rewrite inrange by done. cbn [negb]. apply twp_bind, twp_act.
  intros m g Hg Ho. apply Ho in Hown as HH. pose proof (gi_slot _ _ Hg i Hi) as Hsl. rewrite HH in Hsl.
  destruct Hsl as (Hbit & He & HA & HL).
  destruct (perform_or size m i (gi_ok _ _ Hg) Hi) as (w & b & Hp & Ht & Hokb & Hb). rewrite Hbit in Ht.
  exists w, (set_bitmap b m), (mk_ghost (gA g) (gL g) (delete i (gH g))), (delete i own), ev.
  split_and!; [done| |by apply agrees_delete|by eapply frame_delete|apply lstep_refl|].
  - apply (ginv_update m g _ _ i); try done; simpl.
    + intros j Hj Hne. rewrite Hb by done. by rewrite (proj2 (Z.eqb_neq j i)) by done.
    + intros j Hne. by rewrite lookup_delete_ne.
    + rewrite Hb, Z.eqb_refl, lookup_delete_eq by lia. simpl. rewrite HA. done.
  - rewrite Ht. by apply twp_ret.
Qed.

(** The abstract map after an entry is taken out to be held as [h]. *)
Definition taken (i : Z) (h : hold) (s : spec_state) : spec_state :=
  match h with
  | Reserved => (delete i s.1, s.2)
  | Locked _ => (s.1, <[i:=t]> s.2)
  | XLocked _ => s
  end.

Lemma take_twp i own ev (h : Z -> hold) (ev' : Z -> option res) (Q : post Z) :
  0 <= i < size ->
  (forall q, h q = Reserved \/ h q = Locked q \/ h q = XLocked q) ->
  (forall q s, q <> 0 -> s.1 !! i = Some q -> s.2 !! i = None -> lstep t o ev (ev' q) s (taken i (h q) s)) ->
  Q 0 own ev -> (forall q, q <> 0 -> own !! i = None -> Q q (<[i:=h q]> own) (ev' q)) ->
  twp t o (act (Exchange i 0)) own ev Q.
Proof.
  intros Hi Hh Hs HQ0 HQ. apply twp_act. intros m g Hg Ho.
  destruct (perform_exchange size m i 0 (gi_ok _ _ Hg) Hi) as (q & l & He & Hp & Hokl & Hl).
  pose proof (gi_slot _ _ Hg i Hi) as Hsl. rewrite He in Hsl. destruct (Z.eq_dec q 0) as [->|Hq].
  - exists 0, (set_map l m), g, own, ev. split_and!; try done; [|apply lstep_refl].
    apply (ginv_same m); try done. intros j Hj. split; [done|]. simpl. rewrite Hl.
    destruct (Z.eqb_spec j i) as [->|]; done.
  - unfold slot_inv in Hsl. destruct (gH g !! i) as [[u k]|] eqn:HH; [destruct Hsl as (_ & [= ?] & _); done|].
    destruct Hsl as [HL Hsl]. unfold slot in Hsl.
    destruct (gA g !! i) as [p|] eqn:HA; [|destruct Hsl as [_ [= ?]]; done]. destruct Hsl as (Hf & [= ->] & _).
    set (s' := taken i (h p) (abs g)).
    exists p, (set_map l m), (mk_ghost s'.1 s'.2 (<[i:=(t, h p)]> (gH g))), (<[i:=h p]> own), (ev' p).
    split_and!; [done| |by apply agrees_insert|by apply frame_insert| |].
    + apply (ginv_update m g _ _ i); try done; simpl.
      * intros j Hj Hne. rewrite Hl. by rewrite (proj2 (Z.eqb_neq j i)) by done.
      * intros j Hne. unfold s'. rewrite lookup_insert_ne by done.
        destruct (Hh p) as [->|[->| ->]]; simpl; by rewrite ?lookup_delete_ne, ?lookup_insert_ne by done.
      * rewrite Hl, Z.eqb_refl, lookup_insert_eq. split_and!; [done|done|]. unfold s'.
        destruct (Hh p) as [->|[->| ->]]; simpl; by rewrite ?lookup_delete_eq, ?lookup_insert_eq.
    + replace (abs (mk_ghost s'.1 s'.2 (<[i:=(t, h p)]> (gH g)))) with s' by (unfold abs; simpl; by destruct s').
      by apply Hs.
    + apply HQ; [done|]. destruct (own !! i) as [k|] eqn:Hk; [|done]. apply Ho in Hk. congruence.
Qed.

(** Writing an entry to a held index releases it. *)
Lemma put_twp i p own ev ev' h (Q : post Z) :
  0 <= i < size -> p <> 0 -> own !! i = Some h ->
  (forall s, held_state t h (s.1 !! i) (s.2 !! i) -> lstep t o ev ev' s (<[i:=p]> s.1, delete i s.2)) ->
  Q 0 (delete i own) ev' -> twp t o (act (Exchange i p)) own ev Q.
Proof.
  intros Hi Hp Hown Hs HQ. apply twp_act. intros m g Hg Ho. apply Ho in Hown as HH.
  destruct (perform_exchange size m i p (gi_ok _ _ Hg) Hi) as (q & l & He & Hx & Hokl & Hl).
  pose proof (gi_slot _ _ Hg i Hi) as Hsl. rewrite HH, He in Hsl. destruct Hsl as (Hf & [= ->] & Hh).
  exists 0, (set_map l m), (mk_ghost (<[i:=p]> (gA g)) (delete i (gL g)) (delete i (gH g))), (delete i own), ev'.
  split_and!; [done| |by apply agrees_delete|by eapply frame_delete|by apply Hs|done].
  apply (ginv_update m g _ _ i); try done; simpl.
  - intros j Hj Hne. rewrite Hl. by rewrite (proj2 (Z.eqb_neq j i)) by done.
  - intros j Hne. by rewrite lookup_insert_ne, !lookup_delete_ne by done.
  - rewrite Hl, Z.eqb_refl, lookup_insert_eq, !lookup_delete_eq. done.
Qed.

Lemma read_words_twp i n own ev (Q : post (list Z)) :
  0 <= i -> i + Z.of_nat n <= UK_BITS_TO_LONGS size ->
  (forall ws, words_ok ws -> length ws = n -> Q ws own ev) -> twp t o (read_words i n) own ev Q.
Proof.
  revert i Q. induction n as [|n IH]; intros i Q Hi Hn HQ; [apply twp_ret, HQ; [constructor|done]|].
  cbn [read_words]. apply twp_bind, twp_act. intros m g Hg Ho.
  destruct (bits_to_longs size Hsize m (gi_ok _ _ Hg)) as [Hlen _]. destruct (gi_ok _ _ Hg) as (_ & Hw & _ & _).
  destruct (load_Some (fm_bitmap m) i ltac:(lia)) as [w Hl]. exists w, m, g, own, ev.
  split_and!; try done; [unfold perform; by rewrite Hl|apply lstep_refl|].
  apply twp_bind, IH; [lia|lia|]. intros ws Hws Hlws. apply twp_ret, HQ.
  - constructor; [apply (load_ok _ _ _ Hw Hl)|done].
  - simpl. by rewrite Hlws.
Qed.

Lemma find_next_twp min own ev (Q : post Z) :
  0 <= min ->
  (forall r, (r < size -> min <= r) -> Q r own ev) -> twp t o (find_next_bit size min) own ev Q.
Proof.
  intros Hmin HQ. unfold find_next_bit. apply twp_bind.
  assert (Hn : 0 <= UK_BITS_TO_LONGS size /\ size <= 64 * UK_BITS_TO_LONGS size).
  { unfold UK_BITS_TO_LONGS, UK_BITS_PER_LONG. pose proof (Z.div_mod (size + (64 - 1)) 64 ltac:(lia)).
    pose proof (Z.mod_pos_bound (size + (64 - 1)) 64 ltac:(lia)). lia. }
  apply read_words_twp; [lia|lia|]. intros ws Hw Hl.
  destruct (Z.lt_ge_cases min size) as [Hlt|Hge].
  - destruct (scan_from_spec id ws size min) as (r & Hr & Hlo & _); [done|done|lia|unfold zlen; lia|].
    unfold uk_find_next_bit. rewrite Hr. by apply twp_ret, HQ.
  - unfold uk_find_next_bit, scan_from. rewrite (proj2 (Z.leb_le size min)) by lia. apply twp_ret, HQ. lia.
Qed.
End calls.

(** ** The calls *)

(** What an idle thread holds are its critical entries. *)
Definition holds (locks : gset Z) (own : gmap Z hold) : Prop :=
  (forall i h, own !! i = Some h -> i ∈ locks /\ exists p, h = Locked p) /\
  (forall i, i ∈ locks -> is_Some (own !! i)).
(** The call has had its effect, with the result it returns. *)
Definition answered (locks : gset Z) (o : fm_op) (r : res) (own : gmap Z hold) (ev : option res) : Prop :=
  ev = Some r /\ holds (locks_after locks o r) own.

Lemma lstep_now t o r s s' : spec_step t o r s s' -> lstep t o None (Some r) s s'.
Proof. intros. right. by exists r. Qed.

Lemma plain_twp t o p own ev Q :
  twp t o p own ev (fun z own' ev' => Q (z, None) own' ev') -> twp t o (plain p) own ev Q.
Proof.
  intros Hp. apply twp_bind. eapply twp_mono; [|exact Hp]. intros z own' ev' HQ. by apply twp_ret.
Qed.

Ltac out_of_range :=
  rewrite not_inrange by done; cbn [negb].

Lemma lookup_call t locks own i :
  holds locks own -> twp t (OLookup i) (code (OLookup i)) own None (answered locks (OLookup i)).
Proof.
  intros Ho. apply plain_twp. unfold uk_fmap_lookup. destruct (decide (0 <= i < size)) as [Hi|Hi].
  - rewrite inrange by done. cbn [negb]. induction retries as [|n IH]; [by intros m g _ _|]. cbn [lookup_loop].
    apply twp_bind. apply (ptr_twp _ _ _ _ _ (fun q => Some (q, None))); [done| | |].
    + intros q [A L] Hq HA. simpl in HA. apply lstep_now. replace q with (default 0 (A !! i)) by by rewrite HA. constructor.
    + cbn [negb Z.eqb]. apply twp_bind. apply (isfree_twp _ _ _ _ _ (Some (0, None))); [done| | |].
      * intros [A L] HA. simpl in HA. apply lstep_now. replace 0 with (default 0 (A !! i)) by by rewrite HA. constructor.
      * cbn [negb Z.eqb]. apply twp_bind, twp_yield, IH.
      * cbn [negb Z.eqb]. by apply twp_ret.
    + intros q Hq. rewrite (proj2 (Z.eqb_neq q 0)) by done. cbn [negb]. by apply twp_ret.
  - out_of_range. apply (twp_ret_effect _ _ _ _ (0, None)); [|done]. intros [A L] HA.
    specialize (HA i Hi). simpl in HA. replace 0 with (default 0 (A !! i)) by by rewrite HA. constructor.
Qed.

Lemma take_call t locks own i :
  holds locks own -> twp t (OTake i) (code (OTake i)) own None (answered locks (OTake i)).
Proof.
  intros Ho. apply plain_twp. unfold uk_fmap_take. destruct (decide (0 <= i < size)) as [Hi|Hi].
  - rewrite inrange by done. cbn [negb]. induction retries as [|n IH]; [by intros m g _ _|]. cbn [take_loop].
    apply twp_bind. apply (isfree_twp _ _ _ _ _ (Some (0, None))); [done| | |].
    + intros [A L] HA. by apply lstep_now, spec_take_none.
    + cbn [negb Z.eqb]. apply twp_bind.
      apply (take_twp _ _ _ _ _ (fun _ => Reserved) (fun q => Some (q, None))); [done|auto| | |].
      * intros q [A L] Hq HA HL. by apply lstep_now, spec_take.
      * cbn [negb Z.eqb]. apply twp_bind, twp_yield, IH.
      * intros q Hq Hown. rewrite (proj2 (Z.eqb_neq q 0)) by done. apply twp_bind.
        apply free_twp; [done|by rewrite lookup_insert_eq|]. apply twp_bind, twp_assert; [done|].
        apply twp_ret. split; [done|]. by rewrite delete_insert_id.
    + cbn [negb Z.eqb]. by apply twp_ret.
  - out_of_range. apply (twp_ret_effect _ _ _ _ (0, None)); [|done]. intros [A L] HA. by apply spec_take_none, HA.
Qed.

Lemma holds_lock locks own i p : holds locks own -> holds ({[i]} ∪ locks) (<[i:=Locked p]> own).
Proof.
  intros [H1 H2]. split.
  - intros j h. destruct (Z.eq_dec i j) as [->|].
    + rewrite lookup_insert_eq. intros [= <-]. split; [set_solver|eauto].
    + rewrite lookup_insert_ne by done. intros Hj. destruct (H1 _ _ Hj). split; [set_solver|done].
  - intros j Hj. destruct (Z.eq_dec i j) as [->|]; [rewrite lookup_insert_eq; eauto|].
    rewrite lookup_insert_ne by done. apply H2. set_solver.
Qed.
Lemma holds_unlock locks own i : holds locks own -> holds (locks ∖ {[i]}) (delete i own).
Proof.
  intros [H1 H2]. split.
  - intros j h [Hne Hj]%lookup_delete_Some. destruct (H1 _ _ Hj). split; [set_solver|done].
  - intros j Hj. rewrite lookup_delete_ne by set_solver. apply H2. set_solver.
Qed.

(** The retry loop of the critical take, for its own call and inside [uk_fmap_xchg]. *)
Lemma critical_take_twp t o own i ev (h : Z -> hold) (ev' : Z -> option res) ev0 Q :
  (forall q, h q = Locked q \/ h q = XLocked q) ->
  (forall q s, q <> 0 -> s.1 !! i = Some q -> s.2 !! i = None -> lstep t o ev (ev' q) s (taken t i (h q) s)) ->
  (forall s, s.1 !! i = None -> lstep t o ev ev0 s s) ->
  (forall q, q <> 0 -> 0 <= i < size -> own !! i = None -> Q q (<[i:=h q]> own) (ev' q)) -> Q 0 own ev0 ->
  twp t o (uk_fmap_critical_take size retries i) own ev Q.
Proof.
  intros Hh Hs Hs0 HQ HQ0. unfold uk_fmap_critical_take. destruct (decide (0 <= i < size)) as [Hi|Hi].
  - rewrite inrange by done. cbn [negb]. induction retries as [|n IH]; [by intros m g _ _|]. cbn [critical_take_loop].
    apply twp_bind. apply (take_twp _ _ _ _ _ h ev'); [done|auto|done| |].
    + cbn [negb Z.eqb]. apply twp_bind. apply (isfree_twp _ _ _ _ _ ev0); [done|done| |].
      * cbn [negb Z.eqb]. apply twp_bind, twp_yield, IH.
      * cbn [negb Z.eqb]. by apply twp_ret.
    + intros q Hq Hown. rewrite (proj2 (Z.eqb_neq q 0)) by done. cbn [negb]. apply twp_ret. auto.
  - out_of_range. intros m g Hg _. exists ev0. split; [|done]. apply Hs0. by apply (gi_out _ _ Hg).
Qed.

Lemma critical_take_call t locks own i :
  holds locks own ->
  twp t (OCriticalTake i) (code (OCriticalTake i)) own None (answered locks (OCriticalTake i)).
Proof.
  intros Ho. apply plain_twp.
  apply (critical_take_twp _ _ _ _ _ Locked (fun q => Some (q, None)) (Some (0, None))).
  - auto.
  - intros q [A L] Hq HA HL. by apply lstep_now, spec_critical_take.
  - intros [A L] HA. by apply lstep_now, spec_critical_take_none.
  - intros q Hq _ _. split; [done|]. simpl. rewrite (proj2 (Z.eqb_neq q 0)) by done. by apply holds_lock.
  - done.
Qed.

(** The critical put by the holder of the index. *)
Lemma critical_put_twp t o own i p ev ev' h Q :
  p <> 0 -> own !! i = Some h ->
  (forall s, held_state t h (s.1 !! i) (s.2 !! i) -> lstep t o ev ev' s (<[i:=p]> s.1, delete i s.2)) ->
  0 <= i < size -> Q 0 (delete i own) ev' -> twp t o (uk_fmap_critical_put size i p) own ev Q.
Proof.
  intros Hp Hown Hs Hi HQ. unfold uk_fmap_critical_put. rewrite inrange by done. cbn [negb].
  assert (Hput : twp t o (got ← act (Exchange i p); uk_assert (got =? 0);; mret 0) own ev Q).
  { apply twp_bind. eapply (put_twp t o i p own ev ev' h); try done.
    apply twp_bind, twp_assert; [done|]. by apply twp_ret. }
  apply twp_bind. apply reserve_twp; [done|done|]. intros Hn. by rewrite Hn in Hown.
Qed.

Lemma critical_put_call t locks own i p :
  holds locks own -> allowed locks (OCriticalPut i p) ->
  twp t (OCriticalPut i p) (code (OCriticalPut i p)) own None (answered locks (OCriticalPut i p)).
Proof.
  intros Ho [Hp Hi]. apply plain_twp. destruct Ho as [H1 H2]. destruct (H2 i Hi) as [h Hh].
  destruct (H1 _ _ Hh) as [_ [q ->]]. apply twp_state. intros m g Hg Ha.
  assert (0 <= i < size) as Hr.
  { destruct (decide (0 <= i < size)) as [|Hn]; [done|]. apply Ha in Hh. destruct (gi_out _ _ Hg i Hn) as (_ & _ & HH). congruence. }
  eapply (critical_put_twp _ _ _ _ _ _ (Some (0, None))); try done.
  - intros [A L] (HA & Hq & HL). by apply lstep_now, spec_critical_put.
  - split; [done|]. by apply holds_unlock.
Qed.

Lemma xchg_call t locks own i p :
  holds locks own -> p <> 0 -> twp t (OXchg i p) (code (OXchg i p)) own None (answered locks (OXchg i p)).
Proof.
  intros Ho Hp. simpl code. unfold uk_fmap_xchg. rewrite (proj2 (Z.eqb_neq p 0)) by done.
  apply twp_bind, twp_assert; [done|]. destruct (decide (0 <= i < size)) as [Hi|Hi].
  - rewrite inrange by done. cbn [negb].
    assert (Hloop : forall n, twp t (OXchg i p) (xchg_loop size retries i p n) own None (answered locks (OXchg i p))).
    { induction n as [|n IH]; [by intros m g _ _|]. cbn [xchg_loop].
      apply twp_bind. apply reserve_twp; [done| |].
      - cbn [negb Z.eqb]. apply twp_bind.
        apply (critical_take_twp _ _ _ _ _ XLocked (fun _ => None) None); [auto|intros; apply lstep_refl|intros; apply lstep_refl| |].
        + intros q Hq _ Hown. rewrite (proj2 (Z.eqb_neq q 0)) by done. cbn [negb]. apply twp_bind.
          eapply (critical_put_twp _ _ _ _ _ _ (Some (0, Some q))); [done|by rewrite lookup_insert_eq| |done|].
          * intros [A L] (HA & _ & HL). apply lstep_now. simpl in *. rewrite <- HA, (delete_id L) by done. by constructor.
          * apply twp_ret. split; [done|]. by rewrite delete_insert_id.
        + cbn [negb Z.eqb]. apply twp_bind, twp_yield, IH.
      - intros Hown. cbn [negb Z.eqb]. apply twp_bind.
        eapply (put_twp _ _ _ _ _ _ (Some (0, None))); [done|done|by rewrite lookup_insert_eq| |].
        + intros [A L] (HA & HL). apply lstep_now. simpl in *. rewrite <- HA, (delete_id L) by done. by constructor.
        + apply twp_bind, twp_assert; [done|]. apply twp_ret. split; [done|]. by rewrite delete_insert_id. }
    apply Hloop.
  - out_of_range. apply (twp_ret_effect _ _ _ _ (-1, None)); [|done]. intros [A L] HA. by apply spec_xchg_range.
Qed.

Lemma put_call t locks own p min :
  holds locks own -> p <> 0 -> twp t (OPut p min) (code (OPut p min)) own None (answered locks (OPut p min)).
Proof.
  intros Ho Hp. apply plain_twp. unfold uk_fmap_put. apply twp_bind. unfold uk_bmap_request.
  pose proof (wrap_range 64 min ltac:(lia)) as Hmin.
  induction retries as [|n IH]; [by intros m g _ _|]. cbn [request_loop]. apply twp_bind, find_next_twp; [lia|].
  intros r Hr. destruct (Z.leb_spec size r) as [Hge|Hlt].
  - apply twp_ret. rewrite not_inrange by lia. cbn [negb].
    apply (twp_ret_effect _ _ _ _ (size, None)); [|done]. intros [A L] _. apply spec_put_full.
  - specialize (Hr Hlt). apply twp_bind. apply reserve_twp; [lia| |].
    + cbn [negb Z.eqb]. apply IH.
    + intros Hown. cbn [negb Z.eqb]. apply twp_ret. rewrite inrange by lia. cbn [negb]. apply twp_bind.
      eapply (put_twp _ _ _ _ _ _ (Some (r, None))); [lia|done|by rewrite lookup_insert_eq| |].
      * intros [A L] (HA & HL). apply lstep_now. simpl in *. rewrite (delete_id L) by done. by constructor.
      * apply twp_bind, twp_assert; [done|]. apply twp_ret. split; [done|]. by rewrite delete_insert_id.
Qed.

Lemma call_ok t locks own o :
  holds locks own -> allowed locks o -> twp t o (code o) own None (answered locks o).
Proof.
  destruct o; intros; [by apply lookup_call|by apply put_call|by apply take_call|by apply critical_take_call|
    by apply critical_put_call|by apply xchg_call].
Qed.

(** ** Executions *)

Definition called (o : fm_op) (ev : option res) : phase :=
  match ev with None => PCalled o | Some r => PDone o r end.
Definition thread_ok (t : tid) (h : list label) (g : ghost) (th : option thread) : Prop :=
  exists own, agrees t own g /\
  match th with
  | None => own = ∅ /\ protocol t h PIdle
  | Some (Idle locks) => holds locks own /\ protocol t h PIdle
  | Some (Busy locks o p) => exists ev, protocol t h (called o ev) /\ twp t o p own ev (answered locks o)
  end.
Definition config_ok (h : list label) (c : config) (g : ghost) : Prop :=
  ginv c.1 g /\ legal h (abs g) /\ forall t, thread_ok t h g (c.2 !! t).

Definition of_thread (t : tid) (l : label) : Prop :=
  match l with Inv u _ | Lin u _ _ | Res u _ _ => u = t end.

Lemma protocol_others u h l ph :
  protocol u h ph -> Forall (fun l => ~ of_thread u l) l -> protocol u (h ++ l) ph.
Proof.
  intros Hp Hl. revert h Hp. induction Hl as [|x l Hx Hl IH]; intros h Hp; [by rewrite app_nil_r|].
  replace (h ++ x :: l) with ((h ++ [x]) ++ l) by by rewrite <- app_assoc.
  apply IH. apply proto_other; [done|]. destruct x; intros ->; by apply Hx.
Qed.

(** A step of thread [t] leaves the other threads in order. *)
Lemma threads_ok t h l g g' (T : gmap tid thread) th :
  (forall u, thread_ok u h g (T !! u)) -> frame t g g' -> Forall (of_thread t) l ->
  thread_ok t (h ++ l) g' (Some th) -> forall u, thread_ok u (h ++ l) g' (<[t := th]> T !! u).
Proof.
  intros HT Hf Hl Ht u. destruct (decide (u = t)) as [->|Hne]; [by rewrite lookup_insert_eq|].
  rewrite lookup_insert_ne by done. destruct (HT u) as (own & Ha & Hth). exists own. split.
  - intros i k. rewrite (Ha i k). by apply Hf.
  - assert (Hpr : forall ph, protocol u h ph -> protocol u (h ++ l) ph).
    { intros ph Hp. apply protocol_others; [done|]. eapply Forall_impl; [|exact Hl].
      intros x Hx Hu. destruct x; simpl in *; congruence. }
    destruct (T !! u) as [[locks|locks o p]|]; [destruct Hth; split; auto| |destruct Hth; split; auto].
    destruct Hth as (ev & ? & ?). exists ev. auto.
Qed.

Lemma step_ok h c g l c' :
  config_ok h c g -> step c l c' -> exists l' g', List.filter visible l' = l /\ config_ok (h ++ l') c' g'.
Proof.
  intros (Hg & Hleg & HT) Hstep. destruct Hstep as [m T t locks o Ht Hal|m T t locks o a k z m' Ht Hp|m T t locks o r Ht];
    pose proof (HT t) as Hth; simpl in Hth; rewrite Ht in Hth; destruct Hth as (own & Ha & Hth); simpl in Hg, HT.
  - destruct Hth as [Hh Hpr]. exists [Inv t o], g. split; [done|]. split_and!; [done|by constructor|].
    apply (threads_ok t h _ g); [done|done|by repeat constructor|]. exists own. split; [done|].
    exists None. split; [by constructor|by apply call_ok].
  - destruct Hth as (ev & Hpr & Hwp). destruct (Hwp m g Hg Ha) as (z' & m1 & g' & own' & ev' & Hp' & Hg' & Ha' & Hf & Hl & Hk).
    rewrite Hp in Hp'. injection Hp' as <- <-. destruct Hl as [[-> Habs]|(r & -> & -> & Hs)].
    + exists [], g'. split; [done|]. rewrite app_nil_r. split_and!; [done|by rewrite Habs|].
      rewrite <- (app_nil_r h). apply (threads_ok t h _ g); [done|done|constructor|]. exists own'. split; [done|].
      exists ev. by rewrite app_nil_r.
    + exists [Lin t o r], g'. split; [done|]. split_and!; [done|by econstructor|].
      apply (threads_ok t h _ g); [done|done|by repeat constructor|]. exists own'. split; [done|].
      exists (Some r). split; [by constructor|done].
  - destruct Hth as (ev & Hpr & Hwp). destruct (Hwp m g Hg Ha) as (ev' & Hl & -> & Hh).
    destruct Hl as [[<- _]|(r' & -> & [= <-] & Hs)].
    + exists [Res t o r], g. split; [done|]. split_and!; [done|by constructor|].
      apply (threads_ok t h _ g); [done|done|by repeat constructor|]. exists own. split; [done|].
      split; [done|]. by apply proto_res.
    + exists [Lin t o r; Res t o r], g. split; [done|].
      replace (h ++ [Lin t o r; Res t o r]) with ((h ++ [Lin t o r]) ++ [Res t o r]) by by rewrite <- app_assoc.
      split_and!; [done|by constructor; econstructor|]. rewrite <- app_assoc.
      apply (threads_ok t h _ g); [done|done|by repeat constructor|]. exists own. split; [done|]. split; [done|].
      simpl. replace (h ++ [Lin t o r; Res t o r]) with ((h ++ [Lin t o r]) ++ [Res t o r]) by by rewrite <- app_assoc.
      by apply proto_res, proto_lin.
Qed.

Lemma exec_ok c0 h c g0 :
  config_ok [] c0 g0 -> exec c0 h c -> exists h' g, List.filter visible h' = h /\ config_ok h' c g.
Proof.
  intros H0 Hex. induction Hex as [|h c l c' _ IH Hstep]; [by exists [], g0|].
  destruct IH as (h' & g & <- & Hc). destruct (step_ok _ _ _ _ _ Hc Hstep) as (l' & g' & <- & Hc').
  exists (h' ++ l'), g'. split; [by rewrite List.filter_app|done].
Qed.

Lemma start_ok m T :
  represents size m ∅ -> (forall t th, T !! t = Some th -> th = Idle ∅) -> config_ok [] (m, T) (mk_ghost ∅ ∅ ∅).
Proof.
  intros Hr HT. split_and!; [|constructor|].
  - split; [apply Hr| |by intros; simpl; rewrite !lookup_empty].
    intros i Hi. simpl. rewrite !lookup_empty. split; [done|]. pose proof (rep_slot _ _ _ Hr i Hi) as Hs.
    by rewrite lookup_empty in Hs.
  - intros t. exists ∅. split; [intros i h; simpl; by rewrite !lookup_empty|]. simpl.
    destruct (T !! t) as [th|] eqn:Ht; [|by split; constructor]. rewrite (HT _ _ Ht).
    split; [|constructor]. split; [intros i h; by rewrite lookup_empty|set_solver].
Qed.

(** Threads that are between calls and hold nothing leave a plain map. *)
Lemma quiet_represents h c g :
  config_ok h c g -> (forall t th, c.2 !! t = Some th -> th = Idle ∅) -> represents size c.1 (gA g).
Proof.
  intros (Hg & _ & HT) Hq.
  assert (HH : forall i, gH g !! i = None).
  { intros i. destruct (gH g !! i) as [[t k]|] eqn:Hi; [|done]. exfalso.
    destruct (HT t) as (own & Ha & Hth). apply Ha in Hi. destruct (c.2 !! t) as [th|] eqn:Ht.
    - rewrite (Hq _ _ Ht) in Hth. destruct Hth as [[H1 _] _]. destruct (H1 _ _ Hi). set_solver.
    - destruct Hth as [-> _]. by rewrite lookup_empty in Hi. }
  split; [apply Hg| |].
  - intros i Hi. pose proof (gi_slot _ _ Hg i Hi) as Hs. rewrite HH in Hs. apply Hs.
  - intros i p Hp. destruct (decide (0 <= i < size)) as [|Hn]; [done|].
    destruct (gi_out _ _ Hg i Hn) as [HA _]. congruence.
Qed.

Lemma config_safe h c g : config_ok h c g -> ~ failed c.
Proof.
  intros (Hg & _ & HT) (t & locks & o & p & Ht & Hf). destruct (HT t) as (own & Ha & Hth). rewrite Ht in Hth.
  destruct Hth as (ev & _ & Hwp). destruct p as [r|a k| |]; [done| |by apply (Hwp c.1 g)|done].
  destruct (Hwp c.1 g Hg Ha) as (z & m' & ? & ? & ? & Hp & _). congruence.
Qed.

Lemma play_step c mv l c' : play c mv = Some (l, c') -> step c l c'.
Proof.
  destruct c as [m T]. destruct mv as [t o|t]; simpl; intros Hp.
  - destruct (T !! t) as [[locks|]|] eqn:Ht; try done. destruct (allowedb locks o) eqn:Ha; [|done].
    injection Hp as <- <-. constructor; [done|]. destruct o; simpl in *; try done.
    + by apply negb_true_iff, Z.eqb_neq in Ha.
    + apply andb_prop in Ha as [Ha%negb_true_iff%Z.eqb_neq Hb%bool_decide_eq_true]. done.
    + by apply negb_true_iff, Z.eqb_neq in Ha.
  - destruct (T !! t) as [[|locks o [r|a k| |]]|] eqn:Ht; try done.
    + injection Hp as <- <-. by constructor.
    + destruct (perform a m) as [[z m']|] eqn:Hpm; simplify_option_eq. by econstructor.
Qed.
Lemma schedule_exec c0 l h c : schedule c0 l = Some (h, c) -> exec c0 h c.
Proof.
  assert (forall h0 c1, exec c0 h0 c1 -> forall h, schedule c1 l = Some (h, c) -> exec c0 (h0 ++ h) c) as Hgen;
    [|intros Hs; apply (Hgen [] c0); [constructor|done]].
  induction l as [|mv l IH]; intros h0 c1 Hex h1 Hs; simpl in Hs.
  - injection Hs as <- <-. by rewrite app_nil_r.
  - destruct (play c1 mv) as [[l1 c2]|] eqn:Hp; [|done]. simpl in Hs.
    destruct (schedule c2 l) as [[l2 c3]|] eqn:Hs2; [|done]. simpl in Hs. injection Hs as <- ->.
    rewrite app_assoc. eapply IH; [|done]. eapply exec_step; [done|by eapply play_step].
Qed.

(** C9: The descriptor map is linearizable.  In every execution of any number of
    threads that call its functions, with any interleaving of their atomic accesses,
    no assertion fails and no access leaves the arrays, and the calls can be
    ordered, each between its invocation and its return, as a run of a finite map
    with the results that were returned: a put finds an unused index, an entry is
    taken by one thread, nothing changes an entry that is held critically.  When all
    threads are between calls and hold nothing, the memory represents that map. *)
Theorem fmap_linearizable m0 T0 h c :
  represents size m0 ∅ -> (forall t th, T0 !! t = Some th -> th = Idle ∅) -> exec (m0, T0) h c ->
  ~ failed c /\
  exists h' s, linearization h h' s /\
    ((forall t th, c.2 !! t = Some th -> th = Idle ∅) -> represents size c.1 s.1).
Proof.
  intros Hm HT Hex. destruct (exec_ok _ _ _ _ (start_ok _ _ Hm HT) Hex) as (h' & g & He & Hc).
  split; [by eapply config_safe|]. exists h', (abs g). split.
  - split_and!; [done|apply Hc|]. intros t. destruct Hc as (_ & _ & Hth). destruct (Hth t) as (own & _ & Ht).
    destruct (c.2 !! t) as [[]|]; [by eexists; apply Ht|destruct Ht as (ev & ? & _); by eexists|by eexists; apply Ht].
  - intros Hq. by eapply quiet_represents.
Qed.
End threads.

(** Two threads race for index 0 of an empty map of two indices: both find it free,
    thread 0 reserves it, thread 1 does not and takes index 1. *)
Definition sample_map : uk_fmap := mk_fmap [3] 2 [0; 0].
Definition sample_threads : gmap tid thread := {[ 0%nat := Idle ∅; 1%nat := Idle ∅ ]}.
Lemma sample_represents : represents 2 sample_map ∅.
Proof.
  split.
  - unfold bm_ok. simpl. split_and!; try done. repeat constructor; done.
  - intros i Hi. rewrite lookup_empty. assert (i = 0 \/ i = 1) as [-> | ->] by lia; by split.
  - intros i p. by rewrite lookup_empty.
Qed.
Lemma sample_idle t th : sample_threads !! t = Some th -> th = Idle ∅.
Proof. unfold sample_threads. intros Ht. apply lookup_insert_Some in Ht as [[_ <-]|[_ Ht]]; [done|]. by apply lookup_singleton_Some in Ht as [_ <-]. Qed.

Lemma fmap_linearizable_witness :
  exists h c, exec 2 3 (sample_map, sample_threads) h c /\
    h = [Inv 0%nat (OPut 8 0); Inv 1%nat (OPut 16 0); Res 0%nat (OPut 8 0) (0, None); Res 1%nat (OPut 16 0) (1, None)] /\
    ~ failed c /\
    exists h' s, linearization 2 h h' s /\
      ((forall t th, c.2 !! t = Some th -> th = Idle ∅) -> represents 2 c.1 s.1).
Proof.
  destruct (schedule 2 3 (sample_map, sample_threads)
    [Call 0%nat (OPut 8 0); Call 1%nat (OPut 16 0); Go 0%nat; Go 1%nat; Go 0%nat; Go 1%nat; Go 0%nat; Go 0%nat;
     Go 1%nat; Go 1%nat; Go 1%nat; Go 1%nat]) as [[h c]|] eqn:Hs; [|vm_compute in Hs; discriminate].
  exists h, c. pose proof (schedule_exec _ _ _ _ _ _ Hs) as Hex. split; [exact Hex|]. split.
  - vm_compute in Hs. injection Hs as <- _. reflexivity.
  - apply (fmap_linearizable 2 3 ltac:(lia) sample_map sample_threads h c sample_represents sample_idle Hex).
Defined.
