(* ===== verification/Fdtab.v ===== *)
(** * Files, open file descriptions and the descriptor table

    The reference counts of include/uk/refcount.h and weak_refcount.h, the life of a
    [struct uk_file] (lib/ukfile) and of a [struct uk_ofile] (lib/posix-fd), and the
    descriptor table lib/posix-fdtab/fdtab.c over the map of [Fmap].  The
    destructor of a file and the state of its driver are parameters.  Asserts of
    debug builds are kept. *)

From stdpp Require Import base option list gmap sets numbers functions.
From S2P Require Import Prelude Bitmap Fmap.

Definition EBADF : Z := 9.
Definition ENFILE : Z := 23.
Definition O_NONBLOCK : Z := 0x800.
Definition O_CLOEXEC : Z := 0x80000.

(** ** Reference counts *)

(** [uk_refcount_acquire] and [uk_refcount_release] on a 32-bit counter; [None] is
    a failed assertion.  The release tells whether the reference was the last. *)
Definition uk_refcount_acquire (c : Z) : option Z := if c <? 2 ^ 32 - 1 then Some (u32 (c + 1)) else None.
Definition uk_refcount_release (c : Z) : option (bool * Z) :=
  if 0 <? c then Some (negb (1 <? c), u32 (c - 1)) else None.

Record uk_swrefcount : Type := mk_sw { sw_refcount : Z; sw_strong : Z }.
Definition UK_SWREFCOUNT_LAST_STRONG : Z := 2.
Definition UK_SWREFCOUNT_LAST_REF : Z := 1.
Definition uk_swrefcount_acquire_weak (s : uk_swrefcount) : option uk_swrefcount :=
  r ← uk_refcount_acquire (sw_refcount s); Some (mk_sw r (sw_strong s)).
Definition uk_swrefcount_acquire (s : uk_swrefcount) : option uk_swrefcount :=
  s ← uk_swrefcount_acquire_weak s;
  r ← uk_refcount_acquire (sw_strong s); Some (mk_sw (sw_refcount s) r).
Definition uk_swrefcount_release_weak (s : uk_swrefcount) : option (Z * uk_swrefcount) :=
  '(last, r) ← uk_refcount_release (sw_refcount s);
  Some (if (last : bool) then UK_SWREFCOUNT_LAST_REF else 0, mk_sw r (sw_strong s)).
Definition uk_swrefcount_release (s : uk_swrefcount) : option (Z * uk_swrefcount) :=
  '(last, r) ← uk_refcount_release (sw_strong s);
  let ret := if (last : bool) then UK_SWREFCOUNT_LAST_STRONG else 0 in
  '(w, s) ← uk_swrefcount_release_weak (mk_sw (sw_refcount s) r);
  if negb (w =? 0) then (if ret =? 0 then None else Some (Z.lor ret UK_SWREFCOUNT_LAST_REF, s))
  else Some (ret, s).
(** [uk_swrefcount_try_acquire]; the counter is read once and no other thread
    changes it meanwhile. *)
Definition uk_swrefcount_try_acquire (s : uk_swrefcount) : option (bool * uk_swrefcount) :=
  s ← uk_swrefcount_acquire_weak s;
  if sw_strong s =? 0 then '(_, s) ← uk_swrefcount_release_weak s; Some (false, s)
  else r ← uk_refcount_acquire (sw_strong s); Some (true, mk_sw (sw_refcount s) r).

(** ** State *)

(** A file: its volume, its reference count and the registered finalizers
    ([struct uk_file_finref]). *)
Record uk_file : Type := mk_file { f_vol : Z; f_cnt : uk_swrefcount; f_fins : list Z }.
Definition set_cnt (c : uk_swrefcount) (f : uk_file) : uk_file := mk_file (f_vol f) c (f_fins f).
Definition set_fins (l : list Z) (f : uk_file) : uk_file := mk_file (f_vol f) (f_cnt f) l.

(** An open file description; files are named by identifiers. *)
Record uk_ofile : Type := mk_ofile { of_file : positive; of_pos : Z; of_mode : Z; of_refcnt : Z; of_name : list Z }.
Definition set_refcnt (r : Z) (o : uk_ofile) : uk_ofile :=
  mk_ofile (of_file o) (of_pos o) (of_mode o) r (of_name o).

Section fdtab.
(** The state of the drivers of files. *)
Context {X : Type}.

(** The table, the live descriptions and files, the number of allocations so far
    and the finalizers that have run. *)
Record fdworld : Type := mk_fdworld {
  fw_map : uk_fmap;
  fw_ofiles : gmap positive uk_ofile;
  fw_files : gmap positive uk_file;
  fw_allocs : nat;
  fw_finalized : list (positive * Z);
  fw_ext : X
}.
Definition fw_set_map (m : uk_fmap) (w : fdworld) : fdworld :=
  mk_fdworld m (fw_ofiles w) (fw_files w) (fw_allocs w) (fw_finalized w) (fw_ext w).
Definition fw_set_ofiles (m : gmap positive uk_ofile) (w : fdworld) : fdworld :=
  mk_fdworld (fw_map w) m (fw_files w) (fw_allocs w) (fw_finalized w) (fw_ext w).
Definition fw_set_files (m : gmap positive uk_file) (w : fdworld) : fdworld :=
  mk_fdworld (fw_map w) (fw_ofiles w) m (fw_allocs w) (fw_finalized w) (fw_ext w).
Definition fw_set_allocs (n : nat) (w : fdworld) : fdworld :=
  mk_fdworld (fw_map w) (fw_ofiles w) (fw_files w) n (fw_finalized w) (fw_ext w).
Definition fw_set_finalized (l : list (positive * Z)) (w : fdworld) : fdworld :=
  mk_fdworld (fw_map w) (fw_ofiles w) (fw_files w) (fw_allocs w) l (fw_ext w).
Definition fw_set_ext (x : X) (w : fdworld) : fdworld :=
  mk_fdworld (fw_map w) (fw_ofiles w) (fw_files w) (fw_allocs w) (fw_finalized w) x.

#[local] Abbreviation MF := (M fdworld).

Definition lift_map {A} (m : M uk_fmap A) : MF A := fun w =>
  match m (fw_map w) with
  | Done (a, m') => Done (a, fw_set_map m' w)
  | Abort => Abort
  | OutOfFuel => OutOfFuel
  end.
Definition lift_ext {A} (m : M X A) : MF A := fun w =>
  match m (fw_ext w) with
  | Done (a, x) => Done (a, fw_set_ext x w)
  | Abort => Abort
  | OutOfFuel => OutOfFuel
  end.
Definition need {S A} (o : option A) : M S A := match o with Some a => mret a | None => abort end.

(** Configuration: finalizers ([CONFIG_LIBUKFILE_FINALIZERS]), the size of the table
    and the bound on retries of its map.  The environment: the block an allocation
    returns, given the live blocks, and the destructor of a file. *)
Context (finalizers : bool) (UK_FDTAB_SIZE : Z) (retries : nat).
Context (uk_malloc : nat -> gset positive -> option positive) (_release : positive -> Z -> M X unit).

Definition malloc : MF (option positive) :=
  n ← gets fw_allocs;
  live ← gets (fun w => dom (fw_ofiles w));
  modify (fw_set_allocs (S n));;
  mret (uk_malloc n live).

(** ** Files *)

Definition get_file (f : positive) : MF uk_file := deref (fun w => fw_files w !! f).
Definition put_file (f : positive) (x : uk_file) : MF unit :=
  modify (fun w => fw_set_files (<[f := x]> (fw_files w)) w).

Definition uk_file_acquire (f : positive) : MF unit :=
  x ← get_file f; c ← need (uk_swrefcount_acquire (f_cnt x)); put_file f (set_cnt c x).
Definition uk_file_acquire_weak (f : positive) : MF unit :=
  x ← get_file f; c ← need (uk_swrefcount_acquire_weak (f_cnt x)); put_file f (set_cnt c x).
Definition uk_file_try_acquire (f : positive) : MF bool :=
  x ← get_file f;
  '(b, c) ← need (uk_swrefcount_try_acquire (f_cnt x));
  put_file f (set_cnt c x);; mret b.

(** The call of the destructor, which frees the object when asked to. *)
Definition release_file (f : positive) (r : Z) : MF unit :=
  lift_ext (_release f r);;
  if flag_set r UK_SWREFCOUNT_LAST_REF then modify (fun w => fw_set_files (delete f (fw_files w)) w)
  else mret tt.
(** [uk_file_finref_finalize]: the finalizers in order. *)
Definition finalize (f : positive) : MF unit :=
  if finalizers then
    x ← get_file f;
    modify (fun w => fw_set_finalized (fw_finalized w ++ map (pair f) (f_fins x)) w)
  else mret tt.
Definition uk_file_release (f : positive) : MF unit :=
  x ← get_file f;
  '(r, c) ← need (uk_swrefcount_release (f_cnt x));
  put_file f (set_cnt c x);;
  (if negb (r =? 0) then release_file f r else mret tt);;
  (if negb (Z.lor r UK_SWREFCOUNT_LAST_STRONG =? 0) then finalize f else mret tt).
Definition uk_file_release_weak (f : positive) : MF unit :=
  x ← get_file f;
  '(r, c) ← need (uk_swrefcount_release_weak (f_cnt x));
  put_file f (set_cnt c x);;
  (if negb (r =? 0) then release_file f r else mret tt).

Definition uk_file_finref_register (f : positive) (cb : Z) : MF unit :=
  x ← get_file f;
  UK_ASSERT (negb (sw_strong (f_cnt x) =? 0));;
  put_file f (set_fins (cb :: f_fins x) x).
Fixpoint unlink (cb : Z) (l : list Z) : list Z :=
  match l with [] => [] | x :: l => if x =? cb then l else x :: unlink cb l end.
Definition uk_file_finref_unregister (f : positive) (cb : Z) : MF unit :=
  x ← get_file f;
  if sw_strong (f_cnt x) =? 0 then mret tt else put_file f (set_fins (unlink cb (f_fins x)) x).

(** ** Open file descriptions *)

Definition UKFD_O_NOSEEK : Z := 8.
Definition UKFD_O_NOIOLOCK : Z := 16.
Definition UKFD_O_NAMED : Z := 32.

(** The address of the description in a given block; blocks are aligned. *)
Definition ofile_ptr (k : positive) : Z := 16 * Zpos k.
Definition ptr_ofile (p : Z) : positive := Z.to_pos (p / 16).

Definition get_ofile (k : positive) : MF uk_ofile := deref (fun w => fw_ofiles w !! k).
Definition put_ofile (k : positive) (x : uk_ofile) : MF unit :=
  modify (fun w => fw_set_ofiles (<[k := x]> (fw_ofiles w)) w).

(** [uk_ofile_new] with [uk_ofile_init], and the name written by the caller. *)
Definition uk_ofile_new (f : positive) (mode : Z) (name : list Z) : MF (option positive) :=
  ret ← malloc;
  match ret with
  | None => mret None
  | Some k =>
      let mode := match name with [] => mode | _ => Z.lor mode UKFD_O_NAMED end in
      uk_file_acquire f;;
      put_ofile k (mk_ofile f 0 (Z.land mode (Z.lnot O_CLOEXEC)) 1 name);;
      mret (Some k)
  end.
Definition uk_ofile_free (k : positive) : MF unit :=
  modify (fun w => fw_set_ofiles (delete k (fw_ofiles w)) w).
Definition uk_ofile_acquire (k : positive) : MF unit :=
  x ← get_ofile k; r ← need (uk_refcount_acquire (of_refcnt x)); put_ofile k (set_refcnt r x).
Definition uk_ofile_release (k : positive) : MF unit :=
  x ← get_ofile k;
  '(last, r) ← need (uk_refcount_release (of_refcnt x));
  put_ofile k (set_refcnt r x);;
  if (last : bool) then uk_file_release (of_file x);; uk_ofile_free k else mret tt.

(** ** The table *)

Definition UK_FDTAB_CLOEXEC : Z := 1.
Definition FLAG_MASK : Z := Z.shiftl 1 1 - 1.
Definition fdtab_encode (f flags : Z) : MF Z := UK_ASSERT (Z.land f FLAG_MASK =? 0);; mret (Z.lor f flags).
Definition fdtab_decode (p : Z) : Z * Z := (Z.land p (lnot64 FLAG_MASK), Z.land p FLAG_MASK).

Definition fmap_put (p min : Z) : MF Z := lift_map (run (uk_fmap_put UK_FDTAB_SIZE retries p min)).
Definition fmap_take (fd : Z) : MF Z := lift_map (run (uk_fmap_take UK_FDTAB_SIZE retries fd)).
Definition fmap_lookup (fd : Z) : MF Z := lift_map (run (uk_fmap_lookup UK_FDTAB_SIZE retries fd)).
Definition fmap_critical_take (fd : Z) : MF Z := lift_map (run (uk_fmap_critical_take UK_FDTAB_SIZE retries fd)).
Definition fmap_critical_put (fd p : Z) : MF Z := lift_map (run (uk_fmap_critical_put UK_FDTAB_SIZE fd p)).
Definition fmap_xchg (fd p : Z) : MF (Z * option Z) := lift_map (run (uk_fmap_xchg UK_FDTAB_SIZE retries fd p)).

Definition file_acq (p : Z) : MF unit := uk_ofile_acquire (ptr_ofile p).
Definition file_rel (p : Z) : MF unit := uk_ofile_release (ptr_ofile p).

Definition uk_fdtab_open_desc (k : positive) (mode : Z) : MF Z :=
  entry ← fdtab_encode (ofile_ptr k) (if flag_set mode O_CLOEXEC then UK_FDTAB_CLOEXEC else 0);
  fd ← fmap_put entry 0;
  mret (if UK_FDTAB_SIZE <=? fd then - ENFILE else fd).
Definition uk_fdtab_open_named (f : positive) (mode : Z) (name : list Z) : MF Z :=
  ofp ← uk_ofile_new f mode name;
  match ofp with
  | None => mret (- ENOMEM)
  | Some k =>
      fd ← uk_fdtab_open_desc k mode;
      (if fd <? 0 then uk_ofile_release k else mret tt);;
      mret fd
  end.
Definition uk_fdtab_open (f : positive) (mode : Z) : MF Z := uk_fdtab_open_named f mode [].

Definition uk_fdtab_setflags (fd flags : Z) : MF Z :=
  if negb (Z.land flags (Z.lnot O_CLOEXEC) =? 0) then mret (- EINVAL)
  else
    p ← fmap_critical_take fd;
    if p =? 0 then mret (- EBADF)
    else
      let '(v, f) := fdtab_decode p in
      let f := Z.lor (Z.land f (Z.lnot UK_FDTAB_CLOEXEC)) (if flags =? 0 then 0 else UK_FDTAB_CLOEXEC) in
      newp ← fdtab_encode v f;
      fmap_critical_put fd newp;;
      mret 0.
Definition uk_fdtab_getflags (fd : Z) : MF Z :=
  p ← fmap_lookup fd;
  if p =? 0 then mret (- EBADF)
  else mret (if flag_set (fdtab_decode p).2 UK_FDTAB_CLOEXEC then O_CLOEXEC else 0).

(** [_fdtab_get]: the pointer, NULL if there is none, and its flags. *)
Definition fdtab_get (fd : Z) : MF (Z * Z) :=
  if fd <? 0 then mret (0, 0)
  else
    p ← fmap_critical_take fd;
    if p =? 0 then mret (0, 0)
    else
      let v := fdtab_decode p in
      file_acq v.1;;
      fmap_critical_put fd p;;
      mret v.
Definition uk_fdtab_get (fd : Z) : MF (option positive) :=
  '(p, _) ← fdtab_get fd;
  mret (if p =? 0 then None else Some (ptr_ofile p)).

Fixpoint cleanup_loop (all : bool) (i : Z) (n : nat) : MF unit :=
  match n with
  | O => mret tt
  | S n =>
      p ← fmap_lookup i;
      (if p =? 0 then mret tt
       else
         let '(v, f) := fdtab_decode p in
         if all || flag_set f UK_FDTAB_CLOEXEC then
           pp ← fmap_take i;
           UK_ASSERT (p =? pp);;
           file_rel v
         else mret tt);;
      cleanup_loop all (i + 1) n
  end.
Definition fdtab_cleanup (all : bool) : MF unit := cleanup_loop all 0 (Z.to_nat UK_FDTAB_SIZE).
Definition uk_fdtab_cloexec : MF unit := fdtab_cleanup false.
Definition term_posix_fdtab : MF unit := fdtab_cleanup true.

(** ** The system calls *)

Definition uk_sys_close (fd : Z) : MF Z :=
  p ← fmap_take fd;
  if p =? 0 then mret (- EBADF)
  else file_rel (fdtab_decode p).1;; mret 0.

Definition dup_flags (f flags : Z) : Z :=
  Z.lor (Z.land f (Z.lnot UK_FDTAB_CLOEXEC)) (if flags =? 0 then 0 else UK_FDTAB_CLOEXEC).
Definition uk_sys_dup3 (oldfd newfd flags : Z) : MF Z :=
  if oldfd =? newfd then mret (- EINVAL)
  else if (oldfd <? 0) || (UK_FDTAB_SIZE <=? oldfd) || (newfd <? 0) || (UK_FDTAB_SIZE <=? newfd) then mret (- EBADF)
  else if negb (Z.land flags (Z.lnot O_CLOEXEC) =? 0) then mret (- EINVAL)
  else
    '(p, f) ← fdtab_get oldfd;
    if p =? 0 then mret (- EBADF)
    else
      newent ← fdtab_encode p (dup_flags f flags);
      '(r, prevp) ← fmap_xchg newfd newent;
      UK_ASSERT (r =? 0);;
      (match prevp with None => mret tt | Some q => file_rel (fdtab_decode q).1 end);;
      mret newfd.
Definition uk_sys_dup2 (oldfd newfd : Z) : MF Z :=
  if oldfd =? newfd then
    p ← fmap_lookup oldfd; mret (if p =? 0 then - EBADF else newfd)
  else uk_sys_dup3 oldfd newfd 0.
Definition uk_sys_dup_min (oldfd min flags : Z) : MF Z :=
  if oldfd <? 0 then mret (- EBADF)
  else if negb (Z.land flags (Z.lnot O_CLOEXEC) =? 0) then mret (- EINVAL)
  else
    '(p, f) ← fdtab_get oldfd;
    if p =? 0 then mret (- EBADF)
    else
      newent ← fdtab_encode p (dup_flags f flags);
      fd ← fmap_put newent min;
      if UK_FDTAB_SIZE <=? fd then file_rel p;; mret (- ENFILE)
      else mret fd.
Definition uk_sys_dup (oldfd : Z) : MF Z := uk_sys_dup_min oldfd 0 0.

(** The table as a finite map: descriptions and close-on-exec flags. *)
Abbreviation table := (gmap Z (positive * bool)).

(** ** Opening a socket *)

Definition O_RDWR : Z := 2.
Definition SOCKET_MODE : Z := Z.lor O_RDWR (Z.lor UKFD_O_NOSEEK UKFD_O_NOIOLOCK).
Definition POSIX_SOCKET_FNAME : list Z := [115; 111; 99; 107; 101; 116].

(** [posix-socket] creates the file, with one reference, and [uk_sys_socket] gives it
    a descriptor.  The layer below is a parameter: an error code or the new file. *)
Context (POSIX_SOCKET_VOLID SOCK_NONBLOCK SOCK_CLOEXEC : Z).
Context (uk_socket_create : Z -> Z -> Z -> M X (Z + positive)).

Definition socket_mode (type : Z) : Z :=
  let mode := if flag_set type SOCK_NONBLOCK then Z.lor SOCKET_MODE O_NONBLOCK else SOCKET_MODE in
  if flag_set type SOCK_CLOEXEC then Z.lor mode O_CLOEXEC else mode.
(** A descriptor for a new file, whose first reference is dropped: the end of
    [uk_sys_socket] and of [uk_sys_accept]. *)
Definition install (f : positive) (mode : Z) (name : list Z) : MF Z :=
  put_file f (mk_file POSIX_SOCKET_VOLID (mk_sw 1 1) []);;
  fd ← uk_fdtab_open_named f mode name;
  uk_file_release f;;
  mret fd.
Definition uk_sys_socket (family type protocol : Z) : MF Z :=
  sock ← lift_ext (uk_socket_create family type protocol);
  match sock with
  | inl e => mret e
  | inr f => install f (socket_mode type) POSIX_SOCKET_FNAME
  end.

(** ** Calls on a socket *)

Definition ENOTSOCK : Z := 88.
Definition socketfd_get (fd : Z) : MF (Z + positive) :=
  ofp ← uk_fdtab_get fd;
  match ofp with
  | None => mret (inl (- EBADF))
  | Some k =>
      o ← get_ofile k;
      x ← get_file (of_file o);
      if negb (f_vol x =? POSIX_SOCKET_VOLID) then uk_ofile_release k;; mret (inl (- ENOTSOCK))
      else mret (inr k)
  end.
(** The frame of these calls: the description of the descriptor, an operation given
    its file and its mode, and the release. *)
Definition on_socket {A} (fd : Z) (err : Z -> A) (op : positive -> Z -> MF A) : MF A :=
  r ← socketfd_get fd;
  match r with
  | inl e => mret (err e)
  | inr k =>
      o ← get_ofile k;
      ret ← op (of_file o) (of_mode o);
      uk_ofile_release k;;
      mret ret
  end.

Definition POSIX_SOCKET_ACCT_FNAME : list Z := [115; 111; 99; 107; 101; 116; 58; 97; 99; 99; 101; 112; 116; 101; 100].
(** [uk_sys_accept], given what [uk_socket_accept] does. *)
Definition uk_sys_accept (uk_socket_accept : M X (Z + positive)) (flags : Z) : MF Z :=
  sockfile ← lift_ext uk_socket_accept;
  match sockfile with
  | inl e => mret e
  | inr f => install f (socket_mode flags) POSIX_SOCKET_ACCT_FNAME
  end.
Definition do_accept4 (uk_socket_accept : positive -> Z -> M X (Z + positive)) (fd flags : Z) : MF Z :=
  on_socket fd id (fun f mode => uk_sys_accept (uk_socket_accept f mode) flags).

(** * Proofs *)

Ltac fw_norm :=
  unfold fw_set_map, fw_set_ofiles, fw_set_files, fw_set_allocs, fw_set_finalized, fw_set_ext;
  cbn [fw_map fw_ofiles fw_files fw_allocs fw_finalized fw_ext].

Ltac fw_use H := generalize H; fw_norm; let K := fresh in intros K; apply K; clear K.

(** ** Encoded entries *)

(** A descriptor: its description and its close-on-exec flag. *)
Definition enc (e : positive * bool) : Z := Z.lor (ofile_ptr e.1) (if e.2 then UK_FDTAB_CLOEXEC else 0).

Lemma enc_value e : enc e = 16 * Zpos e.1 + Z.b2z e.2.
Proof.
  destruct e as [k []]; unfold enc, ofile_ptr, UK_FDTAB_CLOEXEC; simpl Z.b2z; simpl fst.
  - replace (16 * Zpos k + 1) with (1 + 2 ^ 4 * Zpos k) by lia. replace (16 * Zpos k) with (Z.shiftl (Zpos k) 4) by (rewrite Z.shiftl_mul_pow2; lia).
    apply Z.bits_inj'. intros i Hi. rewrite Z.lor_spec, Z.shiftl_spec, split_testbit by lia.
    destruct (Z.ltb_spec i 4); [by rewrite Z.testbit_neg_r by lia|].
    rewrite (low_testbit 4 1) by lia. by rewrite orb_false_r.
  - rewrite Z.lor_0_r. lia.
Qed.
Lemma enc_nonzero e : enc e <> 0.
Proof. rewrite enc_value. destruct e as [k []]; simpl; lia. Qed.

Lemma ptr_ofile_ptr k : ptr_ofile (ofile_ptr k) = k.
Proof. unfold ptr_ofile, ofile_ptr. rewrite Z.mul_comm, Z.div_mul by lia. by rewrite Pos2Z.id. Qed.
Lemma ofile_ptr_nonzero k : (ofile_ptr k =? 0) = false.
Proof. unfold ofile_ptr. apply Z.eqb_neq. lia. Qed.

(** Decoding an entry gives the pointer and the flag; addresses have 64 bits. *)
Lemma decode_enc k c :
  16 * Zpos k + 16 <= 2 ^ 64 -> fdtab_decode (enc (k, c)) = (ofile_ptr k, if c then UK_FDTAB_CLOEXEC else 0).
Proof.
  intros Hk. unfold fdtab_decode. change FLAG_MASK with 1. rewrite enc_value. simpl fst. simpl snd. f_equal.
  - apply Z.bits_inj'. intros i Hi. rewrite Z.land_spec. unfold ofile_ptr.
    replace (16 * Zpos k + Z.b2z c) with (Z.b2z c + 2 ^ 4 * Zpos k) by lia.
    replace (16 * Zpos k) with (0 + 2 ^ 4 * Zpos k) by lia.
    assert (0 <= Z.b2z c < 2 ^ 4) by (destruct c; simpl; lia). rewrite !split_testbit by lia.
    destruct (Z.lt_ge_cases i 64).
    + rewrite lnot64_testbit by lia. destruct (Z.ltb_spec i 4).
      * rewrite Z.bits_0. destruct (Z.eq_dec i 0) as [->|]; [apply andb_false_r|].
        rewrite (low_testbit 1 (Z.b2z c)) by (destruct c; simpl; lia). done.
      * rewrite (low_testbit 1 1) by lia. by rewrite andb_true_r.
    + destruct (Z.ltb_spec i 4); [lia|]. rewrite (word_testbit (lnot64 1)) by (apply lnot64_ok || lia).
      rewrite andb_false_r. symmetry. apply (low_testbit 60); lia.
  - change 1 with (Z.ones 1) at 1. rewrite Z.land_ones by lia. change (2 ^ 1) with 2.
    replace (16 * Zpos k + Z.b2z c) with (Z.b2z c + 8 * Zpos k * 2) by lia. rewrite Z.mod_add by lia. by destruct c.
Qed.

Lemma wp_encode k (c : bool) (Q : Z -> fdworld -> Prop) w :
  Q (enc (k, c)) w -> wp (fdtab_encode (ofile_ptr k) (if c then UK_FDTAB_CLOEXEC else 0)) Q w.
Proof.
  intros HQ. unfold fdtab_encode. change FLAG_MASK with 1.
  assert ((Z.land (ofile_ptr k) 1 =? 0) = true) as Hz.
  { change 1 with (Z.ones 1). rewrite Z.land_ones by lia. unfold ofile_ptr. change (2 ^ 1) with 2.
    replace (16 * Zpos k) with (8 * Zpos k * 2) by lia. by rewrite Z.mod_mul by lia. }
  unfold wp, UK_ASSERT. rewrite Hz. done.
Qed.

(** ** Counting references *)

Definition tally {K V} `{Countable K} (P : V -> bool) (m : gmap K V) : Z :=
  zlen (List.filter (fun kv => P kv.2) (map_to_list m)).
Definition cnt (k : positive) (l : list positive) : Z := zlen (List.filter (fun x => Pos.eqb x k) l).

Section tally.
Context {K V : Type} `{Countable K} (P : V -> bool).

Lemma filter_perm (l l' : list (K * V)) :
  l ≡ₚ l' -> zlen (List.filter (fun kv => P kv.2) l) = zlen (List.filter (fun kv => P kv.2) l').
Proof.
  induction 1; simpl; try done; repeat case_match; rewrite ?zlen_cons; lia.
Qed.
Lemma tally_empty : tally P (∅ : gmap K V) = 0.
Proof. unfold tally. by rewrite map_to_list_empty. Qed.
Lemma tally_insert i x (m : gmap K V) :
  m !! i = None -> tally P (<[i:=x]> m) = (if P x then 1 else 0) + tally P m.
Proof.
  intros Hi. unfold tally. rewrite (filter_perm _ _ (map_to_list_insert m i x Hi)). simpl.
  destruct (P x); rewrite ?zlen_cons; lia.
Qed.
Lemma tally_delete i x (m : gmap K V) :
  m !! i = Some x -> tally P (delete i m) = tally P m - (if P x then 1 else 0).
Proof.
  intros Hi. rewrite <- (insert_delete_id m i x Hi) at 2. rewrite tally_insert by apply lookup_delete_eq. lia.
Qed.
Lemma tally_replace i x y (m : gmap K V) :
  m !! i = Some y -> tally P (<[i:=x]> m) = tally P m - (if P y then 1 else 0) + (if P x then 1 else 0).
Proof.
  intros Hi. rewrite <- insert_delete_eq, tally_insert by apply lookup_delete_eq. rewrite (tally_delete i y) by done. lia.
Qed.
Lemma tally_nonneg (m : gmap K V) : 0 <= tally P m.
Proof. apply zlen_nonneg. Qed.
Lemma tally_pos i x (m : gmap K V) : m !! i = Some x -> P x = true -> 0 < tally P m.
Proof. intros Hi HP. pose proof (tally_delete i x m Hi) as Hd. rewrite HP in Hd. pose proof (tally_nonneg (delete i m)). lia. Qed.
Lemma tally_exists (m : gmap K V) : 0 < tally P m -> exists i x, m !! i = Some x /\ P x = true.
Proof.
  unfold tally. intros Hp. destruct (List.filter (fun kv => P kv.2) (map_to_list m)) as [|[i x] l] eqn:Hl; [done|].
  assert (Hin : In (i, x) (List.filter (fun kv => P kv.2) (map_to_list m))) by (rewrite Hl; by left).
  apply filter_In in Hin as [Hin HP]. exists i, x. split; [|done].
  apply elem_of_map_to_list. by apply list_elem_of_In.
Qed.
Lemma tally_le (m : gmap K V) : tally P m <= Z.of_nat (base.size m).
Proof.
  unfold tally, zlen. rewrite <- length_map_to_list. pose proof (List.filter_length_le (fun kv => P kv.2) (map_to_list m)). lia.
Qed.
End tally.

Lemma cnt_cons k x l : cnt k (x :: l) = (if Pos.eqb x k then 1 else 0) + cnt k l.
Proof. unfold cnt. simpl. destruct (Pos.eqb x k); rewrite ?zlen_cons; lia. Qed.
Lemma cnt_nonneg k l : 0 <= cnt k l.
Proof. apply zlen_nonneg. Qed.
Lemma cnt_le k l : cnt k l <= zlen l.
Proof. unfold cnt, zlen. pose proof (List.filter_length_le (fun x => Pos.eqb x k) l). lia. Qed.

(** ** The invariant *)

(** The objects behind the live files. *)
Context (owns : X -> gset positive -> Prop).

(** The environment: a new block is not in use and lies in the address space; the
    destructor of a file whose last reference is gone releases that file only, and a
    new file is none of the live ones. *)
Class FileEnv : Prop := {
  malloc_fresh n live k : uk_malloc n live = Some k -> (k ∉ live) /\ 16 * Zpos k + 16 <= 2 ^ 64;
  release_owned f x L : owns x L -> f ∈ L -> wp (_release f 3) (fun _ x' => owns x' (L ∖ {[f]})) x;
  create_owned family type protocol x L : owns x L ->
    wp (uk_socket_create family type protocol) (fun r x' =>
      match r with inl e => e < 0 /\ owns x' L | inr f => (f ∉ L) /\ owns x' (L ∪ {[f]}) end) x
}.

Context (Hsize : 0 <= UK_FDTAB_SIZE < 2 ^ 31) (Hretries : (0 < retries)%nat) `{Henv : FileEnv}.

(** The file and the mode of each description. *)
Section desc.
Context (D : positive -> positive * Z).

(** [T] is the table, [hold] and [fhold] are the references to descriptions and
    files that running calls and other parts of the system hold. *)
Definition ofile_inv (T : gmap Z (positive * bool)) (hold : list positive) (O : gmap positive uk_ofile) : Prop :=
  forall k, let n := tally (fun e => Pos.eqb e.1 k) T + cnt k hold in
  match O !! k with
  | Some o => of_refcnt o = n /\ 0 < n < 2 ^ 32 /\ 16 * Zpos k + 16 <= 2 ^ 64 /\ D k = (of_file o, of_mode o)
  | None => n = 0
  end.
Definition file_inv (O : gmap positive uk_ofile) (fhold : list positive) (F : gmap positive uk_file) : Prop :=
  forall f, let n := tally (fun o => Pos.eqb (of_file o) f) O + cnt f fhold in
  match F !! f with
  | Some x => f_cnt x = mk_sw n n /\ 0 < n < 2 ^ 32
  | None => n = 0
  end.

Record fd_inv (T : gmap Z (positive * bool)) (hold fhold : list positive) (w : fdworld) : Prop := {
  fi_map : represents UK_FDTAB_SIZE (fw_map w) (enc <$> T);
  fi_ofiles : ofile_inv T hold (fw_ofiles w);
  fi_files : file_inv (fw_ofiles w) fhold (fw_files w);
  fi_owns : owns (fw_ext w) (dom (fw_files w))
}.

(** ** References to files *)

Lemma wp_need {S A} (o : option A) a (Q : A -> S -> Prop) s : o = Some a -> Q a s -> wp (need o) Q s.
Proof. by intros ->. Qed.

Lemma wp_lift_ext {A} (m : M X A) (Q : A -> fdworld -> Prop) w :
  wp m (fun a x => Q a (fw_set_ext x w)) (fw_ext w) -> wp (lift_ext m) Q w.
Proof. unfold wp, lift_ext. by destruct (m (fw_ext w)) as [[a x]| |]. Qed.
Lemma wp_lift_map {A} (m : M uk_fmap A) (Q : A -> fdworld -> Prop) w :
  wp m (fun a x => Q a (fw_set_map x w)) (fw_map w) -> wp (lift_map m) Q w.
Proof. unfold wp, lift_map. by destruct (m (fw_map w)) as [[a x]| |]. Qed.

Lemma file_inv_hold O fhold F f :
  file_inv O (f :: fhold) F -> exists x n, F !! f = Some x /\ f_cnt x = mk_sw n n /\ 0 < n < 2 ^ 32 /\
    n = tally (fun o => Pos.eqb (of_file o) f) O + cnt f fhold + 1.
Proof.
  intros HF. specialize (HF f). cbv zeta in HF. rewrite cnt_cons, Pos.eqb_refl in HF.
  destruct (F !! f) as [x|].
  - destruct HF as [Hx Hn]. exists x. eexists. split_and!; [done|exact Hx|lia|lia|lia].
  - pose proof (tally_nonneg (fun o => Pos.eqb (of_file o) f) O). pose proof (cnt_nonneg f fhold). lia.
Qed.

Lemma file_inv_other O O' fhold fhold' F f x :
  file_inv O fhold F ->
  (forall g, g <> f -> tally (fun o => Pos.eqb (of_file o) g) O' + cnt g fhold' = tally (fun o => Pos.eqb (of_file o) g) O + cnt g fhold) ->
  (match x with
   | Some x => let n := tally (fun o => Pos.eqb (of_file o) f) O' + cnt f fhold' in f_cnt x = mk_sw n n /\ 0 < n < 2 ^ 32
   | None => tally (fun o => Pos.eqb (of_file o) f) O' + cnt f fhold' = 0
   end) ->
  file_inv O' fhold' (match x with Some x => <[f:=x]> F | None => delete f F end).
Proof.
  intros HF Hother Hx g. cbv zeta. destruct (decide (g = f)) as [->|Hne].
  - destruct x as [x|]; [by rewrite lookup_insert_eq|by rewrite lookup_delete_eq].
  - rewrite Hother by done. specialize (HF g). cbv zeta in HF.
    destruct x as [x|]; [by rewrite lookup_insert_ne by done|by rewrite lookup_delete_ne by done].
Qed.

(** Dropping a held reference; the last one destroys the file. *)
Lemma file_release_spec O fhold f w (Q : unit -> fdworld -> Prop) :
  finalizers = false -> file_inv O (f :: fhold) (fw_files w) ->
  owns (fw_ext w) (dom (fw_files w)) ->
  (forall F x, file_inv O fhold F -> owns x (dom F) -> Q tt (fw_set_ext x (fw_set_files F w))) ->
  wp (uk_file_release f) Q w.
Proof.
  intros Hfin HF Hal HQ. destruct (file_inv_hold _ _ _ _ HF) as (x & n & Hx & Hc & Hn & Hval).
  pose proof (tally_nonneg (fun o => Pos.eqb (of_file o) f) O) as Ht. pose proof (cnt_nonneg f fhold) as Hct.
  unfold uk_file_release. apply wp_bind. eapply wp_deref; [done|]. apply wp_bind.
  assert (Hother : forall g, g <> f -> tally (fun o => Pos.eqb (of_file o) g) O + cnt g fhold =
    tally (fun o => Pos.eqb (of_file o) g) O + cnt g (f :: fhold)).
  { intros g Hg. rewrite cnt_cons. destruct (Pos.eqb_spec f g); [congruence|lia]. }
  destruct (Z.eq_dec n 1) as [Hone|Hmany].
  - apply (wp_need _ (3, mk_sw 0 0)); [rewrite Hc, Hone; reflexivity|]. apply wp_bind, wp_modify.
    cbn [negb Z.eqb]. apply wp_bind. unfold release_file. apply wp_bind, wp_lift_ext.
    eapply wp_mono; [|apply (release_owned f _ _ Hal); by apply elem_of_dom_2 in Hx]. intros [] x' Hx'. cbn [fw_set_files fw_ext] in *.
    apply wp_modify. cbn [negb Z.eqb Z.lor Pos.lor]. unfold finalize. rewrite Hfin.
    apply wp_ret. cbn. rewrite delete_insert_eq. fw_use (HQ (delete f (fw_files w)) x').
    + apply (file_inv_other O O (f :: fhold) fhold _ f None); [done|done|lia].
    + by rewrite dom_delete_L.
  - assert (Hrel : uk_swrefcount_release (f_cnt x) = Some (0, mk_sw (n - 1) (n - 1))).
    { rewrite Hc. unfold uk_swrefcount_release, uk_swrefcount_release_weak, uk_refcount_release. cbn [sw_strong sw_refcount].
      destruct (Z.ltb_spec 0 n), (Z.ltb_spec 1 n); try lia. simpl. rewrite (wrap_small 32) by lia. done. }
    apply (wp_need _ _ _ _ Hrel). apply wp_bind, wp_modify. cbn [negb Z.eqb]. apply wp_bind, wp_ret.
    cbn [negb Z.eqb Z.lor]. unfold finalize. rewrite Hfin. apply wp_ret.
    fw_use (HQ (<[f:=set_cnt (mk_sw (n - 1) (n - 1)) x]> (fw_files w)) (fw_ext w)).
    + apply (file_inv_other O O (f :: fhold) fhold _ f (Some _)); [done|done|]. cbn. split; [f_equal; lia|lia].
    + rewrite dom_insert_L. apply elem_of_dom_2 in Hx. replace ({[f]} ∪ dom (fw_files w)) with (dom (fw_files w)) by set_solver. done.
Qed.

(** ** References to descriptions *)

Lemma ofile_inv_other T T' hold hold' O k x :
  ofile_inv T hold O ->
  (forall g, g <> k -> tally (fun e => Pos.eqb e.1 g) T' + cnt g hold' = tally (fun e => Pos.eqb e.1 g) T + cnt g hold) ->
  (match x with
   | Some x => let n := tally (fun e => Pos.eqb e.1 k) T' + cnt k hold' in
       of_refcnt x = n /\ 0 < n < 2 ^ 32 /\ 16 * Zpos k + 16 <= 2 ^ 64 /\ D k = (of_file x, of_mode x)
   | None => tally (fun e => Pos.eqb e.1 k) T' + cnt k hold' = 0
   end) ->
  ofile_inv T' hold' (match x with Some x => <[k:=x]> O | None => delete k O end).
Proof.
  intros HO Hother Hx g. cbv zeta. destruct (decide (g = k)) as [->|Hne].
  - destruct x as [x|]; [by rewrite lookup_insert_eq|by rewrite lookup_delete_eq].
  - rewrite Hother by done. specialize (HO g). cbv zeta in HO.
    destruct x as [x|]; [by rewrite lookup_insert_ne by done|by rewrite lookup_delete_ne by done].
Qed.

(** Changing the count of a description leaves the files alone. *)
Lemma file_inv_refcnt O fhold F k o r :
  O !! k = Some o -> file_inv O fhold F -> file_inv (<[k:=set_refcnt r o]> O) fhold F.
Proof.
  intros Ho HF f. cbv zeta. rewrite (tally_replace _ k _ o) by done. cbn [set_refcnt of_file]. specialize (HF f). cbv zeta in HF.
  replace (tally (fun o => (of_file o =? f)%positive) O - (if (of_file o =? f)%positive then 1 else 0) +
    (if (of_file o =? f)%positive then 1 else 0) + cnt f fhold) with (tally (fun o => (of_file o =? f)%positive) O + cnt f fhold) by lia.
  done.
Qed.

Lemma ofile_live T hold O k :
  ofile_inv T hold O -> 0 < tally (fun e => Pos.eqb e.1 k) T + cnt k hold -> exists o, O !! k = Some o.
Proof. intros HO Hn. specialize (HO k). cbv zeta in HO. destruct (O !! k) as [o|]; [by exists o|lia]. Qed.

Lemma ofile_acquire_spec T hold fhold k w (Q : unit -> fdworld -> Prop) :
  ofile_inv T hold (fw_ofiles w) -> file_inv (fw_ofiles w) fhold (fw_files w) ->
  0 < tally (fun e => Pos.eqb e.1 k) T + cnt k hold < 2 ^ 32 - 1 ->
  (forall O, ofile_inv T (k :: hold) O -> file_inv O fhold (fw_files w) ->
    (forall j o, fw_ofiles w !! j = Some o -> exists r, O !! j = Some (set_refcnt r o)) -> Q tt (fw_set_ofiles O w)) ->
  wp (uk_ofile_acquire k) Q w.
Proof.
  intros HO HF Hn HQ. destruct (ofile_live _ _ _ k HO ltac:(lia)) as [o Ho].
  pose proof (HO k) as Hk. cbv zeta in Hk. rewrite Ho in Hk. destruct Hk as (Hr & _ & Hb & HD).
  unfold uk_ofile_acquire. apply wp_bind. eapply wp_deref; [done|]. apply wp_bind.
  eapply wp_need; [unfold uk_refcount_acquire; rewrite Hr, (proj2 (Z.ltb_lt _ (2 ^ 32 - 1))) by lia; reflexivity|].
  apply wp_modify. apply HQ.
  - apply (ofile_inv_other T T hold _ _ k (Some _)); [done| |].
    + intros g Hg. rewrite cnt_cons. destruct (Pos.eqb_spec k g); [congruence|lia].
    + cbv zeta. cbn [set_refcnt of_refcnt]. rewrite cnt_cons, Pos.eqb_refl, wrap_small by lia. split_and!; [lia..|done].
  - by apply file_inv_refcnt.
  - intros j o' Hj. destruct (decide (j = k)) as [->|Hne].
    + rewrite lookup_insert_eq. assert (o' = o) as -> by congruence. eauto.
    + rewrite lookup_insert_ne by done. exists (of_refcnt o'). rewrite Hj. by destruct o'.
Qed.

(** The reference of a description to its file, as one held by the caller. *)
Lemma file_inv_drop O fhold F k o :
  O !! k = Some o -> file_inv O fhold F -> file_inv (delete k O) (of_file o :: fhold) F.
Proof.
  intros Ho HF f. cbv zeta. rewrite (tally_delete _ k o) by done. rewrite cnt_cons. specialize (HF f). cbv zeta in HF.
  replace (tally (fun o => (of_file o =? f)%positive) O - (if (of_file o =? f)%positive then 1 else 0) +
    ((if (of_file o =? f)%positive then 1 else 0) + cnt f fhold)) with (tally (fun o => (of_file o =? f)%positive) O + cnt f fhold) by lia.
  done.
Qed.

Lemma ofile_release_spec T hold fhold k w (Q : unit -> fdworld -> Prop) :
  finalizers = false ->
  ofile_inv T (k :: hold) (fw_ofiles w) -> file_inv (fw_ofiles w) fhold (fw_files w) ->
  owns (fw_ext w) (dom (fw_files w)) ->
  (forall O F x, ofile_inv T hold O -> file_inv O fhold F -> owns x (dom F) ->
    Q tt (fw_set_ext x (fw_set_files F (fw_set_ofiles O w)))) ->
  wp (uk_ofile_release k) Q w.
Proof.
  intros Hfin HO HF Hal HQ. pose proof (tally_nonneg (fun e : positive * bool => Pos.eqb e.1 k) T) as Ht.
  pose proof (cnt_nonneg k hold) as Hc.
  destruct (ofile_live _ _ _ k HO) as [o Ho]; [rewrite cnt_cons, Pos.eqb_refl; lia|].
  pose proof (HO k) as Hk. cbv zeta in Hk. rewrite Ho, cnt_cons, Pos.eqb_refl in Hk. destruct Hk as (Hr & Hn & Hb & HD).
  assert (Hother : forall g, g <> k -> tally (fun e => Pos.eqb e.1 g) T + cnt g hold = tally (fun e => Pos.eqb e.1 g) T + cnt g (k :: hold)).
  { intros g Hg. rewrite cnt_cons. destruct (Pos.eqb_spec k g); [congruence|lia]. }
  unfold uk_ofile_release. apply wp_bind. eapply wp_deref; [done|]. apply wp_bind.
  unfold uk_refcount_release. rewrite Hr, (proj2 (Z.ltb_lt 0 _)) by lia. apply (wp_need _ _ _ _ eq_refl).
  rewrite (wrap_small 32) by lia. apply wp_bind, wp_modify.
  destruct (Z.ltb_spec 1 (tally (fun e : positive * bool => (e.1 =? k)%positive) T + (1 + cnt k hold))); cbn [negb].
  - apply wp_ret. fw_use (HQ (<[k:=set_refcnt (tally (fun e => Pos.eqb e.1 k) T + (1 + cnt k hold) - 1) o]> (fw_ofiles w)) (fw_files w) (fw_ext w)).
    + apply (ofile_inv_other T T (k :: hold) hold _ k (Some _)); [done|done|]. cbv zeta. cbn [set_refcnt of_refcnt]. split_and!; [lia..|done].
    + by apply file_inv_refcnt.
    + done.
  - apply wp_bind. apply (file_release_spec (delete k (fw_ofiles w)) fhold).
    + done.
    + by apply file_inv_drop.
    + done.
    + intros F x HF' Hal'. apply wp_modify. cbn. rewrite delete_insert_eq. fw_use (HQ (delete k (fw_ofiles w)) F x); [|done|done].
      apply (ofile_inv_other T T (k :: hold) hold _ k None); [done|done|lia].
Qed.

(** ** References in the table *)

Lemma ofile_inv_put T hold O k fd c :
  T !! fd = None -> ofile_inv T (k :: hold) O -> ofile_inv (<[fd:=(k, c)]> T) hold O.
Proof.
  intros Hfd HO g. cbv zeta. rewrite (tally_insert _ fd) by done. specialize (HO g). cbv zeta in HO.
  rewrite cnt_cons in HO. cbn [fst].
  replace ((if (k =? g)%positive then 1 else 0) + tally (fun e => (e.1 =? g)%positive) T + cnt g hold) with
    (tally (fun e => (e.1 =? g)%positive) T + ((if (k =? g)%positive then 1 else 0) + cnt g hold)) by lia. done.
Qed.
Lemma ofile_inv_take T hold O k fd c :
  T !! fd = Some (k, c) -> ofile_inv T hold O -> ofile_inv (delete fd T) (k :: hold) O.
Proof.
  intros Hfd HO g. cbv zeta. rewrite (tally_delete _ fd (k, c)) by done. specialize (HO g). cbv zeta in HO.
  rewrite cnt_cons. cbn [fst].
  replace (tally (fun e => (e.1 =? g)%positive) T - (if (k =? g)%positive then 1 else 0) +
    ((if (k =? g)%positive then 1 else 0) + cnt g hold)) with (tally (fun e => (e.1 =? g)%positive) T + cnt g hold) by lia. done.
Qed.

Lemma ofile_inv_perm T hold hold' O : hold ≡ₚ hold' -> ofile_inv T hold O -> ofile_inv T hold' O.
Proof.
  intros Hp HO g. specialize (HO g). cbv zeta in *. unfold cnt in *.
  assert (zlen (List.filter (fun x => Pos.eqb x g) hold) = zlen (List.filter (fun x => Pos.eqb x g) hold')) as <-; [|done].
  clear HO. induction Hp; simpl; try done; repeat case_match; rewrite ?zlen_cons; lia.
Qed.

Lemma table_entry T hold fhold w fd k c :
  fd_inv T hold fhold w -> T !! fd = Some (k, c) ->
  0 <= fd < UK_FDTAB_SIZE /\ 16 * Zpos k + 16 <= 2 ^ 64 /\ fdtab_decode (enc (k, c)) = (ofile_ptr k, if c then UK_FDTAB_CLOEXEC else 0) /\
  0 < tally (fun e => Pos.eqb e.1 k) T.
Proof.
  intros [Hm HO _ _] Hfd. assert (Ht : 0 < tally (fun e => Pos.eqb e.1 k) T) by (eapply tally_pos; [done|apply Pos.eqb_refl]).
  assert (Hb : 16 * Zpos k + 16 <= 2 ^ 64).
  { pose proof (cnt_nonneg k hold). destruct (ofile_live _ _ _ k HO ltac:(lia)) as [o Ho]. specialize (HO k). cbv zeta in HO. rewrite Ho in HO. lia. }
  split_and!; [|..]; try done; try by apply decode_enc.
  - eapply (rep_dom _ _ _ Hm fd (enc (k, c))). by rewrite lookup_fmap, Hfd.
  - eapply (rep_dom _ _ _ Hm fd (enc (k, c))). by rewrite lookup_fmap, Hfd.
Qed.

Lemma table_size T hold fhold w : fd_inv T hold fhold w -> Z.of_nat (base.size T) <= UK_FDTAB_SIZE.
Proof.
  intros [Hm _ _ _]. rewrite <- size_dom.
  assert (Hsub : dom T ⊆ list_to_set (C := gset Z) (seqZ 0 UK_FDTAB_SIZE)).
  { intros fd [e He]%elem_of_dom. rewrite elem_of_list_to_set. apply elem_of_seqZ.
    pose proof (rep_dom _ _ _ Hm fd (enc e)) as Hd. rewrite lookup_fmap, He in Hd. specialize (Hd eq_refl). lia. }
  apply subseteq_size in Hsub. rewrite size_list_to_set in Hsub by apply NoDup_seqZ. rewrite length_seqZ in Hsub. lia.
Qed.

Lemma fw_set_map_id w : fw_set_map (fw_map w) w = w.
Proof. by destruct w. Qed.

Lemma fd_inv_map T T' hold hold' fhold w m :
  fd_inv T hold fhold w -> represents UK_FDTAB_SIZE m (enc <$> T') -> ofile_inv T' hold' (fw_ofiles w) ->
  fd_inv T' hold' fhold (fw_set_map m w).
Proof. intros [_ _ HF Ha] Hm HO. by split. Qed.

Lemma fmap_lookup_spec T hold fhold w fd (Q : Z -> fdworld -> Prop) :
  fd_inv T hold fhold w -> Q (default 0 (enc <$> T !! fd)) w -> wp (fmap_lookup fd) Q w.
Proof.
  intros Hi HQ. apply wp_lift_map. eapply wp_mono; [|apply lookup_run; [done|apply Hi]].
  intros r m [-> ->]. by rewrite fw_set_map_id, lookup_fmap.
Qed.
Lemma fmap_take_spec T hold fhold w fd (Q : Z -> fdworld -> Prop) :
  fd_inv T hold fhold w ->
  match T !! fd with
  | None => forall w', fd_inv T hold fhold w' -> Q 0 w'
  | Some e => forall w', fd_inv (delete fd T) (e.1 :: hold) fhold w' -> Q (enc e) w'
  end -> wp (fmap_take fd) Q w.
Proof.
  intros Hi HQ. apply wp_lift_map. eapply wp_mono; [|apply take_run; [done|apply Hi]].
  intros r m [-> Hm]. rewrite <- fmap_delete in Hm. rewrite lookup_fmap. destruct (T !! fd) as [[k c]|] eqn:Hfd; simpl.
  - apply HQ. eapply fd_inv_map; [done|done|]. eapply ofile_inv_take; [done|apply Hi].
  - rewrite delete_id in Hm by done. apply HQ. eapply fd_inv_map; [done|done|apply Hi].
Qed.

Lemma close_spec T hold fhold w fd :
  finalizers = false -> fd_inv T hold fhold w ->
  wp (uk_sys_close fd) (fun r w' => fd_inv (delete fd T) hold fhold w' /\ r = if T !! fd is Some _ then 0 else - EBADF) w.
Proof.
  intros Hfin Hi. unfold uk_sys_close. apply wp_bind. eapply fmap_take_spec; [done|].
  destruct (T !! fd) as [[k c]|] eqn:Hfd.
  - intros w' Hi'. rewrite (proj2 (Z.eqb_neq _ _) (enc_nonzero _)).
    destruct (table_entry _ _ _ _ _ _ _ Hi Hfd) as (_ & _ & -> & _). cbn [fst]. apply wp_bind. unfold file_rel. rewrite ptr_ofile_ptr.
    destruct Hi' as [Hm HO HF Ha]. eapply ofile_release_spec; [done..|]. intros O F x HO' HF' Ha'. apply wp_ret. by split.
  - intros w' Hi'. cbn [Z.eqb]. apply wp_ret. by rewrite delete_id.
Qed.

Lemma get_spec T hold fhold w fd :
  fd_inv T hold fhold w -> zlen hold < 2 ^ 31 ->
  wp (fdtab_get fd) (fun (v : Z * Z) w' =>
    match (T !! fd : option (positive * bool)) with
    | None => v = (0, 0) /\ fd_inv T hold fhold w'
    | Some (k, c) => v = (ofile_ptr k, if c then UK_FDTAB_CLOEXEC else 0) /\ fd_inv T (k :: hold) fhold w'
    end) w.
Proof.
  intros Hi Hh. unfold fdtab_get. destruct (Z.ltb_spec fd 0) as [Hneg|Hpos].
  { apply wp_ret. destruct (T !! fd) as [[k c]|] eqn:Hfd; [|done].
    destruct (table_entry _ _ _ _ _ _ _ Hi Hfd). lia. }
  apply wp_bind. apply wp_lift_map. eapply wp_mono; [|apply critical_take_run; [done|apply Hi]].
  intros r m [-> Hm]. rewrite lookup_fmap in *. destruct (T !! fd) as [[k c]|] eqn:Hfd; cbn [from_option fmap option_fmap option_map id] in *.
  - rewrite (proj2 (Z.eqb_neq _ _) (enc_nonzero _)). cbv zeta.
    destruct (table_entry _ _ _ _ _ _ _ Hi Hfd) as (Hr & Hb & -> & Ht). cbn [fst]. apply wp_bind. unfold file_acq. rewrite ptr_ofile_ptr.
    pose proof (table_size _ _ _ _ Hi). pose proof (tally_le (fun e => Pos.eqb e.1 k) T). pose proof (cnt_le k hold). pose proof (cnt_nonneg k hold).
    eapply (ofile_acquire_spec T hold fhold); [apply Hi|apply Hi|lia|]. intros O HO HF _.
    apply wp_bind, wp_lift_map. eapply wp_mono; [|apply (critical_put_run _ _ Hretries _ _ _ _ Hm (enc_nonzero (k, c)))].
    intros r2 m2 [-> Hm2]. apply wp_ret. split; [done|]. rewrite <- (fmap_insert enc T fd (k, c)), insert_id in Hm2 by done.
    destruct Hi as [_ _ _ Ha]. by split.
  - cbn [Z.eqb]. apply wp_ret. split; [done|]. eapply fd_inv_map; [done|done|apply Hi].
Qed.

(** ** What the calls do to the table *)

(** The calls that do not create a description, and what each returns and leaves in
    the table: descriptors with their descriptions and close-on-exec flags. *)
Inductive fd_op : Type :=
  | Close (fd : Z)
  | Dup_min (fd min flags : Z)
  | Dup2 (oldfd newfd : Z)
  | Dup3 (oldfd newfd flags : Z)
  | Setflags (fd flags : Z)
  | Getflags (fd : Z)
  | Cloexec
  | Cleanup.

Definition bad_flags (flags : Z) : bool := negb (Z.land flags (Z.lnot O_CLOEXEC) =? 0).
Definition fd_in_table (fd : Z) : bool := (0 <=? fd) && (fd <? UK_FDTAB_SIZE).
Definition copy_to (T : table) (oldfd newfd flags : Z) : Z * table :=
  match T !! oldfd with
  | Some (k, _) => (newfd, <[newfd := (k, negb (flags =? 0))]> T)
  | None => (- EBADF, T)
  end.
Definition spec_dup3 (T : table) (oldfd newfd flags : Z) : Z * table :=
  if oldfd =? newfd then (- EINVAL, T)
  else if negb (fd_in_table oldfd && fd_in_table newfd) then (- EBADF, T)
  else if bad_flags flags then (- EINVAL, T) else copy_to T oldfd newfd flags.
Definition fd_spec (o : fd_op) (T : table) : Z * table :=
  match o with
  | Close fd => (if T !! fd is Some _ then 0 else - EBADF, delete fd T)
  | Dup_min fd min flags =>
      if fd <? 0 then (- EBADF, T) else if bad_flags flags then (- EINVAL, T)
      else if negb (bool_decide (is_Some (T !! fd))) then (- EBADF, T)
      else let new := lowest_free UK_FDTAB_SIZE T (u64 min) in
        if new <? UK_FDTAB_SIZE then copy_to T fd new flags else (- ENFILE, T)
  | Dup2 oldfd newfd =>
      if oldfd =? newfd then (if T !! oldfd is Some _ then newfd else - EBADF, T) else spec_dup3 T oldfd newfd 0
  | Dup3 oldfd newfd flags => spec_dup3 T oldfd newfd flags
  | Setflags fd flags =>
      if bad_flags flags then (- EINVAL, T)
      else match T !! fd with
           | Some (k, _) => (0, <[fd := (k, negb (flags =? 0))]> T)
           | None => (- EBADF, T)
           end
  | Getflags fd => (match T !! fd with Some (_, c) => if (c : bool) then O_CLOEXEC else 0 | None => - EBADF end, T)
  | Cloexec => (0, filter (fun e => e.2.2 = false) T)
  | Cleanup => (0, ∅)
  end.
Definition fd_exec (o : fd_op) : MF Z :=
  match o with
  | Close fd => uk_sys_close fd
  | Dup_min fd min flags => uk_sys_dup_min fd min flags
  | Dup2 oldfd newfd => uk_sys_dup2 oldfd newfd
  | Dup3 oldfd newfd flags => uk_sys_dup3 oldfd newfd flags
  | Setflags fd flags => uk_fdtab_setflags fd flags
  | Getflags fd => uk_fdtab_getflags fd
  | Cloexec => uk_fdtab_cloexec;; mret 0
  | Cleanup => term_posix_fdtab;; mret 0
  end.

Lemma flags_eq (c : bool) flags :
  Z.lor (Z.land (if c then UK_FDTAB_CLOEXEC else 0) (Z.lnot UK_FDTAB_CLOEXEC)) (if flags =? 0 then 0 else UK_FDTAB_CLOEXEC) =
  if negb (flags =? 0) then UK_FDTAB_CLOEXEC else 0.
Proof. by destruct c, (flags =? 0). Qed.

Lemma setflags_spec T hold fhold w fd flags :
  fd_inv T hold fhold w ->
  wp (uk_fdtab_setflags fd flags) (fun r w' => r = (fd_spec (Setflags fd flags) T).1 /\ fd_inv (fd_spec (Setflags fd flags) T).2 hold fhold w') w.
Proof.
  intros Hi. unfold uk_fdtab_setflags. cbn [fd_spec]. fold (bad_flags flags). destruct (bad_flags flags); [by apply wp_ret|].
  apply wp_bind, wp_lift_map. eapply wp_mono; [|apply critical_take_run; [done|apply Hi]].
  intros r m [-> Hm]. rewrite lookup_fmap in *. destruct (T !! fd) as [[k c]|] eqn:Hfd; cbn [from_option fmap option_fmap option_map id fst snd] in *.
  - rewrite (proj2 (Z.eqb_neq _ _) (enc_nonzero _)).
    destruct (table_entry _ _ _ _ _ _ _ Hi Hfd) as (Hr & Hb & -> & Ht). cbv zeta. rewrite flags_eq. apply wp_bind, wp_encode.
    apply wp_bind, wp_lift_map. eapply wp_mono; [|apply (critical_put_run _ _ Hretries _ _ _ _ Hm (enc_nonzero _))].
    intros r2 m2 [-> Hm2]. apply wp_ret. split; [done|]. rewrite <- (fmap_insert enc T fd) in Hm2.
    destruct Hi as [_ HO HF Ha]. split; [done| |done|done]. cbn [fw_set_map fw_ofiles].
    rewrite <- insert_delete_eq. apply ofile_inv_put; [apply lookup_delete_eq|]. by eapply ofile_inv_take.
  - cbn [Z.eqb]. apply wp_ret. split; [done|]. eapply fd_inv_map; [done|done|apply Hi].
Qed.

Lemma getflags_spec T hold fhold w fd :
  fd_inv T hold fhold w ->
  wp (uk_fdtab_getflags fd) (fun r w' => r = (fd_spec (Getflags fd) T).1 /\ w' = w) w.
Proof.
  intros Hi. unfold uk_fdtab_getflags. apply wp_bind. eapply fmap_lookup_spec; [done|]. cbn [fd_spec fst].
  destruct (T !! fd) as [[k c]|] eqn:Hfd; cbn [from_option fmap option_fmap option_map id].
  - rewrite (proj2 (Z.eqb_neq _ _) (enc_nonzero _)). destruct (table_entry _ _ _ _ _ _ _ Hi Hfd) as (_ & _ & -> & _).
    apply wp_ret. by destruct c.
  - by apply wp_ret.
Qed.

(** Dropping a reference that is held. *)
Lemma rel_spec T hold fhold k w (Q : unit -> fdworld -> Prop) :
  finalizers = false -> fd_inv T (k :: hold) fhold w ->
  (forall w', fd_inv T hold fhold w' -> Q tt w') -> wp (file_rel (ofile_ptr k)) Q w.
Proof.
  intros Hfin [Hm HO HF Ha] HQ. unfold file_rel. rewrite ptr_ofile_ptr. eapply ofile_release_spec; [done..|].
  intros O F x HO' HF' Ha'. apply HQ. by split.
Qed.

Lemma fmap_put_spec T hold fhold k c min w (Q : Z -> fdworld -> Prop) :
  fd_inv T (k :: hold) fhold w ->
  (let i := lowest_free UK_FDTAB_SIZE T (u64 min) in
   forall w', (if i <? UK_FDTAB_SIZE then fd_inv (<[i := (k, c)]> T) hold fhold w' else i = UK_FDTAB_SIZE /\ fd_inv T (k :: hold) fhold w') ->
     Q i w') ->
  wp (fmap_put (enc (k, c)) min) Q w.
Proof.
  cbv zeta. intros Hi HQ. apply wp_lift_map. eapply wp_mono; [|apply put_run; [done|done|apply Hi|apply enc_nonzero]].
  intros i m [-> Hm]. rewrite lowest_free_fmap in *.
  assert (0 <= u64 min) as Hmin by (unfold wrap; apply Z.mod_pos_bound; lia).
  destruct (lowest_free_spec UK_FDTAB_SIZE T (u64 min) Hmin) as [Hle Hfree].
  set (i := lowest_free UK_FDTAB_SIZE T (u64 min)) in *. apply HQ. destruct (Z.ltb_spec i UK_FDTAB_SIZE) as [Hlt|Hge].
  - rewrite <- (fmap_insert enc T i (k, c)) in Hm. eapply fd_inv_map; [done|done|].
    apply ofile_inv_put; [by apply Hfree|apply Hi].
  - split; [lia|]. eapply fd_inv_map; [done|done|apply Hi].
Qed.

Lemma fmap_xchg_spec T hold fhold k c fd w (Q : Z * option Z -> fdworld -> Prop) :
  fd_inv T (k :: hold) fhold w -> 0 <= fd < UK_FDTAB_SIZE ->
  (forall w', fd_inv (<[fd := (k, c)]> T) (match T !! fd with Some e => e.1 :: hold | None => hold end) fhold w' ->
     Q (0, enc <$> T !! fd) w') ->
  wp (fmap_xchg fd (enc (k, c))) Q w.
Proof.
  intros Hi Hr HQ. apply wp_lift_map. eapply wp_mono; [|apply xchg_run; [done|apply Hi|apply enc_nonzero|done]].
  intros r m [-> Hm]. rewrite <- (fmap_insert enc T fd (k, c)) in Hm. rewrite lookup_fmap. apply HQ.
  eapply fd_inv_map; [done|done|]. destruct (T !! fd) as [[k' c']|] eqn:Hfd; [|by apply ofile_inv_put; [|apply Hi]].
  rewrite <- insert_delete_eq. apply ofile_inv_put; [apply lookup_delete_eq|].
  eapply ofile_inv_perm; [|eapply ofile_inv_take; [done|apply Hi]]. apply Permutation_swap.
Qed.

(** The first half of every duplication: the description with one more reference. *)
Lemma dup_get T hold fhold w fd {B} (cont : Z -> Z -> MF B) (Q : B -> fdworld -> Prop) :
  fd_inv T hold fhold w -> zlen hold < 2 ^ 31 ->
  match (T !! fd : option (positive * bool)) with
  | None => forall w', fd_inv T hold fhold w' -> wp (cont 0 0) Q w'
  | Some e => forall w', fd_inv T (e.1 :: hold) fhold w' -> 
      wp (cont (ofile_ptr e.1) (if e.2 then UK_FDTAB_CLOEXEC else 0)) Q w'
  end ->
  wp ('(p, f) ← fdtab_get fd; cont p f) Q w.
Proof.
  intros Hi Hh HQ. apply wp_bind. eapply wp_mono; [|by apply get_spec]. intros v w' Hv.
  destruct (T !! fd) as [[k c]|]; destruct Hv as [-> Hi']; by apply HQ.
Qed.

Lemma dup_min_spec T hold fhold w fd min flags :
  finalizers = false -> fd_inv T hold fhold w -> zlen hold < 2 ^ 31 ->
  wp (uk_sys_dup_min fd min flags) (fun r w' => let s := fd_spec (Dup_min fd min flags) T in r = s.1 /\ fd_inv s.2 hold fhold w') w.
Proof.
  intros Hfin Hi Hh. unfold uk_sys_dup_min. cbn [fd_spec]. fold (bad_flags flags).
  destruct (fd <? 0); [by apply wp_ret|]. destruct (bad_flags flags); [by apply wp_ret|].
  eapply dup_get; [done|done|]. unfold copy_to. destruct (T !! fd) as [[k c]|] eqn:Hfd; intros w1 Hi1.
  - rewrite bool_decide_true by done. cbn [fst snd negb]. rewrite ofile_ptr_nonzero. unfold dup_flags. rewrite flags_eq.
    apply wp_bind, wp_encode, wp_bind. eapply fmap_put_spec; [done|]. cbv zeta. intros w2.
    set (i := lowest_free UK_FDTAB_SIZE T (u64 min)). rewrite Z.leb_antisym. destruct (i <? UK_FDTAB_SIZE); cbn [negb].
    + intros Hi2. by apply wp_ret.
    + intros [_ Hi2]. apply wp_bind. eapply rel_spec; [done|done|]. intros w3 Hi3. by apply wp_ret.
  - rewrite bool_decide_false by (by intros [? [=]]). cbn [negb Z.eqb]. by apply wp_ret.
Qed.

Lemma dup3_spec T hold fhold w oldfd newfd flags :
  finalizers = false -> fd_inv T hold fhold w -> zlen hold < 2 ^ 31 ->
  wp (uk_sys_dup3 oldfd newfd flags) (fun r w' => let s := spec_dup3 T oldfd newfd flags in r = s.1 /\ fd_inv s.2 hold fhold w') w.
Proof.
  intros Hfin Hi Hh. unfold uk_sys_dup3, spec_dup3. fold (bad_flags flags). destruct (oldfd =? newfd); [by apply wp_ret|].
  assert ((oldfd <? 0) || (UK_FDTAB_SIZE <=? oldfd) || (newfd <? 0) || (UK_FDTAB_SIZE <=? newfd) =
    negb (fd_in_table oldfd && fd_in_table newfd)) as -> by (unfold fd_in_table; lia).
  destruct (fd_in_table oldfd && fd_in_table newfd) eqn:Hr; cbn [negb]; [|by apply wp_ret]. unfold fd_in_table in Hr.
  destruct (bad_flags flags); [by apply wp_ret|].
  eapply dup_get; [done|done|]. unfold copy_to. destruct (T !! oldfd) as [[k c]|] eqn:Hfd; intros w1 Hi1.
  - cbn [fst snd]. rewrite ofile_ptr_nonzero. unfold dup_flags. rewrite flags_eq.
    apply wp_bind, wp_encode, wp_bind. eapply fmap_xchg_spec; [done|lia|]. intros w2 Hi2.
    apply wp_bind, wp_assert; [done|]. apply wp_bind. destruct (T !! newfd) as [[k' c']|] eqn:Hnew; cbn [fmap option_fmap option_map].
    + destruct (table_entry _ _ _ _ _ _ _ Hi Hnew) as (_ & _ & -> & _). cbn [fst]. eapply rel_spec; [done|done|].
      intros w3 Hi3. by apply wp_ret.
    + by apply wp_ret, wp_ret.
  - cbn [Z.eqb]. by apply wp_ret.
Qed.

Lemma dup2_spec T hold fhold w oldfd newfd :
  finalizers = false -> fd_inv T hold fhold w -> zlen hold < 2 ^ 31 ->
  wp (uk_sys_dup2 oldfd newfd) (fun r w' => let s := fd_spec (Dup2 oldfd newfd) T in r = s.1 /\ fd_inv s.2 hold fhold w') w.
Proof.
  intros Hfin Hi Hh. unfold uk_sys_dup2. cbn [fd_spec]. destruct (oldfd =? newfd); [|by apply dup3_spec].
  apply wp_bind. eapply fmap_lookup_spec; [done|]. apply wp_ret. cbn [fst snd]. split; [|done].
  destruct (T !! oldfd) as [[k c]|]; cbn [from_option fmap option_fmap option_map id]; [|done].
  by rewrite (proj2 (Z.eqb_neq _ _) (enc_nonzero _)).
Qed.

(** Closing a range of descriptors keeps the others and, unless all are closed, those
    without the flag. *)
Definition kept (all : bool) (e : option (positive * bool)) : option (positive * bool) :=
  match e with Some (_, c) => if all || c then None else e | None => None end.

Lemma range_true a b c : a <= b < c -> (a <=? b) && (b <? c) = true.
Proof. lia. Qed.
Lemma range_false a b c : ~ a <= b < c -> (a <=? b) && (b <? c) = false.
Proof. lia. Qed.

Lemma cleanup_loop_spec all n T i hold fhold w :
  finalizers = false -> fd_inv T hold fhold w ->
  wp (cleanup_loop all i n) (fun _ w' => exists T', fd_inv T' hold fhold w' /\
    forall j, T' !! j = if (i <=? j) && (j <? i + Z.of_nat n) then kept all (T !! j) else T !! j) w.
Proof.
  intros Hfin. revert T i w. induction n as [|n IH]; intros T i w Hi; cbn [cleanup_loop].
  { apply wp_ret. exists T. split; [done|]. intros j. by rewrite range_false by lia. }
  apply wp_bind. eapply fmap_lookup_spec; [done|]. apply wp_bind.
  assert (Hnext : forall T1 w1, fd_inv T1 hold fhold w1 -> (forall j, T1 !! j = if j =? i then kept all (T !! j) else T !! j) ->
    wp (cleanup_loop all (i + 1) n) (fun _ w' => exists T', fd_inv T' hold fhold w' /\
      forall j, T' !! j = if (i <=? j) && (j <? i + Z.of_nat (S n)) then kept all (T !! j) else T !! j) w1).
  { intros T1 w1 Hi1 H1. eapply wp_mono; [|by apply IH]. intros _ w' (T' & Hi' & H'). exists T'. split; [done|].
    intros j. rewrite H', H1. destruct (Z.eqb_spec j i) as [->|].
    - by rewrite range_false, range_true by lia.
    - destruct (decide (i <= j < i + Z.of_nat (S n))); [by rewrite !range_true by lia|by rewrite !range_false by lia]. }
  destruct (T !! i) as [[k c]|] eqn:Hfd; cbn [from_option fmap option_fmap option_map id].
  2: { apply wp_ret. apply (Hnext T w Hi). intros j. destruct (Z.eqb_spec j i) as [->|]; [by rewrite Hfd|done]. }
  rewrite (proj2 (Z.eqb_neq _ _) (enc_nonzero _)). destruct (table_entry _ _ _ _ _ _ _ Hi Hfd) as (_ & _ & -> & _).
  replace (flag_set (if c then UK_FDTAB_CLOEXEC else 0) UK_FDTAB_CLOEXEC) with c by by destruct c.
  destruct (all || c) eqn:Hc.
  - apply wp_bind. eapply fmap_take_spec; [done|]. rewrite Hfd. intros w1 Hi1. apply wp_bind, wp_assert; [apply Z.eqb_refl|].
    eapply rel_spec; [done|done|]. intros w2 Hi2. apply (Hnext _ _ Hi2). intros j. destruct (Z.eqb_spec j i) as [->|].
    + rewrite lookup_delete_eq, Hfd. cbn [kept]. by rewrite Hc.
    + by rewrite lookup_delete_ne by done.
  - apply wp_ret. apply (Hnext T w Hi). intros j. destruct (Z.eqb_spec j i) as [->|]; [|done]. rewrite Hfd. cbn [kept]. by rewrite Hc.
Qed.

Lemma cleanup_spec all T hold fhold w :
  finalizers = false -> fd_inv T hold fhold w ->
  wp (fdtab_cleanup all) (fun _ w' => fd_inv (if all then ∅ else filter (fun e => e.2.2 = false) T) hold fhold w') w.
Proof.
  intros Hfin Hi. eapply wp_mono; [|by apply cleanup_loop_spec]. intros _ w' (T' & Hi' & H').
  assert (T' = if all then ∅ else filter (fun e => e.2.2 = false) T) as <-; [|done].
  apply map_eq. intros j. rewrite H'. assert (Hj : kept all (T !! j) = (if all then ∅ else filter (fun e : Z * (positive * bool) => e.2.2 = false) T : table) !! j).
  { unfold kept. destruct all; [by rewrite lookup_empty; destruct (T !! j) as [[]|]|].
    rewrite map_lookup_filter. destruct (T !! j) as [[k []]|] eqn:E; simpl; done. }
  rewrite <- Hj. destruct (T !! j) as [[k c]|] eqn:E; [|by destruct (_ && _)].
  destruct (table_entry _ _ _ _ _ _ _ Hi E). by rewrite range_true by lia.
Qed.

(** Every call does what the table promises and keeps the invariant. *)
Lemma fd_exec_spec o T hold fhold w :
  finalizers = false -> fd_inv T hold fhold w -> zlen hold < 2 ^ 31 ->
  wp (fd_exec o) (fun r w' => let s := fd_spec o T in r = s.1 /\ fd_inv s.2 hold fhold w') w.
Proof.
  intros Hfin Hi Hh. destruct o; cbn [fd_exec].
  - eapply wp_mono; [|by apply close_spec]. by intros r w' [Hi' ->].
  - by apply dup_min_spec.
  - by apply dup2_spec.
  - by apply (dup3_spec T hold fhold w).
  - by apply setflags_spec.
  - eapply wp_mono; [|by eapply getflags_spec]. by intros r w' [-> ->].
  - apply wp_bind. eapply wp_mono; [|apply (cleanup_spec false T hold fhold); done]. intros u w' Hi'. by apply wp_ret.
  - apply wp_bind. eapply wp_mono; [|apply (cleanup_spec true T hold fhold); done]. intros u w' Hi'. by apply wp_ret.
Qed.
End desc.

(** ** New descriptions *)

Lemma ofile_inv_desc D D' T hold O :
  (forall k, is_Some (O !! k) -> D' k = D k) -> ofile_inv D T hold O -> ofile_inv D' T hold O.
Proof.
  intros Hd HO k. specialize (HO k). cbv zeta in *. destruct (O !! k) as [o|] eqn:Ho; [|done]. by rewrite Hd by eauto.
Qed.
Lemma fd_inv_desc D D' T hold fhold w :
  (forall k, is_Some (fw_ofiles w !! k) -> D' k = D k) -> fd_inv D T hold fhold w -> fd_inv D' T hold fhold w.
Proof. intros Hd [Hm HO HF Ho]. split; try done. by eapply ofile_inv_desc. Qed.

Definition new_mode (mode : Z) (name : list Z) : Z :=
  Z.land (match name with [] => mode | _ => Z.lor mode UKFD_O_NAMED end) (Z.lnot O_CLOEXEC).
(** The references to a file: from descriptions and from those who hold it. *)
Definition refs (w : fdworld) (fhold : list positive) (f : positive) : Z :=
  tally (fun o => Pos.eqb (of_file o) f) (fw_ofiles w) + cnt f fhold.

Lemma file_acquire_spec D T hold fhold f w (Q : unit -> fdworld -> Prop) :
  fd_inv D T hold (f :: fhold) w -> refs w (f :: fhold) f < 2 ^ 32 - 1 ->
  (forall x, fw_files w !! f = Some x ->
     let n := refs w (f :: fhold) f + 1 in Q tt (fw_set_files (<[f := set_cnt (mk_sw n n) x]> (fw_files w)) w)) ->
  wp (uk_file_acquire f) Q w.
Proof.
  intros Hi Hb HQ. destruct (file_inv_hold _ _ _ _ (fi_files _ _ _ _ _ Hi)) as (x & n & Hx & Hc & Hn & Hval).
  assert (n = refs w (f :: fhold) f) as Hr by (unfold refs; rewrite cnt_cons, Pos.eqb_refl; lia).
  unfold uk_file_acquire. apply wp_bind. eapply wp_deref; [done|]. apply wp_bind.
  apply (wp_need _ (mk_sw (n + 1) (n + 1))).
  { assert (uk_refcount_acquire n = Some (n + 1)) as He
      by (unfold uk_refcount_acquire; rewrite (proj2 (Z.ltb_lt n _)) by lia; by rewrite wrap_small by lia).
    rewrite Hc. unfold uk_swrefcount_acquire, uk_swrefcount_acquire_weak. cbn [sw_refcount sw_strong].
    rewrite He. cbn. by rewrite He. }
  apply wp_modify. rewrite Hr. by apply HQ.
Qed.

Lemma desc_malloc_spec w (Q : option positive -> fdworld -> Prop) :
  Q (uk_malloc (fw_allocs w) (dom (fw_ofiles w))) (fw_set_allocs (S (fw_allocs w)) w) -> wp malloc Q w.
Proof. done. Qed.

Lemma ofile_new_spec D T hold fhold f mode name w (Q : option positive -> fdworld -> Prop) :
  fd_inv D T hold (f :: fhold) w -> refs w (f :: fhold) f < 2 ^ 32 - 1 ->
  (forall w', fw_ofiles w' = fw_ofiles w -> fd_inv D T hold (f :: fhold) w' -> Q None w') ->
  (forall k w', fw_ofiles w !! k = None ->
     fd_inv (<[k := (f, new_mode mode name)]> D) T (k :: hold) (f :: fhold) w' -> Q (Some k) w') ->
  wp (uk_ofile_new f mode name) Q w.
Proof.
  intros Hi Hb HN HS. unfold uk_ofile_new. apply wp_bind. apply desc_malloc_spec.
  assert (Hi0 : fd_inv D T hold (f :: fhold) (fw_set_allocs (S (fw_allocs w)) w)) by by destruct Hi.
  destruct (uk_malloc (fw_allocs w) (dom (fw_ofiles w))) as [k|] eqn:Hk; [|by apply wp_ret, HN].
  destruct (malloc_fresh _ _ _ Hk) as [Hfresh%not_elem_of_dom Ha].
  apply wp_bind. eapply file_acquire_spec; [done|done|]. intros x Hx n. apply wp_bind, wp_modify, wp_ret. fold (new_mode mode name).
  cbn [fw_set_allocs fw_files] in Hx.
  destruct Hi as [Hm HO HF Ho]. apply HS; [done|]. split.
  - done.
  - apply (ofile_inv_other _ T T hold (k :: hold) (fw_ofiles w) k (Some _)).
    + apply (ofile_inv_desc D); [|done]. intros j [o Hj]. apply fn_lookup_insert_ne. congruence.
    + intros g Hg. rewrite cnt_cons. destruct (Pos.eqb_spec k g); [congruence|lia].
    + specialize (HO k). cbv zeta in *. rewrite Hfresh in HO. rewrite cnt_cons, Pos.eqb_refl, fn_lookup_insert.
      cbn [of_refcnt of_file of_mode]. split_and!; (lia || done).
  - assert (Htally : forall g, tally (fun o => Pos.eqb (of_file o) g) (<[k := mk_ofile f 0 (new_mode mode name) 1 name]> (fw_ofiles w)) =
      (if Pos.eqb f g then 1 else 0) + tally (fun o => Pos.eqb (of_file o) g) (fw_ofiles w)) by (intros g; by rewrite tally_insert).
    apply (file_inv_other (fw_ofiles w) _ (f :: fhold) (f :: fhold) (fw_files w) f (Some _)); [done| |].
    + intros g Hg. rewrite Htally. destruct (Pos.eqb_spec f g); [congruence|lia].
    + cbv zeta. rewrite Htally, Pos.eqb_refl. cbn [set_cnt f_cnt]. unfold n, refs. cbn [fw_set_allocs fw_ofiles].
      specialize (HF f). cbv zeta in HF. rewrite Hx in HF. unfold refs in Hb. split; [f_equal; lia|lia].
  - cbn. rewrite dom_insert_L. apply elem_of_dom_2 in Hx. replace ({[f]} ∪ dom (fw_files w)) with (dom (fw_files w)) by set_solver. done.
Qed.

Lemma fresh_desc D T hold fhold w k fd e :
  fd_inv D T hold fhold w -> fw_ofiles w !! k = None -> T !! fd = Some e -> e.1 <> k.
Proof.
  intros Hi Hk Hfd He. pose proof (fi_ofiles _ _ _ _ _ Hi k) as HO. cbv zeta in HO. rewrite Hk in HO.
  assert (0 < tally (fun e => Pos.eqb e.1 k) T) by (eapply tally_pos; [done|by apply Pos.eqb_eq]).
  pose proof (cnt_nonneg k hold). lia.
Qed.

(** What opening a file may do: fail and change nothing, or give the lowest free
    descriptor to a new description of the file. *)
Definition opened (D : positive -> positive * Z) (T : table) (f : positive) (mode : Z) (name : list Z)
    (r : Z) (D' : positive -> positive * Z) (T' : table) : Prop :=
  ((r = - ENOMEM \/ (r = - ENFILE /\ lowest_free UK_FDTAB_SIZE T 0 = UK_FDTAB_SIZE)) /\ D' = D /\ T' = T) \/
  (exists k, r = lowest_free UK_FDTAB_SIZE T 0 /\ 0 <= r < UK_FDTAB_SIZE /\
     (forall fd e, T !! fd = Some e -> e.1 <> k) /\
     D' = <[k := (f, new_mode mode name)]> D /\ T' = <[r := (k, flag_set mode O_CLOEXEC)]> T).

Lemma open_named_spec D T hold fhold f mode name w :
  finalizers = false -> fd_inv D T hold (f :: fhold) w -> refs w (f :: fhold) f < 2 ^ 32 - 1 ->
  wp (uk_fdtab_open_named f mode name) (fun r w' => exists D' T',
    opened D T f mode name r D' T' /\ fd_inv D' T' hold (f :: fhold) w') w.
Proof.
  intros Hfin Hi Hb. unfold uk_fdtab_open_named. apply wp_bind. eapply ofile_new_spec; [done|done| |].
  { intros w' _ Hi'. apply wp_ret. exists D, T. split; [|done]. left. naive_solver. }
  intros k w1 Hk Hi1. apply wp_bind. unfold uk_fdtab_open_desc. apply wp_bind.
  apply wp_encode, wp_bind. eapply (fmap_put_spec _ T hold (f :: fhold)); [done|]. cbv zeta. change (u64 0) with 0.
  destruct (lowest_free_spec UK_FDTAB_SIZE T 0 ltac:(lia)) as [Hle Hfree].
  set (i := lowest_free UK_FDTAB_SIZE T 0) in *. intros w2 Hi2. apply wp_ret. rewrite Z.leb_antisym.
  destruct (Z.ltb_spec i UK_FDTAB_SIZE) as [Hlt|Hge]; cbn [negb].
  - rewrite (proj2 (Z.ltb_ge i 0)) by lia. apply wp_bind, wp_ret, wp_ret. do 2 eexists. split; [|done].
    right. exists k. split_and!; try done; [lia|]. intros fd e. by apply (fresh_desc _ _ _ _ _ _ _ _ Hi).
  - destruct Hi2 as [_ Hi2]. cbn [Z.ltb Z.compare Z.opp ENFILE]. apply wp_bind.
    destruct Hi2 as [Hm HO HF Ho]. eapply (ofile_release_spec (<[k := (f, new_mode mode name)]> D) T hold); [done..|]. intros O F x HO' HF' Ho'. apply wp_ret.
    exists D, T. split; [left; split_and!; [right; split; [done|lia]|done|done]|].
    split; try done. eapply ofile_inv_desc; [|exact HO']. intros j [o Hj]. cbn [fw_set_ext fw_set_files fw_set_ofiles fw_ofiles] in Hj.
    rewrite fn_lookup_insert_ne; [done|]. intros <-. specialize (HO' k). cbv zeta in HO'. rewrite Hj in HO'.
    pose proof (fi_ofiles _ _ _ _ _ Hi k) as H0. cbv zeta in H0. rewrite Hk in H0. lia.
Qed.

(** ** Sequences of calls *)

(** The files and the descriptions that the table refers to. *)
Definition descs_of (T : table) : gset positive := list_to_set ((fun e => e.2.1) <$> map_to_list T).
Definition files_of (D : positive -> positive * Z) (T : table) : gset positive := fin_sets.set_map (fun k => (D k).1) (descs_of T).

Lemma elem_of_descs k T : k ∈ descs_of T <-> exists fd c, T !! fd = Some (k, c).
Proof.
  unfold descs_of. rewrite elem_of_list_to_set, list_elem_of_fmap. split.
  - intros ([fd [k' c]] & -> & Hin%elem_of_map_to_list). eauto.
  - intros (fd & c & Hfd). exists (fd, (k, c)). by rewrite elem_of_map_to_list.
Qed.

(** Nothing leaks: without references held elsewhere, the live descriptions and files
    are those that the table refers to. *)
Lemma fd_inv_live D T w :
  fd_inv D T [] [] w -> dom (fw_ofiles w) = descs_of T /\ dom (fw_files w) = files_of D T.
Proof.
  intros [_ HO HF _].
  assert (Hd : dom (fw_ofiles w) = descs_of T).
  { apply set_eq. intros k. rewrite elem_of_descs, elem_of_dom. specialize (HO k). cbv zeta in HO. unfold cnt in HO. simpl in HO. split.
    - intros [o Ho]. rewrite Ho in HO. destruct (tally_exists (fun e : positive * bool => Pos.eqb e.1 k) T) as (fd & [k' c] & Hfd & He); [unfold zlen in HO; simpl in HO; lia|].
      apply Pos.eqb_eq in He. simpl in He. subst. eauto.
    - intros (fd & c & Hfd). assert (0 < tally (fun e => Pos.eqb e.1 k) T) by (eapply tally_pos; [done|apply Pos.eqb_refl]).
      destruct (fw_ofiles w !! k); [eauto|]. unfold zlen in HO. simpl in HO. lia. }
  split; [done|]. apply set_eq. intros f. unfold files_of. rewrite elem_of_map, <- Hd, elem_of_dom.
  specialize (HF f). cbv zeta in HF. unfold cnt, zlen in HF. simpl in HF. split.
  - intros [x Hx]. rewrite Hx in HF. destruct (tally_exists (fun o => Pos.eqb (of_file o) f) (fw_ofiles w)) as (k & o & Ho & He); [lia|].
    exists k. rewrite elem_of_dom. split; [|eauto]. specialize (HO k). cbv zeta in HO. rewrite Ho in HO. apply Pos.eqb_eq in He.
    destruct HO as (_ & _ & _ & ->). by simpl.
  - intros (k & -> & [o Ho]%elem_of_dom). specialize (HO k). cbv zeta in HO. rewrite Ho in HO. destruct HO as (_ & _ & _ & HD). rewrite HD in *. simpl in HF.
    assert (0 < tally (fun o' => Pos.eqb (of_file o') (of_file o)) (fw_ofiles w)) by (eapply tally_pos; [done|apply Pos.eqb_refl]).
    destruct (fw_files w !! of_file o) eqn:E; simpl; [rewrite E; eauto|lia].
Qed.

Lemma new_file_inv D T hold fhold f x w :
  fd_inv D T hold fhold w -> (f ∉ dom (fw_files w)) -> owns x (dom (fw_files w) ∪ {[f]}) ->
  let w' := fw_set_files (<[f := mk_file POSIX_SOCKET_VOLID (mk_sw 1 1) []]> (fw_files w)) (fw_set_ext x w) in
  fd_inv D T hold (f :: fhold) w' /\ refs w' (f :: fhold) f = 1 /\ (forall k o, fw_ofiles w !! k = Some o -> of_file o <> f).
Proof.
  intros [Hm HO HF _] Hf%not_elem_of_dom Hx w'. pose proof (HF f) as H0. cbv zeta in H0. rewrite Hf in H0.
  pose proof (cnt_nonneg f fhold). pose proof (tally_nonneg (fun o => Pos.eqb (of_file o) f) (fw_ofiles w)).
  split_and!.
  - split; [done|done| |unfold w'; fw_norm; by rewrite dom_insert_L, union_comm_L].
    apply (file_inv_other (fw_ofiles w) _ fhold _ (fw_files w) f (Some _)); [done| |].
    + intros g Hg. rewrite cnt_cons. destruct (Pos.eqb_spec f g); [congruence|]. cbn. lia.
    + cbv zeta. rewrite cnt_cons, Pos.eqb_refl. cbn [f_cnt fw_set_files fw_set_ext fw_ofiles w']. split; [f_equal; lia|lia].
  - unfold refs. rewrite cnt_cons, Pos.eqb_refl. cbn [fw_set_files fw_set_ext fw_ofiles w']. lia.
  - intros k o Ho He. assert (0 < tally (fun o => Pos.eqb (of_file o) f) (fw_ofiles w)) by (eapply tally_pos; [done|by apply Pos.eqb_eq]). lia.
Qed.

(** What [socket] and [accept] may do to the table. *)
Definition spec_socket (name : list Z) (type : Z) (D : positive -> positive * Z) (T : table)
    (r : Z) (D' : positive -> positive * Z) (T' : table) : Prop :=
  (r < 0 /\ D' = D /\ T' = T) \/
  exists f, (f ∉ files_of D T) /\ opened D T f (socket_mode type) name r D' T'.

Lemma desc_file D T hold fhold w k o :
  fd_inv D T hold fhold w -> fw_ofiles w !! k = Some o -> of_file o ∈ dom (fw_files w).
Proof.
  intros [_ _ HF _] Ho. specialize (HF (of_file o)). cbv zeta in HF. apply elem_of_dom.
  destruct (fw_files w !! of_file o); [eauto|].
  assert (0 < tally (fun o' => Pos.eqb (of_file o') (of_file o)) (fw_ofiles w)) by (eapply tally_pos; [done|apply Pos.eqb_refl]).
  pose proof (cnt_nonneg (of_file o) fhold). lia.
Qed.
Lemma fd_inv_ext D T hold fhold w x :
  fd_inv D T hold fhold w -> owns x (dom (fw_files w)) -> fd_inv D T hold fhold (fw_set_ext x w).
Proof. intros [Hm HO HF _] Hx. by split. Qed.

(** The files of the table are live. *)
Lemma files_of_live D T hold fhold w : fd_inv D T hold fhold w -> files_of D T ⊆ dom (fw_files w).
Proof.
  intros Hi f. unfold files_of. rewrite elem_of_map. intros (k & -> & (fd & c & Hfd)%elem_of_descs).
  destruct (table_entry _ _ _ _ _ _ _ _ Hi Hfd) as (_ & _ & _ & Ht). pose proof (cnt_nonneg k hold).
  destruct (ofile_live _ _ _ _ k (fi_ofiles _ _ _ _ _ Hi) ltac:(lia)) as [o Ho].
  pose proof (fi_ofiles _ _ _ _ _ Hi k) as HO. cbv zeta in HO. rewrite Ho in HO. destruct HO as (_ & _ & _ & ->).
  by eapply desc_file.
Qed.

Lemma install_spec D T hold w f x mode name :
  finalizers = false -> fd_inv D T hold [] w -> (f ∉ dom (fw_files w)) -> owns x (dom (fw_files w) ∪ {[f]}) ->
  wp (install f mode name) (fun r w' => exists D' T',
    opened D T f mode name r D' T' /\ fd_inv D' T' hold [] w') (fw_set_ext x w).
Proof.
  intros Hfin Hi Hf Hx. unfold install. apply wp_bind, wp_modify.
  destruct (new_file_inv D T hold [] f x w Hi Hf Hx) as (Hi1 & Hr & _).
  apply wp_bind. eapply wp_mono; [|apply (open_named_spec D T hold [] f _ _ _ Hfin Hi1); lia].
  intros r w2 (D' & T' & Hop & [Hm HO HF Ho]). apply wp_bind. eapply file_release_spec; [done..|].
  intros F x' HF' Ho'. apply wp_ret. exists D', T'. by split.
Qed.

(** What a layer below promises of an operation that makes a new file. *)
Definition creates (L : gset positive) (r : Z + positive) (x : X) : Prop :=
  match r with inl e => e < 0 /\ owns x L | inr f => (f ∉ L) /\ owns x (L ∪ {[f]}) end.

Lemma new_socket_spec D T hold w (m : M X (Z + positive)) type name :
  finalizers = false -> fd_inv D T hold [] w ->
  wp m (creates (dom (fw_files w))) (fw_ext w) ->
  wp (sock ← lift_ext m; match sock with inl e => mret e | inr f => install f (socket_mode type) name end)
    (fun r w' => exists D' T', spec_socket name type D T r D' T' /\ fd_inv D' T' hold [] w') w.
Proof.
  intros Hfin Hi Hm. apply wp_bind, wp_lift_ext. eapply wp_mono; [|exact Hm].
  intros [e|f] x [Hf Hx]; cbn beta iota.
  - apply wp_ret. exists D, T. split; [by left|]. by apply fd_inv_ext.
  - eapply wp_mono; [|by apply (install_spec D T hold)]. intros r w' (D' & T' & Ho & Hi'). exists D', T'.
    split; [|done]. right. exists f. split; [|done]. intros Hin. by apply Hf, (files_of_live _ _ _ _ _ Hi).
Qed.

(** A call on a socket: without a description nothing happens; with one the operation
    runs while the call holds a reference, and the rest is as before. *)
Lemma on_socket_spec {A} D T w fd (err : Z -> A) (op : positive -> Z -> MF A) (Φ : A -> (positive -> positive * Z) -> table -> Prop) :
  finalizers = false -> fd_inv D T [] [] w ->
  (T !! fd = None -> Φ (err (- EBADF)) D T) -> (is_Some (T !! fd) -> Φ (err (- ENOTSOCK)) D T) ->
  (forall k c w1, T !! fd = Some (k, c) -> fd_inv D T [k] [] w1 -> (D k).1 ∈ dom (fw_files w1) ->
     wp (op (D k).1 (D k).2) (fun r w2 => exists D' T', Φ r D' T' /\ fd_inv D' T' [k] [] w2) w1) ->
  wp (on_socket fd err op) (fun r w' => exists D' T', Φ r D' T' /\ fd_inv D' T' [] [] w') w.
Proof.
  intros Hfin Hi Hbad Hnot Hop. unfold on_socket, socketfd_get, uk_fdtab_get. apply wp_bind, wp_bind, wp_bind.
  eapply wp_mono; [|by apply (get_spec D T [] [])]. intros v w1 Hv. destruct (T !! fd) as [[k c]|] eqn:Hfd.
  2: { destruct Hv as [-> Hi1]. apply wp_ret. cbn [Z.eqb]. apply wp_ret, wp_ret. eauto 6. }
  destruct Hv as [-> Hi1]. apply wp_ret. rewrite ofile_ptr_nonzero, ptr_ofile_ptr.
  assert (Hlive : 0 < tally (fun e => Pos.eqb e.1 k) T) by (eapply tally_pos; [done|apply Pos.eqb_refl]).
  destruct (ofile_live _ _ _ _ k (fi_ofiles _ _ _ _ _ Hi1)) as [o Ho]; [pose proof (cnt_nonneg k [k]); lia|].
  pose proof (fi_ofiles _ _ _ _ _ Hi1 k) as HO. cbv zeta in HO. rewrite Ho in HO. destruct HO as (_ & _ & _ & HD).
  pose proof (desc_file _ _ _ _ _ _ _ Hi1 Ho) as Hf. apply elem_of_dom in Hf as Hx. destruct Hx as [x Hx].
  apply wp_bind. eapply wp_deref; [done|]. apply wp_bind. eapply wp_deref; [done|].
  destruct (f_vol x =? POSIX_SOCKET_VOLID); cbn [negb].
  - apply wp_ret. apply wp_bind. eapply wp_deref; [done|]. apply wp_bind.
    specialize (Hop k c w1 eq_refl Hi1). rewrite HD in Hop. cbn [fst snd] in Hop. eapply wp_mono; [|by apply Hop]. intros r w2 (D' & T' & HΦ & Hi2). apply wp_bind.
    destruct Hi2 as [Hm HO2 HF Ha]. eapply (ofile_release_spec D' T' []); [done..|]. intros O F x' HO' HF' Ha'. apply wp_ret.
    exists D', T'. split; [done|]. by split.
  - apply wp_bind. destruct Hi1 as [Hm HO2 HF Ha]. eapply (ofile_release_spec D T []); [done..|]. intros O F x' HO' HF' Ha'.
    apply wp_ret, wp_ret. exists D, T. split; [by apply Hnot|]. by split.
Qed.

(** The calls, and steps that the layers below take on their own ([Below]). *)
Inductive sys_op : Type :=
  | Socket (family type protocol : Z)
  | Accept (fd flags : Z) (op : positive -> Z -> M X (Z + positive))
  | On (fd : Z) (op : positive -> Z -> M X Z)
  | Below (m : M X unit)
  | Fd (o : fd_op).
Definition sys_exec (o : sys_op) : MF Z :=
  match o with
  | Socket family type protocol => uk_sys_socket family type protocol
  | Accept fd flags op => do_accept4 op fd flags
  | On fd op => on_socket fd id (fun f mode => lift_ext (op f mode))
  | Below m => lift_ext m;; mret 0
  | Fd o => fd_exec o
  end.
Fixpoint sys_run (l : list sys_op) : MF (list Z) :=
  match l with
  | [] => mret []
  | o :: l => r ← sys_exec o; rs ← sys_run l; mret (r :: rs)
  end.

(** What the layer below promises of the operations it contributes. *)
Definition sys_ok (o : sys_op) : Prop :=
  match o with
  | Accept _ _ op => forall f mode x L, f ∈ L -> owns x L -> wp (op f mode) (creates L) x
  | On _ op => forall f mode x L, f ∈ L -> owns x L -> wp (op f mode) (fun _ x' => owns x' L) x
  | Below m => forall x L, owns x L -> wp m (fun _ x' => owns x' L) x
  | _ => True
  end.

(** The results and the final table that the calls of a sequence promise. *)
Definition step_spec (o : sys_op) (D : positive -> positive * Z) (T : table)
    (r : Z) (D' : positive -> positive * Z) (T' : table) : Prop :=
  match o with
  | Socket _ type _ => spec_socket POSIX_SOCKET_FNAME type D T r D' T'
  | Accept fd flags _ =>
      match T !! fd with
      | None => r = - EBADF /\ D' = D /\ T' = T
      | Some _ => spec_socket POSIX_SOCKET_ACCT_FNAME flags D T r D' T'
      end
  | On fd _ => (T !! fd = None -> r = - EBADF) /\ D' = D /\ T' = T
  | Below _ => r = 0 /\ D' = D /\ T' = T
  | Fd o => r = (fd_spec o T).1 /\ D' = D /\ T' = (fd_spec o T).2
  end.
Fixpoint run_spec (l : list sys_op) (D : positive -> positive * Z) (T : table)
    (rs : list Z) (D' : positive -> positive * Z) (T' : table) : Prop :=
  match l, rs with
  | [], [] => D' = D /\ T' = T
  | o :: l, r :: rs => exists D1 T1, step_spec o D T r D1 T1 /\ run_spec l D1 T1 rs D' T'
  | _, _ => False
  end.

Lemma sys_step D T w o :
  finalizers = false -> sys_ok o -> fd_inv D T [] [] w ->
  wp (sys_exec o) (fun r w' => exists D' T', step_spec o D T r D' T' /\ fd_inv D' T' [] [] w') w.
Proof.
  intros Hfin Hok Hi. destruct o as [family type protocol|fd flags op|fd op|m|o]; cbn [sys_exec sys_ok] in *.
  - apply new_socket_spec; [done|done|]. by apply create_owned, (fi_owns _ _ _ _ _ Hi).
  - apply (on_socket_spec D T w fd id _ (fun r D' T' => step_spec (Accept fd flags op) D T r D' T')); [done|done| | |].
    + intros Hfd. cbn. by rewrite Hfd.
    + intros [e He]. cbn. rewrite He. left. done.
    + intros k c w1 Hfd Hi1 Hf. eapply wp_mono; [|apply (new_socket_spec D T [k]); [done|done|by apply Hok, (fi_owns _ _ _ _ _ Hi1)]].
      cbn. by rewrite Hfd.
  - apply (on_socket_spec D T w fd id _ (fun r D' T' => step_spec (On fd op) D T r D' T')); [done|done|done| |].
    + intros [e He]. cbn. by rewrite He.
    + intros k c w1 Hfd Hi1 Hf. apply wp_lift_ext. eapply wp_mono; [|apply (Hok _ _ _ _ Hf (fi_owns _ _ _ _ _ Hi1))].
      intros r x Hx. exists D, T. split; [|by apply fd_inv_ext]. cbn. by rewrite Hfd.
  - apply wp_bind, wp_lift_ext. eapply wp_mono; [|apply (Hok _ _ (fi_owns _ _ _ _ _ Hi))]. intros [] x Hx. apply wp_ret.
    exists D, T. split; [done|by apply fd_inv_ext].
  - eapply wp_mono; [|apply (fd_exec_spec D o T [] [] w Hfin Hi); done]. intros r w' [Hr Hi'].
    exists D, (fd_spec o T).2. by split.
Qed.
Lemma sys_run_spec l D T w :
  finalizers = false -> Forall sys_ok l -> fd_inv D T [] [] w ->
  wp (sys_run l) (fun rs w' => exists D' T', run_spec l D T rs D' T' /\ fd_inv D' T' [] [] w') w.
Proof.
  intros Hfin Hok. revert D T w. induction Hok as [|o l Ho Hl IH]; intros D T w Hi; cbn [sys_run].
  - apply wp_ret. exists D, T. done.
  - apply wp_bind. eapply wp_mono; [|apply (sys_step D T); done]. intros r w1 (D1 & T1 & Hs & Hi1).
    apply wp_bind. eapply wp_mono; [|apply (IH D1 T1 w1 Hi1)]. intros rs w2 (D2 & T2 & Hr & Hi2).
    apply wp_ret. exists D2, T2. split; [|done]. by exists D1, T1.
Qed.

(** ** From an empty table *)

(** [init_fdtab] and [init_posix_fdtab]. *)
Definition init_posix_fdtab (x : X) : option fdworld :=
  m ← uk_fmap_init (mk_fmap (replicate (Z.to_nat (UK_BITS_TO_LONGS UK_FDTAB_SIZE)) 0) UK_FDTAB_SIZE
        (replicate (Z.to_nat UK_FDTAB_SIZE) 0));
  Some (mk_fdworld m ∅ ∅ 0 [] x).

Lemma init_spec D x : owns x ∅ -> exists w, init_posix_fdtab x = Some w /\ fd_inv D ∅ [] [] w.
Proof.
  intros Hx. unfold init_posix_fdtab.
  destruct (init_represents (mk_fmap (replicate (Z.to_nat (UK_BITS_TO_LONGS UK_FDTAB_SIZE)) 0) UK_FDTAB_SIZE
    (replicate (Z.to_nat UK_FDTAB_SIZE) 0)) UK_FDTAB_SIZE) as (m & Hm & Hr).
  - lia.
  - apply Forall_replicate. done.
  - done.
  - cbn [fm_bitmap]. unfold zlen. rewrite length_replicate. unfold UK_BITS_TO_LONGS, UK_BITS_PER_LONG.
    pose proof (Z.div_mod (UK_FDTAB_SIZE + (64 - 1)) 64 ltac:(lia)). pose proof (Z.mod_pos_bound (UK_FDTAB_SIZE + (64 - 1)) 64 ltac:(lia)). lia.
  - rewrite Hm. eexists. split; [done|]. split.
    + by rewrite fmap_empty.
    + intros k. cbn [fw_ofiles]. rewrite lookup_empty, tally_empty. done.
    + intros k. cbn [fw_ofiles fw_files]. rewrite lookup_empty, tally_empty. done.
    + cbn [fw_ext fw_files]. by rewrite dom_empty_L.
Qed.

(** C10: in a build without file finalizers ([finalizers = false]; lib/posix-poll
    selects them, and with them [file_finalizers] shows that releasing a file for the
    last time aborts), after the table is set up, every sequence of [socket], [accept], [close],
    [dup], [dup2], [dup3], flag and clean-up calls, of other calls on sockets and of
    steps of the layers below returns; each call gives the result and the table of its
    specification, the lowest free descriptor on success and an error that changes
    nothing otherwise; and at the end the live descriptions are exactly those in the
    table and the live files and the objects of the socket layer exactly those it
    refers to: nothing leaks and nothing is freed in use. *)
Theorem fdtab_safe x l D :
  finalizers = false -> owns x ∅ -> Forall sys_ok l ->
  exists w0, init_posix_fdtab x = Some w0 /\
    wp (sys_run l) (fun rs w => exists D' T', run_spec l D ∅ rs D' T' /\
      represents UK_FDTAB_SIZE (fw_map w) (enc <$> T') /\
      dom (fw_ofiles w) = descs_of T' /\
      dom (fw_files w) = files_of D' T' /\ owns (fw_ext w) (files_of D' T')) w0.
Proof.
  intros Hfin Hx Hok. destruct (init_spec D x Hx) as (w0 & Hw & Hi). exists w0. split; [done|].
  eapply wp_mono; [|by apply (sys_run_spec l D ∅)]. intros rs w (D' & T' & Hr & Hi'). exists D', T'.
  destruct (fd_inv_live _ _ _ Hi') as [Hd Hf]. rewrite <- Hf. destruct Hi'. by split_and!.
Qed.

(** C40: with finalizers, dropping a reference that is not the last runs them all,
    although the file stays open, and dropping the last one aborts: the destructor has
    freed the file when its reference count is read. *)
Theorem file_finalizers f x w :
  finalizers = true -> fw_files w !! f = Some x ->
  (forall n, f_cnt x = mk_sw n n -> 1 < n < 2 ^ 32 ->
     uk_file_release f w = Done (tt, fw_set_finalized (fw_finalized w ++ map (pair f) (f_fins x))
       (fw_set_files (<[f := set_cnt (mk_sw (n - 1) (n - 1)) x]> (fw_files w)) w))) /\
  (f_cnt x = mk_sw 1 1 -> wp (_release f 3) (fun _ _ => True) (fw_ext w) -> uk_file_release f w = Abort).
Proof.
  clear Hretries Hsize. intros Hfin Hx. split.
  - intros n Hc Hn. assert (Hrel : uk_swrefcount_release (f_cnt x) = Some (0, mk_sw (n - 1) (n - 1))).
    { rewrite Hc. unfold uk_swrefcount_release, uk_swrefcount_release_weak, uk_refcount_release. cbn [sw_strong sw_refcount].
      destruct (Z.ltb_spec 0 n), (Z.ltb_spec 1 n); try lia. simpl. rewrite (wrap_small 32) by lia. done. }
    unfold uk_file_release, get_file, deref, mbind, M_bind. rewrite Hx. unfold need. rewrite Hrel.
    unfold put_file, modify, finalize, get_file, deref. rewrite Hfin.
    cbn [negb Z.eqb mret M_ret]. replace (Z.lor 0 UK_SWREFCOUNT_LAST_STRONG =? 0) with false by done.
    cbn [negb]. unfold mbind, M_bind. cbn [fw_set_files fw_files]. by rewrite lookup_insert_eq.
  - intros Hc Hw. assert (Hrel : uk_swrefcount_release (f_cnt x) = Some (3, mk_sw 0 0)) by by rewrite Hc.
    unfold uk_file_release, get_file, deref, mbind, M_bind. rewrite Hx. unfold need. rewrite Hrel.
    unfold put_file, modify, release_file, lift_ext, finalize, get_file, deref. rewrite Hfin. cbn [negb Z.eqb mret M_ret fw_set_files fw_ext].
    unfold mbind, M_bind. cbn [fw_ext]. unfold wp in Hw. destruct (_release f 3 (fw_ext w)) as [[u x']| |] eqn:He; [|done|done].
    replace (flag_set 3 UK_SWREFCOUNT_LAST_REF) with true by done. replace (Z.lor 3 UK_SWREFCOUNT_LAST_STRONG =? 0) with false by done.
    cbn [negb]. unfold mbind, M_bind. cbn [fw_set_files fw_ext]. rewrite He. unfold modify.
    cbn [fw_set_ext fw_set_files fw_files]. by rewrite lookup_delete_eq.
Qed.
End fdtab.

(** ** A concrete environment *)

Module FdtabSample.
Definition malloc_at (n : nat) (live : gset positive) : option positive :=
  let k := Pos.of_succ_nat n in
  if bool_decide (k ∉ live) && (16 * Zpos k + 16 <=? 2 ^ 64) then Some k else None.
Definition destroy (f : positive) (_ : Z) : M (gset positive) unit := modify (fun x => x ∖ {[f]}).
Definition create (_ _ _ : Z) : M (gset positive) (Z + positive) :=
  x ← gets id; modify (fun x => x ∪ {[fresh x]});; mret (inr (fresh x)).

#[export] Instance sample_env : FileEnv malloc_at destroy create eq.
Proof.
  split.
  - unfold malloc_at. intros n live k. destruct (bool_decide_reflect (Pos.of_succ_nat n ∉ live)); [|done].
    simpl. destruct (Z.leb_spec (16 * Zpos (Pos.of_succ_nat n) + 16) (2 ^ 64)) as [Hl|]; intros [= <-]. done.
  - by intros f x L ->.
  - intros family type protocol x L ->. split; [apply is_fresh|done].
Qed.

(** Two sockets, a copy of the first, a call on it, a connection accepted from the
    second, and most of it closed again, once too often. *)
Definition calls : list (@sys_op (gset positive)) :=
  [Socket 2 1 0; Socket 2 1 0; Fd (Dup2 0 5); On 5 (fun _ mode => mret mode); Accept 1 0x10000000 (fun _ _ => create 0 0 0);
   Fd (Close 0); Fd (Getflags 2); Fd (Close 5); Fd (Close 1); Fd (Close 1); On 1 (fun _ mode => mret mode); Below (mret tt)].
Lemma calls_ok : Forall (sys_ok eq) calls.
Proof.
  unfold calls. repeat apply Forall_cons_2; try apply Forall_nil_2; try exact I; cbn [sys_ok].
  - by intros f mode x L _ ->.
  - intros f mode x L _ ->. split; [apply is_fresh|done].
  - by intros f mode x L _ ->.
  - by intros x L ->.
Qed.
Definition results : option (list Z) :=
  w ← init_posix_fdtab 64 ∅;
  match sys_run false 64 1 malloc_at destroy 7 0x20000000 0x10000000 create calls w with Done (rs, _) => Some rs | _ => None end.
End FdtabSample.

Lemma fdtab_safe_witness :
  FdtabSample.results = Some [0; 1; 5; 58; 2; 0; O_CLOEXEC; 0; 0; - EBADF; - EBADF; 0] /\
  exists w0, init_posix_fdtab 64 ∅ = Some w0 /\
    wp (sys_run false 64 1 FdtabSample.malloc_at FdtabSample.destroy 7 0x20000000 0x10000000 FdtabSample.create FdtabSample.calls)
      (fun rs w => exists D' T',
        run_spec 64 0x20000000 0x10000000 FdtabSample.calls (fun _ => (1%positive, 0)) ∅ rs D' T' /\
        represents 64 (fw_map w) (enc <$> T') /\
        dom (fw_ofiles w) = descs_of T' /\ dom (fw_files w) = files_of D' T' /\ fw_ext w = files_of D' T') w0.
Proof.
  split; [vm_compute; reflexivity|].
  apply (fdtab_safe false 64 1 FdtabSample.malloc_at FdtabSample.destroy 7 0x20000000 0x10000000 FdtabSample.create eq ltac:(lia) ltac:(lia) (Henv := FdtabSample.sample_env));
    [reflexivity|reflexivity|apply FdtabSample.calls_ok].
Defined.

Lemma file_finalizers_witness :
  let w := mk_fdworld (mk_fmap [] 0 []) ∅ {[1%positive := mk_file 7 (mk_sw 1 1) [5]]} 0 [] {[1%positive]} in
  uk_file_release true FdtabSample.destroy 1 w = Abort.
Proof.
  intros w. apply (file_finalizers true FdtabSample.destroy 1 (mk_file 7 (mk_sw 1 1) [5]) w); reflexivity || exact I.
Defined.
