(* ===== verification/PosixSocket.v ===== *)
(** * The socket calls and the shim from AF_INET to AF_VSOCK

    lib/posix-socket: the driver interface of socket_driver.h, driver.c, and socket.c,
    from a descriptor down to the operations of the driver behind its file.  A stream
    socket of the family AF_INET is backed by a vsock one where that can be created;
    the node of the driver that was asked for is kept aside.  Other drivers, the
    allocator and waiting for an event are parameters.  Locks of files and trace
    points are left out, and the optional socket events are disabled. *)

From stdpp Require Import base option list gmap sets numbers functions.
From S2P Require Import Prelude Tree VsockBuffer Netbuf Vsock VsockTable VsockLogic VsockCore VsockSocket VsockStream.
From S2P Require Import Bitmap Fmap Fdtab.

Definition AF_INET : Z := 2.
Definition MSG_DONTWAIT : Z := 64.
Definition ESPIPE : Z := 29.
Definition ENOSYS : Z := 38.

(** ** Addresses *)

Definition bswap_16 (x : Z) : Z := u16 (Z.lor (Z.shiftl x 8) (Z.shiftr x 8)).
(** The byte order of the machine is little endian. *)
Definition ntohs (n : Z) : Z := bswap_16 n.
Definition htons (n : Z) : Z := bswap_16 n.

Definition sizeof_in : Z := 16.
Record sockaddr_in : Type := mk_in { sin_family : Z; sin_port : Z; sin_addr : Z }.
Definition encode_in (a : sockaddr_in) : list Z :=
  le_bytes 2 (sin_family a) ++ le_bytes 2 (sin_port a) ++ le_bytes 4 (sin_addr a) ++ replicate 8 0.

(** ** The driver interface *)

Section posix_socket.
Context {P Q D : Type}.
#[local] Abbreviation world := (world P Q D).
#[local] Abbreviation MW := (M world).

(** What a call returns and what it has written to its result pointers. *)
#[local] Abbreviation out := (option (list Z * Z)).

Record posix_socket_ops : Type := mk_psops {
  po_create : option (Z -> Z -> Z -> MW (Z + option positive));
  po_accept4 : option (positive -> bool -> option Z -> Z -> MW ((Z + positive) * out));
  po_bind : option (positive -> list Z -> Z -> MW Z);
  po_shutdown : option (positive -> Z -> MW Z);
  po_getpeername : option (positive -> option Z -> MW (Z * out));
  po_getsockname : option (positive -> option Z -> MW (Z * out));
  po_getsockopt : option (positive -> Z -> Z -> option Z -> MW (Z * out));
  po_setsockopt : option (positive -> Z -> Z -> list Z -> MW Z);
  po_connect : option (positive -> list Z -> Z -> MW Z);
  po_listen : option (positive -> Z -> MW Z);
  po_recvfrom : option (positive -> Z -> Z -> bool -> bool -> MW (Z * list Z));
  po_recvmsg : option (positive -> list Z -> Z -> MW (Z * list (list Z)));
  po_sendmsg : option (positive -> list (list Z) -> Z -> MW Z);
  po_sendto : option (positive -> list Z -> Z -> bool -> Z -> MW Z);
  po_socketpair : option (Z -> Z -> Z -> MW (Z * list positive));
  po_socketpair_post : option (list positive -> MW unit);
  po_write : option (positive -> list (list Z) -> MW Z);
  po_read : option (positive -> list Z -> MW (Z * list (list Z)));
  po_close : option (positive -> MW Z);
  po_ioctl : option (positive -> Z -> MW Z);
  po_poll_setup : option (positive -> MW unit)
}.

(** [socket_vsock_ops] of vsock.c. *)
Definition socket_vsock_ops (ops : uk_vsockdev_ops P Q D) : posix_socket_ops :=
  mk_psops
    (Some (fun family type protocol =>
       r ← vsock_create ops family type protocol;
       mret (match r with inl e => inl e | inr i => inr (Some i) end)))
    (Some (fun ps addr addr_len _ => vsock_accept4 ops ps addr addr_len))
    (Some (vsock_bind ops)) (Some (vsock_shutdown ops)) (Some vsock_getpeername) (Some vsock_getsockname)
    (Some vsock_getsockopt) (Some (fun _ _ _ _ => vsock_setsockopt)) (Some (vsock_connect ops)) (Some (vsock_listen ops))
    (Some (fun ps len _ from fromlen => vsock_recvfrom ops ps len from fromlen)) None None
    (Some (fun ps buf _ dest_addr addrlen => vsock_sendto ops ps buf dest_addr addrlen))
    (Some (fun _ _ _ => rc ← vsock_socketpair; mret (rc, []))) None
    (Some (vsock_write ops)) (Some (vsock_read ops)) (Some (vsock_close ops)) (Some (fun _ _ => vsock_ioctl))
    (Some vsock_poll_setup).

(** The registered drivers, in the order of the linker's list. *)
Context (driver_list : list (Z * posix_socket_ops)).

Fixpoint driver_find (l : list (Z * posix_socket_ops)) (family : Z) : option posix_socket_ops :=
  match l with
  | [] => None
  | (f, d) :: l => if f =? family then Some d else driver_find l family
  end.
Definition posix_socket_driver_get (family : Z) : option posix_socket_ops := driver_find driver_list family.

Definition get_file_alloc (sock : positive) : MW socket_alloc := deref (fun w => w_psocks w !! sock).
Definition posix_sock_get_driver (sock : positive) : MW posix_socket_ops :=
  al ← get_file_alloc sock;
  deref (fun _ => family ← n_driver (al_node al); posix_socket_driver_get family).
(** [UK_ASSERT(d->ops->f); return d->ops->f(...)] *)
Definition dispatch {A} (sock : positive) (f : posix_socket_ops -> option A) : MW A :=
  d ← posix_sock_get_driver sock; need (f d).

Definition posix_socket_create (d : option posix_socket_ops) (family type protocol : Z) : MW (Z + option positive) :=
  d ← need d; f ← need (po_create d); f family type protocol.
Definition posix_socket_accept4 (sock : positive) (addr : bool) (addr_len : option Z) (flags : Z) : MW ((Z + positive) * out) :=
  f ← dispatch sock po_accept4; f sock addr addr_len flags.
Definition posix_socket_bind (sock : positive) (addr : list Z) (addr_len : Z) : MW Z :=
  f ← dispatch sock po_bind; f sock addr addr_len.
Definition posix_socket_shutdown (sock : positive) (how : Z) : MW Z := f ← dispatch sock po_shutdown; f sock how.
Definition posix_socket_getpeername (sock : positive) (addr_len : option Z) : MW (Z * out) :=
  f ← dispatch sock po_getpeername; f sock addr_len.
Definition posix_socket_getsockname (sock : positive) (addr_len : option Z) : MW (Z * out) :=
  f ← dispatch sock po_getsockname; f sock addr_len.
Definition posix_socket_getsockopt (sock : positive) (level optname : Z) (optlen : option Z) : MW (Z * out) :=
  f ← dispatch sock po_getsockopt; f sock level optname optlen.
Definition posix_socket_setsockopt (sock : positive) (level optname : Z) (optval : list Z) : MW Z :=
  f ← dispatch sock po_setsockopt; f sock level optname optval.
Definition posix_socket_connect (sock : positive) (addr : list Z) (addr_len : Z) : MW Z :=
  f ← dispatch sock po_connect; f sock addr addr_len.
Definition posix_socket_listen (sock : positive) (backlog : Z) : MW Z := f ← dispatch sock po_listen; f sock backlog.
Definition posix_socket_recvfrom (sock : positive) (len flags : Z) (from fromlen : bool) : MW (Z * list Z) :=
  f ← dispatch sock po_recvfrom; f sock len flags from fromlen.
Definition posix_socket_recvmsg (sock : positive) (iov : list Z) (flags : Z) : MW (Z * list (list Z)) :=
  f ← dispatch sock po_recvmsg; f sock iov flags.
Definition posix_socket_sendmsg (sock : positive) (iov : list (list Z)) (flags : Z) : MW Z :=
  f ← dispatch sock po_sendmsg; f sock iov flags.
Definition posix_socket_sendto (sock : positive) (buf : list Z) (flags : Z) (dest_addr : bool) (addrlen : Z) : MW Z :=
  f ← dispatch sock po_sendto; f sock buf flags dest_addr addrlen.
Definition posix_socket_socketpair (d : option posix_socket_ops) (family type protocol : Z) : MW (Z * list positive) :=
  d ← need d; f ← need (po_socketpair d); f family type protocol.
Definition posix_socket_socketpair_post (d : option posix_socket_ops) (sv : list positive) : MW unit :=
  d ← need d; match po_socketpair_post d with Some f => f sv | None => mret tt end.
Definition posix_socket_write (sock : positive) (iov : list (list Z)) : MW Z := f ← dispatch sock po_write; f sock iov.
Definition posix_socket_read (sock : positive) (iov : list Z) : MW (Z * list (list Z)) := f ← dispatch sock po_read; f sock iov.
Definition posix_socket_close (sock : positive) : MW Z := f ← dispatch sock po_close; f sock.
Definition posix_socket_ioctl (sock : positive) (request : Z) : MW Z := f ← dispatch sock po_ioctl; f sock request.
Definition posix_socket_poll_setup (sock : positive) : MW unit := f ← dispatch sock po_poll_setup; f sock.

(** ** Files *)

(** The memory for a [struct socket_alloc]; what other threads do while one waits; a
    bound on the turns of loops. *)
Context (uk_malloc : world -> option positive) (others : MW unit) (turns : nat).

Definition put_file_alloc (sock : positive) (al : socket_alloc) : MW unit :=
  modify (fun w => set_psocks (<[sock := al]> (w_psocks w)) w).

Definition _socket_init (sock : positive) (family : Z) (sock_data : option positive) : MW unit :=
  put_file_alloc sock (mk_alloc (mk_node sock_data (Some family)) (mk_node None None) 0);;
  posix_socket_poll_setup sock.

(** The vsock socket behind a new AF_INET stream socket. *)
Definition vsock_facade (sock : positive) (type : Z) : MW unit :=
  vsock_data ← posix_socket_create (posix_socket_driver_get AF_VSOCK) AF_VSOCK type 0;
  match vsock_data with
  | inl _ => mret tt
  | inr data =>
      al ← get_file_alloc sock;
      put_file_alloc sock (mk_alloc (mk_node data (Some AF_VSOCK)) (al_node al) (al_events al));;
      posix_socket_poll_setup sock
  end.
Definition uk_socket_create (family type protocol : Z) : MW (Z + positive) :=
  match posix_socket_driver_get family with
  | None => mret (inl (- EAFNOSUPPORT))
  | Some d =>
      al ← gets uk_malloc;
      match al with
      | None => mret (inl (- ENOMEM))
      | Some sock =>
          sock_data ← posix_socket_create (Some d) family type protocol;
          match sock_data with
          | inl e => mret (inl e)
          | inr data =>
              _socket_init sock family data;;
              (if (family =? AF_INET) && (type =? SOCK_STREAM) then vsock_facade sock type else mret tt);;
              mret (inr sock)
          end
      end
  end.

Definition UK_FILE_RELEASE_RES : Z := UK_SWREFCOUNT_LAST_STRONG.
Definition UK_FILE_RELEASE_OBJ : Z := UK_SWREFCOUNT_LAST_REF.
Definition socket_release (sock : positive) (what : Z) : MW unit :=
  (if flag_set what UK_FILE_RELEASE_RES then _ ← posix_socket_close sock; mret tt else mret tt);;
  if flag_set what UK_FILE_RELEASE_OBJ then modify (fun w => set_psocks (delete sock (w_psocks w)) w)
  else mret tt.

Definition ERR_BLOCK (r : Z) : bool := r =? - EAGAIN.
Definition SHOULD_BLOCK (mode : Z) : bool := negb (flag_set mode O_NONBLOCK).

(** The loop of the blocking calls: an attempt, and a wait after an attempt that would
    block; [n] turns. *)
Fixpoint blocking {A} (again : A -> bool) (attempt : MW A) (wait : MW unit) (n : nat) : MW A :=
  match n with
  | O => out_of_fuel
  | S n =>
      r ← attempt;
      if again r then wait;; blocking again attempt wait n else mret r
  end.

Definition UKFD_POLL_ALWAYS : Z := Z.lor EPOLLERR EPOLLHUP.
Definition UKFD_POLLIN : Z := Z.lor EPOLLIN (Z.lor 0x40 0x80).
Definition UKFD_POLLOUT : Z := Z.lor EPOLLOUT (Z.lor 0x100 0x200).
(** [uk_file_poll]: the requested events that are set, once there are any.  A thread
    that waits tests them again after every turn of the other threads; the queue of
    waiters of lib/ukfile, by which a change of the events wakes it, is not modelled. *)
Fixpoint poll_loop (sock : positive) (req : Z) (n : nat) : MW Z :=
  match n with
  | O => out_of_fuel
  | S n =>
      al ← get_file_alloc sock;
      let ev := Z.land (al_events al) req in
      if negb (ev =? 0) then mret ev else others;; poll_loop sock req n
  end.
Definition uk_file_poll (sock : positive) (req : Z) : MW unit := _ ← poll_loop sock req turns; mret tt.

Definition uk_socket_accept (sock : positive) (block : bool) (addr : bool) (addr_len : option Z) (flags : Z)
    : MW ((Z + positive) * out) :=
  n ← get_file_alloc sock;
  al ← gets uk_malloc;
  match al with
  | None => mret (inl (- ENOMEM), None)
  | Some new =>
      r ← blocking (fun r => block && match r.1 with inl e => ERR_BLOCK e | inr _ => false end)
            (posix_socket_accept4 sock addr addr_len flags) (uk_file_poll sock UKFD_POLLIN) turns;
      match r.1 with
      | inl e => mret (inl e, r.2)
      | inr new_data =>
          family ← deref (fun _ => n_driver (al_node n));
          _socket_init new family (Some new_data);;
          mret (inr new, r.2)
      end
  end.

(** [socket_read], [socket_write] and [socket_ctl]; [off] is the offset in the file. *)
Definition socket_read (sock : positive) (iov : list Z) (off : Z) : MW (Z * list (list Z)) :=
  if negb (off =? 0) then mret (- ESPIPE, [])
  else
    d ← posix_sock_get_driver sock;
    match po_read d with
    | Some _ => posix_socket_read sock iov
    | None => posix_socket_recvmsg sock iov 0
    end.
Definition socket_write (sock : positive) (iov : list (list Z)) (off : Z) : MW Z :=
  if negb (off =? 0) then mret (- ESPIPE)
  else
    d ← posix_sock_get_driver sock;
    match po_write d with
    | Some _ => posix_socket_write sock iov
    | None => posix_socket_sendmsg sock iov 0
    end.
Definition UKFILE_CTL_IOCTL : Z := 1.
Definition socket_ctl (sock : positive) (fam req : Z) : MW Z :=
  if fam =? UKFILE_CTL_IOCTL then posix_socket_ioctl sock req else mret (- ENOSYS).

(** ** Calls on a file *)

(** [bind]: the address of an AF_INET socket is translated for the vsock behind it. *)
Definition bind_file (sock : positive) (addr : list Z) (addr_len : Z) : MW Z :=
  al ← get_file_alloc sock;
  if bool_decide (is_Some (n_driver (al_stub al))) then
    port ← deref (fun _ => le_val <$> memread 2 2 addr);
    posix_socket_bind sock (encode_svm (mk_svm AF_VSOCK 0 (ntohs port) VMADDR_CID_ANY 0)) sizeof_svm
  else posix_socket_bind sock addr addr_len.

(** [getsockname]: and its address is translated back. *)
Definition getsockname_file (sock : positive) (addr_len : option Z) : MW (Z * out) :=
  al ← get_file_alloc sock;
  if bool_decide (is_Some (n_driver (al_stub al))) then
    '(ret, written) ← posix_socket_getsockname sock (Some sizeof_svm);
    if ret =? 0 then
      svm ← deref (fun _ => '(b, _) ← written; decode_svm <$> memread 0 sizeof_svm b);
      n ← deref (fun _ => addr_len);
      let addr_in := mk_in AF_INET (htons (u16 (svm_port svm))) 0 in
      mret (ret, Some (slice 0 (if n <? sizeof_in then n else sizeof_in) (encode_in addr_in), sizeof_in))
    else mret (ret, None)
  else posix_socket_getsockname sock addr_len.

Definition connect_file (sock : positive) (mode : Z) (addr : list Z) (addr_len : Z) : MW Z :=
  ret ← posix_socket_connect sock addr addr_len;
  if (ret =? - EINPROGRESS) && SHOULD_BLOCK mode then
    uk_file_poll sock (Z.lor UKFD_POLLOUT UKFD_POLL_ALWAYS);;
    '(_, written) ← posix_socket_getsockopt sock SOL_SOCKET SO_ERROR (Some 4);
    mret (match written with Some (b, _) => s32 (le_val (b ++ drop (length b) (le_bytes 4 (u32 ret)))) | None => ret end)
  else mret ret.

(** Whether a call waits: the file is blocking and the call does not ask otherwise. *)
Definition waits (mode flags : Z) : bool := SHOULD_BLOCK mode && negb (flag_set flags MSG_DONTWAIT).
Definition recvfrom_file (sock : positive) (mode len flags : Z) (from fromlen : bool) : MW (Z * list Z) :=
  blocking (fun r => waits mode flags && ERR_BLOCK r.1) (posix_socket_recvfrom sock len flags from fromlen)
    (uk_file_poll sock UKFD_POLLIN) turns.
Definition recvmsg_file (sock : positive) (mode : Z) (iov : list Z) (flags : Z) : MW (Z * list (list Z)) :=
  blocking (fun r => waits mode flags && ERR_BLOCK r.1) (posix_socket_recvmsg sock iov flags)
    (uk_file_poll sock UKFD_POLLIN) turns.
Definition sendmsg_file (sock : positive) (mode : Z) (iov : list (list Z)) (flags : Z) : MW Z :=
  blocking (fun r => waits mode flags && ERR_BLOCK r) (posix_socket_sendmsg sock iov flags)
    (uk_file_poll sock UKFD_POLLOUT) turns.
Definition sendto_file (sock : positive) (mode : Z) (buf : list Z) (flags : Z) (dest_addr : bool) (addrlen : Z) : MW Z :=
  blocking (fun r => waits mode flags && ERR_BLOCK r) (posix_socket_sendto sock buf flags dest_addr addrlen)
    (uk_file_poll sock UKFD_POLLOUT) turns.

(** The two blocks have the size of a pointer, as [al] is an array of pointers, so that
    their initialisation as [struct socket_alloc] writes beyond them. *)
Definition uk_socketpair_create (family type protocol : Z) : MW Z :=
  match posix_socket_driver_get family with
  | None => mret (- EAFNOSUPPORT)
  | Some d =>
      al ← gets uk_malloc;
      match al with
      | None => mret (- ENOMEM)
      | Some _ =>
          '(ret, _) ← posix_socket_socketpair (Some d) family type protocol;
          if negb (ret =? 0) then mret ret else abort
      end
  end.

(** ** The system calls *)

#[local] Abbreviation MF := (M (@fdworld world)).
Context (finalizers : bool) (UK_FDTAB_SIZE : Z) (retries : nat) (ofile_malloc : nat -> gset positive -> option positive).
Context (POSIX_SOCKET_VOLID SOCK_NONBLOCK SOCK_CLOEXEC : Z).

#[local] Abbreviation on_socket := (on_socket finalizers UK_FDTAB_SIZE retries socket_release POSIX_SOCKET_VOLID).
Definition on_file {A} (fd : Z) (err : Z -> A) (op : positive -> Z -> MW A) : MF A :=
  on_socket fd err (fun f mode => lift_ext (op f mode)).
Definition failed_out (e : Z) : Z * out := (e, None).

Definition sys_socket (family type protocol : Z) : MF Z :=
  uk_sys_socket finalizers UK_FDTAB_SIZE retries ofile_malloc socket_release POSIX_SOCKET_VOLID SOCK_NONBLOCK SOCK_CLOEXEC
    uk_socket_create family type protocol.
Definition sys_accept4 (fd : Z) (addr : bool) (addr_len : option Z) (flags : Z) : MF Z :=
  do_accept4 finalizers UK_FDTAB_SIZE retries ofile_malloc socket_release POSIX_SOCKET_VOLID SOCK_NONBLOCK SOCK_CLOEXEC
    (fun f mode => r ← uk_socket_accept f (SHOULD_BLOCK mode) addr addr_len flags; mret r.1) fd flags.
Definition sys_bind (fd : Z) (addr : option (list Z)) (addr_len : Z) : MF Z :=
  match addr with
  | None => mret (- EFAULT)
  | Some addr => on_file fd id (fun f _ => bind_file f addr addr_len)
  end.
Definition sys_shutdown (fd how : Z) : MF Z :=
  if negb ((how =? SHUT_RD) || (how =? SHUT_WR) || (how =? SHUT_RDWR)) then mret (- EINVAL)
  else on_file fd id (fun f _ => posix_socket_shutdown f how).
Definition sys_getpeername (fd : Z) (addr_len : option Z) : MF (Z * out) :=
  on_file fd failed_out (fun f _ => posix_socket_getpeername f addr_len).
Definition sys_getsockname (fd : Z) (addr_len : option Z) : MF (Z * out) :=
  on_file fd failed_out (fun f _ => getsockname_file f addr_len).
Definition sys_getsockopt (fd level optname : Z) (optlen : option Z) : MF (Z * out) :=
  on_file fd failed_out (fun f _ => posix_socket_getsockopt f level optname optlen).
Definition sys_setsockopt (fd level optname : Z) (optval : option (list Z)) : MF Z :=
  match optval with
  | None => mret (- EFAULT)
  | Some optval => on_file fd id (fun f _ => posix_socket_setsockopt f level optname optval)
  end.
Definition sys_connect (fd : Z) (addr : option (list Z)) (addr_len : Z) : MF Z :=
  match addr with
  | None => mret (- EFAULT)
  | Some addr => on_file fd id (fun f mode => connect_file f mode addr addr_len)
  end.
Definition sys_listen (fd backlog : Z) : MF Z := on_file fd id (fun f _ => posix_socket_listen f backlog).
(** [buf] tells whether the pointer is not NULL. *)
Definition sys_recvfrom (fd : Z) (buf : bool) (len flags : Z) (from fromlen : bool) : MF (Z * list Z) :=
  if negb buf then mret (- EFAULT, [])
  else on_file fd (fun e => (e, [])) (fun f mode => recvfrom_file f mode len flags from fromlen).
Definition sys_sendto (fd : Z) (buf : option (list Z)) (flags : Z) (dest_addr : bool) (addrlen : Z) : MF Z :=
  match buf with
  | None => mret (- EFAULT)
  | Some buf => on_file fd id (fun f mode => sendto_file f mode buf flags dest_addr addrlen)
  end.
Definition sys_recvmsg (fd : Z) (msg : option (list Z)) (flags : Z) : MF (Z * list (list Z)) :=
  match msg with
  | None => mret (- EFAULT, [])
  | Some iov => on_file fd (fun e => (e, [])) (fun f mode => recvmsg_file f mode iov flags)
  end.
Definition sys_sendmsg (fd : Z) (msg : option (list (list Z))) (flags : Z) : MF Z :=
  match msg with
  | None => mret (- EFAULT)
  | Some iov => on_file fd id (fun f mode => sendmsg_file f mode iov flags)
  end.
End posix_socket.
