(* ===== verification/PosixLogic.v ===== *)
(** * The files of sockets

    The operations of lib/posix-socket on files keep the invariant of the vsock core
    and the correspondence between files and sockets, for every vsock driver that
    satisfies [Driver] and every other family whose driver satisfies [OtherDriver]. *)

From stdpp Require Import prelude gmap sorting functions.
From S2P Require Import Prelude Tree VsockBuffer Netbuf Vsock VsockTable VsockLogic VsockCore VsockSocket VsockStream.
From S2P Require Import Bitmap Fmap Fdtab PosixSocket.

(** ** Addresses as bytes *)

Definition svm_ok (a : sockaddr_vm) : Prop :=
  0 <= svm_family a < 2 ^ 16 /\ 0 <= svm_reserved1 a < 2 ^ 16 /\ 0 <= svm_port a < 2 ^ 32 /\
  0 <= svm_cid a < 2 ^ 32 /\ 0 <= svm_flags a < 2 ^ 8.
Lemma zlen_encode_svm a : zlen (encode_svm a) = sizeof_svm.
Proof. unfold zlen, encode_svm. rewrite !length_app, !length_le_bytes. done. Qed.
Lemma decode_encode_wrap a :
  decode_svm (encode_svm a) =
  mk_svm (u16 (svm_family a)) (u16 (svm_reserved1 a)) (u32 (svm_port a)) (u32 (svm_cid a)) (u8 (svm_flags a)).
Proof.
  destruct a as [f r p c g]. unfold decode_svm, encode_svm. cbn [svm_family svm_reserved1 svm_port svm_cid svm_flags].
  f_equal.
  - etrans; [by apply f_equal, (slice_app_here [] (le_bytes 2 f))|]. apply le_val_bytes_wrap.
  - rewrite (slice_app_here (le_bytes 2 f) (le_bytes 2 r)) by done. apply le_val_bytes_wrap.
  - rewrite !(app_assoc (le_bytes 2 f)), (slice_app_here _ (le_bytes 4 p)) by done. apply le_val_bytes_wrap.
  - rewrite !(app_assoc (le_bytes 2 f)), !(app_assoc _ (le_bytes 4 p)), (slice_app_here _ (le_bytes 4 c)) by done. apply le_val_bytes_wrap.
  - rewrite !(app_assoc (le_bytes 2 f)), !(app_assoc _ (le_bytes 4 p)), !(app_assoc _ (le_bytes 4 c)), (slice_app_here _ (le_bytes 1 g)) by done.
    apply le_val_bytes_wrap.
Qed.
Lemma decode_encode_svm a : svm_ok a -> decode_svm (encode_svm a) = a.
Proof. intros (H1 & H2 & H3 & H4 & H5). rewrite decode_encode_wrap, !wrap_small by done. by destruct a. Qed.
Lemma slice_encode_svm a : slice 0 sizeof_svm (encode_svm a) = encode_svm a.
Proof. rewrite <- (zlen_encode_svm a). apply slice_all. Qed.

Lemma bswap_range x : 0 <= bswap_16 x < 2 ^ 16.
Proof. unfold bswap_16. apply wrap_range. lia. Qed.
Lemma bswap_involutive x : 0 <= x < 2 ^ 16 -> bswap_16 (bswap_16 x) = x.
Proof.
  intros Hx. assert (Hb : forall y i, 0 <= y < 2 ^ 16 -> 0 <= i -> Z.testbit (bswap_16 y) i = (i <? 16) && Z.testbit y (if i <? 8 then i + 8 else i - 8)).
  { intros y i Hy Hi. unfold bswap_16, wrap. destruct (Z.ltb_spec i 16); cbn [andb].
    - rewrite Z.mod_pow2_bits_low, Z.lor_spec by lia. destruct (Z.ltb_spec i 8).
      + rewrite Z.shiftl_spec_low, Z.shiftr_spec by lia. done.
      + rewrite Z.shiftl_spec, Z.shiftr_spec by lia. rewrite (low_testbit 16 y (i + 8)) by lia. by rewrite orb_false_r.
    - apply Z.mod_pow2_bits_high. lia. }
  apply Z.bits_inj'. intros i Hi. rewrite Hb by (apply bswap_range || done). destruct (Z.ltb_spec i 16); cbn [andb].
  2: { symmetry. by apply (low_testbit 16). }
  rewrite Hb by (try done; destruct (i <? 8) eqn:?; lia). destruct (Z.ltb_spec i 8).
  - rewrite (proj2 (Z.ltb_lt (i + 8) 16)), (proj2 (Z.ltb_ge (i + 8) 8)) by lia. cbn [andb]. f_equal. lia.
  - rewrite (proj2 (Z.ltb_lt (i - 8) 16)), (proj2 (Z.ltb_lt (i - 8) 8)) by lia. cbn [andb]. f_equal. lia.
Qed.

Section logic.
Context {P Q D : Type} (inv : gmap positive P -> gmap positive Q -> D -> Prop) (cid : Z).
Context (ops : uk_vsockdev_ops P Q D) (max_send : Z) `{Hdrv : !Driver inv cid ops max_send}.
#[local] Abbreviation world := (world P Q D).
#[local] Abbreviation cwp := (cwp inv).
#[local] Abbreviation core_inv := (core_inv cid).

(** Another driver keeps its own state; it may change the events of the file it is
    called for. *)
Class OtherDriver (d : @posix_socket_ops P Q D) : Prop := {
  other_create family type protocol c :
    exists f, po_create d = Some f /\
      cwp (f family type protocol) (fun r c' => c' = c /\ forall e, r = inl e -> e < 0) c;
  other_poll_setup sock al c :
    exists f, po_poll_setup d = Some f /\
      (c_psocks c !! sock = Some al -> cwp (f sock) (fun _ c' => exists e, c' = c_file sock (set_events al e) c) c);
  other_close sock al c :
    exists f, po_close d = Some f /\
      (c_psocks c !! sock = Some al -> cwp (f sock) (fun _ c' => exists e, c' = c_file sock (set_events al e) c) c);
  other_bind sock al addr addr_len c :
    exists f, po_bind d = Some f /\
      (c_psocks c !! sock = Some al -> cwp (f sock addr addr_len) (fun _ c' => exists e, c' = c_file sock (set_events al e) c) c);
  other_listen sock al backlog c :
    exists f, po_listen d = Some f /\
      (c_psocks c !! sock = Some al -> cwp (f sock backlog) (fun _ c' => exists e, c' = c_file sock (set_events al e) c) c);
  other_getsockname sock al n c :
    exists f, po_getsockname d = Some f /\
      (c_psocks c !! sock = Some al -> cwp (f sock n) (fun _ c' => exists e, c' = c_file sock (set_events al e) c) c)
}.

Context (driver_list : list (Z * @posix_socket_ops P Q D)) (uk_malloc : world -> option positive).
#[local] Abbreviation driver_get := (posix_socket_driver_get driver_list).
Context (Hvsock : driver_get AF_VSOCK = Some (socket_vsock_ops ops)).
Context (Hother : forall family d, driver_get family = Some d -> family <> AF_VSOCK -> OtherDriver d).
Context (Hmalloc : forall w sock, uk_malloc w = Some sock -> w_psocks w !! sock = None).

(** ** Dispatch *)

Lemma cwp_dispatch {A} sock al family d (f : posix_socket_ops -> option A) g Φ c :
  c_psocks c !! sock = Some al -> n_driver (al_node al) = Some family -> driver_get family = Some d -> f d = Some g ->
  Φ g c -> cwp (dispatch driver_list sock f) Φ c.
Proof.
  intros Hal Hn Hd Hf HΦ. unfold dispatch, posix_sock_get_driver, get_file_alloc. cstep. cstep.
  eapply cwp_deref; [by intros w <-|]. eapply cwp_deref; [intros w Hw; by rewrite Hn|]. rewrite Hf. by apply cwp_ret.
Qed.
Lemma cwp_alloc sock al Φ c : c_psocks c !! sock = Some al -> Φ al c -> cwp (get_file_alloc sock) Φ c.
Proof. intros Hal. apply cwp_deref. by intros w <-. Qed.
Lemma cwp_put_alloc sock al Φ c : Φ tt (c_file sock al c) -> cwp (put_file_alloc sock al) Φ c.
Proof. apply cwp_modify. by intros w <-. Qed.

(** ** Files and sockets *)

Definition vsock_node (i : positive) : posix_socket_node := mk_node (Some i) (Some AF_VSOCK).

(** A file of the vsock family and its socket point to each other; another file has a
    driver of another family. *)
Definition linked (c : core_state) (sock : positive) (al : socket_alloc) : Prop :=
  (exists i s, al_node al = vsock_node i /\ c_socks c !! i = Some s /\ v_posix_sock s = Some sock) \/
  (exists family d, n_driver (al_node al) = Some family /\ driver_get family = Some d /\ family <> AF_VSOCK /\
    n_driver (al_stub al) = None).

(** The states without a peer, in which the calls of this file leave a socket. *)
Definition is_local (st : uk_vsock_state) : bool :=
  match st with READY | BOUND | LISTENING => true | _ => false end.
Record files_ok (c : core_state) (L : gset positive) : Prop := {
  fo_core : core_inv c;
  fo_dom : dom (c_psocks c) = L;
  fo_file sock al : c_psocks c !! sock = Some al -> linked c sock al;
  fo_sock i s : c_socks c !! i = Some s ->
    exists sock al, v_posix_sock s = Some sock /\ c_psocks c !! sock = Some al /\ al_node al = vsock_node i;
  fo_local i s : c_socks c !! i = Some s -> is_local (v_state s) = true
}.

(** A new file, and new events of a file. *)
Lemma core_inv_new_file c sock al :
  core_inv c -> c_psocks c !! sock = None -> core_inv (c_file sock al c).
Proof.
  intros [Ht Hd Hn Hs Hm Ho] Hp. split; try done; [by eapply table_frame, Ht|].
  intros i s Hi%Hs. eapply sock_wf_frame, Hi; [done|]. cbn. intros ps al0 Hal0.
  rewrite lookup_insert_ne by congruence. eauto.
Qed.
Lemma files_ok_events c L sock al e :
  files_ok c L -> c_psocks c !! sock = Some al -> files_ok (c_file sock (set_events al e) c) L.
Proof.
  intros [Hc Hd Hf Hs Hl] Hal. split; cbn; [..|done].
  - by eapply core_inv_file.
  - rewrite dom_insert_L. apply elem_of_dom_2 in Hal. set_solver.
  - intros s' al'. rewrite lookup_insert_Some. intros [[<- <-]|[_ Hal']]; [by apply (Hf _ al)|by apply Hf].
  - intros i s Hi. destruct (Hs i s Hi) as (s' & al' & Hp & Hal' & Hn). destruct (decide (s' = sock)) as [->|].
    + exists sock, (set_events al e). rewrite lookup_insert_eq. split_and!; try done. assert (al' = al) as <- by congruence. done.
    + exists s', al'. by rewrite lookup_insert_ne.
Qed.

(** ** Creation *)

(** What [uk_socket_create] may do: fail and change nothing; make a file of another
    family; make a vsock file; or make an AF_INET file with a vsock behind it. *)
Inductive created (family type : Z) (c : core_state) : Z + positive -> core_state -> Prop :=
  | created_error e : e < 0 -> created family type c (inl e) c
  | created_other sock data e :
      family <> AF_VSOCK -> is_Some (driver_get family) -> c_psocks c !! sock = None ->
      created family type c (inr sock) (c_file sock (mk_alloc (mk_node data (Some family)) (mk_node None None) e) c)
  | created_vsock sock i s :
      family = AF_VSOCK -> c_psocks c !! sock = None -> c_socks c !! i = None -> fresh_sock type s ->
      created family type c (inr sock)
        (c_put i (set_posix_sock s (Some sock)) (c_file sock (mk_alloc (vsock_node i) (mk_node None None) 0) c))
  | created_facade sock data i s e :
      family = AF_INET -> type = SOCK_STREAM -> c_psocks c !! sock = None -> c_socks c !! i = None -> fresh_sock type s ->
      created family type c (inr sock)
        (c_put i (set_posix_sock s (Some sock))
          (c_file sock (mk_alloc (vsock_node i) (mk_node data (Some family)) e) c)).

(** A fresh vsock and the file that it is going to back. *)
Lemma attach_spec sock al i type s c :
  core_inv c -> c_psocks c !! sock = None -> c_socks c !! i = None -> fresh_sock type s -> al_node al = vsock_node i ->
  cwp (posix_socket_poll_setup driver_list sock) (fun _ c' => core_inv c' /\
    c' = c_put i (set_posix_sock s (Some sock)) (c_file sock al c)) (c_file sock al (c_put i s c)).
Proof.
  intros Hc Hp Hi Hs Hn. unfold posix_socket_poll_setup. cstep.
  eapply cwp_dispatch; [apply lookup_insert_eq|by rewrite Hn|exact Hvsock|done|].
  assert (Hc1 : core_inv (c_put i s c)).
  { destruct (fresh_sock_wf inv cid ops max_send c i type s Hs) as (Hst & Hq & _ & _ & _ & Hwf). apply (core_inv_new inv cid ops max_send); try done; [by rewrite Hst|].
    specialize (Hwf (v_peer s) (v_local s)). by destruct s. }
  eapply cwp_mono; [eapply (vsock_poll_setup_spec inv cid i s sock al)|].
  - by apply core_inv_new_file.
  - apply lookup_insert_eq.
  - by rewrite Hn.
  - apply lookup_insert_eq.
  - intros _ c' [Hc' ->]. split; [done|]. unfold c_put, c_file. cbn. by rewrite insert_insert_eq.
Qed.

Lemma cwp_need {A} (o : option A) a Φ c : o = Some a -> Φ a c -> cwp (need o) Φ c.
Proof. intros -> H. by apply cwp_ret. Qed.
Lemma cwp_socket_malloc (Φ : option positive -> core_state -> Prop) c :
  (forall r, (forall sock, r = Some sock -> c_psocks c !! sock = None) -> Φ r c) -> cwp (gets uk_malloc) Φ c.
Proof. intros H w <- Hd. split; [done|]. apply H. intros sock. apply Hmalloc. Qed.

Lemma vsock_socket_create_spec type protocol c :
  core_inv c ->
  cwp (posix_socket_create (driver_get AF_VSOCK) AF_VSOCK type protocol) (fun r c' =>
    (exists rc, r = inl rc /\ rc < 0 /\ c' = c) \/
    (exists i s, r = inr (Some i) /\ c_socks c !! i = None /\ fresh_sock type s /\ c' = c_put i s c)) c.
Proof.
  intros Hc. unfold posix_socket_create. cstep. eapply cwp_need; [exact Hvsock|]. cstep. eapply cwp_need; [done|].
  apply cwp_bind. eapply cwp_mono; [by eapply vsock_create_spec|].
  intros r c' [_ [(rc & -> & Hrc & ->)|(i & s & -> & Hi & Hs & ->)]]; cstep; [left|right]; eauto 6.
Qed.

Lemma facade_spec sock data family e type c :
  family = AF_INET -> type = SOCK_STREAM -> is_Some (driver_get family) -> core_inv c -> c_psocks c !! sock = None ->
  cwp (vsock_facade driver_list sock type;; mret (inr sock)) (fun r c' => core_inv c' /\ created family type c r c')
    (c_file sock (mk_alloc (mk_node data (Some family)) (mk_node None None) e) c).
Proof.
  intros Hf Ht Hdf Hc Hp. set (al := mk_alloc (mk_node data (Some family)) (mk_node None None) e).
  assert (Hc1 : core_inv (c_file sock al c)) by by apply core_inv_new_file.
  cstep. unfold vsock_facade. cstep. eapply cwp_mono; [by apply vsock_socket_create_spec|].
  intros r c1 [(rc & -> & _ & ->)|(i & s & -> & Hi & Hs & ->)].
  - cstep. cstep. split; [done|]. apply created_other; [by rewrite Hf|done|done].
  - cstep. eapply cwp_alloc; [apply lookup_insert_eq|]. cstep. apply cwp_put_alloc. fold (vsock_node i). cbn [al al_node al_events].
    replace (c_file sock _ (c_put i s (c_file sock al c))) with
      (c_file sock (mk_alloc (vsock_node i) (mk_node data (Some family)) e) (c_put i s c))
      by (unfold c_file, c_put; cbn; by rewrite insert_insert_eq).
    eapply cwp_mono; [by eapply attach_spec|]. intros [] c2 [Hc2 ->]. cstep. split; [done|]. by apply created_facade.
Qed.

Lemma socket_create_spec family type protocol c :
  core_inv c ->
  cwp (uk_socket_create driver_list uk_malloc family type protocol) (fun r c' => core_inv c' /\ created family type c r c') c.
Proof.
  intros Hc. unfold uk_socket_create. destruct (driver_get family) as [d|] eqn:Hd.
  2: { cstep. split; [done|]. by apply created_error. }
  cstep. apply cwp_socket_malloc. intros [sock|] Hm; [|cstep; split; [done|by apply created_error]].
  specialize (Hm sock eq_refl). destruct (decide (family = AF_VSOCK)) as [->|Hne].
  - cstep. rewrite <- Hd. eapply cwp_mono; [by apply vsock_socket_create_spec|].
    intros r c1 [(rc & -> & Hrc & ->)|(i & s & -> & Hi & Hs & ->)]; [cstep; split; [done|by apply created_error]|].
    cstep. unfold _socket_init. cstep. apply cwp_put_alloc. fold (vsock_node i).
    eapply cwp_mono; [by eapply attach_spec|]. intros [] c2 [Hc2 ->]. replace (AF_VSOCK =? AF_INET) with false by done. cbn [andb].
    apply cwp_bind, cwp_ret, cwp_ret. split; [done|]. by apply created_vsock.
  - pose proof (Hother _ _ Hd Hne) as Ho. destruct (other_create family type protocol c) as (f & Hf & Hcr).
    cstep. unfold posix_socket_create. cstep. eapply cwp_need; [done|]. cstep. eapply cwp_need; [done|].
    eapply cwp_mono; [done|]. intros [e|data] c' [-> He]; [cstep; split; [done|apply created_error; by apply He]|].
    set (al := mk_alloc (mk_node data (Some family)) (mk_node None None) 0).
    assert (Hal : c_psocks (c_file sock al c) !! sock = Some al) by apply lookup_insert_eq.
    destruct (other_poll_setup sock al (c_file sock al c)) as (g & Hg & Hpoll).
    cstep. unfold _socket_init. cstep. apply cwp_put_alloc. unfold posix_socket_poll_setup. cstep.
    eapply cwp_dispatch; [done|done|done|done|]. eapply cwp_mono; [by apply Hpoll|]. intros [] c2 [e ->].
    replace (c_file sock _ (c_file sock al c)) with (c_file sock (mk_alloc (mk_node data (Some family)) (mk_node None None) e) c)
      by (unfold c_file; cbn; by rewrite insert_insert_eq).
    destruct ((family =? AF_INET) && (type =? SOCK_STREAM)) eqn:Hfac.
    + apply facade_spec; (done || lia || eauto).
    + apply cwp_bind, cwp_ret, cwp_ret. split; [by apply core_inv_new_file|apply created_other; eauto].
Qed.

Lemma created_files family type c r c' L :
  files_ok c L -> core_inv c' -> created family type c r c' ->
  match r with inl e => e < 0 /\ files_ok c' L | inr f => (f ∉ L) /\ files_ok c' (L ∪ {[f]}) end.
Proof.
  intros [Hc Hd Hf Hs Hl] Hc' Hcr.
  assert (Hfresh : forall sock, c_psocks c !! sock = None -> sock ∉ L) by (intros sock Hn; rewrite <- Hd; by apply not_elem_of_dom).
  assert (Hkeep : forall sock i s, c_psocks c !! sock = None -> c_socks c !! i = None -> fresh_sock type s ->
    forall al, al_node al = vsock_node i -> core_inv (c_put i (set_posix_sock s (Some sock)) (c_file sock al c)) ->
    files_ok (c_put i (set_posix_sock s (Some sock)) (c_file sock al c)) (L ∪ {[sock]})).
  { intros sock i s Hsock Hi Hfs al Hal Hci. split; cbn.
    - done.
    - by rewrite dom_insert_L, Hd, union_comm_L.
    - intros sock' al'. rewrite lookup_insert_Some. intros [[<- <-]|[_ Hal']].
      + left. exists i, (set_posix_sock s (Some sock)). cbn. by rewrite Hal, lookup_insert_eq.
      + destruct (Hf _ _ Hal') as [(j & sj & Hn & Hj & Hpj)|Ho]; [|by right]. left. exists j, sj.
        cbn. rewrite lookup_insert_ne by congruence. done.
    - intros j sj. rewrite lookup_insert_Some. intros [[<- <-]|[_ Hj]].
      + exists sock, al. by rewrite lookup_insert_eq.
      + destruct (Hs j sj Hj) as (sock' & al' & Hp & Hal' & Hn). exists sock', al'. rewrite lookup_insert_ne by congruence. done.
    - intros j sj. rewrite lookup_insert_Some. intros [[<- <-]|[_ Hj]]; [|by apply (Hl j)].
      destruct (fresh_sock_wf inv cid ops max_send c i type s Hfs) as (Hst & _). cbn. by rewrite Hst. }
  destruct Hcr as [e He|sock data e Hfam [d Hdr] Hn|sock i s Hfam Hn Hi Hfs|sock data i s e Hfam Ht Hn Hi Hfs]; cbn.
  - by split.
  - split; [by apply Hfresh|]. split; cbn; [..|done].
    + done.
    + by rewrite dom_insert_L, Hd, union_comm_L.
    + intros sock' al'. rewrite lookup_insert_Some. intros [[<- <-]|[_ Hal']]; [right; by exists family, d|by apply Hf].
    + intros j sj Hj. destruct (Hs j sj Hj) as (sock' & al' & Hp & Hal' & Hnode). exists sock', al'.
      rewrite lookup_insert_ne by congruence. done.
  - split; [by apply Hfresh|]. by apply Hkeep.
  - split; [by apply Hfresh|]. by apply Hkeep.
Qed.

(** ** Release *)

(** A socket that has no peer is closed without the help of the driver, so that it cannot fail. *)
Lemma close_returns_0 i s w :
  vsocks w !! i = Some s -> is_local (v_state s) = true -> wlp (uk_vsock_close ops i false) (fun rc _ => rc = 0) w.
Proof.
  intros Hi Hst.
  assert (Hloc : forall w, wlp (close_local ops i) (fun rc _ => rc = 0) w).
  { intros w1. unfold close_local, close_finish. do 6 (apply wlp_then; intros). by apply wlp_ret. }
  unfold uk_vsock_close. apply wlp_bind, wlp_ret. cbn [negb Z.eqb]. apply wlp_bind.
  unfold get_sock, deref, wlp at 1. rewrite Hi. by destruct (v_state s).
Qed.

Lemma vsock_close_0_spec i s sock al c :
  core_inv c -> attached c i s sock al -> is_local (v_state s) = true ->
  cwp (vsock_close ops sock) (fun rc c' => core_inv c' /\ rc = 0 /\ destroyed i s sock al c c') c.
Proof.
  intros Hc Hat Hloc. pose proof (attached_data _ _ _ _ _ _ Hc Hat) as Hdata. pose proof Hat as [Hs Hps Hal].
  unfold vsock_close. cstep. cstep. unfold uk_vsock_destroy, destroyed. cstep.
  eapply cwp_mono; [eapply (cwp_wlp _ _ _ (fun rc => rc = 0)); [by eapply uk_vsock_close_spec|intros w <- _; by apply (close_returns_0 i s)]|]. intros rc c' [Hpost ->].
  cbn [negb Z.eqb]. destruct (in_table (v_state s)) eqn:Hst.
  - destruct Hpost as [[Hrc _]|[_ [Hc' [t ->]]]]; [done|].
    eapply cwp_mono; [eapply (destroy_tail_spec inv cid ops max_send); [done|lookup_now|done]|]. intros rc ? (? & -> & ->). eauto.
  - destruct Hpost as [-> _]. eapply cwp_mono; [by eapply (destroy_tail_spec inv cid ops max_send)|]. intros rc' ? (? & -> & ->). auto.
Qed.

Definition c_unfile (sock : positive) (c : core_state) : core_state :=
  mk_core (c_sockets c) (c_next c) (c_socks c) (c_entries c) (delete sock (c_psocks c)) (c_main_dev c).
Lemma core_inv_unfile c sock :
  core_inv c -> (forall i s, c_socks c !! i = Some s -> v_posix_sock s <> Some sock) -> core_inv (c_unfile sock c).
Proof.
  intros [Ht Hd Hn Hs Hm Ho] Hno. split; try done; [by eapply table_frame, Ht|].
  intros i s Hi. cbn in Hi. destruct (Hs i s Hi) as [? ? ? ? ? ? ? Hf]. split; try done.
  intros ps Hp. destruct (Hf ps Hp) as (al & Hal & Hda). exists al. split; [|done]. cbn.
  rewrite lookup_delete_ne; [done|]. intros ->. by apply (Hno i s).
Qed.

(** Freeing the file of a socket that is gone, and a file of another family. *)
Lemma files_ok_unfile c c' L sock :
  files_ok c L -> core_inv c' ->
  (forall i s, c_socks c' !! i = Some s -> c_socks c !! i = Some s /\ v_posix_sock s <> Some sock) ->
  (forall i s, c_socks c !! i = Some s -> v_posix_sock s <> Some sock -> c_socks c' !! i = Some s) ->
  (forall sock', sock' <> sock -> c_psocks c' !! sock' = c_psocks c !! sock') ->
  files_ok (c_unfile sock c') (L ∖ {[sock]}).
Proof.
  intros [Hc Hd Hf Hs Hl] Hc' Hsub Hkeep Hp. split; cbn.
  - apply core_inv_unfile; [done|]. intros i s Hi. by apply (Hsub i s).
  - apply set_eq. intros f. rewrite elem_of_dom, elem_of_difference, elem_of_singleton, <- Hd, elem_of_dom.
    destruct (decide (f = sock)) as [->|Hne]; [rewrite lookup_delete_eq; split; [by intros []|tauto]|].
    rewrite lookup_delete_ne, Hp by done. tauto.
  - intros f al [Hne Hal]%lookup_delete_Some. rewrite Hp in Hal by done.
    destruct (Hf f al Hal) as [(j & sj & Hn & Hj & Hpj)|Ho]; [|by right]. left. exists j, sj. split_and!; [done| |done].
    cbn. apply Hkeep; [done|congruence].
  - intros i s Hi. destruct (Hsub i s Hi) as [Hi0 Hne]. destruct (Hs i s Hi0) as (f & al & Hpf & Hal & Hn).
    exists f, al. rewrite lookup_delete_ne, Hp by congruence. done.
  - intros i s Hi. apply (Hl i), (Hsub i s Hi).
Qed.

Lemma posix_sock_unique c L sock al i s j sj :
  files_ok c L -> c_psocks c !! sock = Some al -> al_node al = vsock_node i ->
  c_socks c !! i = Some s -> c_socks c !! j = Some sj -> v_posix_sock sj = Some sock -> j = i.
Proof.
  intros Hfo Hal Hn Hi Hj Hp. destruct (fo_sock _ _ Hfo j sj Hj) as (f & al' & Hpf & Hal' & Hn').
  assert (f = sock) as -> by congruence. assert (al' = al) as -> by congruence. rewrite Hn in Hn'. by injection Hn'.
Qed.

Lemma release_spec sock c L :
  files_ok c L -> sock ∈ L ->
  cwp (socket_release driver_list sock 3) (fun _ c' => files_ok c' (L ∖ {[sock]})) c.
Proof.
  intros Hfo Hin. pose proof Hfo as [Hc Hd Hf Hs Hl]. rewrite <- Hd in Hin. apply elem_of_dom in Hin as [al Hal].
  unfold socket_release. replace (flag_set 3 UK_FILE_RELEASE_RES) with true by done.
  replace (flag_set 3 UK_FILE_RELEASE_OBJ) with true by done. apply cwp_bind, cwp_bind, cwp_bind.
  assert (Hun : forall c', files_ok (c_unfile sock c') (L ∖ {[sock]}) ->
    cwp (modify (fun w => set_psocks (delete sock (w_psocks w)) w)) (fun _ c' => files_ok c' (L ∖ {[sock]})) c').
  { intros c' H'. apply (cwp_modify _ _ _ _ (c_unfile sock c')); [by intros w <-|done]. }
  destruct (Hf sock al Hal) as [(i & s & Hn & Hi & Hp)|(family & d & Hn & Hdr & Hne & Hstub)].
  - eapply cwp_dispatch; [done|by rewrite Hn|exact Hvsock|done|].
    eapply cwp_mono; [by apply (vsock_close_0_spec i s sock al); [..|apply (Hl i)]|]. intros rc c' (Hc' & _ & Hde). apply cwp_ret, Hun.
    assert (c_socks c' = delete i (c_socks c) /\ forall f, f <> sock -> c_psocks c' !! f = c_psocks c !! f) as [Hs' Hp'].
    { unfold destroyed in Hde. destruct (in_table (v_state s)); [destruct Hde as [t ->]|by subst c'].
      split; [|intros f Hf']; cbn.
      - by rewrite delete_insert_eq.
      - by rewrite lookup_insert_ne by done. }
    eapply files_ok_unfile; [done|done| | |done]; rewrite Hs'.
    + intros j sj [Hji Hj]%lookup_delete_Some. split; [done|]. intros Hpj. apply Hji. symmetry.
      by apply (posix_sock_unique c L sock al i s j sj).
    + intros j sj Hj Hpj. rewrite lookup_delete_ne; [done|]. intros ->. apply Hpj. congruence.
  - pose proof (Hother _ _ Hdr Hne) as Ho. destruct (other_close sock al c) as (f & Hfc & Hclose).
    eapply cwp_dispatch; [done|done|done|done|]. eapply cwp_mono; [by apply Hclose|]. intros rc c' [e ->]. apply cwp_ret, Hun.
    assert (Hno : forall i s, c_socks c !! i = Some s -> v_posix_sock s <> Some sock).
    { intros i s Hi Hp. destruct (Hs i s Hi) as (f' & al' & Hpf & Hal' & Hnode). assert (f' = sock) as -> by congruence.
      assert (al' = al) as -> by congruence. rewrite Hnode in Hn. injection Hn as <-. done. }
    eapply files_ok_unfile; [done|by eapply core_inv_file|..]; cbn; [intros i s Hi; split; [done|by apply (Hno i)]|done|].
    intros f' Hf'. by rewrite lookup_insert_ne.
Qed.

(** ** Other calls *)

(** What the calls below keep of a socket. *)
Definition tie (s : uk_vsock) : option positive * bool := (v_posix_sock s, is_local (v_state s)).
Lemma files_ok_kept c c' L :
  files_ok c L -> core_inv c' ->
  (forall i, tie <$> c_socks c' !! i = tie <$> c_socks c !! i) -> c_psocks c' = c_psocks c -> files_ok c' L.
Proof.
  intros [Hc Hd Hf Hs Hl] Hc' Hk Hp. split; rewrite ?Hp; try done.
  - intros sock al Hal. destruct (Hf sock al Hal) as [(i & s & Hn & Hi & Hpi)|Ho]; [|by right]. left.
    specialize (Hk i). rewrite Hi in Hk. destruct (c_socks c' !! i) as [s'|] eqn:Hi'; [|done]. injection Hk as Hk _.
    exists i, s'. split_and!; [done|done|congruence].
  - intros i s' Hi'. specialize (Hk i). rewrite Hi' in Hk. destruct (c_socks c !! i) as [s|] eqn:Hi; [|done]. injection Hk as Hk _.
    destruct (Hs i s Hi) as (sock & al & Hps & Hal & Hn). exists sock, al. split_and!; [congruence|done|done].
  - intros i s' Hi'. specialize (Hk i). rewrite Hi' in Hk. destruct (c_socks c !! i) as [s|] eqn:Hi; [|done].
    injection Hk as _ ->. by apply (Hl i).
Qed.

Lemma posix_put i s s' (m : gmap positive uk_vsock) j :
  m !! i = Some s -> tie s' = tie s -> tie <$> <[i := s']> m !! j = tie <$> m !! j.
Proof.
  intros Hi Hp. destruct (decide (j = i)) as [->|]; [rewrite lookup_insert_eq, Hi; cbn; congruence|by rewrite lookup_insert_ne].
Qed.
Lemma allocated_kept c t n x r c' : allocated c t n x r c' -> c_socks c' = c_socks c /\ c_psocks c' = c_psocks c.
Proof. intros [(k & _ & _ & -> & _)|(_ & -> & _)]; done. Qed.
#[local] Ltac tied := eapply posix_put; [eassumption|]; unfold tie; cbn; match goal with H : v_state _ = _ |- _ => by rewrite H end.
Lemma bind_post_kept i s svm c rc c' :
  c_socks c !! i = Some s -> bind_post cid i s svm c rc c' ->
  (forall j, tie <$> c_socks c' !! j = tie <$> c_socks c !! j) /\ c_psocks c' = c_psocks c.
Proof.
  intros Hi. destruct 1 as [| | |r c' ? ? ? ? Ha|r c' t ? ? ? ? Ha| |]; try done;
    try destruct (allocated_kept _ _ _ _ _ _ Ha) as [Hs Hp]; cbn; rewrite ?Hs, ?Hp; split; try done;
    intros j; tied.
Qed.
Lemma listen_post_kept i s backlog c rc c' :
  c_socks c !! i = Some s -> listen_post cid i s backlog c rc c' ->
  (forall j, tie <$> c_socks c' !! j = tie <$> c_socks c !! j) /\ c_psocks c' = c_psocks c.
Proof.
  intros Hi. destruct 1 as [| | |rc c' ? Hb|c' s' ? Hb Hi' ?]; try done; cbn.
  - split; [|done]. intros j. tied.
  - split; [|done]. intros j. tied.
  - by eapply bind_post_kept.
  - destruct (bind_post_kept _ _ _ _ _ _ Hi Hb) as [Hs Hp]. split; [|done]. intros j. rewrite <- Hs. tied.
Qed.

(** A call on a file: of a vsock, and of another family. *)
Lemma file_call {A} sock c L (m : M world A) :
  files_ok c L -> sock ∈ L ->
  (forall i s al, attached c i s sock al -> al_node al = vsock_node i -> cwp m (fun _ c' => files_ok c' L) c) ->
  (forall al family d, c_psocks c !! sock = Some al -> n_driver (al_node al) = Some family -> driver_get family = Some d ->
     OtherDriver d -> n_driver (al_stub al) = None -> cwp m (fun _ c' => exists e, c' = c_file sock (set_events al e) c) c) ->
  cwp m (fun _ c' => files_ok c' L) c.
Proof.
  intros Hfo Hin Hv Ho. pose proof Hfo as [Hc Hd Hf Hs Hl]. rewrite <- Hd in Hin. apply elem_of_dom in Hin as [al Hal].
  destruct (Hf sock al Hal) as [(i & s & Hn & Hi & Hp)|(family & d & Hn & Hdr & Hne & Hstub)].
  - by apply (Hv i s al).
  - eapply cwp_mono; [by apply (Ho al family d); eauto|]. intros a c' [e ->]. by apply files_ok_events.
Qed.

(** [bind] on a vsock: the address is the one given, or the translation of its port. *)
Definition given_svm (al : socket_alloc) (addr : list Z) : sockaddr_vm :=
  if bool_decide (is_Some (n_driver (al_stub al))) then mk_svm AF_VSOCK 0 (ntohs (le_val (slice 2 2 addr))) VMADDR_CID_ANY 0
  else decode_svm (slice 0 sizeof_svm addr).
Lemma vsock_bind_file_spec i s sock al addr addr_len c :
  core_inv c -> attached c i s sock al -> al_node al = vsock_node i -> 4 <= zlen addr -> addr_len <= zlen addr ->
  cwp (bind_file driver_list sock addr addr_len) (fun rc c' => core_inv c' /\
    if bool_decide (is_Some (n_driver (al_stub al))) || (addr_len =? sizeof_svm)
    then bind_post cid i s (given_svm al addr) c rc c' else rc = - EINVAL /\ c' = c) c.
Proof.
  intros Hc Hat Hn H4 Hl. pose proof (at_file _ _ _ _ _ Hat) as Hal. unfold bind_file, given_svm. cstep. eapply cwp_alloc; [done|].
  assert (Hb : forall addr addr_len, addr_len <= zlen addr ->
    cwp (posix_socket_bind driver_list sock addr addr_len) (fun rc c' => core_inv c' /\
      if addr_len =? sizeof_svm then bind_post cid i s (decode_svm (slice 0 sizeof_svm addr)) c rc c'
      else rc = - EINVAL /\ c' = c) c).
  { intros addr' n Hn'. unfold posix_socket_bind. cstep. eapply cwp_dispatch; [done|by rewrite Hn|exact Hvsock|done|].
    by eapply (vsock_bind_spec inv cid ops max_send). }
  destruct (bool_decide _); [|by apply Hb]. cbn [orb].
  cstep. eapply cwp_deref; [intros w _; by rewrite memread_Some by lia|]. set (svm := mk_svm _ _ _ _ _).
  eapply cwp_mono; [apply (Hb (encode_svm svm) sizeof_svm); by rewrite zlen_encode_svm|].
  intros rc c'. rewrite Z.eqb_refl, slice_encode_svm, decode_encode_svm; [done|].
  pose proof (bswap_range (le_val (slice 2 2 addr))). split_and!; try done; cbn [svm svm_port]; unfold ntohs; lia.
Qed.

Lemma bind_files_ok sock addr addr_len c L :
  files_ok c L -> sock ∈ L -> 4 <= zlen addr -> addr_len <= zlen addr ->
  cwp (bind_file driver_list sock addr addr_len) (fun _ c' => files_ok c' L) c.
Proof.
  intros Hfo Hin H4 Hl. apply (file_call sock); [done..| |].
  - intros i s al Hat Hn. eapply cwp_mono; [by eapply vsock_bind_file_spec; try apply Hfo|]. cbn.
    intros rc c' [Hc' Hpost]. destruct (_ || _); [|destruct Hpost as [_ ->]; done].
    destruct (bind_post_kept _ _ _ _ _ _ (at_sock _ _ _ _ _ Hat) Hpost). by eapply files_ok_kept.
  - intros al family d Hal Hn Hd Ho _. unfold bind_file. cstep. eapply cwp_alloc; [done|].
    assert (Hb : forall addr addr_len, cwp (posix_socket_bind driver_list sock addr addr_len)
      (fun _ c' => exists e, c' = c_file sock (set_events al e) c) c).
    { intros addr' n. destruct (other_bind sock al addr' n c) as (f & Hf & Hsp). unfold posix_socket_bind. cstep.
      eapply cwp_dispatch; [done..|]. by apply Hsp. }
    destruct (bool_decide _); [|apply Hb]. cstep. eapply cwp_deref; [intros w _; by rewrite memread_Some by lia|]. apply Hb.
Qed.
Lemma listen_files_ok sock backlog c L :
  files_ok c L -> sock ∈ L -> backlog < 2 ^ 31 ->
  cwp (posix_socket_listen driver_list sock backlog) (fun _ c' => files_ok c' L) c.
Proof.
  intros Hfo Hin Hb. apply (file_call sock); [done..| |].
  - intros i s al Hat Hn. unfold posix_socket_listen. cstep.
    eapply cwp_dispatch; [apply Hat|by rewrite Hn|exact Hvsock|done|].
    eapply cwp_mono; [by eapply (vsock_listen_spec inv cid ops max_send); try apply Hfo|]. cbn. intros rc c' [Hc' Hpost].
    destruct (listen_post_kept _ _ _ _ _ _ (at_sock _ _ _ _ _ Hat) Hpost). by eapply files_ok_kept.
  - intros al family d Hal Hn Hd Ho _. destruct (other_listen sock al backlog c) as (f & Hf & Hsp). unfold posix_socket_listen. cstep.
    eapply cwp_dispatch; [done..|]. by apply Hsp.
Qed.

(** [getsockname] on a vsock: the address itself, or its port for AF_INET. *)
Definition local_name (al : socket_alloc) (s : uk_vsock) (n : Z) : list Z * Z :=
  if bool_decide (is_Some (n_driver (al_stub al))) then
    (slice 0 (if n <? sizeof_in then n else sizeof_in) (encode_in (mk_in AF_INET (htons (u16 (a_port (v_local s)))) 0)), sizeof_in)
  else copy_svm (v_local s) n.
Lemma vsock_getsockname_file_spec i s sock al n c :
  core_inv c -> attached c i s sock al -> al_node al = vsock_node i ->
  cwp (getsockname_file driver_list sock (Some n)) (fun r c' => c' = c /\ r = (0, Some (local_name al s n))) c.
Proof.
  intros Hc Hat Hn. pose proof (at_file _ _ _ _ _ Hat) as Hal. unfold getsockname_file, local_name. cstep. eapply cwp_alloc; [done|].
  assert (Hg : forall n, cwp (posix_socket_getsockname driver_list sock (Some n))
    (fun r c' => c' = c /\ r = (0, Some (copy_svm (v_local s) n))) c).
  { intros k. unfold posix_socket_getsockname. cstep. eapply cwp_dispatch; [done|by rewrite Hn|exact Hvsock|done|].
    by eapply vsock_getsockname_spec. }
  destruct (bool_decide _); [|apply Hg]. cstep. eapply cwp_mono; [apply Hg|]. intros r c' [-> ->]. cbn [Z.eqb].
  unfold copy_svm. rewrite Z.min_id, slice_encode_svm. cstep. eapply cwp_deref.
  { intros w _. cbn [mbind option_bind]. by rewrite memread_Some by (rewrite ?zlen_encode_svm; unfold sizeof_svm; lia). }
  rewrite slice_encode_svm, decode_encode_wrap. cbn [svm_of svm_port]. cstep. eapply cwp_deref; [done|]. cstep.
  split; [done|]. do 6 f_equal. unfold u16, u32, wrap. by rewrite Z.mod_mod_divide by (exists (2 ^ 16); done).
Qed.
Lemma getsockname_files_ok sock n c L :
  files_ok c L -> sock ∈ L -> cwp (getsockname_file driver_list sock (Some n)) (fun _ c' => files_ok c' L) c.
Proof.
  intros Hfo Hin. apply (file_call sock); [done..| |].
  - intros i s al Hat Hn. eapply cwp_mono; [by eapply vsock_getsockname_file_spec; try apply Hfo|]. by intros r c' [-> _].
  - intros al family d Hal Hn Hd Ho Hst. destruct (other_getsockname sock al (Some n) c) as (f & Hf & Hsp).
    unfold getsockname_file. cstep. eapply cwp_alloc; [done|]. rewrite Hst. unfold posix_socket_getsockname. cbn. cstep.
    eapply cwp_dispatch; [done..|]. by apply Hsp.
Qed.
End logic.
