(* ===== verification/PosixProps.v ===== *)
(** * The socket calls of an application

    The properties of lib/posix-socket on the vsock core: what [socket] makes, the
    addresses of AF_INET sockets that are vsocks underneath, blocking calls, and whole
    sequences of calls through the file descriptor table. *)

From stdpp Require Import prelude gmap sorting functions.
From S2P Require Import Prelude Tree VsockBuffer Netbuf Vsock VsockTable VsockLogic VsockCore VsockSocket VsockStream.
From S2P Require Import QuietDriver VsockSystem Sglist VirtioVsock VirtioSample Bitmap Fmap Fdtab PosixSocket PosixLogic.

(** ** Blocking *)

Lemma wsafe_stuck {S A} (m : M S A) s : wsafe m (fun _ _ => False) s -> m s = OutOfFuel.
Proof. unfold wsafe. by destruct (m s) as [[? ?]| |]. Qed.

Lemma contents_empty b : buffer_wf b -> b_count b = 0 -> contents b = [].
Proof. intros Hb Hc. apply nil_length_inv. pose proof (zlen_contents b Hb). unfold zlen in *. lia. Qed.

Section props.
Context {P Q D : Type} (inv : gmap positive P -> gmap positive Q -> D -> Prop) (cid : Z).
Context (ops : uk_vsockdev_ops P Q D) (max_send : Z) `{Hdrv : !Driver inv cid ops max_send}.
#[local] Abbreviation world := (world P Q D).
#[local] Abbreviation cwp := (cwp inv).
#[local] Abbreviation returns := (returns inv cid).
#[local] Abbreviation good := (good inv cid).

Context (driver_list : list (Z * @posix_socket_ops P Q D)).
#[local] Abbreviation driver_get := (posix_socket_driver_get driver_list).
Context (Hvsock : driver_get AF_VSOCK = Some (socket_vsock_ops ops)).

(** A file of a vsock. *)
Record vsock_file (c : core_state) (sock i : positive) (s : uk_vsock) (al : socket_alloc) : Prop := {
  vf_attached : attached c i s sock al;
  vf_node : al_node al = vsock_node i
}.

Lemma recvfrom_spec sock i s al len c :
  core_inv cid c -> vsock_file c sock i s al -> 0 <= len < 2 ^ 64 ->
  cwp (posix_socket_recvfrom driver_list sock len 0 false false) (fun r c' => core_inv cid c' /\
    recv_post i s sock al len c r c') c.
Proof.
  intros Hc [Hat Hn] Hl. unfold posix_socket_recvfrom. cstep. eapply cwp_dispatch; [apply Hat|by rewrite Hn|exact Hvsock|done|].
  by eapply vsock_recvfrom_spec.
Qed.

(** A stream that is open in both directions and has nothing to read. *)
Record idle_stream (c : core_state) (sock i : positive) (s : uk_vsock) (al : socket_alloc) : Prop := {
  id_file : vsock_file c sock i s al;
  id_open : v_state s = OPEN;
  id_rx : v_rx_shutdown s = false;
  id_tx : v_tx_shutdown s = false;
  id_empty : b_count (v_rx s) = 0;
  id_events : Z.land (al_events al) UKFD_POLLIN = 0
}.
Lemma recv_blocks sock i s al len c :
  core_inv cid c -> idle_stream c sock i s al -> 0 <= len < 2 ^ 64 ->
  cwp (posix_socket_recvfrom driver_list sock len 0 false false) (fun r c' => c' = c /\ r = (- EAGAIN, [])) c.
Proof.
  intros Hc [Hf Ho Hr _ He _] Hl. eapply cwp_mono; [by apply (recvfrom_spec sock i s al)|]. intros r c' [_ Hpost].
  destruct Hpost as [Hrd| |n rx Hrd -> [Hn|Hn] _]; [|done|lia|congruence]. unfold readable in Hrd. by rewrite Ho in Hrd.
Qed.
Lemma cwp_poll_ready others n sock al req c Φ :
  c_psocks c !! sock = Some al -> Z.land (al_events al) req <> 0 -> (forall ev, Φ ev c) ->
  cwp (poll_loop others sock req (S n)) Φ c.
Proof.
  intros Hal Hev HΦ. cbn [poll_loop]. cstep. eapply cwp_alloc; [done|]. rewrite (proj2 (Z.eqb_neq _ _)) by done. by apply cwp_ret.
Qed.
Lemma cwp_poll_wait others n sock al req c Φ :
  c_psocks c !! sock = Some al -> Z.land (al_events al) req = 0 ->
  cwp others (fun _ c' => cwp (poll_loop others sock req n) Φ c') c -> cwp (poll_loop others sock req (S n)) Φ c.
Proof.
  intros Hal Hev Ho. cbn [poll_loop]. cstep. eapply cwp_alloc; [done|]. rewrite Hev. cbn [negb Z.eqb]. by apply cwp_bind.
Qed.

(** C22: A receive that waits on an empty stream is woken by data.  When a packet that
    fits into the receive buffer arrives while the call waits, the call returns with
    the bytes of the packet, as many as it has asked for, after its second attempt. *)
Theorem recv_wakes sock i s al len packet turns w :
  good w -> idle_stream (core w) sock i s al -> 0 < len < 2 ^ 64 ->
  Forall (fun nb => zlen nb < 2 ^ 16) packet -> 0 < zlen (concat packet) <= b_capacity (v_rx s) -> (2 <= turns)%nat ->
  returns (recvfrom_file driver_list (_ ← uk_vsock_rx_payload i packet; mret tt) turns sock 0 len 0 false false) w
    (fun r _ => r = (Z.min len (zlen (concat packet)), slice 0 (Z.min len (zlen (concat packet))) (concat packet))).
Proof.
  intros Hw Hid Hlen Hnb Hpk Hturns. destruct turns as [|[|n]]; [lia..|]. clear Hturns.
  pose proof Hid as [[Hat Hn] Ho Hr _ He Hev]. pose proof (proj1 Hw) as Hc. apply returns_cwp; [done|].
  unfold recvfrom_file. cbn [blocking]. cstep. eapply cwp_mono; [apply (recv_blocks sock i s al); (done || lia)|]. intros r c [-> ->].
  replace (waits 0 0 && ERR_BLOCK (- EAGAIN, [] : list Z).1) with true by done. unfold uk_file_poll. cstep. cstep.
  eapply cwp_poll_wait; [apply Hat|done|]. cstep. eapply cwp_mono; [by apply (uk_vsock_rx_payload_spec inv cid i s sock al)|]. cbn.
  intros rc c [Hc1 Hpost]. rewrite decide_True in Hpost by done. rewrite He, (proj2 (Z.leb_le _ _)) in Hpost by lia.
  destruct Hpost as (_ & rx & -> & Hrx & Hcap & _). cstep. set (c1 := c_put _ _ _) in *.
  assert (Hf1 : vsock_file c1 sock i (set_rx s rx) (raise EPOLLIN al)).
  { split; [split|]; [apply lookup_insert_eq|apply Hat|apply lookup_insert_eq|done]. }
  eapply cwp_poll_ready; [apply Hf1| |intros _; cstep].
  { cbn [raise al_events set_events]. rewrite Z.land_lor_distr_l, Hev. done. }
  cstep. eapply cwp_mono; [apply (recvfrom_spec sock i _ _ len c1 Hc1 Hf1); lia|]. cbn [fst]. intros r c2 [Hc2 Hrecv].
  pose proof (so_rx _ _ _ (ci_sock _ _ Hc1 _ _ (at_sock _ _ _ _ _ (vf_attached _ _ _ _ _ Hf1)))) as Hwf. cbn [set_rx v_rx] in Hwf.
  assert (Hcon : contents rx = concat packet).
  { rewrite Hrx, contents_empty; [done| |done]. by eapply so_rx, ci_sock, Hat. }
  assert (Hcount : b_count rx = zlen (concat packet)) by by rewrite <- zlen_contents, Hcon.
  destruct Hrecv as [Hrd|? ? Hz|k rx' _ -> _ _]; cbn [set_rx v_rx] in *.
  - unfold readable in Hrd. cbn in Hrd. by rewrite Ho in Hrd.
  - lia.
  - replace (waits 0 0 && _) with false by (unfold ERR_BLOCK, EAGAIN; cbn [fst]; symmetry; apply andb_false_intro2; lia).
    apply cwp_ret. by rewrite Hcount, Hcon.
Qed.

(** A stream that the peer has not stopped to read from, with nothing to read. *)
Definition starved (c : core_state) (sock i : positive) (s : uk_vsock) (al : socket_alloc) : Prop :=
  vsock_file c sock i s al /\ v_state s = OPEN /\ v_tx_shutdown s = false /\ b_count (v_rx s) = 0 /\
  Z.land (al_events al) UKFD_POLLIN = 0.
Lemma fin_spec sock i s al c :
  core_inv cid c -> starved c sock i s al ->
  cwp (_ ← uk_vsock_conn_shutdown ops i false true; mret tt) (fun _ c' => core_inv cid c' /\
    exists s' al', starved c' sock i s' al' /\ v_rx_shutdown s' = true) c.
Proof.
  intros Hc ([Hat Hn] & Ho & Ht & He & Hev). cstep.
  eapply cwp_mono; [by apply (uk_vsock_conn_shutdown_spec inv cid ops max_send i s sock al)|]. cbn. intros rc c' [Hc' Hpost].
  rewrite decide_True, Ht in Hpost by done. destruct Hpost as [_ ->]. cstep. split; [done|].
  exists (shut false true s), (shut_events false true al). split; [|done].
  split_and!; [split; [split|]; [apply lookup_insert_eq|apply Hat|apply lookup_insert_eq|exact Hn]|done..|].
  cbn. by rewrite Z.land_lor_distr_l, Hev.
Qed.
Lemma poll_starves others n sock i s al w :
  (forall s al c, core_inv cid c -> starved c sock i s al ->
     cwp others (fun _ c' => core_inv cid c' /\ exists s' al', starved c' sock i s' al') c) ->
  good w -> starved (core w) sock i s al -> wsafe (poll_loop others sock UKFD_POLLIN n) (fun _ _ => False) w.
Proof.
  intros Hoth. revert s al w. induction n as [|n IH]; intros s al w [Hc Hd] Hst; cbn [poll_loop]; [done|].
  pose proof Hst as ([Hat _] & _ & _ & _ & Hev). apply wsafe_bind.
  assert (Hget : get_file_alloc sock w = Done (al, w)).
  { unfold get_file_alloc, deref. pose proof (at_file _ _ _ _ _ Hat) as Hal. cbn in Hal. by rewrite Hal. }
  unfold wsafe at 1. rewrite Hget, Hev. cbn [negb Z.eqb]. apply wsafe_bind.
  eapply wsafe_wp; [by apply (Hoth s al _ Hc Hst w)|]. cbn. intros [] w' (Hd' & Hc' & s' & al' & Hst'). by apply (IH s' al').
Qed.

(** C23: A receive that waits does not see the end of the stream.  When the peer shuts
    down its sending side while a call waits on an empty stream, the socket is readable
    with 0 bytes, which is what a new call returns; but the handler raises only
    EPOLLRDHUP, the call waits for UKFD_POLLIN, and so it never returns. *)
Theorem recv_misses_eof sock i s al len turns w :
  good w -> idle_stream (core w) sock i s al -> 0 <= len < 2 ^ 64 ->
  let fin := (_ ← uk_vsock_conn_shutdown ops i false true; mret tt) in
  recvfrom_file driver_list fin turns sock 0 len 0 false false w = OutOfFuel /\
  returns (fin;; recvfrom_file driver_list fin 1 sock 0 len 0 false false) w (fun r _ => r = (0, [])).
Proof.
  intros Hw Hid Hlen fin. pose proof Hid as [Hf Ho Hr Ht He Hev]. pose proof Hw as [Hc Hd].
  assert (Hst : starved (core w) sock i s al) by done. split.
  - unfold recvfrom_file. destruct turns as [|n]; [done|]. apply wsafe_stuck. cbn [blocking]. apply wsafe_bind.
    eapply wsafe_wp; [by apply (recv_blocks sock i s al len (core w) Hc Hid Hlen w)|]. intros r w1 (Hd1 & Hcore & ->).
    replace (waits 0 0 && ERR_BLOCK (- EAGAIN, [] : list Z).1) with true by done. apply wsafe_bind. unfold uk_file_poll. apply wsafe_bind.
    eapply wsafe_mono, (poll_starves _ _ sock i s al); [done| |by rewrite <- Hcore in Hc|by rewrite <- Hcore in Hst].
    intros s1 al1 c1 Hc1 Hst1. eapply cwp_mono; [by apply (fin_spec sock i s1 al1)|]. naive_solver.
  - apply returns_cwp; [done|]. apply cwp_bind. eapply cwp_mono; [by apply (fin_spec sock i s al)|].
    intros [] c (Hc1 & s1 & al1 & (Hf1 & Ho1 & Ht1 & He1 & Hev1) & Hr1). unfold recvfrom_file. cbn [blocking]. cstep.
    eapply cwp_mono; [by apply (recvfrom_spec sock i s1 al1)|]. intros r c2 [Hc2 Hpost].
    destruct Hpost as [Hrd|_ Hr0 _|n rx _ -> _ _]; [unfold readable in Hrd; by rewrite Ho1 in Hrd|congruence|].
    rewrite He1, Z.min_r by lia. by apply cwp_ret.
Qed.

End props.

(** ** Sequences of calls *)

(** The socket calls of an application, and those on descriptors. *)
Inductive app_call : Type :=
  | App_socket (family type protocol : Z)
  | App_bind (fd : Z) (addr : list Z) (addr_len : Z)
  | App_listen (fd backlog : Z)
  | App_getsockname (fd addr_len : Z)
  | App_fd (o : fd_op).
(** The memory that the pointers of a call promise, and the range of an [int]. *)
Definition app_ok (k : app_call) : Prop :=
  match k with
  | App_bind _ addr addr_len => 4 <= zlen addr /\ addr_len <= zlen addr
  | App_listen _ backlog => backlog < 2 ^ 31
  | _ => True
  end.

Section layers.
Context {P Q D : Type} (inv : gmap positive P -> gmap positive Q -> D -> Prop) (cid : Z).
Context (ops : uk_vsockdev_ops P Q D) (max_send : Z) `{Hdrv : !Driver inv cid ops max_send}.
#[local] Abbreviation world := (world P Q D).
#[local] Abbreviation cwp := (cwp inv).

Context (driver_list : list (Z * @posix_socket_ops P Q D)) (uk_malloc : world -> option positive).
#[local] Abbreviation driver_get := (posix_socket_driver_get driver_list).
#[local] Abbreviation files_ok := (files_ok cid driver_list).
Context (Hvsock : driver_get AF_VSOCK = Some (socket_vsock_ops ops)).
Context (Hother : forall family d, driver_get family = Some d -> family <> AF_VSOCK -> OtherDriver inv d).
Context (Hmalloc : forall w sock, uk_malloc w = Some sock -> w_psocks w !! sock = None).


Definition socket_owns (w : world) (L : gset positive) : Prop := drv_inv inv w /\ files_ok (core w) L.
Lemma wp_owns {A} (m : M world A) (Φ : A -> core_state -> Prop) (Ψ : A -> world -> Prop) w :
  drv_inv inv w -> cwp m Φ (core w) -> (forall a w', drv_inv inv w' -> Φ a (core w') -> Ψ a w') -> wp m Ψ w.
Proof. intros Hd Hm HΨ. eapply wp_mono; [|by apply (Hm w eq_refl Hd)]. cbn. intros a w' []. by apply HΨ. Qed.

Context (ofile_malloc : nat -> gset positive -> option positive).
Context (Hofile : forall n live k, ofile_malloc n live = Some k -> (k ∉ live) /\ 16 * Zpos k + 16 <= 2 ^ 64).

(** The sockets are what the descriptor table takes its files to be. *)
Lemma socket_env : FileEnv ofile_malloc (socket_release driver_list) (uk_socket_create driver_list uk_malloc) socket_owns.
Proof.
  split.
  - exact Hofile.
  - intros f w L [Hd Hfo] Hf. eapply wp_owns; [done|by eapply release_spec|]. done.
  - intros family type protocol w L [Hd Hfo]. eapply wp_owns; [done|by eapply socket_create_spec, Hfo|].
    intros r w' Hd' [Hc Hcr]. pose proof (created_files inv cid ops max_send driver_list _ _ _ _ _ _ Hfo Hc Hcr) as Hk. unfold socket_owns. destruct r; naive_solver.
Qed.

Definition app_op (k : app_call) : @sys_op world :=
  match k with
  | App_socket family type protocol => Socket family type protocol
  | App_bind fd addr addr_len => On fd (fun f _ => bind_file driver_list f addr addr_len)
  | App_listen fd backlog => On fd (fun f _ => posix_socket_listen driver_list f backlog)
  | App_getsockname fd addr_len => On fd (fun f _ => r ← getsockname_file driver_list f (Some addr_len); mret r.1)
  | App_fd o => Fd o
  end.
Lemma app_op_ok k : app_ok k -> sys_ok socket_owns (app_op k).
Proof.
  destruct k as [|fd addr addr_len|fd backlog|fd n|]; cbn [app_ok app_op sys_ok]; try done; intros Hok f mode w L Hf [Hd Hfo].
  - eapply wp_owns; [done|eapply bind_files_ok; [done..|apply Hok|apply Hok]|]. done.
  - eapply wp_owns; [done|by eapply listen_files_ok|]. done.
  - apply (wp_owns _ (fun _ c' => files_ok c' L)); [done| |by split]. apply cwp_bind. eapply cwp_mono; [by eapply getsockname_files_ok|].
    intros r c' H. by apply cwp_ret.
Qed.

Context (UK_FDTAB_SIZE : Z) (retries : nat) (POSIX_SOCKET_VOLID SOCK_NONBLOCK SOCK_CLOEXEC : Z).
Context (Hsize : 0 <= UK_FDTAB_SIZE < 2 ^ 31) (Hretries : (0 < retries)%nat).

(** C19: The layers from the descriptor table down to the vsocks stay consistent, in a
    build without file finalizers (the argument [false] of [sys_run]; with them the first
    release of a last reference aborts, see [file_finalizers]).  From an empty table and no
    sockets, any sequence of socket, bind, listen and getsockname calls and of calls on
    descriptors, on any descriptors, returns, with the results that the table promises;
    the files are then exactly those that some descriptor in the table refers to, each
    vsock is behind exactly one of them, each file of the vsock family has its vsock, and
    the vsock core is in a good state: no socket is leaked and none is freed too early.
    The calls are those that need no peer: every vsock is READY, BOUND or LISTENING, so
    that closing it does not depend on the driver's goodbye, whose failure
    [socket_release] would ignore. *)
Theorem socket_layers_safe l x F :
  good inv cid x -> w_socks x = ∅ -> w_psocks x = ∅ -> Forall app_ok l ->
  exists w0, init_posix_fdtab UK_FDTAB_SIZE x = Some w0 /\
    wp (sys_run false UK_FDTAB_SIZE retries ofile_malloc (socket_release driver_list) POSIX_SOCKET_VOLID SOCK_NONBLOCK SOCK_CLOEXEC
          (uk_socket_create driver_list uk_malloc) (app_op <$> l))
      (fun rs w => exists F' T', run_spec UK_FDTAB_SIZE SOCK_NONBLOCK SOCK_CLOEXEC (app_op <$> l) F ∅ rs F' T' /\
        represents UK_FDTAB_SIZE (fw_map w) (enc <$> T') /\
        dom (fw_ofiles w) = descs_of T' /\ dom (fw_files w) = files_of F' T' /\
        drv_inv inv (fw_ext w) /\ files_ok (core (fw_ext w)) (files_of F' T')) w0.
Proof.
  intros [Hc Hd] Hs Hp Hok.
  assert (Hx : socket_owns x ∅).
  { split; [done|]. split; [done|by cbn; rewrite Hp, dom_empty_L|cbn; rewrite Hp; done|cbn; unfold vsocks; rewrite Hs, fmap_empty; done..]. }
  destruct (init_spec UK_FDTAB_SIZE retries socket_owns Hsize Hretries F x Hx) as (w0 & Hw & Hi). exists w0. split; [done|].
  eapply wp_mono; [|eapply (sys_run_spec _ _ _ _ _ _ _ _ _ socket_owns Hsize Hretries (Henv := socket_env) _ F ∅); [done| |done]].
  - intros rs w (F' & T' & Hr & Hi'). exists F', T'.
    destruct (fd_inv_live _ retries _ Hretries _ _ _ Hi') as [Hdo Hf]. rewrite <- Hf. destruct Hi' as [? ? ? [? ?]]. by split_and!.
  - apply Forall_fmap. revert Hok. apply Forall_impl, app_op_ok.
Qed.
End layers.

(** ** Sending *)

Section spin.
Context (uk_malloc : nat -> Z -> option (Z * list Z)) (virt_to_phys : Z -> Z) (vma_advise : Z -> Z -> Z).
Context (uk_sched_yield : M virtio_world unit).
#[local] Abbreviation virtio_ops := (virtio_vsockdev_ops uk_malloc virt_to_phys vma_advise uk_sched_yield).
Context (driver_list : list (Z * @posix_socket_ops virtio_vsock virtio_vsock_accept_entry virtio_vsockdev)).
Context (Hvsock : posix_socket_driver_get driver_list AF_VSOCK = Some (socket_vsock_ops virtio_ops)).

(** An attempt to send into a full window changes nothing: the driver's -EAGAIN is
    returned before the core would clear EPOLLOUT. *)
Lemma send_full sock i s vs al buf (w : virtio_world) :
  w_main_dev w = true -> w_socks w !! i = Some (s, vs) -> w_psocks w !! sock = Some al -> al_node al = vsock_node i ->
  v_state s = OPEN -> v_tx_shutdown s = false -> virtio_vsock_peer_rx_free vs = 0 -> 0 < zlen buf ->
  wp (posix_socket_sendto driver_list sock buf 0 false 0) (fun r w' => r = - EAGAIN /\ w' = w) w.
Proof.
  intros Hdev Hi Hal Hn Ho Ht Hfree Hb. unfold posix_socket_sendto, dispatch, posix_sock_get_driver, get_file_alloc.
  do 3 apply wp_bind. eapply wp_deref; [done|]. eapply wp_deref; [by rewrite Hn; apply Hvsock|].
  apply wp_ret. unfold vsock_sendto. cbn [orb negb Z.eqb].
  apply wp_bind. unfold need_dev, vsockdev_get, gets. apply wp_bind. unfold wp at 1. rewrite Hdev.
  change (UK_ASSERT true : M virtio_world unit) with (mret tt : M virtio_world unit). apply wp_ret.
  apply wp_bind. eapply wp_deref; [cbn; by rewrite Hal; cbn; rewrite Hn|].
  apply wp_bind. eapply wp_deref; [by unfold vsocks; rewrite lookup_fmap, Hi|]. cbn [fst]. rewrite Ho, Ht. cbn [orb bool_decide decide_rel].
  apply wp_bind. cbn [virtio_vsockdev_ops op_send]. unfold virtio_vsock_send. rewrite (proj2 (Z.eqb_neq (zlen buf) 0)) by lia.
  apply wp_bind. eapply wp_deref; [by unfold vsocks; rewrite lookup_fmap, Hi|].
  apply wp_bind. eapply wp_deref; [by rewrite Hi|]. cbn [snd]. by rewrite Hfree, Z.min_l by lia.
Qed.

(** C24: A blocking send into a full window never returns and never lets others run.
    The peer's window is full, so that the driver answers -EAGAIN; EPOLLOUT stays set,
    so that the wait for it returns at once, and the call tries again in the same state.
    It holds for every behaviour [others] of the other threads, even those that would
    receive the peer's credit, as none of them gets a turn. *)
Theorem send_spins sock i s vs al buf others turns (w : virtio_world) :
  w_main_dev w = true -> w_socks w !! i = Some (s, vs) -> w_psocks w !! sock = Some al -> al_node al = vsock_node i ->
  v_state s = OPEN -> v_tx_shutdown s = false -> virtio_vsock_peer_rx_free vs = 0 -> 0 < zlen buf ->
  Z.land (al_events al) UKFD_POLLOUT <> 0 ->
  sendto_file driver_list others turns sock 0 buf 0 false 0 w = OutOfFuel.
Proof.
  intros Hdev Hi Hal Hn Ho Ht Hfree Hb Hev. apply wsafe_stuck. unfold sendto_file, uk_file_poll.
  destruct turns as [|turns]; [done|]. generalize (S turns) at 2 as n. intros n. induction n as [|n IH]; [done|]. cbn [blocking].
  apply wsafe_bind. eapply wsafe_wp; [by apply (send_full sock i s vs al)|]. cbn beta. intros r w' [-> ->].
  replace (waits 0 0 && ERR_BLOCK (- EAGAIN)) with true by done. apply wsafe_bind, wsafe_bind. cbn [poll_loop]. apply wsafe_bind.
  assert (Hget : get_file_alloc sock w = Done (al, w)) by by unfold get_file_alloc, deref; rewrite Hal.
  unfold wsafe at 1. rewrite Hget, (proj2 (Z.eqb_neq _ 0)) by done. apply IH.
Qed.
End spin.

(** ** Concrete instances *)

Module PosixSample.
#[local] Abbreviation quiet_world := (world unit unit Z).

(** Another family whose calls succeed and do nothing. *)
Definition null_ops : @posix_socket_ops unit unit Z :=
  mk_psops (Some (fun _ _ _ => mret (inr None))) None (Some (fun _ _ _ => mret 0)) None None (Some (fun _ _ => mret (0, None)))
    None None None (Some (fun _ _ => mret 0)) None None None None None None None None (Some (fun _ => mret 0)) None
    (Some (fun _ => mret tt)).
Lemma same_events sock al c : c_psocks c !! sock = Some al -> exists e, c = c_file sock (set_events al e) c.
Proof. intros Hal. exists (al_events al). unfold c_file. rewrite insert_id; [by destruct c|]. rewrite Hal. by destruct al. Qed.
Lemma null_driver cid : OtherDriver (quiet_inv cid) null_ops.
Proof.
  split; intros; eexists; (split; [reflexivity|]); intros; apply cwp_ret; try by apply same_events. done.
Qed.
Definition drivers : list (Z * posix_socket_ops) := [(AF_INET, null_ops); (AF_VSOCK, socket_vsock_ops quiet_ops)].
Lemma drivers_other cid family d :
  posix_socket_driver_get drivers family = Some d -> family <> AF_VSOCK -> OtherDriver (quiet_inv cid) d.
Proof.
  unfold posix_socket_driver_get, drivers. cbn [driver_find]. destruct (AF_INET =? family); [intros [= <-] _; apply null_driver|].
  destruct (Z.eqb_spec AF_VSOCK family); [congruence|done].
Qed.
Definition malloc (w : quiet_world) : option positive := Some (fresh (dom (w_psocks w))).
Lemma malloc_fresh w sock : malloc w = Some sock -> w_psocks w !! sock = None.
Proof. intros [= <-]. apply not_elem_of_dom, is_fresh. Qed.

Definition empty_world : quiet_world := mk_world E 1 ∅ ∅ ∅ true 3.
Lemma empty_good : good (quiet_inv 3) 3 empty_world.
Proof. destruct (register_spec (quiet_inv 3) 3 (mk_world E 1 ∅ ∅ ∅ false 3)) as (w & [= <-] & Hw); [by split|done]. Qed.

Lemma sample_ok s : s = READY \/ s = OPEN -> core_inv 3 (core (sample_world (sample_sock s (mk_addr 0 0) []) ∅)).
Proof. intros Hs. apply sample_inv; try done; [naive_solver|constructor|by intros e ?%elem_of_nil]. Qed.

(** File 1 with an open stream, vsock 1, that has nothing to read. *)
Definition idle_sock : uk_vsock :=
  set_rx (sample_sock OPEN (mk_addr 0 0) []) (mk_buffer (replicate 8 0) 2 0 8 6).
Definition idle_world : quiet_world :=
  mk_world (sample_tree OPEN) 1 {[1%positive := (idle_sock, tt)]} ∅ {[1%positive := sample_file]} true 3.
Lemma idle_good : good (quiet_inv 3) 3 idle_world.
Proof.
  split; [|done].
  change (core idle_world) with (c_put 1 idle_sock (core (sample_world (sample_sock OPEN (mk_addr 0 0) []) ∅))).
  pose proof (sample_ok OPEN ltac:(auto)) as Hc. pose proof (ci_sock _ _ Hc 1%positive _ eq_refl) as Hwf.
  eapply core_inv_put; [done|done|done|done| |done]. destruct Hwf. by split.
Qed.
Lemma idle_stream_1 : idle_stream (core idle_world) 1 1 idle_sock sample_file.
Proof. by split; [split; [split|]|..]. Qed.

(** A virtio socket whose peer's window is full. *)
Definition full_vs : virtio_vsock := mk_vs VIRTIO_VSOCK_TYPE_STREAM 16 0 16.
Definition full_file : socket_alloc := mk_alloc (vsock_node 1) (mk_node None None) EPOLLOUT.
Definition full_world : virtio_world :=
  mk_world (sample_tree OPEN) 1 {[1%positive := (idle_sock, full_vs)]} ∅ {[1%positive := full_file]} true (sample_dev 3).

Definition calls : list app_call :=
  [App_socket AF_INET SOCK_STREAM 0; App_bind 0 (encode_in (mk_in AF_INET (htons 80) 0)) 16; App_listen 0 5;
   App_getsockname 0 16; App_socket AF_VSOCK SOCK_STREAM 0; App_fd (Dup2 0 7); App_fd (Close 0); App_bind 0 (encode_svm any_svm) 16;
   App_bind 1 (encode_svm any_svm) 16; App_fd (Close 7); App_socket AF_INET SOCK_STREAM 0; App_listen 9 5].
Lemma app_calls_ok : Forall app_ok calls.
Proof. repeat apply Forall_cons_2; try apply Forall_nil_2; by try (split; vm_compute). Qed.
Definition run (l : list app_call) : option (list Z * gset positive * gset positive) :=
  w ← init_posix_fdtab 64 empty_world;
  match sys_run false 64 1 FdtabSample.malloc_at (socket_release drivers) 7 0x20000000 0x10000000
          (uk_socket_create drivers malloc) (app_op drivers <$> l) w with
  | Done (rs, w') => Some (rs, dom (w_psocks (fw_ext w')), dom (w_socks (fw_ext w')))
  | _ => None
  end.
End PosixSample.



Lemma recv_wakes_witness :
  returns (quiet_inv 3) 3
    (recvfrom_file PosixSample.drivers (_ ← uk_vsock_rx_payload 1 [[7; 8]; [9]]; mret tt) 2 1 0 100 0 false false)
    PosixSample.idle_world (fun r _ => r = (3, [7; 8; 9])).
Proof.
  apply (recv_wakes (quiet_inv 3) 3 quiet_ops (2 ^ 16) PosixSample.drivers eq_refl 1 1 PosixSample.idle_sock sample_file 100 [[7; 8]; [9]] 2).
  - apply PosixSample.idle_good.
  - apply PosixSample.idle_stream_1.
  - lia.
  - repeat constructor.
  - done.
  - lia.
Defined.

Lemma recv_misses_eof_witness :
  let fin := (_ ← uk_vsock_conn_shutdown quiet_ops 1 false true; mret tt) in
  recvfrom_file PosixSample.drivers fin 1000 1 0 100 0 false false PosixSample.idle_world = OutOfFuel /\
  returns (quiet_inv 3) 3 (fin;; recvfrom_file PosixSample.drivers fin 1 1 0 100 0 false false) PosixSample.idle_world
    (fun r _ => r = (0, [])).
Proof.
  apply (recv_misses_eof (quiet_inv 3) 3 quiet_ops (2 ^ 16) PosixSample.drivers eq_refl 1 1 PosixSample.idle_sock sample_file 100 1000).
  - apply PosixSample.idle_good.
  - apply PosixSample.idle_stream_1.
  - lia.
Defined.

Lemma send_spins_witness :
  sendto_file [(AF_VSOCK, socket_vsock_ops (virtio_vsockdev_ops sample_malloc linear_map sample_advise sample_yield))]
    (mret tt) 1000 1 0 [1; 2; 3] 0 false 0 PosixSample.full_world = OutOfFuel.
Proof.
  by apply (send_spins sample_malloc linear_map sample_advise sample_yield
    [(AF_VSOCK, socket_vsock_ops (virtio_vsockdev_ops sample_malloc linear_map sample_advise sample_yield))] eq_refl
    1 1 PosixSample.idle_sock PosixSample.full_vs PosixSample.full_file [1; 2; 3] (mret tt) 1000 PosixSample.full_world).
Defined.

Lemma socket_layers_safe_witness :
  PosixSample.run PosixSample.calls = Some ([0; 0; 0; 0; 1; 7; 0; - EBADF; 0; 0; 0; - EBADF], {[2; 3]}%positive, {[2; 3]}%positive) /\
  exists w0, init_posix_fdtab 64 PosixSample.empty_world = Some w0 /\
    wp (sys_run false 64 1 FdtabSample.malloc_at (socket_release PosixSample.drivers) 7 0x20000000 0x10000000
          (uk_socket_create PosixSample.drivers PosixSample.malloc) (app_op PosixSample.drivers <$> PosixSample.calls))
      (fun rs w => exists D' T',
        run_spec 64 0x20000000 0x10000000 (app_op PosixSample.drivers <$> PosixSample.calls) (fun _ => (1%positive, 0)) ∅ rs D' T' /\
        represents 64 (fw_map w) (enc <$> T') /\
        dom (fw_ofiles w) = descs_of T' /\ dom (fw_files w) = files_of D' T' /\
        drv_inv (quiet_inv 3) (fw_ext w) /\ files_ok 3 PosixSample.drivers (core (fw_ext w)) (files_of D' T')) w0.
Proof.
  split; [vm_compute; reflexivity|].
  apply (socket_layers_safe (quiet_inv 3) 3 quiet_ops (2 ^ 16) PosixSample.drivers PosixSample.malloc).
  - reflexivity.
  - apply PosixSample.drivers_other.
  - apply PosixSample.malloc_fresh.
  - apply FdtabSample.sample_env.
  - lia.
  - lia.
  - apply PosixSample.empty_good.
  - reflexivity.
  - reflexivity.
  - apply PosixSample.app_calls_ok.
Defined.
