(* ===== verification/Sched.v ===== *)
(** * The cooperative scheduler

    Threads, wait queues and semaphores on one processor: lib/ukschedcoop, the parts of
    lib/uksched that it is called from, and the semaphores of lib/uklock.  A section with
    interrupts disabled is one computation; interrupts come between them.  The queues
    are intrusive lists: unlinking a thread that is not linked, or linking one that is,
    corrupts them and aborts. *)

From stdpp Require Import prelude gmap.
From S2P Require Import Prelude.

(** ** State *)

(** The flags UK_THREADF_RUNNABLE, UK_THREADF_EXITED and UK_THREADF_QUEUEABLE; whether the
    thread is assigned to the scheduler; the wait queue its ticket is in. *)
Record uk_thread : Type := mk_thread {
  t_runnable : bool;
  t_exited : bool;
  t_queueable : bool;
  t_wakeup_time : Z;
  t_sched : bool;
  t_wq : option positive;
  t_exec_time : Z
}.
Definition set_runnable (b : bool) (t : uk_thread) : uk_thread :=
  mk_thread b (t_exited t) (t_queueable t) (t_wakeup_time t) (t_sched t) (t_wq t) (t_exec_time t).
Definition set_exited (t : uk_thread) : uk_thread :=
  mk_thread (t_runnable t) true (t_queueable t) (t_wakeup_time t) (t_sched t) (t_wq t) (t_exec_time t).
Definition set_queueable (b : bool) (t : uk_thread) : uk_thread :=
  mk_thread (t_runnable t) (t_exited t) b (t_wakeup_time t) (t_sched t) (t_wq t) (t_exec_time t).
Definition set_wakeup (z : Z) (t : uk_thread) : uk_thread :=
  mk_thread (t_runnable t) (t_exited t) (t_queueable t) z (t_sched t) (t_wq t) (t_exec_time t).
Definition set_sched (b : bool) (t : uk_thread) : uk_thread :=
  mk_thread (t_runnable t) (t_exited t) (t_queueable t) (t_wakeup_time t) b (t_wq t) (t_exec_time t).
Definition set_wq (o : option positive) (t : uk_thread) : uk_thread :=
  mk_thread (t_runnable t) (t_exited t) (t_queueable t) (t_wakeup_time t) (t_sched t) o (t_exec_time t).
Definition set_exec (z : Z) (t : uk_thread) : uk_thread :=
  mk_thread (t_runnable t) (t_exited t) (t_queueable t) (t_wakeup_time t) (t_sched t) (t_wq t) z.

Definition uk_thread_is_exited (t : uk_thread) : bool := t_exited t.
Definition uk_thread_is_runnable (t : uk_thread) : bool := negb (t_exited t) && t_runnable t.

(** The scheduler with all its threads, the clock and the semaphores.  [s_next] is the
    thread that has been chosen and not yet switched to. *)
Record schedcoop : Type := mk_sched {
  s_threads : gmap positive uk_thread;
  s_run_queue : list positive;
  s_sleep_queue : list positive;
  s_thread_list : list positive;
  s_exited_threads : list positive;
  s_idle : positive;
  s_idle_return_time : Z;
  s_ts_prev_switch : Z;
  s_current : positive;
  s_next : option positive;
  s_clock : Z;
  s_sems : gmap positive (Z * list positive)
}.
Definition set_threads (m : gmap positive uk_thread) (w : schedcoop) : schedcoop :=
  mk_sched m (s_run_queue w) (s_sleep_queue w) (s_thread_list w) (s_exited_threads w) (s_idle w) (s_idle_return_time w)
    (s_ts_prev_switch w) (s_current w) (s_next w) (s_clock w) (s_sems w).
Definition set_run_queue (l : list positive) (w : schedcoop) : schedcoop :=
  mk_sched (s_threads w) l (s_sleep_queue w) (s_thread_list w) (s_exited_threads w) (s_idle w) (s_idle_return_time w)
    (s_ts_prev_switch w) (s_current w) (s_next w) (s_clock w) (s_sems w).
Definition set_sleep_queue (l : list positive) (w : schedcoop) : schedcoop :=
  mk_sched (s_threads w) (s_run_queue w) l (s_thread_list w) (s_exited_threads w) (s_idle w) (s_idle_return_time w)
    (s_ts_prev_switch w) (s_current w) (s_next w) (s_clock w) (s_sems w).
Definition set_lists (tl el : list positive) (w : schedcoop) : schedcoop :=
  mk_sched (s_threads w) (s_run_queue w) (s_sleep_queue w) tl el (s_idle w) (s_idle_return_time w)
    (s_ts_prev_switch w) (s_current w) (s_next w) (s_clock w) (s_sems w).
Definition set_times (irt ts : Z) (w : schedcoop) : schedcoop :=
  mk_sched (s_threads w) (s_run_queue w) (s_sleep_queue w) (s_thread_list w) (s_exited_threads w) (s_idle w) irt
    ts (s_current w) (s_next w) (s_clock w) (s_sems w).
Definition set_running (cur : positive) (next : option positive) (w : schedcoop) : schedcoop :=
  mk_sched (s_threads w) (s_run_queue w) (s_sleep_queue w) (s_thread_list w) (s_exited_threads w) (s_idle w)
    (s_idle_return_time w) (s_ts_prev_switch w) cur next (s_clock w) (s_sems w).
Definition set_clock (z : Z) (w : schedcoop) : schedcoop :=
  mk_sched (s_threads w) (s_run_queue w) (s_sleep_queue w) (s_thread_list w) (s_exited_threads w) (s_idle w)
    (s_idle_return_time w) (s_ts_prev_switch w) (s_current w) (s_next w) z (s_sems w).
Definition set_sems (m : gmap positive (Z * list positive)) (w : schedcoop) : schedcoop :=
  mk_sched (s_threads w) (s_run_queue w) (s_sleep_queue w) (s_thread_list w) (s_exited_threads w) (s_idle w)
    (s_idle_return_time w) (s_ts_prev_switch w) (s_current w) (s_next w) (s_clock w) m.

#[local] Abbreviation MS := (M schedcoop).

Definition get_thread (t : positive) : MS uk_thread := deref (fun w => s_threads w !! t).
Definition upd_thread (t : positive) (f : uk_thread -> uk_thread) : MS unit :=
  th ← get_thread t; modify (fun w => set_threads (<[t := f th]> (s_threads w)) w).
Definition uk_thread_current : MS positive := gets s_current.

(** UK_TAILQ_REMOVE and UK_TAILQ_INSERT_TAIL on the field [queue], which links a thread
    into the run queue or into the sleep queue. *)
Definition tailq_remove (t : positive) (l : list positive) : list positive := filter (fun x => x <> t) l.
Definition run_remove (t : positive) : MS unit :=
  l ← gets s_run_queue; UK_ASSERT (bool_decide (t ∈ l));; modify (set_run_queue (tailq_remove t l)).
Definition sleep_remove (t : positive) : MS unit :=
  l ← gets s_sleep_queue; UK_ASSERT (bool_decide (t ∈ l));; modify (set_sleep_queue (tailq_remove t l)).
Definition unlinked (t : positive) : MS unit :=
  w ← gets id; UK_ASSERT (bool_decide (t ∉ s_run_queue w ++ s_sleep_queue w)).
Definition run_insert_tail (t : positive) : MS unit :=
  unlinked t;; modify (fun w => set_run_queue (s_run_queue w ++ [t]) w).
Definition sleep_insert_tail (t : positive) : MS unit :=
  unlinked t;; modify (fun w => set_sleep_queue (s_sleep_queue w ++ [t]) w).

(** ** lib/ukschedcoop: blocking, waking and scheduling *)

Definition schedcoop_thread_woken_isr (t : positive) : MS unit :=
  th ← get_thread t;
  (if 0 <? t_wakeup_time th then sleep_remove t else mret tt);;
  if t_queueable th && uk_thread_is_runnable th then
    run_insert_tail t;; upd_thread t (set_queueable false)
  else mret tt.

Definition schedcoop_thread_blocked (t : positive) : MS unit :=
  cur ← uk_thread_current;
  (if negb (bool_decide (t = cur)) then run_remove t else mret tt);;
  th ← get_thread t;
  if 0 <? t_wakeup_time th then sleep_insert_tail t else mret tt.

Definition schedcoop_thread_add (t : positive) : MS Z :=
  th ← get_thread t;
  UK_ASSERT (negb (uk_thread_is_exited th));;
  (if uk_thread_is_runnable th then run_insert_tail t else mret tt);;
  mret 0.

Definition schedcoop_thread_remove (t : positive) : MS unit :=
  cur ← uk_thread_current;
  th ← get_thread t;
  if negb (bool_decide (t = cur)) && uk_thread_is_runnable th then run_remove t else mret tt.

(** [uk_sched_thread_woken] and [uk_sched_thread_blocked] *)
Definition uk_sched_thread_woken (t : positive) : MS unit :=
  th ← get_thread t;
  UK_ASSERT (t_sched th);;
  UK_ASSERT (uk_thread_is_runnable th);;
  schedcoop_thread_woken_isr t.
Definition uk_sched_thread_blocked (t : positive) : MS unit :=
  th ← get_thread t;
  UK_ASSERT (t_sched th);;
  UK_ASSERT (negb (uk_thread_is_runnable th));;
  schedcoop_thread_blocked t.

(** ** lib/uksched: threads *)

Definition uk_thread_block_until (t : positive) (until : Z) : MS unit :=
  upd_thread t (set_wakeup until);;
  th ← get_thread t;
  if uk_thread_is_runnable th then
    upd_thread t (set_runnable false);;
    if t_sched th then uk_sched_thread_blocked t else mret tt
  else mret tt.
Definition uk_thread_block_timeout (t : positive) (nsec : Z) : MS unit :=
  now ← gets s_clock; uk_thread_block_until t (swrap 64 (now + nsec)).
Definition uk_thread_block (t : positive) : MS unit := uk_thread_block_until t 0.
Definition uk_thread_wake (t : positive) : MS unit :=
  th ← get_thread t;
  (if negb (uk_thread_is_runnable th) then
     upd_thread t (set_runnable true);;
     if t_sched th then uk_sched_thread_woken t else mret tt
   else mret tt);;
  upd_thread t (set_wakeup 0).

(** The sleeping threads whose time has come are woken; the earliest time of the others. *)
Fixpoint wake_expired (now : Z) (l : list positive) (min_wakeup_time : Z) : MS Z :=
  match l with
  | [] => mret min_wakeup_time
  | t :: l =>
      th ← get_thread t;
      let wt := t_wakeup_time th in
      if wt =? 0 then wake_expired now l min_wakeup_time
      else if wt <=? now then uk_thread_wake t;; wake_expired now l min_wakeup_time
      else wake_expired now l (if (min_wakeup_time =? 0) || (wt <? min_wakeup_time) then wt else min_wakeup_time)
  end.

(** The parts of [schedcoop_schedule]: the choice of the next thread, and what follows it
    up to the switch; whether there is a switch. *)
Definition pick_next (prev idle : positive) (p : uk_thread) (min_wakeup_time now : Z) : MS positive :=
  run_queue ← gets s_run_queue;
  match run_queue with
  | next :: _ =>
      UK_ASSERT (negb (bool_decide (next = prev)));;
      n ← get_thread next;
      UK_ASSERT (uk_thread_is_runnable n);;
      UK_ASSERT (negb (uk_thread_is_exited n));;
      run_remove next;;
      (if negb (bool_decide (prev = idle)) && uk_thread_is_runnable p && negb (uk_thread_is_exited p)
       then run_insert_tail prev else mret tt);;
      mret next
  | [] =>
      if uk_thread_is_runnable p && negb (uk_thread_is_exited p) then mret prev
      else modify (set_times min_wakeup_time now);; mret idle
  end.
Definition switch_to (prev next : positive) : MS bool :=
  if negb (bool_decide (next = prev)) then
    upd_thread prev (set_queueable true);;
    upd_thread next (set_queueable false);;
    modify (set_running prev (Some next));;
    mret true
  else mret false.
Definition schedcoop_schedule : MS bool :=
  w ← gets id;
  let now := s_clock w in
  let prev := s_current w in
  upd_thread prev (fun t => set_exec (t_exec_time t + (now - s_ts_prev_switch w)) t);;
  modify (set_times (s_idle_return_time w) now);;
  min_wakeup_time ← wake_expired now (s_sleep_queue w) 0;
  p ← get_thread prev;
  next ← pick_next prev (s_idle w) p min_wakeup_time now;
  switch_to prev next.

Definition uk_sched_thread_switch : MS unit :=
  next ← deref s_next;
  _ ← get_thread next;
  modify (set_running next None).

(** ** lib/uksched: adding, removing and ending threads *)

Definition uk_sched_thread_add (t : positive) : MS Z :=
  th ← get_thread t;
  UK_ASSERT (negb (t_sched th));;
  rc ← schedcoop_thread_add t;
  if rc <? 0 then mret rc
  else
    upd_thread t (set_sched true);;
    modify (fun w => set_lists (s_thread_list w ++ [t]) (s_exited_threads w) w);;
    mret rc.
Definition uk_sched_thread_remove (t : positive) : MS unit :=
  th ← get_thread t;
  UK_ASSERT (t_sched th);;
  schedcoop_thread_remove t;;
  upd_thread t (set_sched false);;
  l ← gets s_thread_list;
  UK_ASSERT (bool_decide (t ∈ l));;
  modify (fun w => set_lists (tailq_remove t l) (s_exited_threads w) w).

(** [uk_thread_set_exited], without the table of termination functions. *)
Definition uk_thread_set_exited (t : positive) : MS unit := upd_thread t set_exited.
Definition uk_thread_release (t : positive) : MS unit :=
  cur ← uk_thread_current;
  UK_ASSERT (negb (bool_decide (t = cur)));;
  th ← get_thread t;
  UK_ASSERT (negb (t_sched th));;
  uk_thread_set_exited t;;
  modify (fun w => set_threads (delete t (s_threads w)) w).

Fixpoint gc_loop (l : list positive) (num : Z) : MS Z :=
  match l with
  | [] => mret num
  | t :: l =>
      cur ← uk_thread_current;
      UK_ASSERT (negb (bool_decide (t = cur)));;
      th ← get_thread t;
      UK_ASSERT (uk_thread_is_exited th);;
      modify (fun w => set_lists (s_thread_list w) (tailq_remove t (s_exited_threads w)) w);;
      uk_thread_release t;;
      gc_loop l (num + 1)
  end.
Definition uk_sched_thread_gc : MS Z := l ← gets s_exited_threads; gc_loop l 0.

(** The thread [uk_thread_create_fn1] and its like make: can run, has no scheduler yet. *)
Definition new_thread : uk_thread := mk_thread true false false 0 false None 0.
(** [uk_sched_thread_create_fn1] and its like; [t] is what the allocator gives. *)
Definition uk_sched_thread_create (t : option positive) : MS (option positive) :=
  match t with
  | None => mret None
  | Some t =>
      modify (fun w => set_threads (<[t := new_thread]> (s_threads w)) w);;
      rc ← uk_sched_thread_add t;
      if rc <? 0 then uk_thread_release t;; mret None else mret (Some t)
  end.
(** The state after [uk_schedcoop_create] and [uk_sched_start]: the idle thread and the
    main thread, which runs. *)
Definition uk_sched_start (idle main : positive) (now : Z) : schedcoop :=
  mk_sched (<[main := set_sched true new_thread]> {[idle := set_sched true new_thread]})
    [] [] [idle; main] [] idle 0 now main None now ∅.

(** ** Wait queues *)

(** The queue [q] is that of the semaphore [q]. *)
Definition get_sem (q : positive) : MS (Z * list positive) := deref (fun w => s_sems w !! q).
Definition put_sem (q : positive) (s : Z * list positive) : MS unit :=
  modify (fun w => set_sems (<[q := s]> (s_sems w)) w).

Definition _uk_waitq_add (q t : positive) : MS unit :=
  th ← get_thread t;
  UK_ASSERT (negb (bool_decide (is_Some (t_wq th))));;
  upd_thread t (set_wq (Some q));;
  '(count, waiters) ← get_sem q;
  put_sem q (count, waiters ++ [t]).
Definition _uk_waitq_remove (t : positive) : MS unit :=
  th ← get_thread t;
  q ← deref (fun _ => t_wq th);
  '(count, waiters) ← get_sem q;
  put_sem q (count, tailq_remove t waiters);;
  upd_thread t (set_wq None).
Definition _uk_waitq_block_until (t : positive) (deadline : Z) : MS unit :=
  upd_thread t (set_wakeup deadline);;
  upd_thread t (set_runnable false);;
  uk_sched_thread_blocked t.
Definition _uk_waitq_wake (q t : positive) : MS unit :=
  th ← get_thread t;
  UK_ASSERT (bool_decide (t_wq th = Some q));;
  uk_thread_wake t.
Fixpoint wake_all (q : positive) (l : list positive) : MS unit :=
  match l with
  | [] => mret tt
  | t :: l => _uk_waitq_wake q t;; wake_all q l
  end.
Definition uk_waitq_wake_up (q : positive) : MS unit := '(_, waiters) ← get_sem q; wake_all q waiters.
Definition uk_waitq_wake_up_one (q : positive) : MS unit :=
  '(_, waiters) ← get_sem q;
  match waiters with
  | [] => mret tt
  | t :: _ => _uk_waitq_wake q t
  end.
Definition uk_waitq_cancel (t : positive) : MS unit := _uk_waitq_remove t.

(** The sections of [_uk_waitq_wait_until] under the lock of the queue: entering the
    queue, unless the condition holds by now, and going on after a wake-up; whether the
    wait is over.  A deadline is unsigned, and signed as a wake-up time. *)
Definition waitq_enter (q : positive) (condition : MS bool) (deadline : Z) : MS bool :=
  cur ← uk_thread_current;
  c ← condition;
  if (c : bool) then mret true
  else
    _uk_waitq_add q cur;;
    _uk_waitq_block_until cur (swrap 64 deadline);;
    mret false.
Definition waitq_awoken (condition : MS bool) (deadline : Z) : MS bool :=
  cur ← uk_thread_current;
  c ← condition;
  now ← gets s_clock;
  if (c : bool) || (negb (deadline =? 0) && (deadline <=? now)) then _uk_waitq_remove cur;; mret true
  else _uk_waitq_block_until cur (swrap 64 deadline);; mret false.

(** [uk_sched_thread_terminate], up to the yield of a thread that ends itself. *)
Definition uk_sched_thread_terminate (t : positive) : MS unit :=
  th ← get_thread t;
  UK_ASSERT (t_sched th);;
  (if bool_decide (is_Some (t_wq th)) then uk_waitq_cancel t else mret tt);;
  uk_sched_thread_remove t;;
  uk_thread_set_exited t;;
  cur ← uk_thread_current;
  if bool_decide (t = cur) then modify (fun w => set_lists (s_thread_list w) (s_exited_threads w ++ [t]) w)
  else uk_thread_release t.

(** ** Semaphores *)

Definition uk_semaphore_init (q : positive) (count : Z) : MS unit := put_sem q (count, []).
(** [s->count > 0] *)
Definition available (q : positive) : MS bool := '(count, _) ← get_sem q; mret (0 <? count).
Definition uk_semaphore_up (q : positive) : MS unit :=
  '(count, waiters) ← get_sem q;
  put_sem q (count + 1, waiters);;
  uk_waitq_wake_up q.
Definition uk_semaphore_down_try (q : positive) : MS Z :=
  '(count, waiters) ← get_sem q;
  if 0 <? count then put_sem q (count - 1, waiters);; mret 1 else mret 0.

(** [uk_semaphore_down], [uk_semaphore_down_all] and [uk_semaphore_down_to] *)
Inductive down_kind : Type := One | All | Until (deadline : Z).
Definition deadline_of (k : down_kind) : Z := match k with Until d => d | _ => 0 end.
(** The section after the wait: the number of units taken, 0 for a timeout, or another
    round. *)
Definition semaphore_take (k : down_kind) (q : positive) : MS (option Z) :=
  '(count, waiters) ← get_sem q;
  now ← gets s_clock;
  if 0 <? count then
    match k with
    | All => put_sem q (0, waiters);; mret (Some count)
    | _ => put_sem q (count - 1, waiters);; mret (Some 1)
    end
  else match k with
       | Until d => mret (if negb (d =? 0) && (d <=? now) then Some 0 else None)
       | _ => mret None
       end.

(** ** The idle thread *)

(** A turn of the loop of [idle_thread_fn] up to the halt: whether to yield at once. *)
Definition idle_check : MS bool :=
  num ← uk_sched_thread_gc;
  run_queue ← gets s_run_queue;
  mret ((0 <? num) || negb (bool_decide (run_queue = []))).
