(* ===== verification/SchedLogic.v ===== *)
(** * The invariant of the scheduler

    Which queue a thread is in follows from its flags; every operation of the scheduler
    keeps this, as long as threads block only themselves and are not ended by others. *)

From stdpp Require Import prelude gmap.
From S2P Require Import Prelude Sched.

#[local] Abbreviation MS := (M schedcoop).

(** The thread that has the processor, or is about to get it. *)
Definition active (w : schedcoop) : positive := default (s_current w) (s_next w).
(** A thread of the scheduler that can run. *)
Definition ready (th : uk_thread) : bool := t_sched th && uk_thread_is_runnable th.

(** The thread [t] is in the wait queue [q]. *)
Definition waiting (w : schedcoop) (q t : positive) : Prop := exists s, s_sems w !! q = Some s /\ t ∈ s.2.

Record thread_ok (w : schedcoop) (t : positive) (th : uk_thread) : Prop := {
  to_run : t ∈ s_run_queue w <-> ready th = true /\ t <> active w /\ t <> s_idle w;
  to_sleep : t ∈ s_sleep_queue w <-> t_sched th = true /\ uk_thread_is_runnable th = false /\ 0 < t_wakeup_time th;
  to_wakeup : uk_thread_is_runnable th = true -> t_wakeup_time th = 0;
  to_blocked : t_sched th = true -> uk_thread_is_runnable th = false -> t <> active w -> t_queueable th = true;
  to_active : t = active w -> t_queueable th = false;
  to_exited : t_exited th = negb (t_sched th);
  to_gone : t ∈ s_exited_threads w <-> t_exited th = true;
  to_listed : t ∈ s_thread_list w <-> t_sched th = true;
  to_idle : t = s_idle w -> ready th = true /\ t_wq th = None;
  to_wq q : t_wq th = Some q <-> waiting w q t;
  to_unwaited : t_sched th = false -> t_wq th = None
}.
Record sched_inv (w : schedcoop) : Prop := {
  si_nodup : NoDup (s_run_queue w ++ s_sleep_queue w);
  si_linked t : t ∈ s_run_queue w ++ s_sleep_queue w -> is_Some (s_threads w !! t);
  si_listed t : t ∈ s_thread_list w ++ s_exited_threads w -> is_Some (s_threads w !! t);
  si_unique : NoDup (s_exited_threads w);
  si_thread t th : s_threads w !! t = Some th -> thread_ok w t th;
  si_current : is_Some (s_threads w !! s_current w);
  si_active : is_Some (s_threads w !! active w);
  si_idle : is_Some (s_threads w !! s_idle w);
  si_waiters q s : s_sems w !! q = Some s -> NoDup s.2;
  si_waiter q t : waiting w q t -> is_Some (s_threads w !! t)
}.

(** ** Changing one thread *)

(** [w'] is [w] but for the thread [t] and its places in the queues. *)
Record only (t : positive) (w w' : schedcoop) : Prop := {
  on_thread t' : t' <> t -> s_threads w' !! t' = s_threads w !! t';
  on_run t' : t' <> t -> t' ∈ s_run_queue w' <-> t' ∈ s_run_queue w;
  on_sleep t' : t' <> t -> t' ∈ s_sleep_queue w' <-> t' ∈ s_sleep_queue w;
  on_list t' : t' <> t -> t' ∈ s_thread_list w' <-> t' ∈ s_thread_list w;
  on_exited t' : t' <> t -> t' ∈ s_exited_threads w' <-> t' ∈ s_exited_threads w;
  on_wq q t' : t' <> t -> waiting w' q t' <-> waiting w q t';
  on_idle : s_idle w' = s_idle w;
  on_current : s_current w' = s_current w;
  on_next : s_next w' = s_next w
}.
Lemma thread_ok_only t w w' t' th : only t w w' -> t' <> t -> thread_ok w t' th -> thread_ok w' t' th.
Proof.
  intros Ho Ht [Hrun Hsl Hwt Hbl Hact Hex Hgo Hli Hid Hwq Hun]. unfold active in *.
  destruct Ho as [_ H1 H2 H3 H4 H5 H6 H7 H8].
  split; unfold active; rewrite ?H6, ?H7, ?H8; try done; rewrite ?H1, ?H2, ?H3, ?H4 by done; try done.
  intros q. by rewrite H5.
Qed.
Lemma sched_inv_only t th' w w' :
  sched_inv w -> only t w w' -> s_threads w' !! t = Some th' -> thread_ok w' t th' ->
  NoDup (s_run_queue w' ++ s_sleep_queue w') -> NoDup (s_exited_threads w') ->
  (forall q s, s_sems w' !! q = Some s -> NoDup s.2) -> sched_inv w'.
Proof.
  intros [H1 H2 H3 H4 H5 H6 H7 H8 H9 H10] Ho Ht' Hok Hn1 Hn2 Hn3.
  assert (Hdom : forall t', is_Some (s_threads w !! t') -> is_Some (s_threads w' !! t')).
  { intros t' Hs. destruct (decide (t' = t)) as [->|]; [by rewrite Ht'|by rewrite (on_thread _ _ _ Ho)]. }
  assert (Hne : forall t' (P : Prop), (t' <> t -> P -> is_Some (s_threads w !! t')) -> P -> is_Some (s_threads w' !! t')).
  { intros t' P HP Hp. destruct (decide (t' = t)) as [->|]; [by rewrite Ht'|]. apply Hdom. auto. }
  destruct Ho as [O1 O2 O3 O4 O5 O6 O7 O8 O9].
  split; try done.
  - intros t' Hin. eapply Hne, Hin. intros Hx Hi. apply H2. rewrite elem_of_app in *. by rewrite O2, O3 in Hi.
  - intros t' Hin. eapply Hne, Hin. intros Hx Hi. apply H3. rewrite elem_of_app in *. by rewrite O4, O5 in Hi.
  - intros t' x Hx. destruct (decide (t' = t)) as [->|Hd]; [by simplify_eq|].
    eapply thread_ok_only; [by split|done|]. apply H5. by rewrite <- O1.
  - rewrite O8. by apply Hdom.
  - unfold active. rewrite O8, O9. by apply Hdom.
  - rewrite O7. by apply Hdom.
  - intros q t' Hin. eapply Hne, Hin. intros Hx Hi. apply (H10 q). by rewrite <- O6.
Qed.
(** A thread that is in no queue and in no list is gone. *)
Lemma sched_inv_delete t w w' :
  sched_inv w -> only t w w' -> s_threads w' !! t = None ->
  t ∉ s_run_queue w' ++ s_sleep_queue w' -> t ∉ s_thread_list w' ++ s_exited_threads w' -> (forall q, ~ waiting w' q t) ->
  t <> s_current w -> t <> active w -> t <> s_idle w ->
  NoDup (s_run_queue w' ++ s_sleep_queue w') -> NoDup (s_exited_threads w') ->
  (forall q s, s_sems w' !! q = Some s -> NoDup s.2) -> sched_inv w'.
Proof.
  intros [H1 H2 H3 H4 H5 H6 H7 H8 H9 H10] Ho Ht' Hq Hl Hwt Hc Ha Hi Hn1 Hn2 Hn3.
  destruct Ho as [O1 O2 O3 O4 O5 O6 O7 O8 O9].
  split; try done.
  - intros t' Hin. assert (t' <> t) by congruence. rewrite O1 by done. apply H2. rewrite elem_of_app in *. by rewrite O2, O3 in Hin.
  - intros t' Hin. assert (t' <> t) by congruence. rewrite O1 by done. apply H3. rewrite elem_of_app in *. by rewrite O4, O5 in Hin.
  - intros t' x Hx. assert (t' <> t) by congruence. eapply thread_ok_only; [by split|done|]. apply H5. by rewrite <- O1.
  - rewrite O8. by rewrite O1.
  - unfold active in *. rewrite O8, O9. by rewrite O1.
  - rewrite O7. by rewrite O1.
  - intros q t' Hin. assert (t' <> t) by (intros ->; by eapply Hwt). rewrite O1 by done. apply (H10 q). by rewrite <- O6.
Qed.

(** ** Single steps *)

Lemma wp_get_thread t th w Q : s_threads w !! t = Some th -> Q th w -> wp (get_thread t) Q w.
Proof. intros Ht HQ. by eapply wp_deref. Qed.
Lemma wp_upd_thread t f th w (Q : unit -> schedcoop -> Prop) :
  s_threads w !! t = Some th -> Q tt (set_threads (<[t := f th]> (s_threads w)) w) -> wp (upd_thread t f) Q w.
Proof. intros Ht HQ. unfold upd_thread. apply wp_bind. by eapply wp_get_thread. Qed.
Lemma wp_get_sem q s w Q : s_sems w !! q = Some s -> Q s w -> wp (get_sem q) Q w.
Proof. intros Hs HQ. by eapply wp_deref. Qed.
Lemma wp_run_remove t w (Q : unit -> schedcoop -> Prop) :
  t ∈ s_run_queue w -> Q tt (set_run_queue (tailq_remove t (s_run_queue w)) w) -> wp (run_remove t) Q w.
Proof. intros Ht HQ. apply wp_bind, wp_gets, wp_bind, wp_assert; [by apply bool_decide_eq_true|]. by apply wp_modify. Qed.
Lemma wp_sleep_remove t w (Q : unit -> schedcoop -> Prop) :
  t ∈ s_sleep_queue w -> Q tt (set_sleep_queue (tailq_remove t (s_sleep_queue w)) w) -> wp (sleep_remove t) Q w.
Proof. intros Ht HQ. apply wp_bind, wp_gets, wp_bind, wp_assert; [by apply bool_decide_eq_true|]. by apply wp_modify. Qed.
Lemma wp_run_insert t w (Q : unit -> schedcoop -> Prop) :
  t ∉ s_run_queue w ++ s_sleep_queue w -> Q tt (set_run_queue (s_run_queue w ++ [t]) w) -> wp (run_insert_tail t) Q w.
Proof.
  intros Ht HQ. apply wp_bind. unfold unlinked. apply wp_bind, wp_gets, wp_assert; [by apply bool_decide_eq_true|]. by apply wp_modify.
Qed.
Lemma wp_sleep_insert t w (Q : unit -> schedcoop -> Prop) :
  t ∉ s_run_queue w ++ s_sleep_queue w -> Q tt (set_sleep_queue (s_sleep_queue w ++ [t]) w) -> wp (sleep_insert_tail t) Q w.
Proof.
  intros Ht HQ. apply wp_bind. unfold unlinked. apply wp_bind, wp_gets, wp_assert; [by apply bool_decide_eq_true|]. by apply wp_modify.
Qed.

Lemma elem_of_unlink t x l : x ∈ tailq_remove t l <-> x <> t /\ x ∈ l.
Proof. unfold tailq_remove. by rewrite list_elem_of_filter. Qed.
Lemma NoDup_unlink t l : NoDup l -> NoDup (tailq_remove t l).
Proof. apply NoDup_filter. Qed.
Lemma unlink_not t l : t ∉ l -> tailq_remove t l = l.
Proof. intros Ht. unfold tailq_remove. apply filter_all, Forall_forall. intros x Hx ->. done. Qed.

(** ** Waking *)

(** The state after [uk_thread_wake]. *)
Definition woken (t : positive) (th : uk_thread) (w : schedcoop) : schedcoop :=
  if uk_thread_is_runnable th then w
  else if t_sched th then
    set_sleep_queue (tailq_remove t (s_sleep_queue w))
      (set_run_queue (if t_queueable th then s_run_queue w ++ [t] else s_run_queue w)
        (set_threads (<[t := set_wakeup 0 (set_queueable false (set_runnable true th))]> (s_threads w)) w))
  else set_threads (<[t := set_wakeup 0 (set_runnable true th)]> (s_threads w)) w.

Lemma sched_eta w : set_threads (s_threads w) w = w.
Proof. by destruct w. Qed.

Lemma wake_spec t th w :
  sched_inv w -> s_threads w !! t = Some th -> wp (uk_thread_wake t) (fun _ w' => w' = woken t th w) w.
Proof.
  intros Hw Ht. destruct (si_thread _ Hw _ _ Ht) as [Hrun Hsl Hwt Hbl Hact Hex _ _ _ _ _]. unfold uk_thread_wake, woken.
  apply wp_bind. eapply wp_get_thread; [done|]. apply wp_bind. destruct (uk_thread_is_runnable th) eqn:Hr; cbn [negb].
  - apply wp_ret. eapply wp_upd_thread; [done|]. rewrite <- (sched_eta w) at 3. f_equal. apply insert_id. rewrite Ht.
    specialize (Hwt eq_refl). destruct th. cbn in *. by subst.
  - apply wp_bind. eapply wp_upd_thread; [done|]. destruct (t_sched th) eqn:Hs.
    2: { apply wp_ret. eapply wp_upd_thread; [apply lookup_insert_eq|]. cbn. by rewrite insert_insert_eq. }
    assert (Hne : t_exited th = false) by done.
    unfold uk_sched_thread_woken. apply wp_bind. eapply wp_get_thread; [apply lookup_insert_eq|].
    apply wp_bind, wp_assert; [done|]. apply wp_bind, wp_assert; [unfold uk_thread_is_runnable; by cbn; rewrite Hne|].
    unfold schedcoop_thread_woken_isr. apply wp_bind. eapply wp_get_thread; [apply lookup_insert_eq|]. apply wp_bind.
    assert (Hnr : t ∉ s_run_queue w) by (rewrite Hrun; unfold ready; rewrite Hr, andb_false_r; by intros [? _]).
    set (th1 := set_runnable true th). set (w1 := set_threads (<[t := th1]> (s_threads w)) w).
    apply (wp_mono _ (fun _ w' => w' = set_sleep_queue (tailq_remove t (s_sleep_queue w)) w1)).
    { intros [] w' ->. unfold uk_thread_is_runnable. cbn [th1 set_runnable t_queueable t_exited t_runnable]. rewrite Hne. cbn [negb andb].
      rewrite andb_true_r. destruct (t_queueable th) eqn:Hq.
      - apply wp_bind, wp_run_insert; [cbn; rewrite elem_of_app, elem_of_unlink; tauto|].
        eapply wp_upd_thread; [apply lookup_insert_eq|]. eapply wp_upd_thread; [apply lookup_insert_eq|]. cbn.
        by rewrite !insert_insert_eq.
      - apply wp_ret. eapply wp_upd_thread; [apply lookup_insert_eq|]. cbn. rewrite insert_insert_eq. unfold w1. do 3 f_equal.
        destruct th. cbn in *. by subst. }
    change (t_wakeup_time th1) with (t_wakeup_time th). destruct (Z.ltb_spec 0 (t_wakeup_time th)).
    + apply wp_sleep_remove; [by apply Hsl|]. done.
    + apply wp_ret. rewrite unlink_not by (rewrite Hsl; intros (_ & _ & ?); lia). by destruct w.
Qed.

Lemma active_woken t th w : active (woken t th w) = active w.
Proof. unfold woken. by destruct (uk_thread_is_runnable th), (t_sched th). Qed.
Lemma woken_inv t th w : sched_inv w -> s_threads w !! t = Some th -> sched_inv (woken t th w).
Proof.
  intros Hw Ht. destruct (si_thread _ Hw _ _ Ht) as [Hrun Hsl Hwt Hbl Hact Hex Hgo Hli Hid Hwq Hun].
  pose proof (si_nodup _ Hw) as Hnd. apply NoDup_app in Hnd as (Hn1 & Hn2 & Hn3). unfold woken.
  destruct (uk_thread_is_runnable th) eqn:Hr; [done|]. unfold ready in *. rewrite Hr, ?andb_false_r in *.
  assert (Hni : t <> s_idle w) by (intros H; by destruct (Hid H)).
  assert (Hnr : t ∉ s_run_queue w) by (rewrite Hrun; by intros [? _]).
  destruct (t_sched th) eqn:Hs; cbn [negb] in Hex.
  2: { eapply (sched_inv_only t); [done| |apply lookup_insert_eq| |by apply Hw..].
    - split; try done. intros t' Hne. cbn. by rewrite lookup_insert_ne.
    - split; unfold ready, uk_thread_is_runnable; cbn; rewrite ?Hex, ?Hs; try done; [rewrite Hsl; by split; intros [? _]|by rewrite Hgo, Hex]. }
  eapply (sched_inv_only t); [done| |apply lookup_insert_eq| | |by apply Hw..].
  - split; try done; cbn.
    + intros t' Hne. by rewrite lookup_insert_ne.
    + intros t' Hne. destruct (t_queueable th); [|done]. rewrite elem_of_app, list_elem_of_singleton. tauto.
    + intros t' Hne. rewrite elem_of_unlink. tauto.
  - split; unfold ready, uk_thread_is_runnable; cbn; rewrite ?Hex, ?Hs; cbn; try done.
    + change (active _) with (active w). destruct (t_queueable th) eqn:Hq.
      * rewrite elem_of_app, list_elem_of_singleton. split; [|tauto]. intros _. split_and!; [done| |done]. intros Ha. by specialize (Hact Ha).
      * split; [done|]. intros (_ & Ha & _). by specialize (Hbl eq_refl eq_refl Ha).
    + rewrite elem_of_unlink. split; [by intros [? _]|by intros (_ & ? & _)].
    + by rewrite Hgo, Hex.
  - cbn. apply NoDup_app. split_and!; [|intros x|by apply NoDup_unlink].
    + destruct (t_queueable th); [|done]. apply NoDup_app. split_and!; [done| |apply NoDup_singleton]. set_solver.
    + rewrite elem_of_unlink. intros Hx [Hxt Hxs]. apply (Hn2 x); [|done].
      destruct (t_queueable th); [|done]. rewrite elem_of_app, list_elem_of_singleton in Hx. tauto.
Qed.

(** ** What wake-ups change *)

(** Threads that could not run can run now, and are at the end of the run queue. *)
Record th_awakened (th th' : uk_thread) : Prop := {
  ta_exited : t_exited th' = t_exited th;
  ta_sched : t_sched th' = t_sched th;
  ta_wq : t_wq th' = t_wq th;
  ta_exec : t_exec_time th' = t_exec_time th;
  ta_runnable : uk_thread_is_runnable th = true -> th' = th;
  ta_blocked : t_sched th = true -> uk_thread_is_runnable th' = false -> th' = th
}.
Record awakened (w w' : schedcoop) : Prop := {
  aw_thread t : option_relation th_awakened (const False) (const False) (s_threads w !! t) (s_threads w' !! t);
  aw_run : exists l, s_run_queue w' = s_run_queue w ++ l;
  aw_sleep t : t ∈ s_sleep_queue w' -> t ∈ s_sleep_queue w;
  aw_rest : w' = set_threads (s_threads w') (set_run_queue (s_run_queue w') (set_sleep_queue (s_sleep_queue w') w))
}.
Lemma th_awakened_refl th : th_awakened th th.
Proof. by split. Qed.
Lemma awakened_refl w : awakened w w.
Proof.
  split; [|exists []; by rewrite app_nil_r|done|by destruct w].
  intros t. destruct (s_threads w !! t); by constructor.
Qed.
Lemma awakened_lookup w w' t th :
  awakened w w' -> s_threads w !! t = Some th -> exists th', s_threads w' !! t = Some th' /\ th_awakened th th'.
Proof. intros Ha Ht. pose proof (aw_thread _ _ Ha t) as H. rewrite Ht in H. destruct (s_threads w' !! t); [|done]. eauto. Qed.
Lemma th_awakened_trans a b c : th_awakened a b -> th_awakened b c -> th_awakened a c.
Proof.
  intros [A1 A2 A3 A4 A5 A6] [B1 B2 B3 B4 B5 B6]. split; try congruence.
  - intros Hr. specialize (A5 Hr). subst. auto.
  - intros Hs Hr. rewrite A2 in B6. specialize (B6 Hs Hr). subst. auto.
Qed.
Lemma awakened_trans w1 w2 w3 : awakened w1 w2 -> awakened w2 w3 -> awakened w1 w3.
Proof.
  intros [A1 [l1 B1] C1 D1] [A2 [l2 B2] C2 D2]. split.
  - intros t. specialize (A1 t). specialize (A2 t).
    destruct (s_threads w1 !! t), (s_threads w2 !! t), (s_threads w3 !! t); try done. by eapply th_awakened_trans.
  - exists (l1 ++ l2). by rewrite B2, B1, app_assoc.
  - auto.
  - rewrite D2, D1 at 1. by destruct w1.
Qed.
Lemma woken_awakened t th w : sched_inv w -> s_threads w !! t = Some th -> awakened w (woken t th w).
Proof.
  intros Hw Ht. pose proof (to_exited _ _ _ (si_thread _ Hw _ _ Ht)) as Hex. unfold woken. destruct (uk_thread_is_runnable th) eqn:Hr; [apply awakened_refl|].
  assert (Hth : forall th', th_awakened th th' -> forall t',
    option_relation th_awakened (const False) (const False) (s_threads w !! t') (<[t:=th']> (s_threads w) !! t')).
  { intros th' Hth' t'. destruct (decide (t' = t)) as [->|]; [by rewrite Ht, lookup_insert_eq|].
    rewrite lookup_insert_ne by done. destruct (s_threads w !! t'); [|done]. apply th_awakened_refl. }
  destruct (t_sched th) eqn:Hs.
  - split; [apply Hth; split; try done; [by rewrite Hr|]| |intros t'; cbn; rewrite elem_of_unlink; naive_solver|done].
    { unfold uk_thread_is_runnable. cbn. by rewrite Hex, Hs. }
    cbn. destruct (t_queueable th); [by exists [t]|exists []; by rewrite app_nil_r].
  - split; [by apply Hth; split; try done; rewrite ?Hr, ?Hs|exists []; by rewrite app_nil_r|done|by destruct w].
Qed.
Lemma wake_awakens t th w :
  sched_inv w -> s_threads w !! t = Some th ->
  wp (uk_thread_wake t) (fun _ w' => sched_inv w' /\ awakened w w' /\
    (t_sched th = true -> exists th', s_threads w' !! t = Some th' /\ uk_thread_is_runnable th' = true) /\
    (forall t', t' ∈ s_sleep_queue w' <-> t' ∈ s_sleep_queue w /\ t' <> t) /\
    (forall t', t' <> t -> s_threads w' !! t' = s_threads w !! t')) w.
Proof.
  intros Hw Ht. eapply wp_mono; [|by apply wake_spec]. intros [] w' ->.
  split; [by apply woken_inv|]. split; [by apply woken_awakened|].
  destruct (si_thread _ Hw _ _ Ht) as [Hrun Hsl Hwt Hbl Hact Hex _ _ _ _ _]. unfold woken.
  destruct (uk_thread_is_runnable th) eqn:Hr; [split; [eauto|split; [naive_solver|done]]|].
  destruct (t_sched th) eqn:Hs; [|split; [done|split; [naive_solver|]]; intros t' Hne; cbn; by rewrite lookup_insert_ne]. split; [|split].
  - intros _. eexists. split; [apply lookup_insert_eq|]. unfold uk_thread_is_runnable. cbn. by rewrite Hex.
  - intros t'. cbn. rewrite elem_of_unlink. naive_solver.
  - intros t' Hne. cbn. by rewrite lookup_insert_ne.
Qed.

(** ** The sleeping threads *)

Lemma sleeper w t : sched_inv w -> t ∈ s_sleep_queue w ->
  exists th, s_threads w !! t = Some th /\ t_sched th = true /\ uk_thread_is_runnable th = false /\ 0 < t_wakeup_time th.
Proof.
  intros Hw Ht. destruct (si_linked _ Hw t) as [th Hth]; [rewrite elem_of_app; auto|]. exists th. split; [done|].
  by apply (to_sleep _ _ _ (si_thread _ Hw _ _ Hth)).
Qed.
Lemma awakened_sleeper w w' t th :
  sched_inv w' -> awakened w w' -> t ∈ s_sleep_queue w' -> s_threads w !! t = Some th -> s_threads w' !! t = Some th.
Proof.
  intros Hw' Ha Ht Hth. destruct (awakened_lookup _ _ _ _ Ha Hth) as (th' & Hth' & Haw).
  destruct (sleeper _ _ Hw' Ht) as (th2 & Hth2 & Hs & Hr & _). simplify_eq. rewrite Hth'. f_equal.
  apply (ta_blocked _ _ Haw); [|done]. by rewrite <- (ta_sched _ _ Haw).
Qed.

(** [r] is the earliest time at which one of the threads [l] wakes up, and [m]; 0 stands
    for no time. *)
Record earliest (r m : Z) (l : list positive) (w : schedcoop) : Prop := {
  ea_nonneg : 0 <= r;
  ea_base : 0 < m -> 0 < r <= m;
  ea_lower t th : t ∈ l -> t ∈ s_sleep_queue w -> s_threads w !! t = Some th -> 0 < r <= t_wakeup_time th;
  ea_attained : 0 < r -> r = m \/
    exists t th, t ∈ l /\ t ∈ s_sleep_queue w /\ s_threads w !! t = Some th /\ t_wakeup_time th = r
}.
(** What the loop over the sleep queue of [schedcoop_schedule] does. *)
Record expired (now m : Z) (l : list positive) (w : schedcoop) (r : Z) (w' : schedcoop) : Prop := {
  ex_inv : sched_inv w';
  ex_awakened : awakened w w';
  ex_sleep t th : t ∈ l -> s_threads w !! t = Some th -> t ∈ s_sleep_queue w' <-> now < t_wakeup_time th;
  ex_other t : t ∉ l -> t ∈ s_sleep_queue w' <-> t ∈ s_sleep_queue w;
  ex_frame t : t ∉ l -> s_threads w' !! t = s_threads w !! t;
  ex_min : earliest r m l w'
}.
Lemma expired_cons_wake now m t th l w w1 r w' :
  sched_inv w -> s_threads w !! t = Some th -> t ∉ l -> t_wakeup_time th <= now ->
  awakened w w1 -> (forall t', t' ∈ s_sleep_queue w1 <-> t' ∈ s_sleep_queue w /\ t' <> t) ->
  (forall t', t' <> t -> s_threads w1 !! t' = s_threads w !! t') ->
  (forall t', t' ∈ l -> t' ∈ s_sleep_queue w) -> sched_inv w1 ->
  expired now m l w1 r w' -> expired now m (t :: l) w r w'.
Proof.
  intros Hw Ht Hl Hwt Ha Hs Hfr Hin Hw1 [Hi Haw Hsl Hot Hf [E1 E2 E3 E4]].
  assert (Hts : t ∉ s_sleep_queue w') by (rewrite (Hot t Hl), Hs; tauto).
  split; [done|by eapply awakened_trans| | | |split; try done].
  - intros t' th' [->|Hl']%elem_of_cons Hth'.
    + simplify_eq. split; [done|lia].
    + apply Hsl; [done|]. eapply awakened_sleeper; [done|done| |done]. apply Hs. split; [by apply Hin|]. by intros ->.
  - intros t' [Hne Hl']%not_elem_of_cons. rewrite (Hot t' Hl'), Hs. tauto.
  - intros t' [Hne Hl']%not_elem_of_cons. rewrite (Hf t' Hl'). by apply Hfr.
  - intros t' th' [->|Hl']%elem_of_cons; [done|by apply E3].
  - intros Hr. destruct (E4 Hr) as [|(t' & th' & Hl' & ?)]; [by left|]. right. exists t', th'. split; [by right|done].
Qed.
Lemma expired_cons_keep now m t th l w r w' :
  sched_inv w -> s_threads w !! t = Some th -> t ∈ s_sleep_queue w -> t ∉ l -> now < t_wakeup_time th -> 0 <= m ->
  expired now (if (m =? 0) || (t_wakeup_time th <? m) then t_wakeup_time th else m) l w r w' -> expired now m (t :: l) w r w'.
Proof.
  intros Hw Ht Hts Hl Hwt Hm [Hi Haw Hsl Hot Hf [E1 E2 E3 E4]].
  destruct (sleeper _ _ Hw Hts) as (th2 & Hth2 & _ & _ & Hpos). simplify_eq.
  assert (Hts' : t ∈ s_sleep_queue w') by by rewrite (Hot t Hl).
  assert (Ht' : s_threads w' !! t = Some th) by by eapply awakened_sleeper.
  set (m' := if (m =? 0) || (t_wakeup_time th <? m) then t_wakeup_time th else m) in *.
  assert (Hm' : 0 < m' /\ m' <= t_wakeup_time th /\ (0 < m -> m' <= m) /\ (m' = m \/ m' = t_wakeup_time th)).
  { unfold m'. destruct (Z.eqb_spec m 0), (Z.ltb_spec (t_wakeup_time th) m); cbn [orb]; lia. }
  destruct E2 as [E2a E2b]; [lia|]. split; [done|done| | | |split; [done| | |]].
  - intros t' th' [->|Hl']%elem_of_cons Hth'; [by simplify_eq|by apply Hsl].
  - intros t' [Hne Hl']%not_elem_of_cons. by apply Hot.
  - intros t' [Hne Hl']%not_elem_of_cons. by apply Hf.
  - lia.
  - intros t' th' [->|Hl']%elem_of_cons Hs' Hth'; [simplify_eq; lia|by apply (E3 t')].
  - intros Hr. destruct (E4 Hr) as [Heq|(t' & th' & Hl' & ?)].
    + destruct Hm' as (_ & _ & _ & [Hmm|Hmm]); [left; lia|right; exists t, th; split_and!; [by left|done|done|lia]].
    + right. exists t', th'. split; [by right|done].
Qed.
Lemma wake_expired_spec now l m w :
  sched_inv w -> NoDup l -> (forall t, t ∈ l -> t ∈ s_sleep_queue w) -> 0 <= m ->
  wp (wake_expired now l m) (expired now m l w) w.
Proof.
  revert m w. induction l as [|t l IH]; intros m w Hw Hnd Hin Hm; cbn [wake_expired].
  - apply wp_ret. split; [done|apply awakened_refl|by intros ? ? ?%elem_of_nil|done|done|].
    split; [done|lia|by intros ? ? ?%elem_of_nil|by left].
  - apply NoDup_cons in Hnd as [Hl Hnd]. destruct (sleeper w t) as (th & Hth & Hs & Hr & Hpos); [done|by apply Hin; left|].
    apply wp_bind. eapply wp_get_thread; [done|]. destruct (Z.eqb_spec (t_wakeup_time th) 0); [lia|].
    assert (Hin' : forall t', t' ∈ l -> t' ∈ s_sleep_queue w) by (intros; apply Hin; by right).
    destruct (Z.leb_spec (t_wakeup_time th) now).
    + apply wp_bind. eapply wp_mono; [|by apply (wake_awakens t th)]. intros [] w1 (Hw1 & Ha & _ & Hs1 & Hf1).
      eapply wp_mono; [intros r w'; by apply (expired_cons_wake now m t th l w w1)|]. apply IH; try done.
      intros t' Hl'. apply Hs1. split; [by apply Hin'|]. by intros ->.
    + eapply wp_mono; [intros r w'; apply (expired_cons_keep now m t th l w); try done; by apply Hin; left|]. apply IH; try done.
      destruct (_ || _); lia.
Qed.

(** ** Scheduling *)

Lemma ready_runnable w t th : thread_ok w t th -> ready th = uk_thread_is_runnable th.
Proof.
  intros Hok. unfold ready, uk_thread_is_runnable. rewrite (to_exited _ _ _ Hok). by destruct (t_sched th).
Qed.
(** A state that differs in what the invariant does not speak of. *)
Lemma sched_inv_same w w' :
  sched_inv w -> (forall t, (set_exec 0 <$> s_threads w' !! t) = (set_exec 0 <$> s_threads w !! t)) ->
  s_run_queue w' = s_run_queue w -> s_sleep_queue w' = s_sleep_queue w -> s_thread_list w' = s_thread_list w ->
  s_exited_threads w' = s_exited_threads w -> s_idle w' = s_idle w -> active w' = active w -> s_sems w' = s_sems w ->
  is_Some (s_threads w' !! s_current w') -> sched_inv w'.
Proof.
  intros [H1 H2 H3 H4 H5 H6 H7 H8 H9 H10] Ht Hr Hs Hl He Hi Ha Hq Hc.
  assert (Hdom : forall t, is_Some (s_threads w !! t) -> is_Some (s_threads w' !! t)).
  { intros t [th Hth]. specialize (Ht t). rewrite Hth in Ht. destruct (s_threads w' !! t); [eauto|done]. }
  split; rewrite ?Hr, ?Hs, ?Hl, ?He, ?Hi, ?Ha, ?Hq; auto; [|intros q t Hqt; apply Hdom, (H10 q); unfold waiting in *; by rewrite <- Hq].
  intros t th' Hth'. specialize (Ht t). rewrite Hth' in Ht. destruct (s_threads w !! t) as [th|] eqn:Hth; [|done].
  apply H5 in Hth as [A1 A2 A3 A4 A5 A6 A7 A8 A9 A10 A11]. injection Ht as E1 E2 E3 E4 E5 E6.
  unfold ready, uk_thread_is_runnable in *. unfold waiting in *.
  split; unfold ready, uk_thread_is_runnable, waiting; rewrite ?Hr, ?Hs, ?Hl, ?He, ?Hi, ?Ha, ?Hq, ?E1, ?E2, ?E3, ?E4, ?E5, ?E6; done.
Qed.

(** The switch from [prev] to [next], with the run queue [R]. *)
Definition switching (prev next : positive) (p n : uk_thread) (R : list positive) (w : schedcoop) : schedcoop :=
  set_running prev (Some next)
    (set_threads (<[next := set_queueable false n]> (<[prev := set_queueable true p]> (s_threads w))) (set_run_queue R w)).
Lemma switching_inv prev next p n R w :
  sched_inv w -> s_next w = None -> s_current w = prev -> s_threads w !! prev = Some p -> s_threads w !! next = Some n ->
  next <> prev -> NoDup (R ++ s_sleep_queue w) ->
  (forall t, t ∈ R <-> t ∈ s_run_queue w /\ t <> next \/ t = prev /\ ready p = true /\ prev <> s_idle w) ->
  sched_inv (switching prev next p n R w).
Proof.
  intros Hw Hnx Hc Hp Hn Hne Hnd HR. pose proof Hw as [H1 H2 H3 H4 H5 H6 H7 H8 H9 H10].
  assert (Hact : active w = prev) by (unfold active; by rewrite Hnx).
  assert (Hdom : forall t, is_Some (s_threads w !! t) -> is_Some (s_threads (switching prev next p n R w) !! t)).
  { intros t Ht. cbn. rewrite !lookup_insert_is_Some'. auto. }
  split; cbn; try done; auto.
  - intros t. rewrite elem_of_app, HR. intros Ht. apply Hdom. destruct Ht as [[[Ht _]|[-> _]]|Ht]; [|by rewrite Hp|].
    + apply H2, elem_of_app. auto.
    + apply H2, elem_of_app. auto.
  - intros t th'. rewrite lookup_insert_Some, lookup_insert_Some. intros [[<- <-]|[Hn' [[<- <-]|[Hp' Hth]]]].
    + destruct (H5 _ _ Hn) as [A1 A2 A3 A4 A5 A6 A7 A8 A9 A10 A11]. split; try done; cbn. rewrite HR. naive_solver.
    + destruct (H5 _ _ Hp) as [A1 A2 A3 A4 A5 A6 A7 A8 A9 A10 A11].
      split; try done; cbn. rewrite HR, A1, Hact. unfold active. cbn. unfold ready in *. cbn. naive_solver.
    + destruct (H5 _ _ Hth) as [A1 A2 A3 A4 A5 A6 A7 A8 A9 A10 A11]. rewrite Hact in *.
      split; try done; cbn; auto. rewrite HR, A1. unfold active. cbn. naive_solver.
  - intros q t Hq. by apply Hdom, (H10 q).
Qed.

(** What [schedcoop_schedule] does: [w1] is the state after the wake-ups, [r] the time
    of the next one. *)
Definition resumed (w : schedcoop) (p : uk_thread) : schedcoop :=
  set_times (s_idle_return_time w) (s_clock w)
    (set_threads (<[s_current w := set_exec (t_exec_time p + (s_clock w - s_ts_prev_switch w)) p]> (s_threads w)) w).
Inductive scheduled (w w1 : schedcoop) (r : Z) : bool -> schedcoop -> Prop :=
  | scheduled_next next n p R :
      s_run_queue w1 = next :: R -> next <> s_current w ->
      s_threads w1 !! next = Some n -> s_threads w1 !! s_current w = Some p ->
      scheduled w w1 r true (switching (s_current w) next p n
        (R ++ (if bool_decide (s_current w = s_idle w) then [] else if ready p then [s_current w] else [])) w1)
  | scheduled_same p :
      s_run_queue w1 = [] -> s_threads w1 !! s_current w = Some p -> ready p = true -> scheduled w w1 r false w1
  | scheduled_idle n p :
      s_run_queue w1 = [] -> s_current w <> s_idle w ->
      s_threads w1 !! s_idle w = Some n -> s_threads w1 !! s_current w = Some p -> ready p = false ->
      scheduled w w1 r true (switching (s_current w) (s_idle w) p n [] (set_times r (s_clock w) w1)).

Lemma resumed_inv w p : sched_inv w -> s_threads w !! s_current w = Some p -> sched_inv (resumed w p).
Proof.
  intros Hw Hp. eapply sched_inv_same; [done| |done..|].
  - intros t. cbn. destruct (decide (t = s_current w)) as [->|]; [by rewrite lookup_insert_eq, Hp|by rewrite lookup_insert_ne].
  - cbn. by rewrite lookup_insert_eq.
Qed.
Lemma scheduled_inv w w1 r b w' :
  sched_inv w1 -> s_next w1 = None -> s_current w1 = s_current w -> s_idle w1 = s_idle w ->
  scheduled w w1 r b w' -> sched_inv w'.
Proof.
  intros Hw Hnx Hc Hi Hs. pose proof (si_nodup _ Hw) as Hnd.
  assert (Hact : active w1 = s_current w) by (unfold active; by rewrite Hnx).
  destruct Hs as [next n p R HR Hne Hn Hp|p HR Hp Hr|n p HR Hne Hn Hp Hr]; [|done|].
  - rewrite HR in Hnd. cbn in Hnd. apply NoDup_cons in Hnd as [Hnin Hnd].
    pose proof (to_run _ _ _ (si_thread _ Hw _ _ Hp)) as Hrp. rewrite Hact, Hi in Hrp.
    assert (Hps : ready p = true -> s_current w ∉ s_sleep_queue w1).
    { intros Hrd Hs. apply (to_sleep _ _ _ (si_thread _ Hw _ _ Hp)) in Hs as (_ & Hs & _).
      rewrite (ready_runnable _ _ _ (si_thread _ Hw _ _ Hp)) in Hrd. congruence. }
    rewrite HR in Hrp. assert (HpR : s_current w ∉ R) by (intros HpR; destruct (proj1 Hrp) as (_ & ? & _); [by right|done]).
    apply switching_inv; try done.
    + destruct (bool_decide_reflect (s_current w = s_idle w)); [by rewrite app_nil_r|].
      destruct (ready p) eqn:Hrd; [|by rewrite app_nil_r]. rewrite <- app_assoc. cbn.
      apply NoDup_app in Hnd as (N1 & N2 & N3). apply NoDup_app. split_and!; [done| |by apply NoDup_cons; auto].
      intros t Ht. rewrite elem_of_cons. intros [->|Ht']; [done|by apply (N2 t)].
    + intros t. rewrite HR, Hi, elem_of_app, elem_of_cons.
      assert (HnR : next ∉ R) by (intros H; apply Hnin, elem_of_app; auto).
      clear - HnR. destruct (bool_decide_reflect (s_current w = s_idle w)), (ready p);
        rewrite ?elem_of_nil, ?list_elem_of_singleton; naive_solver.
  - apply switching_inv; try done; cbn; rewrite ?HR; try done.
    + apply (sched_inv_same w1); try done. exact (si_current _ Hw).
    + by rewrite HR in Hnd.
    + intros t. split; [by intros ?%elem_of_nil|]. intros [[?%elem_of_nil _]|(_ & ? & _)]; [done|congruence].
Qed.

(** The choice and the switch, in the state after the wake-ups. *)
Lemma switch_to_spec prev next p n R w :
  next <> prev -> s_threads w !! prev = Some p -> s_threads w !! next = Some n -> s_run_queue w = R ->
  wp (switch_to prev next) (fun b w' => b = true /\ w' = switching prev next p n R w) w.
Proof.
  intros Hne Hp Hn <-. unfold switch_to. rewrite bool_decide_eq_false_2 by done. cbn [negb].
  apply wp_bind. eapply wp_upd_thread; [done|]. apply wp_bind. eapply wp_upd_thread; [cbn; by rewrite lookup_insert_ne|].
  apply wp_bind, wp_modify, wp_ret. by destruct w.
Qed.
Lemma pick_next_spec w w1 r p1 :
  sched_inv w1 -> s_next w1 = None -> s_current w1 = s_current w -> s_idle w1 = s_idle w -> s_threads w1 !! s_current w = Some p1 ->
  wp (next ← pick_next (s_current w) (s_idle w) p1 r (s_clock w); switch_to (s_current w) next) (scheduled w w1 r) w1.
Proof.
  intros Hw1 Hnx1 Hc1 Hi1 Hp1. assert (Hact : active w1 = s_current w) by (unfold active; by rewrite Hnx1).
  pose proof (si_thread _ Hw1 _ _ Hp1) as Hok1. pose proof (ready_runnable _ _ _ Hok1) as Hrd1.
  assert (Hpe : uk_thread_is_runnable p1 && negb (uk_thread_is_exited p1) = ready p1).
  { rewrite Hrd1. unfold uk_thread_is_runnable, uk_thread_is_exited. by destruct (t_exited p1), (t_runnable p1). }
  apply wp_bind. unfold pick_next. apply wp_bind, wp_gets. destruct (s_run_queue w1) as [|next R] eqn:HR.
  - rewrite Hpe. destruct (ready p1) eqn:Hrp.
    + apply wp_ret. unfold switch_to. rewrite bool_decide_eq_true_2 by done. apply wp_ret. by eapply scheduled_same.
    + destruct (si_idle _ Hw1) as [n Hn]. rewrite Hi1 in Hn. apply wp_bind, wp_modify, wp_ret.
      assert (Hne : s_idle w <> s_current w).
      { intros Heq. destruct (to_idle _ _ _ Hok1) as [Hr _]; [by rewrite Hi1|congruence]. }
      eapply wp_mono; [|by apply (switch_to_spec _ _ p1 n [])]. intros b w' [-> ->]. by eapply scheduled_idle.
  - destruct (si_linked _ Hw1 next) as [n Hn]; [rewrite HR; by left|].
    pose proof (si_thread _ Hw1 _ _ Hn) as Hokn. pose proof (ready_runnable _ _ _ Hokn) as Hrdn.
    destruct (proj1 (to_run _ _ _ Hokn)) as (Hrn & Hna & Hni); [rewrite HR; by left|]. rewrite Hact in Hna. rewrite Hrn in Hrdn.
    apply wp_bind, wp_assert; [by rewrite bool_decide_eq_false_2|]. apply wp_bind. eapply wp_get_thread; [done|].
    apply wp_bind, wp_assert; [done|]. apply wp_bind, wp_assert.
    { unfold uk_thread_is_exited. unfold uk_thread_is_runnable in Hrdn. by destruct (t_exited n). }
    apply wp_bind, wp_run_remove; [rewrite HR; by left|]. rewrite HR.
    assert (Hun : tailq_remove next (next :: R) = R).
    { pose proof (si_nodup _ Hw1) as Hnd1. rewrite HR in Hnd1. apply NoDup_cons in Hnd1 as [Hnin _].
      unfold tailq_remove. rewrite filter_cons_False by tauto. apply unlink_not. intros H. apply Hnin, elem_of_app. auto. }
    rewrite Hun. apply wp_bind.
    set (R' := R ++ (if bool_decide (s_current w = s_idle w) then [] else if ready p1 then [s_current w] else [])).
    apply (wp_mono _ (fun _ w' => w' = set_run_queue R' w1)).
    { intros [] w' ->. apply wp_ret. eapply wp_mono; [|by apply (switch_to_spec _ _ p1 n R')].
      intros b w' [-> ->]. by apply (scheduled_next w w1 r next n p1 R). }
    rewrite <- andb_assoc, Hpe. unfold R'. destruct (bool_decide_reflect (s_current w = s_idle w)) as [|Hnid]; cbn [negb andb].
    { apply wp_ret. by rewrite app_nil_r. }
    destruct (ready p1) eqn:Hrp; [|apply wp_ret; by rewrite app_nil_r].
    apply wp_run_insert; [|done]. cbn. rewrite elem_of_app. intros [H|H].
    + destruct (proj1 (to_run _ _ _ Hok1)) as (_ & ? & _); [rewrite HR; by right|]. by rewrite Hact in *.
    + apply (to_sleep _ _ _ Hok1) in H as (_ & ? & _). congruence.
Qed.
Lemma schedule_spec w :
  sched_inv w -> s_next w = None ->
  wp schedcoop_schedule (fun b w' => sched_inv w' /\ exists p w1 r, s_threads w !! s_current w = Some p /\
    expired (s_clock w) 0 (s_sleep_queue w) (resumed w p) r w1 /\ scheduled w w1 r b w') w.
Proof.
  intros Hw Hnx. destruct (si_current _ Hw) as [p Hp]. pose proof (resumed_inv w p Hw Hp) as Hw0. pose proof (si_nodup _ Hw) as Hnd.
  unfold schedcoop_schedule. apply wp_bind, wp_gets. unfold id. apply wp_bind. eapply wp_upd_thread; [done|]. apply wp_bind, wp_modify.
  fold (resumed w p). apply wp_bind. eapply wp_mono; [|apply (wake_expired_spec (s_clock w) (s_sleep_queue w) 0); try done; by apply NoDup_app in Hnd as (_ & _ & ?)].
  intros r w1 Hexp. pose proof Hexp as [Hw1 Haw _ _ _ _]. destruct (awakened_lookup _ _ _ _ Haw (lookup_insert_eq _ _ _)) as (p1 & Hp1 & _).
  assert (Hrest : s_next w1 = None /\ s_current w1 = s_current w /\ s_idle w1 = s_idle w) by (rewrite (aw_rest _ _ Haw); by repeat split).
  destruct Hrest as (Hnx1 & Hc1 & Hi1). apply wp_bind. eapply wp_get_thread; [done|].
  eapply wp_mono; [|by apply pick_next_spec]. intros b w' Hs. split; [by eapply scheduled_inv|]. by exists p, w1, r.
Qed.
