(* ===== verification/SchedOps.v ===== *)
(** * The operations of the scheduler

    Blocking, wait queues, semaphores, and the beginning and end of threads keep the
    invariant of the scheduler, and no wake-up of a semaphore is lost. *)

From stdpp Require Import prelude gmap.
From S2P Require Import Prelude Sched SchedLogic.

(** No thread sleeps in the queue of a semaphore that has units. *)
Definition no_lost (w : schedcoop) : Prop := forall q s t th,
  s_sems w !! q = Some s -> t ∈ s.2 -> s_threads w !! t = Some th -> uk_thread_is_runnable th = false -> s.1 <= 0.
Definition sys_inv (w : schedcoop) : Prop := sched_inv w /\ no_lost w.

(** The current thread runs, and is not the idle thread. *)
Record running (w : schedcoop) (th : uk_thread) : Prop := {
  ru_next : s_next w = None;
  ru_thread : s_threads w !! s_current w = Some th;
  ru_runnable : uk_thread_is_runnable th = true;
  ru_idle : s_current w <> s_idle w
}.
Lemma running_facts w th : sched_inv w -> running w th ->
  active w = s_current w /\ t_sched th = true /\ t_exited th = false /\ t_wakeup_time th = 0 /\ t_queueable th = false /\
  s_current w ∉ s_run_queue w ++ s_sleep_queue w.
Proof.
  intros Hw [Hn Ht Hr Hi]. destruct (si_thread _ Hw _ _ Ht) as [A1 A2 A3 A4 A5 A6 A7 A8 A9 A10 A11].
  assert (Ha : active w = s_current w) by (unfold active; by rewrite Hn).
  assert (He : t_exited th = false) by (unfold uk_thread_is_runnable in Hr; by destruct (t_exited th)).
  split_and!; try done; auto.
  - rewrite He in A6. by destruct (t_sched th).
  - rewrite elem_of_app, A1, A2, Ha, Hr. intros [(_ & ? & _)|(_ & ? & _)]; done.
Qed.

(** ** Switching *)

Lemma switch_spec w n :
  sys_inv w -> s_next w = Some n ->
  wp uk_sched_thread_switch (fun _ w' => sys_inv w' /\ w' = set_running n None w) w.
Proof.
  intros [Hw Hl] Hn. pose proof (si_active _ Hw) as Ha. unfold active in Ha. rewrite Hn in Ha. destruct Ha as [th Hth].
  apply wp_bind. eapply wp_deref; [done|]. apply wp_bind. eapply wp_get_thread; [done|]. apply wp_modify. split; [|done].
  split; [|done]. apply (sched_inv_same w); try done. unfold active. cbn. by rewrite Hn.
Qed.

Lemma no_lost_awakened w w' : awakened w w' -> sched_inv w -> no_lost w -> no_lost w'.
Proof.
  intros Ha Hw Hl q s t th' Hs Ht Hth' Hr. rewrite (aw_rest _ _ Ha) in Hs. cbn in Hs.
  destruct (si_waiter _ Hw q t) as [th Hth]; [by exists s|].
  destruct (awakened_lookup _ _ _ _ Ha Hth) as (th2 & Hth2 & Haw). simplify_eq. apply (Hl q s t th); try done.
  destruct (uk_thread_is_runnable th) eqn:Hr2; [|done]. rewrite (ta_runnable _ _ Haw Hr2) in Hr. congruence.
Qed.
Lemma no_lost_same w w' :
  no_lost w -> s_sems w' = s_sems w ->
  (forall t th', s_threads w' !! t = Some th' -> uk_thread_is_runnable th' = false ->
     exists th, s_threads w !! t = Some th /\ uk_thread_is_runnable th = false) -> no_lost w'.
Proof. intros Hl Hs Ht q s t th' Hq Hin Hth' Hr. rewrite Hs in Hq. destruct (Ht _ _ Hth' Hr) as (th & Hth & Hr'). by eapply Hl. Qed.

Lemma wake_inv t th w :
  sys_inv w -> s_threads w !! t = Some th -> wp (uk_thread_wake t) (fun _ w' => sys_inv w' /\ awakened w w') w.
Proof.
  intros [Hw Hl] Ht. eapply wp_mono; [|by apply (wake_awakens t th)]. intros [] w' (Hw' & Ha & _).
  split; [|done]. split; [done|]. by eapply no_lost_awakened.
Qed.

(** Scheduling never loses a wake-up either. *)
Lemma runnable_queueable b th : uk_thread_is_runnable (set_queueable b th) = uk_thread_is_runnable th.
Proof. done. Qed.
Lemma switching_no_lost prev next p n R w :
  no_lost w -> s_threads w !! prev = Some p -> s_threads w !! next = Some n -> no_lost (switching prev next p n R w).
Proof.
  intros Hl Hp Hn. apply (no_lost_same w); [done..|]. intros t th'. cbn. rewrite lookup_insert_Some, lookup_insert_Some.
  intros [[<- <-]|[_ [[<- <-]|[_ Hth]]]]; rewrite ?runnable_queueable; eauto.
Qed.
Lemma schedule_sys_spec w :
  sys_inv w -> s_next w = None ->
  wp schedcoop_schedule (fun b w' => sys_inv w' /\ exists p w1 r, s_threads w !! s_current w = Some p /\
    expired (s_clock w) 0 (s_sleep_queue w) (resumed w p) r w1 /\ scheduled w w1 r b w') w.
Proof.
  intros [Hw Hl] Hn. eapply wp_mono; [|by apply schedule_spec]. intros b w' (Hw' & p & w1 & r & Hp & Hex & Hs).
  split; [|by exists p, w1, r]. split; [done|].
  assert (Hl0 : no_lost (resumed w p)).
  { apply (no_lost_same w); [done..|]. intros t th'. cbn. rewrite lookup_insert_Some. intros [[<- <-]|[_ Hth]]; eauto. }
  assert (Hl1 : no_lost w1) by (eapply no_lost_awakened, Hl0; [apply Hex|by apply resumed_inv]).
  destruct Hs as [next n p' R|p'|n p']; [by apply switching_no_lost|done|by apply switching_no_lost].
Qed.

(** ** The current thread blocks *)

(** A change of the running thread, of its place in the sleep queue and of the wait
    queues. *)
Definition change (th' : uk_thread) (S : gmap positive (Z * list positive)) (w : schedcoop) : schedcoop :=
  set_sems S (set_sleep_queue
    (s_sleep_queue w ++ (if negb (uk_thread_is_runnable th') && (0 <? t_wakeup_time th') then [s_current w] else []))
    (set_threads (<[s_current w := th']> (s_threads w)) w)).
Record changes (w : schedcoop) (th' : uk_thread) (S : gmap positive (Z * list positive)) : Prop := {
  cg_exited : t_exited th' = false;
  cg_sched : t_sched th' = true;
  cg_queueable : t_queueable th' = false;
  cg_wakeup : uk_thread_is_runnable th' = true -> t_wakeup_time th' = 0;
  cg_wq q : t_wq th' = Some q <-> exists s, S !! q = Some s /\ s_current w ∈ s.2;
  cg_other q t : t <> s_current w -> (exists s, S !! q = Some s /\ t ∈ s.2) <-> waiting w q t;
  cg_nodup q s : S !! q = Some s -> NoDup s.2
}.
Lemma change_inv w th th' S :
  sched_inv w -> running w th -> changes w th' S -> sched_inv (change th' S w).
Proof.
  intros Hw Hru [C1 C2 C3 C4 C5 C6 C7]. destruct (running_facts _ _ Hw Hru) as (Ha & _ & _ & _ & _ & Hnin).
  destruct Hru as [Hn Ht Hr Hi]. destruct (si_thread _ Hw _ _ Ht) as [A1 A2 A3 A4 A5 A6 A7 A8 A9 A10 A11].
  pose proof (si_nodup _ Hw) as Hnd. rewrite elem_of_app in Hnin. apply NoDup_app in Hnd as (N1 & N2 & N3).
  eapply (sched_inv_only (s_current w)); [done| |apply lookup_insert_eq| | |by apply Hw|by apply C7].
  - split; try done; cbn.
    + intros t' Hne. by rewrite lookup_insert_ne.
    + intros t' Hne. rewrite elem_of_app. destruct (_ && _); rewrite ?list_elem_of_singleton, ?elem_of_nil; tauto.
  - split; cbn; try done.
    + rewrite A1, Ha, Hn. cbn. tauto.
    + rewrite elem_of_app. destruct (uk_thread_is_runnable th'), (Z.ltb_spec 0 (t_wakeup_time th')); cbn [negb andb];
        rewrite ?list_elem_of_singleton, ?elem_of_nil; split; try (intros [?|?]); try (intros (_ & ? & ?)); try tauto; try lia; try done.
    + by rewrite C1, C2.
    + rewrite A7, C1. unfold uk_thread_is_runnable in Hr. by destruct (t_exited th).
    + rewrite A8, C2. destruct (running_facts w th Hw) as (_ & ? & _); [by split|]. tauto.
    + by rewrite C2.
  - cbn. rewrite app_assoc. destruct (_ && _); [|rewrite app_nil_r; by apply NoDup_app].
    apply NoDup_app. split_and!; [by apply NoDup_app| |apply NoDup_singleton].
    intros t Ht1 ->%list_elem_of_singleton. apply elem_of_app in Ht1. tauto.
Qed.
Lemma change_no_lost w th' S :
  no_lost w ->
  (forall q s t, S !! q = Some s -> t ∈ s.2 -> t <> s_current w ->
     exists s0, s_sems w !! q = Some s0 /\ t ∈ s0.2 /\ s.1 <= s0.1) ->
  (forall q s, S !! q = Some s -> s_current w ∈ s.2 -> uk_thread_is_runnable th' = false -> s.1 <= 0) ->
  no_lost (change th' S w).
Proof.
  intros Hl Hoth Hcur q s t th Hs Ht Hth Hr. cbn in Hs, Hth. destruct (decide (t = s_current w)) as [->|Hne].
  - rewrite lookup_insert_eq in Hth. simplify_eq. by apply (Hcur q).
  - rewrite lookup_insert_ne in Hth by done. destruct (Hoth q s t Hs Ht Hne) as (s0 & Hs0 & Ht0 & Hle).
    pose proof (Hl q s0 t th Hs0 Ht0 Hth Hr). lia.
Qed.

Lemma runnable_false th : uk_thread_is_runnable (set_runnable false th) = false.
Proof. unfold uk_thread_is_runnable. by rewrite andb_false_r. Qed.
Lemma sched_blocked_spec w t th :
  s_current w = t -> s_threads w !! t = Some th -> t_sched th = true -> uk_thread_is_runnable th = false ->
  t ∉ s_run_queue w ++ s_sleep_queue w ->
  wp (uk_sched_thread_blocked t) (fun _ w' =>
    w' = set_sleep_queue (s_sleep_queue w ++ (if 0 <? t_wakeup_time th then [t] else [])) w) w.
Proof.
  intros Hc Ht Hs Hr Hnin. unfold uk_sched_thread_blocked, schedcoop_thread_blocked.
  apply wp_bind. eapply wp_get_thread; [done|]. apply wp_bind, wp_assert; [done|]. apply wp_bind, wp_assert; [by rewrite Hr|].
  apply wp_bind, wp_gets. rewrite bool_decide_eq_true_2 by done. cbn [negb]. apply wp_bind, wp_ret, wp_bind.
  eapply wp_get_thread; [done|]. destruct (0 <? t_wakeup_time th); [by apply wp_sleep_insert|].
  apply wp_ret. rewrite app_nil_r. by destruct w.
Qed.
(** Marking the current thread blocked and telling the scheduler, from a state [w0] that
    differs from [w] in the current thread and the wait queues. *)
Lemma waitq_block_spec w th0 S d :
  t_sched th0 = true -> t_exited th0 = false -> s_current w ∉ s_run_queue w ++ s_sleep_queue w ->
  wp (_uk_waitq_block_until (s_current w) d) (fun _ w' => w' = change (set_runnable false (set_wakeup d th0)) S w)
    (set_sems S (set_threads (<[s_current w := th0]> (s_threads w)) w)).
Proof.
  intros Hs He Hnin. unfold _uk_waitq_block_until. apply wp_bind. eapply wp_upd_thread; [apply lookup_insert_eq|].
  apply wp_bind. eapply wp_upd_thread; [apply lookup_insert_eq|]. cbn. rewrite !insert_insert_eq.
  eapply wp_mono; [|by apply (sched_blocked_spec _ _ (set_runnable false (set_wakeup d th0))); [done|apply lookup_insert_eq|..|apply runnable_false|]].
  intros [] w' ->. unfold change. by rewrite runnable_false.
Qed.
Lemma block_until_spec w th until :
  sys_inv w -> running w th -> t_wq th = None ->
  wp (uk_thread_block_until (s_current w) until) (fun _ w' => sys_inv w' /\
    w' = change (set_runnable false (set_wakeup until th)) (s_sems w) w) w.
Proof.
  intros [Hw Hl] Hru Hwq. destruct (running_facts _ _ Hw Hru) as (Ha & Hs & He & Hwt & Hq & Hnin). pose proof Hru as [Hn Ht Hr Hi].
  pose proof (si_thread _ Hw _ _ Ht) as Hok.
  apply (wp_mono _ (fun _ w' => w' = change (set_runnable false (set_wakeup until th)) (s_sems w) w)).
  { intros [] w' ->. split; [|done]. split.
    - eapply change_inv; [done..|]. split; try done; cbn; [by rewrite runnable_false|apply Hok|by apply Hw].
    - apply change_no_lost; [done|intros q s t Hsq Hin _; by exists s|]. intros q s Hsq Hin _. exfalso.
      assert (Hwait : waiting w q (s_current w)) by by exists s. apply (to_wq _ _ _ Hok) in Hwait. congruence. }
  unfold uk_thread_block_until. apply wp_bind. eapply wp_upd_thread; [done|]. apply wp_bind. eapply wp_get_thread; [apply lookup_insert_eq|].
  replace (uk_thread_is_runnable (set_wakeup until th)) with true by done. apply wp_bind. eapply wp_upd_thread; [apply lookup_insert_eq|].
  cbn. rewrite Hs, insert_insert_eq.
  eapply wp_mono; [|by apply (sched_blocked_spec _ _ (set_runnable false (set_wakeup until th))); [done|apply lookup_insert_eq|..|apply runnable_false|]].
  intros [] w' ->. unfold change. rewrite runnable_false. by destruct w.
Qed.

(** ** The current thread waits *)

Lemma available_spec q s w : s_sems w !! q = Some s -> wp (available q) (fun b w' => b = (0 <? s.1) /\ w' = w) w.
Proof. intros Hs. unfold available. apply wp_bind. eapply wp_get_sem; [done|]. by destruct s. Qed.

(** Moving the current thread into or out of the queue [q]. *)
Lemma changes_wq w th th' q s o l :
  sched_inv w -> running w th -> s_sems w !! q = Some s -> (forall q', q' <> q -> t_wq th <> Some q') ->
  t_wq th' = o -> o = Some q \/ o = None -> (s_current w ∈ l <-> o = Some q) -> NoDup l ->
  (forall t, t <> s_current w -> t ∈ l <-> t ∈ s.2) ->
  t_exited th' = false -> t_sched th' = true -> t_queueable th' = false ->
  (uk_thread_is_runnable th' = true -> t_wakeup_time th' = 0) ->
  changes w th' (<[q := (s.1, l)]> (s_sems w)).
Proof.
  intros Hw [Hn Ht Hr Hi] Hs Hwq Ho Hoq Hcl Hnd Hl He Hsc Hqu Hwt. pose proof (si_thread _ Hw _ _ Ht) as Hok.
  split; try done.
  - intros q'. rewrite Ho. destruct (decide (q' = q)) as [->|Hne].
    + rewrite lookup_insert_eq, <- Hcl. split; [intros; by eexists|]. by intros (? & [= <-] & ?).
    + rewrite lookup_insert_ne by done. split; [destruct Hoq; congruence|].
      intros Hx. apply (to_wq _ _ _ Hok) in Hx. by destruct (Hwq q').
  - intros q' t Hne. unfold waiting. destruct (decide (q' = q)) as [->|Hq]; [|by rewrite lookup_insert_ne].
    rewrite lookup_insert_eq, Hs. split.
    + intros (? & [= <-] & Hin). exists s. split; [done|]. by apply Hl.
    + intros (? & [= <-] & Hin). eexists. split; [done|]. by apply Hl.
  - intros q' s'. rewrite lookup_insert_Some. intros [[_ <-]|[_ ?]]; [done|by apply (si_waiters _ Hw q')].
Qed.
Lemma change_wq_no_lost w th' q s l :
  no_lost w -> s_sems w !! q = Some s -> (forall t, t <> s_current w -> t ∈ l -> t ∈ s.2) ->
  (uk_thread_is_runnable th' = true \/ s.1 <= 0 /\ forall q', q' <> q -> ~ waiting w q' (s_current w)) ->
  no_lost (change th' (<[q := (s.1, l)]> (s_sems w)) w).
Proof.
  intros Hl Hs Hin Hr. apply change_no_lost; [done|..].
  - intros q' s' t. rewrite lookup_insert_Some. intros [[<- <-]|[_ Hs']] Ht Hne; [|by exists s'].
    exists s. split_and!; [done|by apply Hin|done].
  - intros q' s'. rewrite lookup_insert_Some. intros [[<- <-]|[Hne Hs']] Ht Hf; destruct Hr as [?|[? Ho]]; try congruence; [done|].
    destruct (Ho q'); [done|by exists s'].
Qed.

Lemma enter_spec w th q s d :
  sys_inv w -> running w th -> t_wq th = None -> s_sems w !! q = Some s ->
  wp (waitq_enter q (available q) d) (fun b w' => sys_inv w' /\ b = (0 <? s.1) /\
    w' = if b then w else change (set_runnable false (set_wakeup (swrap 64 d) (set_wq (Some q) th)))
                            (<[q := (s.1, s.2 ++ [s_current w])]> (s_sems w)) w) w.
Proof.
  intros [Hw Hl] Hru Hwq Hs. destruct (running_facts _ _ Hw Hru) as (Ha & Hsc & He & Hwt & Hq & Hnin).
  pose proof (ru_thread _ _ Hru) as Ht. pose proof (si_thread _ Hw _ _ Ht) as Hok.
  assert (Hnw : forall q', ~ waiting w q' (s_current w)) by (intros q' Hx%(to_wq _ _ _ Hok); congruence).
  apply wp_bind, wp_gets, wp_bind. eapply wp_mono; [|by apply available_spec]. intros c w0 [-> ->].
  destruct (Z.ltb_spec 0 (s.1)); [by apply wp_ret|]. apply wp_bind.
  apply wp_bind. eapply wp_get_thread; [done|]. apply wp_bind, wp_assert; [by rewrite Hwq|]. apply wp_bind.
  eapply wp_upd_thread; [done|]. apply wp_bind. eapply wp_get_sem; [done|]. destruct s as [c l]. apply wp_modify, wp_bind.
  eapply wp_mono; [|by apply (waitq_block_spec w (set_wq (Some q) th))]. intros [] w' ->. apply wp_ret. split; [|done]. split.
  - eapply change_inv; [done..|].
    eapply (changes_wq w th _ q (c, l) (Some q)); [done|done|done|by rewrite Hwq|done|by left| | | |done|done|done|by rewrite runnable_false].
    + rewrite elem_of_app, list_elem_of_singleton. tauto.
    + apply NoDup_app. split_and!; [by apply (si_waiters _ Hw q (c, l))| |apply NoDup_singleton].
      intros t Ht1 ->%list_elem_of_singleton. apply (Hnw q). by exists (c, l).
    + intros t Hne. rewrite elem_of_app, list_elem_of_singleton. cbn. tauto.
  - apply (change_wq_no_lost w _ q (c, l)); [done..| |right; by auto].
    intros t Hne. rewrite elem_of_app, list_elem_of_singleton. cbn. tauto.
Qed.
(** A thread that has been woken leaves the queue when the condition holds or its time is
    over, and blocks again otherwise. *)
Lemma waitq_remove_spec w th q s :
  s_threads w !! s_current w = Some th -> t_wq th = Some q -> s_sems w !! q = Some s -> uk_thread_is_runnable th = true ->
  wp (_uk_waitq_remove (s_current w)) (fun _ w' =>
    w' = change (set_wq None th) (<[q := (s.1, tailq_remove (s_current w) s.2)]> (s_sems w)) w) w.
Proof.
  intros Ht Hwq Hs Hr. apply wp_bind. eapply wp_get_thread; [done|]. apply wp_bind. eapply wp_deref; [done|]. apply wp_bind.
  eapply wp_get_sem; [done|]. destruct s as [c l]. apply wp_bind, wp_modify. eapply wp_upd_thread; [done|].
  unfold change. replace (uk_thread_is_runnable (set_wq None th)) with true by done. cbn [negb andb]. rewrite app_nil_r. by destruct w.
Qed.
Lemma awoken_spec w th q s d :
  sys_inv w -> running w th -> t_wq th = Some q -> s_sems w !! q = Some s ->
  wp (waitq_awoken (available q) d) (fun b w' => sys_inv w' /\
    b = (0 <? s.1) || (negb (d =? 0) && (d <=? s_clock w)) /\
    w' = if b then change (set_wq None th) (<[q := (s.1, tailq_remove (s_current w) s.2)]> (s_sems w)) w
         else change (set_runnable false (set_wakeup (swrap 64 d) th)) (s_sems w) w) w.
Proof.
  intros [Hw Hl] Hru Hwq Hs. destruct (running_facts _ _ Hw Hru) as (Ha & Hsc & He & Hwt & Hq & Hnin).
  pose proof Hru as [Hn Ht Hr Hi]. pose proof (si_thread _ Hw _ _ Ht) as Hok.
  apply wp_bind, wp_gets, wp_bind. eapply wp_mono; [|by apply available_spec]. intros c w0 [-> ->].
  apply wp_bind, wp_gets. destruct (_ || _) eqn:Hb; apply wp_bind.
  - eapply wp_mono; [|by apply waitq_remove_spec]. intros [] w' ->. apply wp_ret. split; [|done]. split.
    + eapply change_inv; [done..|].
      eapply (changes_wq w th _ q s None); [done|done|done|congruence|done|by right| | | |done|done|done|done].
      * rewrite elem_of_unlink. split; [tauto|done].
      * by apply NoDup_unlink, (si_waiters _ Hw q).
      * intros t Hne. rewrite elem_of_unlink. tauto.
    + apply (change_wq_no_lost w _ q s); [done..| |by left]. intros t Hne. rewrite elem_of_unlink. tauto.
  - apply orb_false_iff in Hb as [Hb%Z.ltb_ge _].
    assert (Hq0 : forall q', waiting w q' (s_current w) -> q' = q) by (intros q' Hx%(to_wq _ _ _ Hok); congruence).
    replace w with (set_sems (s_sems w) (set_threads (<[s_current w := th]> (s_threads w)) w)) at 2
      by (rewrite insert_id by done; by destruct w).
    eapply wp_mono; [|by apply (waitq_block_spec w th)]. intros [] w' ->. apply wp_ret. split; [|done]. split.
    + eapply change_inv; [done..|]. split; try done; [by rewrite runnable_false|apply Hok|apply Hw].
    + apply change_no_lost; [done|intros q' s' t Hsq Hin _; by exists s'|]. intros q' s' Hs' Hin _.
      assert (q' = q) as -> by (apply Hq0; by exists s'). by simplify_eq.
Qed.

(** ** Semaphores *)

Lemma put_sem_inv w q c l c' :
  sched_inv w -> s_sems w !! q = Some (c, l) -> sched_inv (set_sems (<[q := (c', l)]> (s_sems w)) w).
Proof.
  intros Hw Hs. assert (Hwt : forall q' t, waiting (set_sems (<[q := (c', l)]> (s_sems w)) w) q' t <-> waiting w q' t).
  { intros q' t. unfold waiting. cbn. destruct (decide (q' = q)) as [->|Hne]; [|by rewrite lookup_insert_ne].
    rewrite lookup_insert_eq, Hs. split; intros (? & [= <-] & ?); by eexists. }
  destruct Hw as [H1 H2 H3 H4 H5 H6 H7 H8 H9 H10]. split; try done.
  - intros t th Ht. destruct (H5 _ _ Ht). split; try done. intros q'. by rewrite Hwt.
  - intros q' s. cbn. rewrite lookup_insert_Some. intros [[<- <-]|[_ ?]]; [by apply (H9 q (c, l))|by apply (H9 q')].
  - intros q' t Hx%Hwt. by apply (H10 q').
Qed.
Lemma put_sem_lower w q c l c' :
  sys_inv w -> s_sems w !! q = Some (c, l) -> c' <= c -> sys_inv (set_sems (<[q := (c', l)]> (s_sems w)) w).
Proof.
  intros [Hw Hl] Hs Hc. split; [by eapply put_sem_inv|]. intros q' s t th. cbn. rewrite lookup_insert_Some.
  intros [[<- <-]|[_ Hs']] Ht Hth Hr; [|by apply (Hl q' s t th)]. pose proof (Hl q (c, l) t th Hs Ht Hth Hr). cbn in *. lia.
Qed.

Lemma wake_all_spec q l w :
  sched_inv w -> (forall t, t ∈ l -> exists th, s_threads w !! t = Some th /\ t_wq th = Some q) ->
  wp (wake_all q l) (fun _ w' => sched_inv w' /\ awakened w w' /\
    forall t, t ∈ l -> exists th, s_threads w' !! t = Some th /\ uk_thread_is_runnable th = true) w.
Proof.
  revert w. induction l as [|t l IH]; intros w Hw Hl; cbn [wake_all].
  { apply wp_ret. split_and!; [done|apply awakened_refl|by intros ? ?%elem_of_nil]. }
  destruct (Hl t) as (th & Ht & Hq); [by left|]. pose proof (si_thread _ Hw _ _ Ht) as Hok.
  assert (Hsc : t_sched th = true) by (destruct (t_sched th) eqn:Hx; [done|]; rewrite (to_unwaited _ _ _ Hok Hx) in Hq; congruence).
  apply wp_bind. unfold _uk_waitq_wake. apply wp_bind. eapply wp_get_thread; [done|]. apply wp_bind, wp_assert; [by rewrite Hq, bool_decide_eq_true_2|].
  eapply wp_mono; [|by apply (wake_awakens t th)]. intros [] w1 (Hw1 & Ha1 & Hr1 & _). destruct (Hr1 Hsc) as (th1 & Hth1 & Hru1).
  eapply wp_mono; [|apply (IH w1 Hw1)].
  - intros [] w2 (Hw2 & Ha2 & Hr2). split_and!; [done|by eapply awakened_trans|]. intros t' [->|Ht']%elem_of_cons; [|by apply Hr2].
    destruct (awakened_lookup _ _ _ _ Ha2 Hth1) as (th2 & Hth2 & Haw). exists th2. split; [done|].
    by rewrite (ta_runnable _ _ Haw Hru1).
  - intros t' Ht'. destruct (Hl t') as (th' & Hth' & Hq'); [by right|].
    destruct (awakened_lookup _ _ _ _ Ha1 Hth') as (th2 & Hth2 & Haw). exists th2. split; [done|]. by rewrite (ta_wq _ _ Haw).
Qed.
Lemma up_spec w q c l :
  sys_inv w -> s_sems w !! q = Some (c, l) ->
  wp (uk_semaphore_up q) (fun _ w' => sys_inv w' /\ awakened (set_sems (<[q := (c + 1, l)]> (s_sems w)) w) w' /\
    forall t, t ∈ l -> exists th, s_threads w' !! t = Some th /\ uk_thread_is_runnable th = true) w.
Proof.
  intros [Hw Hl] Hs. unfold uk_semaphore_up. apply wp_bind. eapply wp_get_sem; [done|]. apply wp_bind, wp_modify. apply wp_bind.
  eapply wp_get_sem; [apply lookup_insert_eq|]. pose proof (put_sem_inv w q c l (c + 1) Hw Hs) as Hw0.
  eapply wp_mono; [|apply (wake_all_spec q l _ Hw0)].
  - intros [] w' (Hw' & Ha & Hr). split; [|by split]. split; [done|]. intros q' s t th' Hs' Ht Hth' Hnr.
    rewrite (aw_rest _ _ Ha) in Hs'. cbn in Hs'. rewrite lookup_insert_Some in Hs'. destruct Hs' as [[<- <-]|[Hne Hs']].
    + destruct (Hr t Ht) as (? & ? & ?). congruence.
    + destruct (si_waiter _ Hw q' t) as [th Hth]; [by exists s|]. destruct (awakened_lookup _ _ t th Ha Hth) as (th2 & Hth2 & Haw).
      simplify_eq. apply (Hl q' s t th); try done. destruct (uk_thread_is_runnable th) eqn:Hx; [|done].
      rewrite (ta_runnable _ _ Haw Hx) in Hnr. congruence.
  - intros t Ht. destruct (si_waiter _ Hw q t) as [th Hth]; [by exists (c, l)|]. exists th. split; [done|].
    apply (to_wq _ _ _ (si_thread _ Hw _ _ Hth)). by exists (c, l).
Qed.
Lemma down_try_spec w q c l :
  sys_inv w -> s_sems w !! q = Some (c, l) ->
  wp (uk_semaphore_down_try q) (fun r w' => sys_inv w' /\ r = (if 0 <? c then 1 else 0) /\
    w' = if 0 <? c then set_sems (<[q := (c - 1, l)]> (s_sems w)) w else w) w.
Proof.
  intros Hw Hs. apply wp_bind. eapply wp_get_sem; [done|]. cbn beta iota. destruct (0 <? c); [|apply wp_ret; by split].
  apply wp_bind, wp_modify, wp_ret. split; [|done]. eapply put_sem_lower; [done..|lia].
Qed.
Lemma take_spec w q c l k :
  sys_inv w -> s_sems w !! q = Some (c, l) ->
  wp (semaphore_take k q) (fun r w' => sys_inv w' /\
    (if 0 <? c then let n := match k with All => c | _ => 1 end in r = Some n /\ w' = set_sems (<[q := (c - n, l)]> (s_sems w)) w
     else w' = w /\ r = match k with Until d => if negb (d =? 0) && (d <=? s_clock w) then Some 0 else None | _ => None end)) w.
Proof.
  intros Hw Hs. apply wp_bind. eapply wp_get_sem; [done|]. cbn beta iota. apply wp_bind, wp_gets. destruct (Z.ltb_spec 0 c); [|destruct k; apply wp_ret; by split].
  destruct k; apply wp_bind, wp_modify, wp_ret; (split; [eapply put_sem_lower; [done..|lia]|split; [done|repeat f_equal; cbn; lia]]).
Qed.

(** ** Threads begin and end *)

Lemma start_inv idle main now : idle <> main -> sys_inv (uk_sched_start idle main now).
Proof.
  intros Hne. assert (Hlk : forall t th, s_threads (uk_sched_start idle main now) !! t = Some th ->
    (t = main \/ t = idle) /\ th = set_sched true new_thread).
  { intros t th. cbn. rewrite lookup_insert_Some, lookup_singleton_Some. intros [[<- <-]|[_ [<- <-]]]; auto. }
  split.
  - split; cbn; try done.
    + constructor.
    + by intros t ?%elem_of_nil.
    + intros t. rewrite !elem_of_cons, elem_of_nil. intros [->|[->|[]]]; [rewrite lookup_insert_ne by done; by rewrite lookup_singleton_eq|by rewrite lookup_insert_eq].
    + constructor.
    + intros t th Ht. destruct (Hlk t th Ht) as [Ht' ->]. split; cbn; try done.
      * rewrite elem_of_nil. unfold active. cbn. naive_solver.
      * rewrite elem_of_nil. naive_solver.
      * rewrite elem_of_nil. naive_solver.
      * rewrite !elem_of_cons, elem_of_nil. naive_solver.
      * intros q. unfold waiting. cbn. split; [done|]. intros (s & Hs & _). by rewrite lookup_empty in Hs.
    + by rewrite lookup_insert_eq.
    + by rewrite lookup_insert_eq.
    + rewrite lookup_insert_ne by done. by rewrite lookup_singleton_eq.
    + intros q t (s & Hs & _). cbn in Hs. by rewrite lookup_empty in Hs.
  - intros q s t th Hs. cbn in Hs. by rewrite lookup_empty in Hs.
Qed.

Definition created (t : positive) (w : schedcoop) : schedcoop :=
  set_lists (s_thread_list w ++ [t]) (s_exited_threads w)
    (set_run_queue (s_run_queue w ++ [t]) (set_threads (<[t := set_sched true new_thread]> (s_threads w)) w)).
Lemma fresh_nowhere w t : sched_inv w -> s_threads w !! t = None ->
  (t ∉ s_run_queue w) /\ (t ∉ s_sleep_queue w) /\ (t ∉ s_thread_list w) /\ (t ∉ s_exited_threads w) /\ (forall q, ~ waiting w q t) /\
  t <> s_current w /\ t <> active w /\ t <> s_idle w.
Proof.
  intros Hw Ht. assert (Hno : forall t', is_Some (s_threads w !! t') -> t <> t') by (intros t' [? ?] ->; congruence).
  destruct Hw as [H1 H2 H3 H4 H5 H6 H7 H8 H9 H10]. split_and!; try (by apply Hno); intros Hin.
  - apply (Hno t); [|done]. apply H2. rewrite elem_of_app. auto.
  - apply (Hno t); [|done]. apply H2. rewrite elem_of_app. auto.
  - apply (Hno t); [|done]. apply H3. rewrite elem_of_app. auto.
  - apply (Hno t); [|done]. apply H3. rewrite elem_of_app. auto.
  - intros Hx. apply (Hno t); [|done]. by apply (H10 Hin).
Qed.
Lemma created_inv w t : sys_inv w -> s_threads w !! t = None -> sys_inv (created t w).
Proof.
  intros [Hw Hl] Ht. destruct (fresh_nowhere w t Hw Ht) as (F1 & F2 & F3 & F4 & F5 & F6 & F7 & F8).
  pose proof (si_nodup _ Hw) as (N1 & N2 & N3)%NoDup_app. split.
  - eapply (sched_inv_only t); [done| |apply lookup_insert_eq| | |by apply Hw..].
    + split; try done; cbn; intros t' Hne; [by rewrite lookup_insert_ne|..]; rewrite elem_of_app, list_elem_of_singleton; tauto.
    + split; cbn; try done.
      * rewrite elem_of_app, list_elem_of_singleton. split; [intros _; by split_and!|by auto].
      * split; [done|]. by intros (_ & [=] & _).
      * rewrite elem_of_app, list_elem_of_singleton. split; by auto.
      * intros q. split; [done|]. intros Hx. by apply F5 in Hx.
    + cbn. apply NoDup_app. split_and!; [apply NoDup_app; split_and!; [done| |apply NoDup_singleton]| |done].
      * by intros x Hx ->%list_elem_of_singleton.
      * intros x. rewrite elem_of_app, list_elem_of_singleton. intros [?| ->]; [by apply N2|done].
  - intros q s t' th Hs Hin. cbn. rewrite lookup_insert_Some. intros [[<- <-]|[_ Hth]]; [done|by apply (Hl q s t')].
Qed.
Lemma create_spec w t :
  sys_inv w -> s_threads w !! t = None ->
  wp (uk_sched_thread_create (Some t)) (fun r w' => sys_inv w' /\ r = Some t /\ w' = created t w) w.
Proof.
  intros Hw Ht. destruct (fresh_nowhere w t (proj1 Hw) Ht) as (F1 & F2 & _).
  apply wp_bind, wp_modify, wp_bind. unfold uk_sched_thread_add, schedcoop_thread_add. apply wp_bind.
  eapply wp_get_thread; [apply lookup_insert_eq|]. apply wp_bind, wp_assert; [done|]. apply wp_bind, wp_bind.
  eapply wp_get_thread; [apply lookup_insert_eq|]. apply wp_bind, wp_assert; [done|]. apply wp_bind, wp_run_insert; [rewrite elem_of_app; by intros [?|?]|].
  apply wp_ret. change (0 <? 0) with false. cbn iota. apply wp_bind. eapply wp_upd_thread; [apply lookup_insert_eq|].
  apply wp_bind, wp_modify, wp_ret. change (0 <? 0) with false. apply wp_ret. cbn. rewrite insert_insert_eq.
  split; [by apply (created_inv w t)|done].
Qed.

(** The wait queues without the thread [t]. *)
Definition left_wq (t : positive) (th : uk_thread) (S : gmap positive (Z * list positive)) : gmap positive (Z * list positive) :=
  match t_wq th with
  | Some q => match S !! q with Some s => <[q := (s.1, tailq_remove t s.2)]> S | None => S end
  | None => S
  end.
Lemma left_wq_lookup w t th q : sched_inv w -> s_threads w !! t = Some th ->
  left_wq t th (s_sems w) !! q = (fun s => (s.1, tailq_remove t s.2)) <$> s_sems w !! q.
Proof.
  intros Hw Ht. pose proof (to_wq _ _ _ (si_thread _ Hw _ _ Ht)) as Hwq.
  assert (Hout : t_wq th <> Some q -> (fun s => (s.1, tailq_remove t s.2)) <$> s_sems w !! q = s_sems w !! q).
  { intros Hne. destruct (s_sems w !! q) as [[c l]|] eqn:Hs; [|done]. change (Some (c, tailq_remove t l) = Some (c, l)). rewrite unlink_not; [done|].
    intros Hin. apply Hne, Hwq. by exists (c, l). }
  unfold left_wq. destruct (t_wq th) as [q'|] eqn:Hq; [|by rewrite Hout].
  destruct (proj1 (Hwq q') eq_refl) as (s' & Hs' & _). rewrite Hs'. destruct (decide (q = q')) as [->|Hne].
  - by rewrite lookup_insert_eq, Hs'.
  - rewrite lookup_insert_ne by done. rewrite Hout; [done|congruence].
Qed.
Lemma left_wq_facts w t th q s : sched_inv w -> s_threads w !! t = Some th -> left_wq t th (s_sems w) !! q = Some s ->
  exists s0, s_sems w !! q = Some s0 /\ s.1 = s0.1 /\ (forall x, x ∈ s.2 <-> x <> t /\ x ∈ s0.2) /\ NoDup s.2.
Proof.
  intros Hw Ht. rewrite (left_wq_lookup w t th q Hw Ht). intros (s0 & Hs0 & ->)%fmap_Some. exists s0. split_and!; [done|done| |].
  - intros x. apply elem_of_unlink.
  - by apply NoDup_unlink, (si_waiters _ Hw q).
Qed.

(** The state in which [t] is out of the scheduler. *)
Definition ended (t : positive) (th : uk_thread) (w : schedcoop) : schedcoop :=
  set_lists (tailq_remove t (s_thread_list w)) (s_exited_threads w) (set_run_queue (tailq_remove t (s_run_queue w))
    (set_sems (left_wq t th (s_sems w)) (set_threads (<[t := set_exited (set_sched false (set_wq None th))]> (s_threads w)) w))).
Lemma ended_only w t th : sched_inv w -> s_threads w !! t = Some th -> only t w (ended t th w).
Proof.
  intros Hw Ht. split; try done; cbn.
  - intros t' Hne. by rewrite lookup_insert_ne.
  - intros t' Hne. rewrite elem_of_unlink. tauto.
  - intros t' Hne. rewrite elem_of_unlink. tauto.
  - intros q t' Hne. unfold waiting. cbn. rewrite (left_wq_lookup w t th q Hw Ht). split.
    + intros (s & (s0 & Hs0 & ->)%fmap_Some & Hin). exists s0. split; [done|]. cbn in Hin. apply elem_of_unlink in Hin. tauto.
    + intros (s & Hs & Hin). rewrite Hs. eexists. split; [done|]. by apply elem_of_unlink.
Qed.
Lemma ended_waits w t th q : sched_inv w -> s_threads w !! t = Some th -> ~ waiting (ended t th w) q t.
Proof. intros Hw Ht (s & (s0 & _ & _ & Hin & _)%left_wq_facts & Hx); [|done..]. apply Hin in Hx. tauto. Qed.
Lemma ended_nodup w t : sched_inv w -> NoDup (tailq_remove t (s_run_queue w) ++ s_sleep_queue w).
Proof.
  intros Hw. pose proof (si_nodup _ Hw) as (N1 & N2 & N3)%NoDup_app. apply NoDup_app. split_and!; [by apply NoDup_unlink| |done].
  intros x [_ Hx]%elem_of_unlink. by apply N2.
Qed.
Lemma ended_no_lost w w' t th :
  sched_inv w -> no_lost w -> s_threads w !! t = Some th -> s_sems w' = left_wq t th (s_sems w) ->
  (forall t' th', t' <> t -> s_threads w' !! t' = Some th' -> s_threads w !! t' = Some th') -> no_lost w'.
Proof.
  intros Hw Hl Ht Hs Hth q s t' th' Hq Hin Ht' Hr. rewrite Hs in Hq.
  destruct (left_wq_facts w t th q s Hw Ht Hq) as (s0 & Hs0 & -> & Hx & _). apply Hx in Hin as [Hne Hin].
  by apply (Hl q s0 t' th' Hs0 Hin); [apply Hth|].
Qed.
(** A thread that ends itself waits for the garbage collection, one that is ended by
    another is freed. *)
Definition exit_self (t : positive) (th : uk_thread) (w : schedcoop) : schedcoop :=
  set_lists (tailq_remove t (s_thread_list w)) (s_exited_threads w ++ [t]) (ended t th w).
Definition removed (t : positive) (th : uk_thread) (w : schedcoop) : schedcoop :=
  set_threads (delete t (s_threads (ended t th w))) (ended t th w).
Lemma exit_self_inv w t th :
  sys_inv w -> s_threads w !! t = Some th -> t_sched th = true -> t = active w -> t <> s_idle w -> t ∉ s_sleep_queue w ->
  sys_inv (exit_self t th w).
Proof.
  intros [Hw Hl] Ht Hsc Hact Hi Hsl. pose proof (si_thread _ Hw _ _ Ht) as [A1 A2 A3 A4 A5 A6 A7 A8 A9 A10 A11].
  destruct (ended_only w t th Hw Ht) as [O1 O2 O3 O4 O5 O6 O7 O8 O9].
  assert (Hnx : t ∉ s_exited_threads w) by (rewrite A7, A6, Hsc; done). split.
  - eapply (sched_inv_only t); [done| |apply lookup_insert_eq| |exact (ended_nodup w t Hw)| |].
    + split; try done. intros t' Hne. cbn. rewrite elem_of_app, list_elem_of_singleton. tauto.
    + split; cbn; try done.
      * rewrite elem_of_unlink. split; [tauto|by intros [? _]].
      * split; [done|by intros [? _]].
      * rewrite elem_of_app, list_elem_of_singleton. split; by auto.
      * rewrite elem_of_unlink. split; [tauto|done].
      * intros q. split; [done|]. intros Hx. by apply (ended_waits w t th q) in Hx.
    + cbn. apply NoDup_app. split_and!; [by apply Hw| |apply NoDup_singleton]. by intros x Hx ->%list_elem_of_singleton.
    + intros q s (_ & _ & _ & _ & Hn)%left_wq_facts; done.
  - eapply (ended_no_lost w _ t th); [done..|]. intros t' th' Hne. cbn. by rewrite lookup_insert_ne.
Qed.
Lemma removed_inv w t th :
  sys_inv w -> s_threads w !! t = Some th -> t_sched th = true -> t <> active w -> t <> s_current w -> t <> s_idle w ->
  t ∉ s_sleep_queue w -> sys_inv (removed t th w).
Proof.
  intros [Hw Hl] Ht Hsc Hact Hc Hi Hsl. pose proof (si_thread _ Hw _ _ Ht) as [A1 A2 A3 A4 A5 A6 A7 A8 A9 A10 A11].
  destruct (ended_only w t th Hw Ht) as [O1 O2 O3 O4 O5 O6 O7 O8 O9]. split.
  - eapply (sched_inv_delete t); [done| |apply lookup_delete_eq|..|exact (ended_nodup w t Hw)|by apply Hw|]; try done.
    + split; try done. intros t' Hne. cbn. rewrite lookup_delete_ne by done. by apply O1.
    + cbn. rewrite elem_of_app, elem_of_unlink. tauto.
    + cbn. rewrite elem_of_app, elem_of_unlink, A7, A6, Hsc. intros [[? _]|?]; done.
    + intros q. apply (ended_waits w t th q Hw Ht).
    + intros q s (_ & _ & _ & _ & Hn)%left_wq_facts; done.
  - eapply (ended_no_lost w _ t th); [done..|]. intros t' th' Hne. cbn. rewrite lookup_delete_ne by done. by rewrite lookup_insert_ne.
Qed.
Lemma cancel_spec w t th (Q : unit -> schedcoop -> Prop) :
  sched_inv w -> s_threads w !! t = Some th ->
  Q tt (set_sems (left_wq t th (s_sems w)) (set_threads (<[t := set_wq None th]> (s_threads w)) w)) ->
  wp (if bool_decide (is_Some (t_wq th)) then uk_waitq_cancel t else mret tt) Q w.
Proof.
  intros Hw Ht HQ. unfold left_wq in HQ. destruct (t_wq th) as [q|] eqn:Hq.
  - pose proof (proj1 (to_wq _ _ _ (si_thread _ Hw _ _ Ht) q) Hq) as (s & Hs & _). rewrite Hs in HQ.
    rewrite bool_decide_eq_true_2 by done. unfold uk_waitq_cancel. apply wp_bind. eapply wp_get_thread; [done|]. apply wp_bind.
    eapply wp_deref; [done|]. apply wp_bind. eapply wp_get_sem; [done|]. destruct s as [c l]. apply wp_bind, wp_modify.
    by eapply wp_upd_thread.
  - rewrite bool_decide_eq_false_2 by (by intros [? ?]). apply wp_ret.
    replace (set_wq None th) with th in HQ by (destruct th; cbn in Hq; by rewrite Hq). rewrite insert_id in HQ by done. by destruct w.
Qed.
Lemma run_drop (b : bool) w t (Q : unit -> schedcoop -> Prop) :
  (t ∈ s_run_queue w <-> b = true) -> Q tt (set_run_queue (tailq_remove t (s_run_queue w)) w) ->
  wp (if b then run_remove t else mret tt) Q w.
Proof.
  intros Hb HQ. destruct b; [by apply wp_run_remove; [apply Hb|]|]. apply wp_ret.
  rewrite unlink_not in HQ by (by intros ?%Hb). by destruct w.
Qed.
Lemma terminate_computes w t th :
  sys_inv w -> s_next w = None -> s_threads w !! t = Some th -> t_sched th = true -> t <> s_idle w ->
  wp (uk_sched_thread_terminate t) (fun _ w' =>
    w' = if bool_decide (t = s_current w) then exit_self t th w else removed t th w) w.
Proof.
  intros Hw Hn Ht Hsc Hi. pose proof (si_thread _ (proj1 Hw) _ _ Ht) as [A1 A2 A3 A4 A5 A6 A7 A8 A9 A10 A11].
  assert (Hact : active w = s_current w) by (unfold active; by rewrite Hn).
  unfold uk_sched_thread_terminate. apply wp_bind. eapply wp_get_thread; [done|]. apply wp_bind, wp_assert; [done|].
  apply wp_bind, cancel_spec; [apply Hw|done|]. apply wp_bind. unfold uk_sched_thread_remove. apply wp_bind.
  eapply wp_get_thread; [apply lookup_insert_eq|]. apply wp_bind, wp_assert; [done|]. apply wp_bind.
  unfold schedcoop_thread_remove. apply wp_bind, wp_gets, wp_bind. eapply wp_get_thread; [apply lookup_insert_eq|].
  apply run_drop.
  { cbn. rewrite A1, andb_true_iff, negb_true_iff, bool_decide_eq_false, Hact. unfold ready. rewrite Hsc.
    change (uk_thread_is_runnable (set_wq None th)) with (uk_thread_is_runnable th). cbn. tauto. }
  apply wp_bind. eapply wp_upd_thread; [apply lookup_insert_eq|]. apply wp_bind, wp_gets, wp_bind, wp_assert; [by apply bool_decide_eq_true, A8|].
  apply wp_modify, wp_bind. eapply wp_upd_thread; [apply lookup_insert_eq|]. apply wp_bind, wp_gets. cbn. rewrite !insert_insert_eq.
  case_bool_decide; [by apply wp_modify|]. apply wp_bind, wp_gets, wp_bind, wp_assert; [by rewrite bool_decide_eq_false_2|].
  apply wp_bind. eapply wp_get_thread; [apply lookup_insert_eq|]. apply wp_bind, wp_assert; [done|]. apply wp_bind.
  eapply wp_upd_thread; [apply lookup_insert_eq|]. apply wp_modify. unfold removed. cbn. by rewrite insert_insert_eq.
Qed.
Lemma terminate_spec w t th :
  sys_inv w -> s_next w = None -> s_threads w !! t = Some th -> t_sched th = true -> t <> s_idle w -> t ∉ s_sleep_queue w ->
  wp (uk_sched_thread_terminate t) (fun _ w' => sys_inv w' /\
    w' = if bool_decide (t = s_current w) then exit_self t th w else removed t th w) w.
Proof.
  intros Hw Hn Ht Hsc Hi Hsl. eapply wp_mono; [|by apply (terminate_computes w t th)]. intros [] w' ->. split; [|done].
  assert (Hact : active w = s_current w) by (unfold active; by rewrite Hn).
  case_bool_decide; [apply exit_self_inv|apply removed_inv]; done || congruence.
Qed.

(** ** Garbage collection *)

Definition collected (t : positive) (w : schedcoop) : schedcoop :=
  set_threads (delete t (s_threads w)) (set_lists (s_thread_list w) (tailq_remove t (s_exited_threads w)) w).
Lemma exited_facts w t : sched_inv w -> t ∈ s_exited_threads w ->
  exists th, s_threads w !! t = Some th /\ t_exited th = true /\ t_sched th = false.
Proof.
  intros Hw Hin. destruct (si_listed _ Hw t) as [th Hth]; [rewrite elem_of_app; by auto|]. exists th.
  destruct (si_thread _ Hw _ _ Hth) as [A1 A2 A3 A4 A5 A6 A7 A8 A9 A10 A11].
  assert (He : t_exited th = true) by by apply A7. rewrite He in A6. by destruct (t_sched th).
Qed.
Lemma collected_inv w t :
  sys_inv w -> t ∈ s_exited_threads w -> t <> active w -> t <> s_current w -> sys_inv (collected t w).
Proof.
  intros [Hw Hl] Hin Ha Hc. destruct (exited_facts w t Hw Hin) as (th & Hth & He & Hs).
  destruct (si_thread _ Hw _ _ Hth) as [A1 A2 A3 A4 A5 A6 A7 A8 A9 A10 A11]. unfold ready in *. rewrite Hs in *. split.
  - eapply (sched_inv_delete t); [done| |apply lookup_delete_eq|..|done|done| |apply Hw|apply NoDup_unlink, Hw|apply Hw].
    + split; try done; cbn; intros t' Hne; [by rewrite lookup_delete_ne|rewrite elem_of_unlink; tauto].
    + cbn. rewrite elem_of_app, A1, A2. intros [[? _]|[? _]]; done.
    + cbn. rewrite elem_of_app, elem_of_unlink, A8. intros [?|[? _]]; done.
    + intros q Hx%A10. rewrite A11 in Hx; done.
    + intros Hi. destruct (A9 Hi). done.
  - intros q s t' th' Hq Ht' Hth'. cbn in Hth'. rewrite lookup_delete_Some in Hth'. by apply (Hl q s t' th'); [..|apply Hth'].
Qed.
Lemma gc_loop_spec l w num :
  sys_inv w -> s_exited_threads w = l -> s_next w = None -> s_current w ∉ l ->
  wp (gc_loop l num) (fun n w' => sys_inv w' /\ n = num + Z.of_nat (length l) /\
    (forall t, s_threads w' !! t = if bool_decide (t ∈ l) then None else s_threads w !! t) /\
    w' = set_threads (s_threads w') (set_lists (s_thread_list w) [] w)) w.
Proof.
  revert w num. induction l as [|t l IH]; intros w num Hw Hex Hn Hc; cbn [gc_loop].
  { apply wp_ret. split; [done|]. split; [cbn; lia|]. split; [done|]. rewrite <- Hex. by destruct w. }
  rewrite not_elem_of_cons in Hc. destruct Hc as [Hc1 Hc2]. pose proof (si_unique _ (proj1 Hw)) as Hnd. rewrite Hex in Hnd. apply NoDup_cons in Hnd as [Hnt Hnd].
  assert (Hin : t ∈ s_exited_threads w) by (rewrite Hex; by left). destruct (exited_facts w t (proj1 Hw) Hin) as (th & Hth & He & Hs).
  assert (Hun : tailq_remove t (t :: l) = l) by (unfold tailq_remove; rewrite filter_cons_False by (intros Hx; by apply Hx); by apply unlink_not).
  assert (Hw1 : sys_inv (collected t w)) by (apply collected_inv; try done; unfold active; rewrite ?Hn; cbn; congruence).
  apply wp_bind, wp_gets, wp_bind, wp_assert; [by rewrite bool_decide_eq_false_2|]. apply wp_bind. eapply wp_get_thread; [done|].
  apply wp_bind, wp_assert; [done|]. apply wp_bind, wp_modify, wp_bind. apply wp_bind, wp_gets, wp_bind, wp_assert; [by rewrite bool_decide_eq_false_2|].
  apply wp_bind. eapply wp_get_thread; [done|]. apply wp_bind, wp_assert; [by rewrite Hs|]. apply wp_bind. eapply wp_upd_thread; [done|]. apply wp_modify.
  match goal with |- wp _ _ ?x => replace x with (collected t w) by (unfold collected; cbn; by rewrite delete_insert_eq) end.
  eapply wp_mono; [|apply (IH _ (num + 1) Hw1); [cbn [s_exited_threads collected set_threads set_lists]; by rewrite Hex|done|done]].
  intros n w' (Hw' & -> & Hth' & Hrest). split; [done|]. split; [cbn [length]; lia|]. split; [|done].
  intros t'. rewrite Hth'. cbn. rewrite (bool_decide_ext (t' ∈ t :: l) (t' = t \/ t' ∈ l)) by apply elem_of_cons.
  repeat case_bool_decide; try done; try tauto.
  - destruct H0 as [->|]; [by rewrite lookup_delete_eq|done].
  - rewrite lookup_delete_ne; [done|]. intros ->. tauto.
Qed.
