(* ===== verification/SchedProps.v ===== *)
(** * Properties of the scheduler

    The operations of the scheduler in any order the threads and the interrupts may call
    them in: the queues stay consistent, nothing asserts, no wake-up is lost, the idle
    thread does not oversleep, and every thread that can run gets its turn. *)

From stdpp Require Import prelude gmap.
From S2P Require Import Prelude Sched SchedLogic SchedOps.

(** ** The transition system *)

Inductive sched_op : Type :=
  | Tick (dt : Z)
  | Schedule
  | Switch
  | Block (until : Z)
  | Wake (t : positive)
  | SemInit (q : positive) (count : Z)
  | Up (q : positive)
  | Try (q : positive)
  | Enter (q : positive) (deadline : Z)
  | Awoken (q : positive) (deadline : Z)
  | Take (k : down_kind) (q : positive)
  | Create (t : option positive)
  | Terminate (t : positive)
  | Collect.
#[local] Instance down_kind_eq_dec : EqDecision down_kind.
Proof. solve_decision. Defined.
#[local] Instance sched_op_eq_dec : EqDecision sched_op.
Proof. solve_decision. Defined.

Definition forget {A} (m : M schedcoop A) : M schedcoop unit := _ ← m; mret tt.
Definition exec_op (o : sched_op) : M schedcoop unit :=
  match o with
  | Tick dt => modify (fun w => set_clock (s_clock w + dt) w)
  | Schedule => forget schedcoop_schedule
  | Switch => uk_sched_thread_switch
  | Block until => cur ← uk_thread_current; uk_thread_block_until cur until
  | Wake t => uk_thread_wake t
  | SemInit q count => uk_semaphore_init q count
  | Up q => uk_semaphore_up q
  | Try q => forget (uk_semaphore_down_try q)
  | Enter q d => forget (waitq_enter q (available q) d)
  | Awoken q d => forget (waitq_awoken (available q) d)
  | Take k q => forget (semaphore_take k q)
  | Create t => forget (uk_sched_thread_create t)
  | Terminate t => uk_sched_thread_terminate t
  | Collect => forget uk_sched_thread_gc
  end.

(** When an operation may be called.  Only the thread that runs blocks or waits, and not
    the idle thread; it leaves a wait queue before it enters another one.  A chosen thread
    is switched to before the next choice.  A semaphore is not initialised again.  New
    threads are in fresh memory.  A thread that is ended is not asleep.  The collection is
    not run by a thread that has ended. *)
Definition can (w : schedcoop) (o : sched_op) : Prop :=
  match o with
  | Tick dt => 0 <= dt
  | Schedule => s_next w = None
  | Switch => is_Some (s_next w)
  | Block _ => exists th, running w th /\ t_wq th = None
  | Wake t => is_Some (s_threads w !! t)
  | SemInit q count => s_sems w !! q = None /\ 0 <= count
  | Up q | Try q | Take _ q => is_Some (s_sems w !! q)
  | Enter q _ => is_Some (s_sems w !! q) /\ exists th, running w th /\ t_wq th = None
  | Awoken q _ => exists th, running w th /\ t_wq th = Some q
  | Create t => match t with Some t => s_threads w !! t = None | None => True end
  | Terminate t => s_next w = None /\ t <> s_idle w /\ (t ∉ s_sleep_queue w) /\
                   exists th, s_threads w !! t = Some th /\ t_sched th = true
  | Collect => s_next w = None /\ s_current w ∉ s_exited_threads w
  end.

Inductive runs : schedcoop -> list sched_op -> schedcoop -> Prop :=
  | runs_nil w : runs w [] w
  | runs_cons w o w1 os w' : can w o -> exec_op o w = Done (tt, w1) -> runs w1 os w' -> runs w (o :: os) w'.

(** ** The invariant *)

(** The idle thread, when it has the processor, sleeps no longer than any sleeping thread. *)
Definition idle_ok (w : schedcoop) : Prop := active w = s_idle w ->
  forall t th, t ∈ s_sleep_queue w -> s_threads w !! t = Some th -> 0 < s_idle_return_time w <= t_wakeup_time th.
Definition counts_ok (w : schedcoop) : Prop := forall q s, s_sems w !! q = Some s -> 0 <= s.1.
Definition inv (w : schedcoop) : Prop := sys_inv w /\ idle_ok w /\ counts_ok w.

(** The run queue moves on: a thread in it keeps its place or comes forward. *)
Definition advances (o : sched_op) (w w' : schedcoop) : Prop := forall t k,
  o <> Terminate t -> s_run_queue w !! k = Some t ->
  match o, k with
  | Schedule, O => active w' = t
  | Schedule, S k => s_run_queue w' !! k = Some t
  | _, _ => exists k', (k' <= k)%nat /\ s_run_queue w' !! k' = Some t
  end.

Lemma idle_ok_mono w w' :
  idle_ok w -> active w' = active w -> s_idle w' = s_idle w -> s_idle_return_time w' = s_idle_return_time w ->
  (forall t th', t ∈ s_sleep_queue w' -> s_threads w' !! t = Some th' -> t ∈ s_sleep_queue w /\
     exists th, s_threads w !! t = Some th /\ t_wakeup_time th = t_wakeup_time th') -> idle_ok w'.
Proof.
  intros Hi Ha Hid Hr Hs Hact t th' Ht Hth'. rewrite Ha, Hid in Hact. destruct (Hs t th' Ht Hth') as (Hin & th & Hth & <-).
  rewrite Hr. by eapply Hi.
Qed.
Lemma idle_ok_running w th w' : running w th -> active w' = active w -> s_idle w' = s_idle w -> idle_ok w'.
Proof. intros [Hn _ _ Hi] Ha Hid Hact. rewrite Ha, Hid in Hact. unfold active in Hact. rewrite Hn in Hact. done. Qed.
Lemma idle_ok_awakened w w' : sched_inv w' -> sched_inv w -> awakened w w' -> idle_ok w -> idle_ok w'.
Proof.
  intros Hw' Hw Ha Hi. apply (idle_ok_mono w); [done|by rewrite (aw_rest _ _ Ha)..|].
  intros t th' Ht Hth'. pose proof (aw_sleep _ _ Ha t Ht) as Hin. split; [done|].
  destruct (sleeper w t Hw Hin) as (th & Hth & _). exists th. split; [done|].
  pose proof (awakened_sleeper w w' t th Hw' Ha Ht Hth). congruence.
Qed.

Lemma advances_same o w w' : o <> Schedule -> (exists l, s_run_queue w' = s_run_queue w ++ l) -> advances o w w'.
Proof.
  intros Ho [l Hl] t k _ Hk. assert (Hx : exists k', (k' <= k)%nat /\ s_run_queue w' !! k' = Some t).
  { exists k. split; [done|]. rewrite Hl. by apply lookup_app_l_Some. }
  by destruct o, k.
Qed.
Lemma advances_unlink t0 w w' : s_run_queue w' = tailq_remove t0 (s_run_queue w) -> advances (Terminate t0) w w'.
Proof.
  intros Hr t k Ho Hk. rewrite Hr. assert (Hne : t <> t0) by congruence. clear Ho Hr.
  generalize dependent k. induction (s_run_queue w) as [|x l IH]; intros k Hk; [done|].
  unfold tailq_remove in *. destruct (decide (x = t0)) as [->|Hx].
  - rewrite filter_cons_False by (intros Hx; by apply Hx). destruct k as [|k]; [cbn in Hk; congruence|].
    destruct (IH k Hk) as (k' & ? & ?). exists k'. split; [lia|done].
  - rewrite filter_cons_True by done. destruct k as [|k]; [exists O; split; [lia|done]|].
    destruct (IH k Hk) as (k' & ? & ?). exists (S k'). split; [lia|done].
Qed.

(** ** Every operation keeps the invariant *)

Lemma scheduled_step w p w1 r b w' :
  inv w -> s_next w = None -> s_threads w !! s_current w = Some p -> sys_inv w' ->
  expired (s_clock w) 0 (s_sleep_queue w) (resumed w p) r w1 -> scheduled w w1 r b w' -> inv w' /\ advances Schedule w w'.
Proof.
  intros [[Hw Hl] [Hi Hc]] Hn Hp Hw' Hex Hs. pose proof (ex_awakened _ _ _ _ _ _ Hex) as Ha.
  pose proof (resumed_inv w p Hw Hp) as Hw0. pose proof (ex_inv _ _ _ _ _ _ Hex) as Hw1.
  assert (Hrest := aw_rest _ _ Ha). destruct (aw_run _ _ Ha) as [l Hrun]. cbn in Hrun.
  assert (Hsems : s_sems w1 = s_sems w) by by rewrite Hrest.
  assert (Hi1 : idle_ok w1).
  { apply (idle_ok_awakened (resumed w p)); [done..|]. apply (idle_ok_mono w); [done..|]. intros t th' Ht Hth'. split; [done|].
    cbn in Hth'. rewrite lookup_insert_Some in Hth'. destruct Hth' as [[<- <-]|[_ Hth']]; by eexists. }
  destruct Hs as [next n p' R HR Hne Hnx Hp'|p' HR Hp' Hr|n p' HR Hne Hnx Hp' Hr].
  - split; [split; [done|]; split|].
    + intros Hact. exfalso. cbn in Hact. assert (Hin : next ∈ s_run_queue w1) by (rewrite HR; by left).
      apply (to_run _ _ _ (si_thread _ Hw1 _ _ Hnx)) in Hin as (_ & _ & Hx). apply Hx. by rewrite Hact, Hrest.
    + intros q s. cbn. rewrite Hsems. apply Hc.
    + intros t k _ Hk. rewrite HR in Hrun. assert (Hk' : (next :: R) !! k = Some t) by (rewrite Hrun; by apply lookup_app_l_Some).
      destruct k as [|k]; [by injection Hk'|]. cbn. by apply lookup_app_l_Some.
  - split; [split; [done|]; split; [done|]|].
    + intros q s. rewrite Hsems. apply Hc.
    + intros t k _ Hk. rewrite HR in Hrun. destruct (s_run_queue w); done.
  - split; [split; [done|]; split|].
    + intros _ t th. cbn. rewrite lookup_insert_Some, lookup_insert_Some. intros Ht Hth.
      destruct (sleeper w1 t Hw1 Ht) as (th1 & Hth1 & _).
      pose proof (ea_lower _ _ _ _ (ex_min _ _ _ _ _ _ Hex) t th1 (aw_sleep _ _ Ha t Ht) Ht Hth1) as Hb.
      destruct Hth as [[<- <-]|[_ [[<- <-]|[_ Hth]]]]; simplify_eq; done.
    + intros q s. cbn. rewrite Hsems. apply Hc.
    + intros t k _ Hk. rewrite HR in Hrun. destruct (s_run_queue w); done.
Qed.
Lemma wp_forget {A} (m : M schedcoop A) (Q : schedcoop -> Prop) w : wp m (fun _ => Q) w -> wp (forget m) (fun _ => Q) w.
Proof. intros Hm. by apply wp_bind. Qed.

Definition good (o : sched_op) (w w' : schedcoop) : Prop := inv w' /\ advances o w w'.

Lemma step_awakened o w w0 w' :
  o <> Schedule -> inv w -> w0 = set_sems (s_sems w0) w -> sched_inv w0 -> counts_ok w0 -> sys_inv w' -> awakened w0 w' -> good o w w'.
Proof.
  intros Ho [[Hw Hl] [Hi Hc]] E Hw0 Hc0 Hw' Ha. split; [split; [done|]; split|].
  - apply (idle_ok_awakened w0); [apply Hw'|done..|]. rewrite E. exact Hi.
  - intros q s. rewrite (aw_rest _ _ Ha). apply Hc0.
  - apply advances_same; [done|]. destruct (aw_run _ _ Ha) as [l Hl']. exists l. by rewrite Hl', E.
Qed.
Lemma step_sems o w w' :
  o <> Schedule -> inv w -> sys_inv w' -> w' = set_sems (s_sems w') w -> counts_ok w' -> good o w w'.
Proof.
  intros Ho (_ & Hi & _) Hw' E Hc. split; [split; [done|]; split; [|done]|].
  - rewrite E. exact Hi.
  - apply advances_same; [done|]. exists []. by rewrite app_nil_r, E.
Qed.
Lemma step_change o w th th' S :
  o <> Schedule -> running w th -> sys_inv (change th' S w) -> counts_ok (change th' S w) -> good o w (change th' S w).
Proof.
  intros Ho Hru Hw' Hc. split; [split; [done|]; split; [|done]|].
  - by apply (idle_ok_running w th).
  - apply advances_same; [done|]. exists []. by rewrite app_nil_r.
Qed.
Lemma counts_insert w w' q c l :
  counts_ok w -> s_sems w' = <[q := (c, l)]> (s_sems w) -> 0 <= c -> counts_ok w'.
Proof. intros Hc Hs H0 q' s. rewrite Hs, lookup_insert_Some. intros [[_ <-]|[_ ?]]; [done|by apply (Hc q')]. Qed.

Lemma step_sem_init w q c : inv w -> can w (SemInit q c) -> wp (uk_semaphore_init q c) (fun _ => good (SemInit q c) w) w.
Proof.
  intros Hw [Hq Hc]. apply wp_modify. apply step_sems; try done; [|by apply (counts_insert w _ q c []); [apply Hw|..]].
  destruct Hw as [[Hw Hl] _]. assert (Hwt : forall q' t, waiting (set_sems (<[q := (c, [])]> (s_sems w)) w) q' t <-> waiting w q' t).
  { intros q' t. unfold waiting. cbn. destruct (decide (q' = q)) as [->|Hne]; [|by rewrite lookup_insert_ne].
    rewrite lookup_insert_eq, Hq. split; intros (? & [=] & Hin). subst. by apply elem_of_nil in Hin. }
  split.
  - destruct Hw as [H1 H2 H3 H4 H5 H6 H7 H8 H9 H10]. split; try done.
    + intros t th Ht. destruct (H5 _ _ Ht). split; try done. intros q'. by rewrite Hwt.
    + intros q' s. cbn. rewrite lookup_insert_Some. intros [[_ <-]|[_ ?]]; [constructor|by apply (H9 q')].
    + intros q' t Hx%Hwt. by apply (H10 q').
  - intros q' s t th. cbn. rewrite lookup_insert_Some. intros [[_ <-]|[_ Hs]] Hin; [by apply elem_of_nil in Hin|by apply (Hl q')].
Qed.
Lemma step_enter w q d : inv w -> can w (Enter q d) -> wp (waitq_enter q (available q) d) (fun _ => good (Enter q d) w) w.
Proof.
  intros Hw [[[c l] Hs] (th & Hru & Hwq)]. eapply wp_mono; [|by apply (enter_spec w th q (c, l)); [apply Hw|..]].
  intros b w' (Hw' & -> & ->). cbn in *. destruct (Z.ltb_spec 0 c); [apply step_sems; try done; [by destruct w|apply Hw]|].
  eapply step_change; [done..|]. eapply counts_insert; [apply Hw|done|]. by apply (proj2 (proj2 Hw) q (c, l)).
Qed.
Lemma step_awoken w q d : inv w -> can w (Awoken q d) -> wp (waitq_awoken (available q) d) (fun _ => good (Awoken q d) w) w.
Proof.
  intros Hw (th & Hru & Hwq). pose proof (si_thread _ (proj1 (proj1 Hw)) _ _ (ru_thread _ _ Hru)) as Hok.
  destruct (proj1 (to_wq _ _ _ Hok q) Hwq) as ([c l] & Hs & _).
  eapply wp_mono; [|by apply (awoken_spec w th q (c, l)); [apply Hw|..]].
  intros b w' (Hw' & _ & ->). destruct b; (eapply step_change; [done..|]).
  - eapply counts_insert; [apply Hw|done|]. by apply (proj2 (proj2 Hw) q (c, l)).
  - apply Hw.
Qed.
Lemma step_up w q : inv w -> can w (Up q) -> wp (uk_semaphore_up q) (fun _ => good (Up q) w) w.
Proof.
  intros Hw [[c l] Hs]. eapply wp_mono; [|by apply (up_spec w q c l); [apply Hw|]]. intros [] w' (Hw' & Ha & _).
  apply (step_awakened _ w (set_sems (<[q := (c + 1, l)]> (s_sems w)) w) w'); try done; [by eapply put_sem_inv; [apply Hw|]|].
  eapply counts_insert; [apply Hw|done|]. pose proof (proj2 (proj2 Hw) q (c, l) Hs). cbn in *. lia.
Qed.
Lemma step_try w q : inv w -> can w (Try q) -> wp (uk_semaphore_down_try q) (fun _ => good (Try q) w) w.
Proof.
  intros Hw [[c l] Hs]. eapply wp_mono; [|by apply (down_try_spec w q c l); [apply Hw|]]. intros r w' (Hw' & _ & ->).
  destruct (Z.ltb_spec 0 c); (apply step_sems; try done); [|by destruct w|apply Hw].
  eapply counts_insert; [apply Hw|done|lia].
Qed.
Lemma step_take w k q : inv w -> can w (Take k q) -> wp (semaphore_take k q) (fun _ => good (Take k q) w) w.
Proof.
  intros Hw [[c l] Hs]. eapply wp_mono; [|by apply (take_spec w q c l k); [apply Hw|]]. intros r w' (Hw' & Hr).
  destruct (Z.ltb_spec 0 c).
  - destruct Hr as [_ ->]. apply step_sems; try done. eapply counts_insert; [apply Hw|done|]. destruct k; lia.
  - destruct Hr as [-> _]. apply step_sems; try done; [by destruct w|apply Hw].
Qed.
Lemma step_create w t : inv w -> can w (Create t) -> wp (uk_sched_thread_create t) (fun _ => good (Create t) w) w.
Proof.
  intros Hw Ht. destruct t as [t|]; [|apply wp_ret, step_sems; try done; [apply Hw|by destruct w|apply Hw]].
  eapply wp_mono; [|by apply (create_spec w t); [apply Hw|]]. intros r w' (Hw' & _ & ->). split; [split; [done|]; split|].
  - apply (idle_ok_mono w); try done; [apply Hw|]. intros t' th'. cbn. intros Hin Hth'. split; [done|].
    rewrite lookup_insert_Some in Hth'. destruct Hth' as [[<- <-]|[_ Hth']]; [|by exists th']. exfalso. destruct (fresh_nowhere w t (proj1 (proj1 Hw)) Ht) as (_ & F & _). done.
  - apply Hw.
  - apply advances_same; [done|]. by exists [t].
Qed.
Lemma step_terminate w t : inv w -> can w (Terminate t) -> wp (uk_sched_thread_terminate t) (fun _ => good (Terminate t) w) w.
Proof.
  intros Hw (Hn & Hi & Hsl & th & Hth & Hsc). eapply wp_mono; [|by apply (terminate_spec w t th); [apply Hw|..]].
  intros [] w' (Hw' & E). assert (Hsame : active w' = active w /\ s_idle w' = s_idle w /\ s_idle_return_time w' = s_idle_return_time w /\
    s_sleep_queue w' = s_sleep_queue w /\ s_sems w' = left_wq t th (s_sems w) /\ s_run_queue w' = tailq_remove t (s_run_queue w))
    by (subst w'; by case_bool_decide).
  assert (Hoth : forall t', t' <> t -> s_threads w' !! t' = s_threads w !! t').
  { intros t' Hne. subst w'. case_bool_decide; cbn; rewrite ?lookup_delete_ne by done; by rewrite lookup_insert_ne. }
  clear E. destruct Hsame as (S1 & S2 & S3 & S4 & S5 & S6). split; [split; [done|]; split|].
  - apply (idle_ok_mono w); try done; [apply Hw|]. intros t' th' Hin Hth'. rewrite S4 in Hin. split; [done|].
    assert (t' <> t) by congruence. rewrite Hoth in Hth' by done. by exists th'.
  - intros q s Hs. rewrite S5 in Hs. destruct (left_wq_facts w t th q s (proj1 (proj1 Hw)) Hth Hs) as (s0 & Hs0 & -> & _).
    by apply (proj2 (proj2 Hw) q).
  - by apply advances_unlink.
Qed.
Lemma step_collect w : inv w -> can w Collect -> wp uk_sched_thread_gc (fun _ => good Collect w) w.
Proof.
  intros Hw [Hn Hc]. apply wp_bind, wp_gets. eapply wp_mono; [|by apply gc_loop_spec; [apply Hw|..]].
  intros n w' (Hw' & _ & Hth & E). split; [split; [done|]; split|].
  - apply (idle_ok_mono w); [apply Hw|by rewrite E..|]. intros t th' Hin Ht. rewrite E in Hin. split; [done|].
    rewrite Hth in Ht. case_bool_decide; [done|by exists th'].
  - rewrite E. apply Hw.
  - apply advances_same; [done|]. exists []. by rewrite app_nil_r, E.
Qed.
Lemma step_schedule w : inv w -> can w Schedule -> wp schedcoop_schedule (fun _ => good Schedule w) w.
Proof.
  intros Hw Hn. eapply wp_mono; [|by apply schedule_sys_spec; [apply Hw|]].
  intros b w' (Hw' & p & w1 & r & Hp & Hex & Hs). by apply (scheduled_step w p w1 r b w').
Qed.
Lemma step_other w o : inv w -> can w o ->
  match o with Tick _ | Switch | Block _ | Wake _ => wp (exec_op o) (fun _ => good o w) w | _ => True end.
Proof.
  intros Hw Hc. destruct o as [dt| | |until|t| | | | | | | | |]; try done; cbn [exec_op].
  - apply wp_modify. split; [split; [|split; apply Hw]|].
    + split; [|apply Hw]. apply (sched_inv_same w); try done; [exact (proj1 (proj1 Hw))|exact (si_current _ (proj1 (proj1 Hw)))].
    + apply advances_same; [done|]. exists []. by rewrite app_nil_r.
  - destruct Hc as [n Hn]. eapply wp_mono; [|by apply (switch_spec w n); [apply Hw|]]. intros [] w' [Hw' ->]. split; [split; [done|]; split|].
    + apply (idle_ok_mono w); try done; [apply Hw|unfold active; by rewrite Hn|]. intros t th' Hin Hth'. split; [done|by exists th'].
    + apply Hw.
    + apply advances_same; [done|]. exists []. by rewrite app_nil_r.
  - destruct Hc as (th & Hru & Hwq). apply wp_bind, wp_gets. eapply wp_mono; [|by apply (block_until_spec w th); [apply Hw|..]].
    intros [] w' [Hw' ->]. eapply step_change; [done..|apply Hw].
  - destruct Hc as [th Hth]. eapply wp_mono; [|by apply (wake_inv t th); [apply Hw|]]. intros [] w' [Hw' Ha].
    apply (step_awakened _ w w w'); try done; [by destruct w|apply Hw..].
Qed.
Lemma step_spec w o : inv w -> can w o -> wp (exec_op o) (fun _ => good o w) w.
Proof.
  intros Hw Hc. destruct o; try (by apply (step_other w _ Hw Hc)); cbn [exec_op]; try apply wp_forget.
  - by apply step_schedule.
  - by apply step_sem_init.
  - by apply step_up.
  - by apply step_try.
  - by apply step_enter.
  - by apply step_awoken.
  - by apply step_take.
  - by apply step_create.
  - by apply step_terminate.
  - by apply step_collect.
Qed.
Lemma runs_inv w os w' : inv w -> runs w os w' -> inv w'.
Proof.
  intros Hw Hr. induction Hr as [w|w o w1 os w' Hc Hx _ IH]; [done|]. apply IH.
  pose proof (step_spec w o Hw Hc) as Hs. unfold wp in Hs. rewrite Hx in Hs. apply Hs.
Qed.
Lemma start_all_inv idle main now : idle <> main -> inv (uk_sched_start idle main now).
Proof.
  intros Hne. split; [by apply start_inv|]. split.
  - intros _ t th Ht. by apply elem_of_nil in Ht.
  - intros q s Hs. cbn in Hs. by rewrite lookup_empty in Hs.
Qed.

(** ** The properties *)

(** A run for the witnesses: the main thread makes the thread 3 and the semaphore 1, waits
    for it and leaves the processor to the new thread, which posts the semaphore. *)
Definition demo_start : schedcoop := uk_sched_start 1 2 100.
Definition demo_wait : list sched_op := [Create (Some 3%positive); SemInit 1 0; Enter 1 0; Schedule; Switch].
Fixpoint exec_ops (os : list sched_op) (w : schedcoop) : schedcoop :=
  match os with
  | [] => w
  | o :: os => match exec_op o w with Done (_, w') => exec_ops os w' | _ => w end
  end.
Ltac can_now := cbn [can];
  repeat match goal with
  | |- exists th, running _ th /\ _ => eexists; split; [split; vm_compute; [reflexivity..|discriminate]|vm_compute; reflexivity]
  | |- exists th, _ = Some th /\ _ => eexists; split; vm_compute; reflexivity
  | |- _ /\ _ => split
  | |- _ ∉ _ => apply (bool_decide_unpack _); vm_compute; exact I
  | |- is_Some _ => eexists; vm_compute; reflexivity
  | |- _ => vm_compute; solve [reflexivity | discriminate]
  end.
Ltac run_now := repeat (eapply runs_cons; [can_now|vm_compute; reflexivity|]); apply runs_nil.

(** C25: In every state that the operations of the scheduler can bring about, called in any
    order from the threads and from interrupts, the queues and the flags of the threads
    agree: a thread is in the run queue exactly when it can run and does not run, in the
    sleep queue exactly when it is blocked with a timeout, in the list of exited threads
    exactly when it has ended, and in a wait queue exactly when its ticket says so; no
    queue has a thread twice or one that has been freed; no semaphore is negative. *)
Theorem sched_wf idle main now os w :
  idle <> main -> runs (uk_sched_start idle main now) os w -> sched_inv w /\ counts_ok w.
Proof. intros Hne Hr. by destruct (runs_inv _ _ _ (start_all_inv idle main now Hne) Hr) as ((? & _) & _ & ?). Qed.
Lemma sched_wf_witness : exists w, runs demo_start demo_wait w /\ s_current w = 3%positive /\ sched_inv w.
Proof. eexists. split; [run_now|]. split; [reflexivity|]. eapply (sched_wf 1 2 100 demo_wait); [discriminate|run_now]. Defined.

(** C11: No operation of the scheduler fails an assertion, unlinks a thread that is not
    linked, links one that is, or touches a freed thread, in whatever state the operations
    before have led to: it returns. *)
Theorem sched_returns idle main now os w o :
  idle <> main -> runs (uk_sched_start idle main now) os w -> can w o -> exists w', exec_op o w = Done (tt, w').
Proof.
  intros Hne Hr Hc. pose proof (step_spec w o (runs_inv _ _ _ (start_all_inv idle main now Hne) Hr) Hc) as Hs.
  apply wp_elim in Hs as ([] & w' & Hx & _). by exists w'.
Qed.
Lemma sched_returns_witness : exists w w', runs demo_start demo_wait w /\ exec_op (Up 1) w = Done (tt, w').
Proof.
  destruct (sched_returns 1 2 100 demo_wait (exec_ops demo_wait demo_start) (Up 1)) as [w' Hw']; [discriminate|run_now|can_now|].
  exists (exec_ops demo_wait demo_start), w'. split; [run_now|exact Hw'].
Defined.

(** C13: No wake-up of a semaphore is lost: a thread in the wait queue of a semaphore that
    has units can run, and has the processor or is in the run queue. *)
Theorem no_lost_wakeup idle main now os w q s t :
  idle <> main -> runs (uk_sched_start idle main now) os w -> s_sems w !! q = Some s -> t ∈ s.2 -> 0 < s.1 ->
  exists th, s_threads w !! t = Some th /\ uk_thread_is_runnable th = true /\ (t = active w \/ t ∈ s_run_queue w).
Proof.
  intros Hne Hr Hs Ht Hpos. destruct (runs_inv _ _ _ (start_all_inv idle main now Hne) Hr) as [[Hw Hl] _].
  destruct (si_waiter _ Hw q t) as [th Hth]; [by exists s|]. pose proof (si_thread _ Hw _ _ Hth) as Hok.
  assert (Hrun : uk_thread_is_runnable th = true).
  { destruct (uk_thread_is_runnable th) eqn:Hx; [done|]. pose proof (Hl q s t th Hs Ht Hth Hx). lia. }
  exists th. split_and!; [done..|]. destruct (decide (t = active w)) as [|Hact]; [by left|]. right. apply (to_run _ _ _ Hok).
  rewrite (ready_runnable _ _ _ Hok). split_and!; [done..|]. intros Hi. destruct (to_idle _ _ _ Hok Hi) as [_ Hq].
  assert (Hx : waiting w q t) by by exists s. apply (to_wq _ _ _ Hok) in Hx. congruence.
Qed.
Lemma no_lost_wakeup_witness : exists w th, runs demo_start (demo_wait ++ [Up 1]) w /\ s_sems w !! 1%positive = Some (1, [2%positive]) /\
  s_threads w !! 2%positive = Some th /\ uk_thread_is_runnable th = true.
Proof.
  destruct (no_lost_wakeup 1 2 100 (demo_wait ++ [Up 1]) (exec_ops (demo_wait ++ [Up 1]) demo_start) 1 (1, [2%positive]) 2)
    as (th & Hth & Hr & _); [discriminate|run_now|vm_compute; reflexivity|by left|reflexivity|].
  exists (exec_ops (demo_wait ++ [Up 1]) demo_start), th. split; [run_now|]. split; [vm_compute; reflexivity|]. split; [exact Hth|exact Hr].
Defined.

(** C26: While the idle thread has the processor, the time it halts until is no later than
    the wake-up time of any sleeping thread; with no time set, no thread sleeps. *)
Theorem idle_wakes idle main now os w t th :
  idle <> main -> runs (uk_sched_start idle main now) os w -> active w = s_idle w ->
  t ∈ s_sleep_queue w -> s_threads w !! t = Some th -> 0 < s_idle_return_time w <= t_wakeup_time th.
Proof.
  intros Hne Hr Hact Ht Hth. destruct (runs_inv _ _ _ (start_all_inv idle main now Hne) Hr) as (_ & Hi & _). by apply (Hi Hact t).
Qed.
Lemma idle_wakes_witness : exists w, runs demo_start [Block 500; Schedule; Switch] w /\ active w = s_idle w /\
  s_sleep_queue w = [2%positive] /\ 0 < s_idle_return_time w <= 500.
Proof.
  exists (exec_ops [Block 500; Schedule; Switch] demo_start). split; [run_now|]. split; [reflexivity|]. split; [reflexivity|].
  apply (idle_wakes 1 2 100 [Block 500; Schedule; Switch] _ 2 (mk_thread false false true 500 true None 0)); [discriminate|run_now|reflexivity|by left|vm_compute; reflexivity].
Defined.

(** ** Every thread gets its turn *)

Definition schedules (os : list sched_op) : nat := length (filter (fun o => o = Schedule) os).
Lemma schedules_cons o os : schedules (o :: os) = ((if decide (o = Schedule) then 1 else 0) + schedules os)%nat.
Proof. unfold schedules. rewrite filter_cons. by destruct (decide _). Qed.
Lemma turn_step w o w1 t k :
  inv w -> can w o -> exec_op o w = Done (tt, w1) -> o <> Terminate t -> s_run_queue w !! k = Some t ->
  inv w1 /\ if decide (o = Schedule) then (k = 0%nat /\ active w1 = t) \/ exists j, k = S j /\ s_run_queue w1 !! j = Some t
  else exists j, (j <= k)%nat /\ s_run_queue w1 !! j = Some t.
Proof.
  intros Hw Hc Hx Ho Hk. pose proof (step_spec w o Hw Hc) as Hs. unfold wp in Hs. rewrite Hx in Hs. destruct Hs as [Hw1 Ha].
  split; [done|]. specialize (Ha t k Ho Hk). destruct (decide (o = Schedule)) as [->|Hne].
  - destruct k as [|k]; [by left|right; by exists k].
  - by destruct o, k.
Qed.
Lemma turn_comes w os w' t k :
  inv w -> runs w os w' -> Terminate t ∉ os -> s_run_queue w !! k = Some t -> (k < schedules os)%nat ->
  exists os1 os2 w1, os = os1 ++ os2 /\ runs w os1 w1 /\ active w1 = t /\ (schedules os1 <= S k)%nat.
Proof.
  intros Hw Hr. revert k Hw. induction Hr as [w|w o w1 os w' Hc Hx Hr IH]; intros k Hw Hnt Hk Hlt; [cbn in Hlt; lia|].
  rewrite schedules_cons in Hlt. apply not_elem_of_cons in Hnt as [Ho Hnt].
  destruct (turn_step w o w1 t k) as [Hw1 Hstep]; [done..|]. destruct (decide (o = Schedule)) as [->|Hne].
  - destruct Hstep as [[-> Hact]|(j & -> & Hj)].
    + exists [Schedule], os, w1. split_and!; [done|by eapply runs_cons, runs_nil|done|done].
    + destruct (IH j Hw1 Hnt Hj) as (os1 & os2 & w2 & -> & Hr1 & Hact & Hle); [lia|].
      exists (Schedule :: os1), os2, w2. rewrite schedules_cons, decide_True by done. split_and!; [done|by eapply runs_cons|done|lia].
  - destruct Hstep as (j & Hjk & Hj). destruct (IH j Hw1 Hnt Hj) as (os1 & os2 & w2 & -> & Hr1 & Hact & Hle); [lia|].
    exists (o :: os1), os2, w2. rewrite schedules_cons, decide_False by done. split_and!; [done|by eapply runs_cons|done|lia].
Qed.

(** C12: No thread that can run starves: one with [k] threads before it in the run queue has
    the processor after at most [k + 1] calls of the scheduler, whatever the threads and
    the interrupts do in between, as long as it is not ended. *)
Theorem no_starvation idle main now os0 w os w' t k :
  idle <> main -> runs (uk_sched_start idle main now) os0 w -> s_run_queue w !! k = Some t ->
  runs w os w' -> Terminate t ∉ os -> (k < schedules os)%nat ->
  exists os1 os2 w1, os = os1 ++ os2 /\ runs w os1 w1 /\ active w1 = t /\ (schedules os1 <= S k)%nat.
Proof. intros Hne Hr0 Hk Hr Hnt Hlt. eapply turn_comes; [by eapply runs_inv, Hr0; apply start_all_inv|done..]. Qed.
Definition demo_ready : list sched_op := [Create (Some 3%positive); Create (Some 4%positive)].
Definition demo_turns : list sched_op := [Tick 5; Schedule; Wake 3; Switch; Terminate 3; Schedule].
Lemma no_starvation_witness : exists os1 os2 w1, demo_turns = os1 ++ os2 /\ runs (exec_ops demo_ready demo_start) os1 w1 /\
  active w1 = 4%positive /\ (schedules os1 <= 2)%nat.
Proof.
  apply (no_starvation 1 2 100 demo_ready (exec_ops demo_ready demo_start) demo_turns
           (exec_ops demo_turns (exec_ops demo_ready demo_start)) 4 1);
    [discriminate|run_now|reflexivity|run_now|can_now|vm_compute; by repeat constructor].
Defined.

(** ** What a call of the scheduler does *)

Definition due (w : schedcoop) (t : positive) : Prop :=
  t ∈ s_sleep_queue w /\ exists th, s_threads w !! t = Some th /\ t_wakeup_time th <= s_clock w.
Section Outcome.
  Context (w : schedcoop) (p : uk_thread) (r : Z) (w1 : schedcoop).
  Hypotheses (Hw : sched_inv w) (Hn : s_next w = None) (Hp : s_threads w !! s_current w = Some p).
  Hypothesis Hex : expired (s_clock w) 0 (s_sleep_queue w) (resumed w p) r w1.

Lemma resumed_lookup t th : s_threads w !! t = Some th ->
  exists th0, s_threads (resumed w p) !! t = Some th0 /\ t_wakeup_time th0 = t_wakeup_time th /\ ready th0 = ready th /\
    t_sched th0 = t_sched th.
Proof.
  intros Hth. cbn. destruct (decide (t = s_current w)) as [->|Hne]; [|rewrite lookup_insert_ne by done; by exists th].
  rewrite lookup_insert_eq. simplify_eq. by eexists.
Qed.
Lemma outcome_sleep t : t ∈ s_sleep_queue w1 <-> t ∈ s_sleep_queue w /\ ~ due w t.
Proof.
  split.
  - intros Ht. pose proof (aw_sleep _ _ (ex_awakened _ _ _ _ _ _ Hex) t Ht) as Hin. split; [done|]. intros (_ & th & Hth & Hle).
    destruct (resumed_lookup t th Hth) as (th0 & Hth0 & Hwt & _).
    apply (ex_sleep _ _ _ _ _ _ Hex t th0 Hin Hth0) in Ht. lia.
  - intros [Hin Hnd]. destruct (sleeper w t Hw Hin) as (th & Hth & _). destruct (resumed_lookup t th Hth) as (th0 & Hth0 & Hwt & _).
    apply (ex_sleep _ _ _ _ _ _ Hex t th0 Hin Hth0). destruct (Z.lt_ge_cases (s_clock w) (t_wakeup_time th0)); [done|].
    destruct Hnd. split; [done|]. exists th. split; [done|lia].
Qed.
(** A thread can run after the wake-ups when it could before or was due. *)
Lemma outcome_ready t th th1 :
  s_threads w !! t = Some th -> s_threads w1 !! t = Some th1 -> ready th1 = true <-> ready th = true \/ due w t.
Proof.
  intros Hth Hth1. destruct (resumed_lookup t th Hth) as (th0 & Hth0 & Hwt & Hrd & Hsc).
  pose proof (resumed_inv w p Hw Hp) as Hw0. pose proof (ex_inv _ _ _ _ _ _ Hex) as Hw1.
  destruct (awakened_lookup _ _ _ _ (ex_awakened _ _ _ _ _ _ Hex) Hth0) as (th2 & Hth2 & Haw). simplify_eq.
  pose proof (si_thread _ Hw0 _ _ Hth0) as Hok0. pose proof (si_thread _ Hw1 _ _ Hth1) as Hok1. rewrite <- Hrd.
  rewrite (ready_runnable _ _ _ Hok0), (ready_runnable _ _ _ Hok1). split.
  - intros Hr. destruct (uk_thread_is_runnable th0) eqn:Hr0; [by left|]. right.
    destruct (decide (t ∈ s_sleep_queue w)) as [Hin|Hnin].
    + assert (Hnin : t ∉ s_sleep_queue w1) by (intros (_ & ? & _)%(to_sleep _ _ _ Hok1); congruence).
      rewrite (ex_sleep _ _ _ _ _ _ Hex t th0 Hin Hth0) in Hnin. split; [done|]. exists th. split; [done|lia].
    + rewrite (ex_frame _ _ _ _ _ _ Hex t Hnin) in Hth1. congruence.
  - intros [Hr|Hd]; [by rewrite (ta_runnable _ _ Haw Hr)|]. destruct (uk_thread_is_runnable th1) eqn:Hr2; [done|].
    destruct Hd as (Hin & th' & Hth' & Hle). simplify_eq. destruct (sleeper w t Hw Hin) as (? & ? & Hs & _). simplify_eq.
    assert (th1 = th0) as -> by (apply (ta_blocked _ _ Haw); congruence).
    assert (Hin1 : t ∈ s_sleep_queue w1).
    { apply (to_sleep _ _ _ Hok1). by apply (to_sleep _ _ _ Hok0). }
    apply (ex_sleep _ _ _ _ _ _ Hex t th0 Hin Hth0) in Hin1. lia.
Qed.
Lemma outcome_woken l t : s_run_queue w1 = s_run_queue w ++ l -> t ∈ l <-> due w t /\ t <> s_current w.
Proof.
  intros Hl. pose proof (ex_inv _ _ _ _ _ _ Hex) as Hw1. pose proof (ex_awakened _ _ _ _ _ _ Hex) as Ha.
  assert (Hact : active w = s_current w) by (unfold active; by rewrite Hn).
  assert (Hact1 : active w1 = s_current w) by (rewrite (aw_rest _ _ Ha); done).
  assert (Hid : s_idle w1 = s_idle w) by by rewrite (aw_rest _ _ Ha).
  pose proof (si_nodup _ Hw1) as Hnd. rewrite Hl in Hnd. apply NoDup_app in Hnd as (Hnd & _). apply NoDup_app in Hnd as (_ & Hnd & _). split.
  - intros Ht. assert (Hin1 : t ∈ s_run_queue w1) by (rewrite Hl; apply elem_of_app; by right).
    destruct (si_linked _ Hw1 t) as [th1 Hth1]; [apply elem_of_app; by left|].
    destruct (proj1 (to_run _ _ _ (si_thread _ Hw1 _ _ Hth1)) Hin1) as (Hr & Hna & Hni). rewrite Hact1 in Hna. rewrite Hid in Hni.
    pose proof (aw_thread _ _ Ha t) as Hrel. rewrite Hth1 in Hrel. destruct (s_threads (resumed w p) !! t) as [th0|] eqn:Hth0; [|done].
    cbn in Hth0. rewrite lookup_insert_ne in Hth0 by done.
    destruct (proj1 (outcome_ready t th0 th1 Hth0 Hth1) Hr) as [Hr0|Hd]; [|done]. exfalso. apply (Hnd t); [|done].
    apply (to_run _ _ _ (si_thread _ Hw _ _ Hth0)). rewrite Hact. done.
  - intros [Hd Hne]. pose proof Hd as (Hin & th & Hth & _). destruct (resumed_lookup t th Hth) as (th0 & Hth0 & _).
    destruct (awakened_lookup _ _ _ _ Ha Hth0) as (th1 & Hth1 & _). destruct (sleeper w t Hw Hin) as (th' & ? & _ & Hnr & _). simplify_eq.
    pose proof (si_thread _ Hw _ _ Hth) as Hok.
    assert (Hni : t <> s_idle w). { intros Hi. destruct (to_idle _ _ _ Hok Hi) as [Hr _]. rewrite (ready_runnable _ _ _ Hok) in Hr. congruence. }
    assert (Hin1 : t ∈ s_run_queue w1).
    { apply (to_run _ _ _ (si_thread _ Hw1 _ _ Hth1)). rewrite Hact1, Hid. split_and!; [|done..].
      apply (outcome_ready t th th1 Hth Hth1). by right. }
    rewrite Hl in Hin1. apply elem_of_app in Hin1 as [Hx|]; [|done]. apply (to_run _ _ _ Hok) in Hx as (Hr & _).
    rewrite (ready_runnable _ _ _ Hok) in Hr. congruence.
Qed.
End Outcome.

(** C14: A call of the scheduler wakes exactly the sleeping threads that are due and chooses
    the first thread of the run queue, with the woken ones at its end; the caller goes to
    the end of the queue when it can still run.  With nothing else to run the caller goes
    on, or else the idle thread is chosen. *)
Theorem schedule_outcome w p :
  sched_inv w -> s_next w = None -> s_threads w !! s_current w = Some p ->
  wp schedcoop_schedule (fun b w' => exists woken (again : bool),
    (forall t, t ∈ woken <-> due w t /\ t <> s_current w) /\
    (again = true <-> ready p = true \/ due w (s_current w)) /\
    (forall t, t ∈ s_sleep_queue w' <-> t ∈ s_sleep_queue w /\ ~ due w t) /\
    match s_run_queue w ++ woken with
    | next :: R => b = true /\ s_next w' = Some next /\
        s_run_queue w' = R ++ (if bool_decide (s_current w = s_idle w) then [] else if again then [s_current w] else [])
    | [] => s_run_queue w' = [] /\ b = negb again /\ s_next w' = if again then None else Some (s_idle w)
    end) w.
Proof.
  intros Hw Hn Hp. eapply wp_mono; [|by apply schedule_spec]. intros b w' (_ & p' & w1 & r & Hp' & Hex & Hs). simplify_eq.
  destruct (aw_run _ _ (ex_awakened _ _ _ _ _ _ Hex)) as [l Hl]. cbn in Hl.
  assert (Hn1 : s_next w1 = None) by (rewrite (aw_rest _ _ (ex_awakened _ _ _ _ _ _ Hex)); done).
  pose proof (outcome_sleep w p r w1 Hw Hp Hex) as Hsl. pose proof (fun t => outcome_woken w p r w1 Hw Hn Hp Hex l t Hl) as Hwk.
  pose proof (fun p1 => outcome_ready w p r w1 Hw Hp Hex (s_current w) p p1 Hp) as Hrd.
  destruct Hs as [next n p1 R HR Hne Hnx Hp1|p1 HR Hp1 Hr|n p1 HR Hne Hnx Hp1 Hr]; exists l, (ready p1);
    (split; [done|]; split; [by apply Hrd|]; split; [done|]; rewrite <- Hl, HR); [by split_and!|by rewrite Hr|by rewrite Hr].
Qed.
Definition demo_sleep : schedcoop := exec_ops [Create (Some 3%positive); Block 500; Tick 500] demo_start.
Lemma schedule_outcome_witness : exists b w', schedcoop_schedule demo_sleep = Done (b, w') /\ s_next w' = Some 3%positive /\
  s_run_queue w' = [2%positive].
Proof.
  pose proof (schedule_outcome demo_sleep (mk_thread false false false 500 true None 0)) as H.
  assert (Hinv : sched_inv demo_sleep).
  { eapply (proj1 (proj1 (runs_inv demo_start [Create (Some 3%positive); Block 500; Tick 500] demo_sleep _ _))). Unshelve.
    - by apply start_all_inv.
    - run_now. }
  apply wp_elim in H as (b & w' & Hx & woken & again & Hwk & Hag & _ & Hm); [|done|reflexivity|vm_compute; reflexivity].
  exists b, w'. split; [done|]. destruct Hm as (_ & Hnx & Hrq).
  assert (Hd : due demo_sleep 2) by (split; [by left|]; eexists; split; [vm_compute; reflexivity|vm_compute; discriminate]).
  assert (woken = []) as ->.
  { destruct woken as [|x l]; [done|]. destruct (proj1 (Hwk x)) as [[Hx1 _] Hx2]; [by left|].
    apply list_elem_of_singleton in Hx1. by subst. }
  assert (again = true) as -> by (apply Hag; by right). split; [exact Hnx|exact Hrq].
Defined.

(** ** Ending a thread that sleeps *)

Lemma wlp_get_thread_none t w (Q : uk_thread -> schedcoop -> Prop) : s_threads w !! t = None -> wlp (get_thread t) Q w.
Proof. intros Ht. unfold wlp, get_thread, deref. by rewrite Ht. Qed.
(** Operations that do not bring a freed thread back. *)
Definition stays_gone {A} (t : positive) (m : M schedcoop A) : Prop :=
  forall w, s_threads w !! t = None -> wlp m (fun _ w' => s_threads w' !! t = None) w.
Lemma gone_bind {A B} t (m : M schedcoop A) (f : A -> M schedcoop B) :
  stays_gone t m -> (forall a, stays_gone t (f a)) -> stays_gone t (m ≫= f).
Proof. intros Hm Hf w Hw. apply wlp_bind. eapply wlp_mono; [|by apply Hm]. intros a w' Hw'. by apply Hf. Qed.
Lemma gone_ret {A} t (a : A) : stays_gone t (mret a).
Proof. by intros w Hw. Qed.
Lemma gone_gets {A} t (f : schedcoop -> A) : stays_gone t (gets f).
Proof. by intros w Hw. Qed.
Lemma gone_get t x : stays_gone t (get_thread x).
Proof. intros w Hw. unfold wlp, get_thread, deref. by destruct (s_threads w !! x). Qed.
Lemma gone_assert t b : stays_gone t (UK_ASSERT b).
Proof. intros w Hw. by destruct b. Qed.
Lemma gone_modify t f : (forall w, s_threads (f w) = s_threads w) -> stays_gone t (modify f).
Proof. intros Hf w Hw. unfold wlp, modify. by rewrite Hf. Qed.
Lemma gone_upd t x f : stays_gone t (upd_thread x f).
Proof.
  intros w Hw. unfold upd_thread. apply wlp_bind. unfold wlp at 1, get_thread, deref. destruct (s_threads w !! x) eqn:Hx; [|done].
  unfold wlp, modify. cbn. rewrite lookup_insert_ne; [done|congruence].
Qed.
Create HintDb gone.
#[local] Hint Resolve gone_bind gone_ret gone_gets gone_get gone_assert gone_upd : gone.
#[local] Hint Extern 1 (stays_gone _ (modify _)) => apply gone_modify; done : gone.
#[local] Hint Extern 2 (stays_gone _ (if ?b then _ else _)) => destruct b : gone.
#[local] Hint Extern 3 (forall _, stays_gone _ _) => intro : gone.
Lemma gone_wake t x : stays_gone t (uk_thread_wake x).
Proof.
  unfold uk_thread_wake, uk_sched_thread_woken, schedcoop_thread_woken_isr, run_insert_tail, sleep_remove, unlinked.
  auto 20 with gone.
Qed.

Lemma wake_expired_gone now t l m w : t ∈ l -> s_threads w !! t = None -> wlp (wake_expired now l m) (fun _ _ => False) w.
Proof.
  revert m w. induction l as [|x l IH]; intros m w Hin Hw; [by apply elem_of_nil in Hin|]. cbn [wake_expired]. apply wlp_bind.
  destruct (decide (x = t)) as [->|Hne]; [by apply wlp_get_thread_none|]. apply elem_of_cons in Hin as [?|Hin]; [done|].
  unfold wlp at 1, get_thread, deref. destruct (s_threads w !! x) as [th|]; [|done].
  destruct (_ =? 0); [by apply IH|]. destruct (_ <=? now); [|by apply IH].
  apply wlp_bind. eapply wlp_mono; [|by apply gone_wake]. intros [] w' Hw'. by apply IH.
Qed.

(** C27: Ending a thread that sleeps with a timeout frees it and leaves it in the sleep
    queue, and the next call of the scheduler, whoever makes it, reads the freed thread. *)
Theorem terminate_sleeper_dangles w t :
  sys_inv w -> s_next w = None -> t ∈ s_sleep_queue w -> t <> s_current w -> t <> s_idle w ->
  wp (uk_sched_thread_terminate t) (fun _ w' => s_threads w' !! t = None /\ t ∈ s_sleep_queue w' /\
    forall w2, s_threads w2 !! t = None -> s_sleep_queue w2 = s_sleep_queue w' -> wlp schedcoop_schedule (fun _ _ => False) w2) w.
Proof.
  intros Hw Hn Hin Hc Hi. destruct (sleeper w t (proj1 Hw) Hin) as (th & Hth & Hs & _).
  eapply wp_mono; [|by apply (terminate_computes w t th)]. intros [] w' ->. rewrite bool_decide_eq_false_2 by done.
  split; [apply lookup_delete_eq|]. split; [done|]. intros w2 Hw2 Hq. unfold schedcoop_schedule. apply wlp_bind. unfold wlp, gets. fold (@wlp schedcoop bool).
  unfold id. apply wlp_bind. eapply wlp_mono; [|by apply gone_upd]. intros [] w3 Hw3. apply wlp_bind. unfold wlp at 1, modify. apply wlp_bind.
  eapply wlp_mono; [|apply (wake_expired_gone _ t); [rewrite Hq; exact Hin|done]]. by intros r w4 [].
Qed.
Definition demo_nap : list sched_op := [Create (Some 3%positive); Block 500; Schedule; Switch].
Lemma terminate_sleeper_dangles_witness : exists w', uk_sched_thread_terminate 2 (exec_ops demo_nap demo_start) = Done (tt, w') /\
  wlp schedcoop_schedule (fun _ _ => False) w'.
Proof.
  pose proof (terminate_sleeper_dangles (exec_ops demo_nap demo_start) 2) as H.
  apply wp_elim in H as ([] & w' & Hx & Hg & _ & Hs); [| |reflexivity|by left|discriminate|discriminate].
  - exists w'. split; [done|]. by apply Hs.
  - apply (runs_inv demo_start demo_nap); [by apply start_all_inv|run_now].
Defined.

(** C28: A thread that another thread blocks before it has run for the first time is lost:
    it is marked blocked, unlinked, and marked as able to run by the wake-up, which does
    not queue it again, and neither does any later wake-up. *)
Theorem block_newcomer_lost w t :
  sys_inv w -> s_threads w !! t = None ->
  wp (uk_sched_thread_create (Some t);; uk_thread_block t;; uk_thread_wake t) (fun _ w' =>
    (exists th, s_threads w' !! t = Some th /\ ready th = true) /\ (t ∉ s_run_queue w') /\ t <> active w' /\
    wp (uk_thread_wake t) (fun _ w2 => w2 = w') w') w.
Proof.
  intros Hw Ht. destruct (fresh_nowhere w t (proj1 Hw) Ht) as (F1 & F2 & _ & _ & _ & F6 & F7 & _).
  apply wp_bind. eapply wp_mono; [|by apply create_spec]. intros r w1 (_ & -> & ->). apply wp_bind.
  unfold uk_thread_block, uk_thread_block_until. apply wp_bind. eapply wp_upd_thread; [apply lookup_insert_eq|].
  apply wp_bind. eapply wp_get_thread; [apply lookup_insert_eq|]. apply wp_bind. eapply wp_upd_thread; [apply lookup_insert_eq|].
  apply wp_bind. eapply wp_get_thread; [apply lookup_insert_eq|]. apply wp_bind, wp_assert; [done|]. apply wp_bind, wp_assert; [done|].
  apply wp_bind, wp_gets. cbn [s_current set_threads created set_lists set_run_queue]. rewrite bool_decide_eq_false_2 by done. apply wp_bind.
  apply wp_run_remove; [apply elem_of_app; right; by left|]. apply wp_bind. eapply wp_get_thread; [apply lookup_insert_eq|].
  apply wp_ret. unfold uk_thread_wake at 1. apply wp_bind. eapply wp_get_thread; [apply lookup_insert_eq|]. apply wp_bind, wp_bind.
  eapply wp_upd_thread; [apply lookup_insert_eq|]. apply wp_bind. eapply wp_get_thread; [apply lookup_insert_eq|].
  apply wp_bind, wp_assert; [done|]. apply wp_bind, wp_assert; [done|]. apply wp_bind. eapply wp_get_thread; [apply lookup_insert_eq|].
  apply wp_bind, wp_ret, wp_ret. eapply wp_upd_thread; [apply lookup_insert_eq|]. split_and!.
  - eexists. split; [apply lookup_insert_eq|done].
  - cbn [s_run_queue set_threads set_run_queue]. rewrite elem_of_unlink. tauto.
  - exact F7.
  - unfold uk_thread_wake. apply wp_bind. eapply wp_get_thread; [apply lookup_insert_eq|]. apply wp_bind, wp_ret.
    eapply wp_upd_thread; [apply lookup_insert_eq|]. cbn. by rewrite !insert_insert_eq.
Qed.
Lemma block_newcomer_lost_witness :
  wp (uk_sched_thread_create (Some 3%positive);; uk_thread_block 3;; uk_thread_wake 3)
    (fun _ w' => 3%positive ∉ s_run_queue w') demo_start.
Proof.
  eapply wp_mono; [|apply (block_newcomer_lost demo_start 3); [by apply start_inv|vm_compute; reflexivity]]. by intros [] w' (_ & H & _).
Defined.
