(* ===== verification/Buddy.v ===== *)
(** * The page allocator

    The binary buddy allocator lib/ukallocbbuddy, which hands out the memory that the
    stack is built in: lists of free chunks of powers of two of pages, a bitmap of the
    allocated pages for every region of memory, and the splitting and merging of chunks.
    The statistics, [errno] and the optional check of the free lists are left out. *)

From stdpp Require Import prelude gmap.
From S2P Require Import Prelude Bitmap.

(** ** Pages and chunks *)

Definition PAGE_SHIFT : Z := 12.
Definition PAGE_SIZE : Z := 4096.
Definition PAGE_ALIGN_UP (x : Z) : Z := Z.land (u64 (x + (PAGE_SIZE - 1))) (lnot64 (PAGE_SIZE - 1)).
Definition PAGE_ALIGN_DOWN (x : Z) : Z := Z.land x (lnot64 (PAGE_SIZE - 1)).
Definition FREELIST_SIZE : Z := 64 - PAGE_SHIFT.

Definition BBUDDY_PAGES (ord : Z) : Z := shl64 1 ord.
Definition BBUDDY_LEN (ord : Z) : Z := shl64 (BBUDDY_PAGES ord) PAGE_SHIFT.
Definition BBUDDY_BUDDY_ADDR (ptr ord : Z) : Z := Z.lxor ptr (BBUDDY_LEN ord).
Definition BBUDDY_ISHEAD (ptr ord : Z) : bool := Z.land ptr (BBUDDY_LEN ord) =? 0.
Definition CHUNK_END (buf ord : Z) : Z := u64 (buf + shl64 1 (ord + PAGE_SHIFT)).
Definition FREELIST_ALIGNED (ptr lvl : Z) : bool := Z.land ptr (u64 (shl64 1 (lvl + PAGE_SHIFT) - 1)) =? 0.

(** ** State *)

Record uk_bbpalloc_memr : Type := mk_memr {
  first_page : Z;
  nr_pages : Z;
  mm_alloc_bitmap_size : Z;
  mm_alloc_bitmap : list Z
}.
(** [page_order] is the field of the chunk heads, in the memory the allocator owns. *)
Record uk_bbpalloc : Type := mk_bbpalloc {
  nr_free_pages : Z;
  free_head : list (list Z);
  memrs : list uk_bbpalloc_memr;
  page_order : gmap Z Z
}.
Definition set_nr_free (n : Z) (b : uk_bbpalloc) : uk_bbpalloc := mk_bbpalloc n (free_head b) (memrs b) (page_order b).
Definition set_free_head (l : list (list Z)) (b : uk_bbpalloc) : uk_bbpalloc :=
  mk_bbpalloc (nr_free_pages b) l (memrs b) (page_order b).
Definition set_memrs (l : list uk_bbpalloc_memr) (b : uk_bbpalloc) : uk_bbpalloc :=
  mk_bbpalloc (nr_free_pages b) (free_head b) l (page_order b).
Definition set_page_order (m : gmap Z Z) (b : uk_bbpalloc) : uk_bbpalloc :=
  mk_bbpalloc (nr_free_pages b) (free_head b) (memrs b) m.
Definition set_bitmap (a : list Z) (r : uk_bbpalloc_memr) : uk_bbpalloc_memr :=
  mk_memr (first_page r) (nr_pages r) (mm_alloc_bitmap_size r) a.

#[local] Abbreviation MB := (M uk_bbpalloc).

(** The free lists: linking a chunk that is linked, or unlinking one that is not, corrupts
    them and aborts. *)
Definition is_linked (ch : Z) (l : list (list Z)) : bool := existsb (fun l => bool_decide (ch ∈ l)) l.
Definition hlist_add_head (ch ord : Z) : MB unit :=
  l ← gets free_head;
  UK_ASSERT (negb (is_linked ch l));;
  fl ← deref (fun _ => if ord <? 0 then None else l !! Z.to_nat ord);
  modify (set_free_head (<[Z.to_nat ord := ch :: fl]> l)).
Definition hlist_del (ch : Z) : MB unit :=
  l ← gets free_head;
  UK_ASSERT (is_linked ch l);;
  modify (set_free_head (map (filter (fun x => x <> ch)) l)).
Definition get_page_order (ch : Z) : MB Z := deref (fun b => page_order b !! ch).
Definition put_page_order (ch ord : Z) : MB unit :=
  modify (fun b => set_page_order (<[ch := ord]> (page_order b)) b).

(** ** The bitmaps *)

Fixpoint memr_index (l : list uk_bbpalloc_memr) (page_va : Z) : option nat :=
  match l with
  | [] => None
  | r :: l =>
      if (first_page r <=? page_va) && (page_va <? u64 (first_page r + shl64 (nr_pages r) PAGE_SHIFT)) then Some O
      else S <$> memr_index l page_va
  end.
Definition map_get_memr (b : uk_bbpalloc) (page_va : Z) : option (nat * uk_bbpalloc_memr) :=
  i ← memr_index (memrs b) page_va; r ← memrs b !! i; Some (i, r).

Definition page_index (r : uk_bbpalloc_memr) (page_va : Z) : Z := Z.shiftr (u64 (page_va - first_page r)) PAGE_SHIFT.
Definition allocated_in_map (page_va : Z) : MB bool :=
  b ← gets id;
  match map_get_memr b page_va with
  | None => mret true
  | Some (_, r) =>
      let page_idx := page_index r page_va in
      w ← deref (fun _ => load (mm_alloc_bitmap r) (page_idx / 64));
      mret (negb (Z.land w (shl64 1 (Z.land page_idx (64 - 1))) =? 0))
  end.

(** The loops over whole words between the first and the last one. *)
Fixpoint fill_from (v : Z) (a : list Z) (idx : Z) (n : nat) : option (list Z) :=
  match n with
  | O => Some a
  | S n => a ← store a idx v; fill_from v a (idx + 1) n
  end.
Definition alloc_words (a : list Z) (curr_idx start_off end_idx end_off : Z) : option (list Z) :=
  w ← load a curr_idx;
  if curr_idx =? end_idx then
    store a curr_idx (Z.lor w (Z.land (u64 (shl64 1 end_off - 1)) (u64 (- shl64 1 start_off))))
  else
    a ← store a curr_idx (Z.lor w (u64 (- shl64 1 start_off)));
    a ← fill_from ULONG_MAX a (curr_idx + 1) (Z.to_nat (end_idx - curr_idx - 1));
    w ← load a end_idx;
    store a end_idx (Z.lor w (u64 (shl64 1 end_off - 1))).
Definition free_words (a : list Z) (curr_idx start_off end_idx end_off : Z) : option (list Z) :=
  w ← load a curr_idx;
  if curr_idx =? end_idx then
    store a curr_idx (Z.land w (Z.lor (u64 (- shl64 1 end_off)) (u64 (shl64 1 start_off - 1))))
  else
    a ← store a curr_idx (Z.land w (u64 (shl64 1 start_off - 1)));
    a ← fill_from 0 a (curr_idx + 1) (Z.to_nat (end_idx - curr_idx - 1));
    w ← load a end_idx;
    store a end_idx (Z.land w (u64 (- shl64 1 end_off))).
(** What [map_alloc] and [map_free] share. *)
Definition map_update (words : list Z -> Z -> Z -> Z -> Z -> option (list Z)) (page n : Z) : MB unit :=
  b ← gets id;
  '(i, r) ← deref (fun b => map_get_memr b page);
  UK_ASSERT (u64 (page + shl64 n PAGE_SHIFT) <=? u64 (first_page r + shl64 (nr_pages r) PAGE_SHIFT));;
  let first_page_idx := page_index r page in
  let end_page_idx := u64 (first_page_idx + n) in
  a ← deref (fun _ => words (mm_alloc_bitmap r) (first_page_idx / 64) (Z.land first_page_idx (64 - 1))
                        (end_page_idx / 64) (Z.land end_page_idx (64 - 1)));
  modify (set_memrs (<[i := set_bitmap a r]> (memrs b))).
Definition map_alloc (page n : Z) : MB unit :=
  map_update alloc_words page n;; modify (fun b => set_nr_free (u64 (nr_free_pages b - n)) b).
Definition map_free (page n : Z) : MB unit :=
  map_update free_words page n;; modify (fun b => set_nr_free (u64 (nr_free_pages b + n)) b).

(** ** Orders *)

Definition num_pages_to_order (num_pages : Z) : MB Z :=
  UK_ASSERT (negb (num_pages =? 0));;
  if num_pages =? 1 then mret 0
  else m ← deref (fun _ => uk_mssbl (num_pages - 1)); mret (m + 1).
Definition ptr_order (ptr maxord : Z) : MB Z :=
  UK_ASSERT (PAGE_ALIGN_DOWN ptr =? ptr);;
  let v := Z.shiftr ptr PAGE_SHIFT in
  if v =? 0 then mret maxord
  else l ← deref (fun _ => uk_lssbl v); mret (Z.min l maxord).
Definition npages_order (num_pages : Z) : MB Z :=
  UK_ASSERT (negb (num_pages =? 0));; deref (fun _ => uk_mssbl num_pages).

(** ** Allocation *)

Fixpoint trim_loop (fuel : nat) (spare_pages spare_end : Z) : MB unit :=
  if spare_pages =? 0 then mret tt
  else match fuel with
  | O => out_of_fuel
  | S fuel =>
      spare_ord ← npages_order spare_pages;
      let spare_ch := u64 (spare_end - BBUDDY_LEN spare_ord) in
      UK_ASSERT (spare_ord <? FREELIST_SIZE);;
      UK_ASSERT (BBUDDY_PAGES spare_ord <=? spare_pages);;
      put_page_order spare_ch spare_ord;;
      hlist_add_head spare_ch spare_ord;;
      trim_loop fuel (spare_pages - BBUDDY_PAGES spare_ord) (u64 (spare_end - BBUDDY_LEN spare_ord))
  end.
Definition bbuddy_trim (ch ord num_pages : Z) : MB unit :=
  o ← get_page_order ch;
  UK_ASSERT (o =? ord);;
  trim_loop 64 (u64 (BBUDDY_PAGES ord - num_pages)) (CHUNK_END ch ord).

(** The first order from [ord] on whose list is not empty. *)
Fixpoint find_order (l : list (list Z)) (ord : Z) : Z :=
  match l with
  | [] :: l => find_order l (ord + 1)
  | _ => ord
  end.
(** What the caller gets is its own: the allocator does not read a head there any more. *)
Definition hand_out (ch len : Z) (b : uk_bbpalloc) : uk_bbpalloc :=
  set_page_order (filter (fun p : Z * Z => ~ (ch <= p.1 < ch + len)) (page_order b)) b.
Definition bbuddy_palloc (num_pages : Z) : MB (option Z) :=
  UK_ASSERT (negb (num_pages =? 0));;
  ord ← num_pages_to_order num_pages;
  l ← gets free_head;
  let ord := find_order (drop (Z.to_nat ord) l) ord in
  if FREELIST_SIZE <=? ord then mret None
  else
    fl ← deref (fun _ => l !! Z.to_nat ord);
    alloc_ch ← deref (fun _ => head fl);
    hlist_del alloc_ch;;
    UK_ASSERT (FREELIST_ALIGNED alloc_ch ord);;
    bbuddy_trim alloc_ch ord num_pages;;
    map_alloc alloc_ch num_pages;;
    modify (hand_out alloc_ch (shl64 num_pages PAGE_SHIFT));;
    mret (Some alloc_ch).

(** ** Freeing *)

Fixpoint merge_loop (n : nat) (ch ord : Z) : MB (Z * Z) :=
  match n with
  | O => mret (ch, ord)
  | S n =>
      let buddy := BBUDDY_BUDDY_ADDR ch ord in
      a ← allocated_in_map buddy;
      if (a : bool) then mret (ch, ord)
      else
        o ← get_page_order buddy;
        if negb (o =? ord) then mret (ch, ord)
        else
          hlist_del buddy;;
          merge_loop n (if BBUDDY_ISHEAD buddy ord then buddy else ch) (ord + 1)
  end.
Definition bbuddy_merge (ch ord : Z) : MB (Z * Z) := merge_loop (Z.to_nat (FREELIST_SIZE - 1 - ord)) ch ord.

Fixpoint pfree_loop (fuel : nat) (base num_pages : Z) : MB unit :=
  match fuel with
  | O => out_of_fuel
  | S fuel =>
      maxord ← npages_order num_pages;
      ord ← ptr_order base maxord;
      let freed_pages := BBUDDY_PAGES ord in
      UK_ASSERT (ord <? FREELIST_SIZE);;
      UK_ASSERT (freed_pages <=? num_pages);;
      '(ch, ord) ← bbuddy_merge base ord;
      put_page_order ch ord;;
      map_free base freed_pages;;
      hlist_add_head ch ord;;
      let num_pages := num_pages - freed_pages in
      if num_pages =? 0 then mret tt
      else pfree_loop fuel (u64 (base + freed_pages * PAGE_SIZE)) num_pages
  end.
Definition bbuddy_pfree (obj num_pages : Z) : MB unit :=
  UK_ASSERT (negb (obj =? 0));;
  UK_ASSERT (negb (num_pages =? 0));;
  UK_ASSERT (PAGE_ALIGN_DOWN obj =? obj);;
  pfree_loop (Z.to_nat num_pages) obj num_pages.

(** ** Queries *)

(** The biggest order whose list is not empty; shifting an int by 31 or more is undefined. *)
Fixpoint max_order (l : list (list Z)) (i order : Z) : Z :=
  match l with
  | [] => order
  | fl :: l => max_order l (i + 1) (match fl with [] => order | _ => i end)
  end.
Definition bbuddy_pmaxalloc : MB Z :=
  l ← gets free_head;
  let order := max_order l 0 FREELIST_SIZE in
  if order =? FREELIST_SIZE then mret 0
  else UK_ASSERT (order <? 31);; mret (Z.shiftl 1 order).
Definition bbuddy_pavailmem : MB Z := n ← gets nr_free_pages; mret (swrap 64 n).

(** ** Adding memory *)

Definition sizeof_memr : Z := 40.
(** The order, plus [PAGE_SHIFT], of the next chunk. *)
Fixpoint unit_shift (n : nat) (i min range : Z) : Z :=
  match n with
  | O => i
  | S n =>
      if (Z.shiftl 1 (i + 1) <=? range) && (Z.land min (Z.shiftl 1 i) =? 0) then unit_shift n (i + 1) min range else i
  end.
Fixpoint addmem_loop (fuel : nat) (min range : Z) : MB unit :=
  if range =? 0 then mret tt
  else match fuel with
  | O => out_of_fuel
  | S fuel =>
      let i := unit_shift 51 PAGE_SHIFT min range in
      put_page_order min (i - PAGE_SHIFT);;
      hlist_add_head min (i - PAGE_SHIFT);;
      addmem_loop fuel (u64 (min + shl64 1 i)) (u64 (range - shl64 1 i))
  end.
Definition bbuddy_addmem (base len : Z) : MB Z :=
  UK_ASSERT (negb (base =? 0));;
  let min := PAGE_ALIGN_UP base in
  let max := PAGE_ALIGN_DOWN (u64 (base + len)) in
  if max <? min then mret (- EINVAL)
  else
    let range := max - min in
    if range <? PAGE_ALIGN_UP (sizeof_memr + 8) + PAGE_SIZE then mret (- EINVAL)
    else
      let pages := Z.shiftr range PAGE_SHIFT in
      let memr_size := PAGE_ALIGN_UP (sizeof_memr + (pages + 7) / 8) in
      let bitmap_size := memr_size - sizeof_memr in
      let min := min + memr_size in
      let pages := pages - Z.shiftr memr_size PAGE_SHIFT in
      modify (fun b => set_memrs (mk_memr min pages bitmap_size
                                    (replicate (Z.to_nat (bitmap_size / 8)) ULONG_MAX) :: memrs b) b);;
      map_free min pages;;
      addmem_loop (Z.to_nat pages) min (range - memr_size);;
      mret 0.

(** [metalen] is the space for the descriptor of the allocator. *)
Definition uk_allocbbuddy_init (metalen base len : Z) : outcome (option uk_bbpalloc) :=
  let min := PAGE_ALIGN_UP base in
  let max := PAGE_ALIGN_DOWN (u64 (base + len)) in
  if negb (min <? max) then Abort
  else if max <? u64 (min + metalen) then Done None
  else
    let b := mk_bbpalloc 0 (replicate (Z.to_nat FREELIST_SIZE) []) [] ∅ in
    if u64 (min + metalen) <? max then
      match bbuddy_addmem (u64 (min + metalen)) (max - u64 (min + metalen)) b with
      | Done (_, b) => Done (Some b)
      | Abort => Abort
      | OutOfFuel => OutOfFuel
      end
    else Done (Some b).
