(* ===== verification/BuddyLogic.v ===== *)
(** * The invariant of the page allocator

    Aligned blocks, the bitmaps as sets of pages, and the steps that take a chunk out of
    the free lists, put one in, and change the allocated pages. *)

From stdpp Require Import prelude gmap.
From S2P Require Import Prelude Bitmap Buddy.

(** ** Aligned blocks *)

Definition block (a e p : Z) : Prop := a <= p < a + 2 ^ e.
Definition aligned (a e : Z) : Prop := (2 ^ e | a).

Lemma aligned_le a e f : aligned a f -> 0 <= e <= f -> aligned a e.
Proof. intros Ha He. eapply Z.divide_trans; [|done]. exists (2 ^ (f - e)). rewrite <- Z.pow_add_r by lia. f_equal. lia. Qed.
Lemma aligned_add a e f : aligned a e -> 0 <= e <= f -> aligned (a + 2 ^ f) e.
Proof. intros Ha He. apply Z.divide_add_r; [done|]. apply (aligned_le _ e f); [apply Z.divide_refl|done]. Qed.
Lemma aligned_sub a e f : aligned a e -> 0 <= e <= f -> aligned (a - 2 ^ f) e.
Proof. intros Ha He. apply Z.divide_sub_r; [done|]. apply (aligned_le _ e f); [apply Z.divide_refl|done]. Qed.
Lemma pow2_pos e : 0 <= e -> 0 < 2 ^ e.
Proof. intros. apply Z.pow_pos_nonneg; lia. Qed.
Lemma pow2_S e : 0 <= e -> 2 ^ (e + 1) = 2 * 2 ^ e.
Proof. intros. rewrite Z.pow_add_r by lia. lia. Qed.
Lemma pow2_le e f : 0 <= e <= f -> 2 ^ e <= 2 ^ f.
Proof. intros. apply Z.pow_le_mono_r; lia. Qed.

(** Two aligned blocks are nested or disjoint. *)
Lemma block_nested a e b f p :
  aligned a e -> aligned b f -> 0 <= e <= f -> block a e p -> block b f p -> b <= a /\ a + 2 ^ e <= b + 2 ^ f.
Proof.
  intros [k ->] [m ->] He Ha Hb. unfold block in *. pose proof (pow2_pos e ltac:(lia)).
  replace (2 ^ f) with (2 ^ (f - e) * 2 ^ e) in * by (rewrite <- Z.pow_add_r by lia; f_equal; lia).
  pose proof (pow2_pos (f - e) ltac:(lia)). set (E := 2 ^ e) in *. set (F := 2 ^ (f - e)) in *.
  assert (m * F <= k) by nia. assert (k < m * F + F) by nia. nia.
Qed.
Lemma block_head a e b f : aligned a e -> aligned b f -> 0 <= e <= f -> block a e b -> a = b.
Proof.
  intros Ha Hb He Hp. assert (block b f b) by (unfold block; pose proof (pow2_pos f ltac:(lia)); lia).
  destruct (block_nested a e b f b); try done. unfold block in *. lia.
Qed.

Lemma lxor_1 k : Z.lxor k 1 = if Z.even k then k + 1 else k - 1.
Proof.
  destruct (Z.even k) eqn:He.
  - apply Z.even_spec in He as [m ->]. rewrite <- (Z.add_nocarry_lxor (2 * m) 1); [done|].
    apply Z.bits_inj'. intros i Hi. rewrite Z.land_spec, Z.bits_0. destruct (Z.eq_dec i 0) as [->|].
    + by rewrite Z.testbit_even_0.
    + replace 1 with (2 ^ 0) by done. rewrite Z.pow2_bits_false by lia. apply andb_false_r.
  - assert (Ho : Z.odd k = true) by (rewrite <- Z.negb_even; by rewrite He). apply Z.odd_spec in Ho as [m ->].
    replace (2 * m + 1 - 1) with (2 * m) by lia. rewrite (Z.add_nocarry_lxor (2 * m) 1).
    + rewrite Z.lxor_assoc, Z.lxor_nilpotent. apply Z.lxor_0_r.
    + apply Z.bits_inj'. intros i Hi. rewrite Z.land_spec, Z.bits_0. destruct (Z.eq_dec i 0) as [->|].
      * by rewrite Z.testbit_even_0.
      * replace 1 with (2 ^ 0) by done. rewrite Z.pow2_bits_false by lia. apply andb_false_r.
Qed.
Lemma bit_aligned a e : 0 <= e -> aligned a e -> Z.testbit a e = false <-> aligned a (e + 1).
Proof.
  intros He [k ->]. rewrite Z.mul_pow2_bits by lia. rewrite Z.sub_diag, Z.bit0_odd. split.
  - intros Ho. assert (Hev : Z.even k = true) by (rewrite <- Z.negb_odd; by rewrite Ho). apply Z.even_spec in Hev as [m ->].
    exists m. rewrite pow2_S by lia. lia.
  - intros [m Hm]. rewrite pow2_S in Hm by lia. pose proof (pow2_pos e He). replace k with (2 * m) by nia.
    rewrite <- Z.negb_even. by rewrite Z.even_mul.
Qed.
(** The buddy of an aligned block is the other half of the block of the next size. *)
Lemma buddy_spec a e : 0 <= e -> aligned a e ->
  let b := Z.lxor a (2 ^ e) in
  (b = a + 2 ^ e /\ aligned a (e + 1) /\ Z.testbit b e = true) \/ (b = a - 2 ^ e /\ aligned b (e + 1) /\ Z.testbit b e = false).
Proof.
  intros He Ha b. pose proof Ha as [k Hk].
  assert (Hb : b = Z.lxor k 1 * 2 ^ e).
  { unfold b. rewrite Hk, <- !Z.shiftl_mul_pow2 by lia. rewrite Z.shiftl_lxor. f_equal. by rewrite Z.shiftl_1_l. }
  assert (Hbit : Z.testbit b e = negb (Z.testbit a e)).
  { unfold b. rewrite Z.lxor_spec, Z.pow2_bits_true by lia. by destruct (Z.testbit a e). }
  rewrite lxor_1 in Hb. assert (Hae : Z.testbit a e = negb (Z.even k)).
  { rewrite Hk, Z.mul_pow2_bits by lia. by rewrite Z.sub_diag, Z.bit0_odd, Z.negb_even. }
  destruct (Z.even k) eqn:Hev; cbn in Hae; rewrite Hae in Hbit; cbn in Hbit; [left|right]; split_and!; try done; try lia.
  - by apply bit_aligned.
  - apply bit_aligned; [done| |done]. rewrite Hb. apply Z.divide_factor_r.
Qed.

(** ** Ranges of bits *)

Lemma shl64_pow n : 0 <= n < 64 -> shl64 1 n = 2 ^ n.
Proof.
  intros Hn. unfold shl64. rewrite Z.shiftl_1_l. apply wrap_small. split; [apply Z.pow_nonneg; lia|].
  apply Z.pow_lt_mono_r; lia.
Qed.
Lemma below_mask o i : 0 <= o < 64 -> 0 <= i -> Z.testbit (u64 (shl64 1 o - 1)) i = (i <? o).
Proof.
  intros Ho Hi. rewrite shl64_pow by done. rewrite wrap_testbit, ones_testbit by lia.
  destruct (Z.ltb_spec i 64), (Z.ltb_spec i o); try done. lia.
Qed.
Lemma above_mask o i : 0 <= o < 64 -> 0 <= i < 64 -> Z.testbit (u64 (- shl64 1 o)) i = (o <=? i).
Proof.
  intros Ho Hi. rewrite shl64_pow by done. rewrite wrap_testbit by lia. rewrite (proj2 (Z.ltb_lt i 64)) by lia. cbn [andb].
  replace (- 2 ^ o) with (Z.lnot (2 ^ o - 1)) by (unfold Z.lnot; lia). rewrite Z.lnot_spec, ones_testbit by lia. lia.
Qed.
Lemma u64_ok z : word_ok (u64 z).
Proof. apply Z.mod_pos_bound. done. Qed.
Lemma fill_from_spec v a idx n :
  words_ok a -> word_ok v -> 0 <= idx -> idx + Z.of_nat n <= zlen a ->
  exists a', fill_from v a idx n = Some a' /\ words_ok a' /\ zlen a' = zlen a /\
    forall j, bit_at a' j = if (idx <=? j / 64) && (j / 64 <? idx + Z.of_nat n) then Z.testbit v (j mod 64) else bit_at a j.
Proof.
  revert a idx. induction n as [|n IH]; intros a idx Ha Hv Hi Hn; cbn [fill_from].
  { exists a. split_and!; try done. intros j. destruct (Z.leb_spec idx (j / 64)), (Z.ltb_spec (j / 64) (idx + Z.of_nat 0)); try done; lia. }
  destruct (store_Some a idx v) as (a1 & Hs & Ha1 & Hl1 & Hb1); [lia|done|done|]. rewrite Hs. cbn [mbind option_bind].
  destruct (IH a1 (idx + 1)) as (a2 & He & Ha2 & Hl2 & Hb2); [done|done|lia|lia|]. exists a2. split_and!; [done|done|lia|].
  intros j. rewrite Hb2, Hb1.
  destruct (Z.leb_spec (idx + 1) (j / 64)), (Z.leb_spec idx (j / 64)), (Z.ltb_spec (j / 64) (idx + 1 + Z.of_nat n)),
    (Z.ltb_spec (j / 64) (idx + Z.of_nat (S n))), (Z.eqb_spec (j / 64) idx); cbn [andb]; done || lia.
Qed.

(** Rewriting the bits from [s] to [e]: the first and the last word with a mask, the words
    between them as a whole. *)
Section Words.
  Context (op : Z -> Z -> Z) (v : bool -> bool) (whole : Z) (one : Z) (first last : Z) (a : list Z) (s e : Z).
  Hypothesis op_ok : forall w m, word_ok w -> word_ok m -> word_ok (op w m).
  Hypotheses (Hone : word_ok one) (Hwhole : word_ok whole) (Hfirst : word_ok first) (Hlast : word_ok last).
  Hypothesis Hop1 : forall w i, 0 <= i < 64 -> Z.testbit (op w one) i =
    if (s mod 64 <=? i) && (i <? e mod 64) then v (Z.testbit w i) else Z.testbit w i.
  Hypothesis Hopf : forall w i, 0 <= i < 64 -> Z.testbit (op w first) i = if s mod 64 <=? i then v (Z.testbit w i) else Z.testbit w i.
  Hypothesis Hopl : forall w i, 0 <= i < 64 -> Z.testbit (op w last) i = if i <? e mod 64 then v (Z.testbit w i) else Z.testbit w i.
  Hypothesis Hopw : forall i b, 0 <= i < 64 -> Z.testbit whole i = v b.
  Hypotheses (Ha : words_ok a) (Hs : 0 <= s <= e) (He : e / 64 < zlen a).

Lemma words_spec :
  exists a', (w ← load a (s / 64);
    if s / 64 =? e / 64 then store a (s / 64) (op w one)
    else
      a ← store a (s / 64) (op w first);
      a ← fill_from whole a (s / 64 + 1) (Z.to_nat (e / 64 - s / 64 - 1));
      w ← load a (e / 64);
      store a (e / 64) (op w last)) = Some a' /\ words_ok a' /\ zlen a' = zlen a /\
    forall j, 0 <= j -> bit_at a' j = if (s <=? j) && (j <? e) then v (bit_at a j) else bit_at a j.
Proof.
  pose proof (Z.div_mod s 64 ltac:(lia)) as Hsd. pose proof (Z.mod_pos_bound s 64 ltac:(lia)) as Hsm.
  pose proof (Z.div_mod e 64 ltac:(lia)) as Hed. pose proof (Z.mod_pos_bound e 64 ltac:(lia)) as Hem.
  assert (Hjd : forall j, j = 64 * (j / 64) + j mod 64 /\ 0 <= j mod 64 < 64) by (intros j; split; [apply Z.div_mod; lia|apply Z.mod_pos_bound; lia]).
  pose proof (Z.div_le_mono s e 64 ltac:(lia) ltac:(lia)) as Hle. pose proof (Z.div_pos s 64 ltac:(lia) ltac:(lia)) as Hs0.
  destruct (load_Some a (s / 64)) as [w Hw]; [lia|]. pose proof (load_ok _ _ _ Ha Hw) as Hwok. rewrite Hw. cbn [mbind option_bind].
  assert (Hat : forall j, j / 64 = s / 64 -> bit_at a j = Z.testbit w (j mod 64)) by (intros j Hj; unfold bit_at; by rewrite Hj, Hw).
  destruct (Z.eqb_spec (s / 64) (e / 64)) as [Heq|Hne].
  - destruct (store_Some a (s / 64) (op w one)) as (a1 & Hst & Ha1 & Hl1 & Hb1); [lia|by apply op_ok|done|]. exists a1. split_and!; try done.
    intros j Hj. specialize (Hjd j). rewrite Hb1. destruct (Z.eqb_spec (j / 64) (s / 64)) as [Hj1|Hj1].
    + rewrite (Hat j Hj1), Hop1 by (apply Z.mod_pos_bound; lia).
      replace ((s <=? j) && (j <? e)) with ((s mod 64 <=? j mod 64) && (j mod 64 <? e mod 64)); [done|]. lia.
    + replace ((s <=? j) && (j <? e)) with false; [done|]. symmetry. apply andb_false_iff. rewrite Z.leb_gt, Z.ltb_ge.
      destruct (Z.lt_ge_cases j s); [by left|right]. lia.
  - destruct (store_Some a (s / 64) (op w first)) as (a1 & Hst & Ha1 & Hl1 & Hb1); [lia|by apply op_ok|done|]. rewrite Hst. cbn [mbind option_bind].
    destruct (fill_from_spec whole a1 (s / 64 + 1) (Z.to_nat (e / 64 - s / 64 - 1))) as (a2 & Hf & Ha2 & Hl2 & Hb2); [done|done|lia|lia|].
    rewrite Hf. cbn [mbind option_bind]. rewrite Z2Nat.id in Hb2 by lia.
    destruct (load_Some a2 (e / 64)) as [w2 Hw2]; [lia|]. pose proof (load_ok _ _ _ Ha2 Hw2) as Hw2ok. rewrite Hw2. cbn [mbind option_bind].
    destruct (store_Some a2 (e / 64) (op w2 last)) as (a3 & Hst3 & Ha3 & Hl3 & Hb3); [lia|by apply op_ok|done|].
    exists a3. split_and!; [done|done|lia|]. intros j Hj. specialize (Hjd j). rewrite Hb3.
    assert (Hat2 : j / 64 = e / 64 -> Z.testbit w2 (j mod 64) = bit_at a2 j) by (intros Hj2; unfold bit_at; by rewrite Hj2, Hw2).
    pose proof (Z.mod_pos_bound j 64 ltac:(lia)) as Hjm. destruct (Z.eqb_spec (j / 64) (e / 64)) as [Hj1|Hj1].
    + rewrite Hopl by done. rewrite Hat2, Hb2, Hb1 by done.
      replace ((s / 64 + 1 <=? j / 64) && (j / 64 <? s / 64 + 1 + (e / 64 - s / 64 - 1))) with false by lia.
      replace (j / 64 =? s / 64) with false by lia. replace ((s <=? j) && (j <? e)) with (j mod 64 <? e mod 64) by lia. done.
    + rewrite Hb2, Hb1. destruct (Z.leb_spec (s / 64 + 1) (j / 64)), (Z.ltb_spec (j / 64) (s / 64 + 1 + (e / 64 - s / 64 - 1))); cbn [andb].
      * replace ((s <=? j) && (j <? e)) with true by lia. by apply Hopw.
      * replace (j / 64 =? s / 64) with false by lia. replace ((s <=? j) && (j <? e)) with false by lia. done.
      * destruct (Z.eqb_spec (j / 64) (s / 64)) as [Hj2|Hj2].
        -- rewrite (Hat j Hj2), Hopf by done. replace ((s <=? j) && (j <? e)) with (s mod 64 <=? j mod 64) by lia. done.
        -- replace ((s <=? j) && (j <? e)) with false by lia. done.
      * replace (j / 64 =? s / 64) with false by lia. replace ((s <=? j) && (j <? e)) with false by lia. done.
Qed.
End Words.
Lemma alloc_words_spec a s e : words_ok a -> 0 <= s <= e -> e / 64 < zlen a ->
  exists a', alloc_words a (s / 64) (Z.land s (64 - 1)) (e / 64) (Z.land e (64 - 1)) = Some a' /\ words_ok a' /\ zlen a' = zlen a /\
    forall j, 0 <= j -> bit_at a' j = (s <=? j) && (j <? e) || bit_at a j.
Proof.
  intros Ha Hs He. pose proof (land63 s) as Hl. pose proof (land63 e) as Hl2. unfold UK_BITS_PER_LONG in Hl, Hl2.
  pose proof (Z.mod_pos_bound s 64 ltac:(lia)). pose proof (Z.mod_pos_bound e 64 ltac:(lia)).
  unfold alloc_words. rewrite Hl, Hl2. edestruct (words_spec Z.lor (fun _ => true) ULONG_MAX
    (Z.land (u64 (shl64 1 (e mod 64) - 1)) (u64 (- shl64 1 (s mod 64)))) (u64 (- shl64 1 (s mod 64))) (u64 (shl64 1 (e mod 64) - 1)) a s e)
    as (a' & E & H1 & H2 & H3); [apply lor_ok|apply land_ok, u64_ok|apply ulong_max_ok|apply u64_ok|apply u64_ok|..|done|done|done|].
  - intros w i Hi. rewrite Z.lor_spec, Z.land_spec, below_mask, above_mask by lia.
    destruct (_ <? _), (_ <=? _), (Z.testbit w i); done.
  - intros w i Hi. rewrite Z.lor_spec, above_mask by lia. by destruct (_ <=? _), (Z.testbit w i).
  - intros w i Hi. rewrite Z.lor_spec, below_mask by lia. by destruct (_ <? _), (Z.testbit w i).
  - intros i b Hi. unfold ULONG_MAX. rewrite ones_testbit by lia. lia.
  - exists a'. split_and!; [exact E|done|done|]. intros j Hj. rewrite H3 by done. by destruct (_ && _).
Qed.
Lemma free_words_spec a s e : words_ok a -> 0 <= s <= e -> e / 64 < zlen a ->
  exists a', free_words a (s / 64) (Z.land s (64 - 1)) (e / 64) (Z.land e (64 - 1)) = Some a' /\ words_ok a' /\ zlen a' = zlen a /\
    forall j, 0 <= j -> bit_at a' j = negb ((s <=? j) && (j <? e)) && bit_at a j.
Proof.
  intros Ha Hs He. pose proof (land63 s) as Hl. pose proof (land63 e) as Hl2. unfold UK_BITS_PER_LONG in Hl, Hl2.
  pose proof (Z.mod_pos_bound s 64 ltac:(lia)). pose proof (Z.mod_pos_bound e 64 ltac:(lia)).
  unfold free_words. rewrite Hl, Hl2. edestruct (words_spec Z.land (fun _ => false) 0
    (Z.lor (u64 (- shl64 1 (e mod 64))) (u64 (shl64 1 (s mod 64) - 1))) (u64 (shl64 1 (s mod 64) - 1)) (u64 (- shl64 1 (e mod 64))) a s e)
    as (a' & E & H1 & H2 & H3); [intros; by apply land_ok|apply lor_ok; apply u64_ok|done|apply u64_ok|apply u64_ok|..|done|done|done|].
  - intros w i Hi. rewrite Z.land_spec, Z.lor_spec, below_mask, above_mask by lia.
    replace (i <? s mod 64) with (negb (s mod 64 <=? i)) by lia. replace (e mod 64 <=? i) with (negb (i <? e mod 64)) by lia.
    destruct (_ <? _), (_ <=? _), (Z.testbit w i); done.
  - intros w i Hi. rewrite Z.land_spec, below_mask by lia. replace (i <? s mod 64) with (negb (s mod 64 <=? i)) by lia.
    by destruct (_ <=? _), (Z.testbit w i).
  - intros w i Hi. rewrite Z.land_spec, above_mask by lia. replace (e mod 64 <=? i) with (negb (i <? e mod 64)) by lia.
    by destruct (_ <? _), (Z.testbit w i).
  - intros i b Hi. apply Z.bits_0.
  - exists a'. split_and!; [exact E|done|done|]. intros j Hj. rewrite H3 by done. by destruct (_ && _).
Qed.

(** ** Regions *)

Definition memr_end (r : uk_bbpalloc_memr) : Z := first_page r + nr_pages r * PAGE_SIZE.
Definition contains (r : uk_bbpalloc_memr) (p : Z) : Prop := first_page r <= p < memr_end r.
Record memr_ok (r : uk_bbpalloc_memr) : Prop := {
  mo_first : 0 < first_page r;
  mo_aligned : aligned (first_page r) PAGE_SHIFT;
  mo_pages : 0 <= nr_pages r;
  mo_end : memr_end r < 2 ^ 64;
  mo_words : words_ok (mm_alloc_bitmap r);
  mo_bits : nr_pages r < 64 * zlen (mm_alloc_bitmap r)
}.
(** Regions have a gap between them, where their descriptors are. *)
Definition apart (r r' : uk_bbpalloc_memr) : Prop := memr_end r < first_page r' \/ memr_end r' < first_page r.
Record memrs_ok (l : list uk_bbpalloc_memr) : Prop := {
  ms_ok i r : l !! i = Some r -> memr_ok r;
  ms_apart i j r r' : l !! i = Some r -> l !! j = Some r' -> i <> j -> apart r r'
}.
Definition in_mem (l : list uk_bbpalloc_memr) (p : Z) : Prop := exists i r, l !! i = Some r /\ contains r p.
Definition page_bit (r : uk_bbpalloc_memr) (p : Z) : bool := bit_at (mm_alloc_bitmap r) ((p - first_page r) / PAGE_SIZE).
Definition page_free (l : list uk_bbpalloc_memr) (p : Z) : Prop :=
  exists i r, l !! i = Some r /\ contains r p /\ page_bit r p = false.

Lemma page_free_in l p : page_free l p -> in_mem l p.
Proof. intros (i & r & Hi & Hc & _). by exists i, r. Qed.
Lemma contains_unique l i j r r' p :
  memrs_ok l -> l !! i = Some r -> l !! j = Some r' -> contains r p -> contains r' p -> i = j /\ r = r'.
Proof.
  intros Hl Hi Hj Hr Hr'. destruct (decide (i = j)) as [->|Hne]; [by simplify_eq|].
  destruct (ms_apart _ Hl i j r r' Hi Hj Hne); unfold contains in *; lia.
Qed.
Lemma shl_pages n : 0 <= n * PAGE_SIZE < 2 ^ 64 -> shl64 n PAGE_SHIFT = n * PAGE_SIZE.
Proof. intros Hn. unfold shl64. rewrite Z.shiftl_mul_pow2 by done. by apply wrap_small. Qed.
Lemma memr_end_u64 r : memr_ok r -> u64 (first_page r + shl64 (nr_pages r) PAGE_SHIFT) = memr_end r.
Proof.
  intros [H1 H2 H3 H4 H5 H6]. unfold memr_end, PAGE_SIZE in *. rewrite shl_pages by (unfold PAGE_SIZE; lia).
  apply wrap_small. unfold PAGE_SIZE. lia.
Qed.
Lemma memr_index_test r p : memr_ok r ->
  (first_page r <=? p) && (p <? u64 (first_page r + shl64 (nr_pages r) PAGE_SHIFT)) = true <-> contains r p.
Proof. intros Hr. rewrite memr_end_u64 by done. rewrite andb_true_iff, Z.leb_le, Z.ltb_lt. done. Qed.
Lemma memrs_ok_cons r l : memrs_ok (r :: l) -> memr_ok r /\ memrs_ok l.
Proof.
  intros [H1 H2]. split; [by apply (H1 O)|]. split; [intros i; apply (H1 (S i))|].
  intros i j r1 r2 Hi Hj Hne. apply (H2 (S i) (S j)); [done..|congruence].
Qed.
Lemma memr_index_spec l p : memrs_ok l ->
  match memr_index l p with
  | Some i => exists r, l !! i = Some r /\ contains r p
  | None => ~ in_mem l p
  end.
Proof.
  induction l as [|r l IH]; intros Hl; cbn [memr_index]; [by intros (i & r & Hi & _); rewrite lookup_nil in Hi|].
  destruct (memrs_ok_cons r l Hl) as [Hr Hl']. pose proof (memr_index_test r p Hr) as Ht. destruct (_ && _).
  - exists r. split; [done|]. by apply Ht.
  - specialize (IH Hl'). destruct (memr_index l p) as [i|]; cbn [fmap option_fmap option_map].
    + destruct IH as (r' & Hi & Hc). by exists r'.
    + intros (i & r' & Hi & Hc). destruct i as [|i]; [|apply IH; by exists i, r']. cbn in Hi. simplify_eq. by apply Ht in Hc.
Qed.
Lemma get_memr_spec b p : memrs_ok (memrs b) ->
  (exists i r, map_get_memr b p = Some (i, r) /\ memrs b !! i = Some r /\ contains r p) \/
  (map_get_memr b p = None /\ ~ in_mem (memrs b) p).
Proof.
  intros Hl. pose proof (memr_index_spec (memrs b) p Hl) as Hs. unfold map_get_memr. destruct (memr_index (memrs b) p) as [i|]; cbn [mbind option_bind].
  - destruct Hs as (r & Hi & Hc). left. exists i, r. rewrite Hi. done.
  - by right.
Qed.
Lemma page_index_spec r p : memr_ok r -> contains r p ->
  page_index r p = (p - first_page r) / PAGE_SIZE /\ 0 <= page_index r p < nr_pages r.
Proof.
  intros Hr Hc. destruct Hr as [H1 H2 H3 H4 H5 H6]. unfold page_index, contains, memr_end, PAGE_SIZE in *.
  rewrite wrap_small by lia. rewrite Z.shiftr_div_pow2 by done. change (2 ^ PAGE_SHIFT) with 4096. split; [done|].
  split; [apply Z.div_pos; lia|]. apply Z.div_lt_upper_bound; lia.
Qed.
Lemma allocated_spec b p (Q : bool -> uk_bbpalloc -> Prop) :
  memrs_ok (memrs b) -> (forall a : bool, (a = false <-> page_free (memrs b) p) -> Q a b) -> wp (allocated_in_map p) Q b.
Proof.
  intros Hl HQ. unfold allocated_in_map. apply wp_bind. unfold wp at 1, gets. cbn beta iota. unfold id.
  destruct (get_memr_spec b p Hl) as [(i & r & -> & Hi & Hc)|(-> & Hn)].
  - pose proof (ms_ok _ Hl _ _ Hi) as Hr. destruct (page_index_spec r p Hr Hc) as [He Hb].
    destruct (load_Some (mm_alloc_bitmap r) (page_index r p / 64)) as [w Hw].
    { pose proof (mo_bits _ Hr). split; [apply Z.div_pos; lia|]. apply Z.div_lt_upper_bound; lia. }
    apply wp_bind. eapply wp_deref; [done|]. apply wp_ret, HQ.
    pose proof (land63 (page_index r p)) as Hl63. unfold UK_BITS_PER_LONG in Hl63. rewrite Hl63.
    pose proof (Z.mod_pos_bound (page_index r p) 64 ltac:(lia)). rewrite shl64_pow by lia.
    rewrite <- Z.shiftl_1_l, land_bit by lia.
    assert (Hpb : page_bit r p = Z.testbit w (page_index r p mod 64)) by (unfold page_bit, bit_at; by rewrite <- He, Hw).
    rewrite <- Hpb. split; [intros; by exists i, r|]. intros (j & r' & Hj & Hc' & Hb').
    destruct (contains_unique _ _ _ _ _ p Hl Hi Hj Hc Hc') as [_ ->]. done.
  - apply wp_ret, HQ. split; [done|]. intros Hf%page_free_in. done.
Qed.

(** ** Counting *)

Fixpoint cnt (f : nat -> bool) (n : nat) : Z := match n with O => 0 | S n => cnt f n + (if f n then 1 else 0) end.
Lemma cnt_ext f g n : (forall i, (i < n)%nat -> f i = g i) -> cnt f n = cnt g n.
Proof. induction n as [|n IH]; intros H; cbn; [done|]. rewrite IH by (intros; apply H; lia). by rewrite H by lia. Qed.
Lemma cnt_range f g (n s e : nat) : (s <= e <= n)%nat ->
  (forall i, (i < n)%nat -> ~ (s <= i < e)%nat -> g i = f i) -> (forall i, (s <= i < e)%nat -> f i = false /\ g i = true) ->
  cnt g n = cnt f n + Z.of_nat (e - s).
Proof.
  revert e. induction n as [|n IH]; intros e Hn Ho Hi; [cbn; lia|]. cbn [cnt]. destruct (decide (e = S n)) as [->|Hne].
  - destruct (decide (s = S n)) as [->|Hs].
    + rewrite (cnt_ext g f n) by (intros; apply Ho; lia). rewrite (Ho n) by lia. lia.
    + rewrite (IH n); [|lia|intros; apply Ho; lia|intros; apply Hi; lia]. destruct (Hi n) as [-> ->]; [lia|]. lia.
  - rewrite (IH e); [|lia|intros; apply Ho; lia|done]. rewrite (Ho n) by lia. lia.
Qed.
Definition memr_free (r : uk_bbpalloc_memr) : Z :=
  cnt (fun i => negb (bit_at (mm_alloc_bitmap r) (Z.of_nat i))) (Z.to_nat (nr_pages r)).
Fixpoint free_count (l : list uk_bbpalloc_memr) : Z := match l with [] => 0 | r :: l => memr_free r + free_count l end.
Lemma free_count_insert l i r r' : l !! i = Some r -> free_count (<[i := r']> l) = free_count l - memr_free r + memr_free r'.
Proof.
  revert i. induction l as [|x l IH]; intros [|i] Hi; [done..|cbn in *; simplify_eq; lia|].
  change (memr_free x + free_count (<[i := r']> l) = memr_free x + free_count l - memr_free r + memr_free r'). rewrite (IH i) by done. lia.
Qed.

(** ** Changing the allocated pages *)

(** [l'] is [l] with the pages in [R] free or not free, as [v] says. *)
Record updated (v : bool) (R : Z -> Prop) (l l' : list uk_bbpalloc_memr) : Prop := {
  up_ok : memrs_ok l';
  up_shape i : (fun r => (first_page r, nr_pages r)) <$> l' !! i = (fun r => (first_page r, nr_pages r)) <$> l !! i;
  up_free p : aligned p PAGE_SHIFT -> page_free l' p <-> if v then page_free l p \/ R p else page_free l p /\ ~ R p
}.
Lemma contains_next l i r p :
  memrs_ok l -> l !! i = Some r -> aligned p PAGE_SHIFT -> contains r p -> in_mem l (p + PAGE_SIZE) -> contains r (p + PAGE_SIZE).
Proof.
  intros Hl Hi Hp Hc (j & r' & Hj & Hc'). destruct (decide (i = j)) as [->|Hne]; [by simplify_eq|]. exfalso.
  pose proof (ms_ok _ Hl _ _ Hi) as [H1 [k H2] H3 H4 H5 H6]. pose proof (ms_ok _ Hl _ _ Hj) as [H1' [k' H2'] H3' H4' H5' H6'].
  destruct Hp as [m ->]. change (2 ^ PAGE_SHIFT) with 4096 in *.
  destruct (ms_apart _ Hl i j r r' Hi Hj Hne); unfold contains, memr_end, PAGE_SIZE in *; lia.
Qed.
Lemma contains_run l i r p n :
  memrs_ok l -> l !! i = Some r -> aligned p PAGE_SHIFT -> contains r p -> 0 < n ->
  (forall k, 0 <= k < n -> in_mem l (p + k * PAGE_SIZE)) -> p + n * PAGE_SIZE <= memr_end r.
Proof.
  intros Hl Hi Hp Hc Hn Hk. assert (Hall : forall k : nat, Z.of_nat k < n -> contains r (p + Z.of_nat k * PAGE_SIZE)).
  { induction k as [|k IH]; intros Hkn; [by rewrite Z.mul_0_l, Z.add_0_r|].
    replace (p + Z.of_nat (S k) * PAGE_SIZE) with (p + Z.of_nat k * PAGE_SIZE + PAGE_SIZE) by (unfold PAGE_SIZE; lia).
    eapply (contains_next l i r); [done|done| |apply IH; lia|].
    - destruct Hp as [m ->]. exists (m + Z.of_nat k). unfold PAGE_SIZE. change (2 ^ PAGE_SHIFT) with 4096. lia.
    - replace (p + Z.of_nat k * PAGE_SIZE + PAGE_SIZE) with (p + Z.of_nat (S k) * PAGE_SIZE) by (unfold PAGE_SIZE; lia). apply Hk. lia. }
  specialize (Hall (Z.to_nat (n - 1)) ltac:(lia)). rewrite Z2Nat.id in Hall by lia.
  pose proof (ms_ok _ Hl _ _ Hi) as [H1 [k H2] H3 H4 H5 H6]. destruct Hp as [m ->]. change (2 ^ PAGE_SHIFT) with 4096 in *.
  unfold contains, memr_end, PAGE_SIZE in *. lia.
Qed.
Definition range (p n q : Z) : Prop := p <= q < p + n * PAGE_SIZE.
Definition words_update (v : bool) (words : list Z -> Z -> Z -> Z -> Z -> option (list Z)) : Prop := forall a s e,
  words_ok a -> 0 <= s <= e -> e / 64 < zlen a ->
  exists a', words a (s / 64) (Z.land s (64 - 1)) (e / 64) (Z.land e (64 - 1)) = Some a' /\ words_ok a' /\ zlen a' = zlen a /\
    forall j, 0 <= j -> bit_at a' j = if (s <=? j) && (j <? e) then negb v else bit_at a j.
Lemma alloc_words_update : words_update false alloc_words.
Proof.
  intros a s e Ha Hs He. destruct (alloc_words_spec a s e Ha Hs He) as (a' & H1 & H2 & H3 & H4). by exists a'.
Qed.
Lemma free_words_update : words_update true free_words.
Proof.
  intros a s e Ha Hs He. destruct (free_words_spec a s e Ha Hs He) as (a' & H1 & H2 & H3 & H4). exists a'. split_and!; try done.
  intros j Hj. rewrite H4 by done. by destruct ((s <=? j) && (j <? e)).
Qed.

Section Update.
  Context (v : bool) (l : list uk_bbpalloc_memr) (i : nat) (r : uk_bbpalloc_memr) (a' : list Z) (p n : Z).
  Hypotheses (Hl : memrs_ok l) (Hi : l !! i = Some r) (Hp : aligned p PAGE_SHIFT) (Hn : 0 < n) (Hc : contains r p).
  Hypothesis Hend : p + n * PAGE_SIZE <= memr_end r.
  Hypotheses (Ha : words_ok a') (Hlen : zlen a' = zlen (mm_alloc_bitmap r)).
  #[local] Abbreviation s := ((p - first_page r) / PAGE_SIZE).
  Hypothesis Hbits : forall j, 0 <= j ->
    bit_at a' j = if (s <=? j) && (j <? s + n) then negb v else bit_at (mm_alloc_bitmap r) j.

Lemma update_shape j :
  (fun r => (first_page r, nr_pages r)) <$> <[i := set_bitmap a' r]> l !! j = (fun r => (first_page r, nr_pages r)) <$> l !! j.
Proof.
  destruct (decide (j = i)) as [->|Hne]; [|by rewrite list_lookup_insert_ne].
  rewrite list_lookup_insert_eq by (by eapply lookup_lt_Some). by rewrite Hi.
Qed.
Lemma update_lookup j r' : <[i := set_bitmap a' r]> l !! j = Some r' ->
  exists r0, l !! j = Some r0 /\ first_page r' = first_page r0 /\ nr_pages r' = nr_pages r0 /\
    ((j = i /\ r0 = r /\ r' = set_bitmap a' r) \/ (j <> i /\ r' = r0)).
Proof.
  destruct (decide (j = i)) as [->|Hne].
  - rewrite list_lookup_insert_eq by (by eapply lookup_lt_Some). intros [= <-]. exists r. split_and!; [done..|by left].
  - rewrite list_lookup_insert_ne by done. intros Hj. exists r'. split_and!; [done..|by right].
Qed.
Lemma update_ok : memrs_ok (<[i := set_bitmap a' r]> l).
Proof.
  split.
  - intros j r' Hj. destruct (update_lookup j r' Hj) as (r0 & Hj0 & Hf & Hnr & [(-> & -> & ->)|[_ ->]]); [|by apply (ms_ok _ Hl j)].
    destruct (ms_ok _ Hl _ _ Hi) as [H1 H2 H3 H4 H5 H6]. split; try done. cbn. by rewrite Hlen.
  - intros j k r1 r2 Hj Hk Hne. destruct (update_lookup j r1 Hj) as (r10 & Hj0 & Hf1 & Hn1 & _).
    destruct (update_lookup k r2 Hk) as (r20 & Hk0 & Hf2 & Hn2 & _). pose proof (ms_apart _ Hl j k _ _ Hj0 Hk0 Hne) as Hap.
    unfold apart, memr_end in *. by rewrite Hf1, Hf2, Hn1, Hn2.
Qed.
Lemma update_bit q : aligned q PAGE_SHIFT -> contains r q ->
  page_bit (set_bitmap a' r) q = if bool_decide (range p n q) then negb v else page_bit r q.
Proof.
  intros Hq Hcq. unfold page_bit. cbn [mm_alloc_bitmap first_page set_bitmap].
  pose proof (mo_aligned _ (ms_ok _ Hl _ _ Hi)) as [k Hk]. destruct Hq as [m Hm]. destruct Hp as [u Hu]. change (2 ^ PAGE_SHIFT) with 4096 in *.
  unfold contains, memr_end, PAGE_SIZE in *. rewrite Hbits by (apply Z.div_pos; lia).
  replace ((p - first_page r) / 4096) with (u - k) by (rewrite Hk, Hu, <- Z.mul_sub_distr_r, Z.div_mul; lia).
  replace ((q - first_page r) / 4096) with (m - k) by (rewrite Hk, Hm, <- Z.mul_sub_distr_r, Z.div_mul; lia).
  unfold range, PAGE_SIZE. case_bool_decide; destruct (Z.leb_spec (u - k) (m - k)), (Z.ltb_spec (m - k) (u - k + n)); cbn [andb]; done || lia.
Qed.
Lemma range_contains q : range p n q -> contains r q.
Proof. unfold range, contains in *. lia. Qed.
Lemma update_free q : aligned q PAGE_SHIFT ->
  page_free (<[i := set_bitmap a' r]> l) q <-> if v then page_free l q \/ range p n q else page_free l q /\ ~ range p n q.
Proof.
  intros Hq. assert (Hlk : <[i := set_bitmap a' r]> l !! i = Some (set_bitmap a' r)) by (apply list_lookup_insert_eq; by eapply lookup_lt_Some).
  assert (Hold : forall j r', l !! j = Some r' -> contains r' q -> j <> i -> ~ range p n q).
  { intros j r' Hj Hcj Hne Hr. by destruct (contains_unique l j i r' r q) as [-> _]; [..|apply range_contains|]. }
  assert (Hin : contains r q -> page_free (<[i := set_bitmap a' r]> l) q <-> page_bit (set_bitmap a' r) q = false).
  { intros Hcq. split; [|intros; by exists i, (set_bitmap a' r)]. intros (j & r' & Hj & Hcj & Hb).
    destruct (contains_unique _ j i r' (set_bitmap a' r) q update_ok Hj Hlk Hcj Hcq) as [_ ->]. done. }
  assert (Hin0 : contains r q -> page_free l q <-> page_bit r q = false).
  { intros Hcq. split; [|intros; by exists i, r]. intros (j & r' & Hj & Hcj & Hb).
    by destruct (contains_unique l j i r' r q Hl Hj Hi Hcj Hcq) as [_ ->]. }
  destruct (decide (first_page r <= q < memr_end r)) as [Hcq|Hncq].
  - specialize (Hin Hcq). specialize (Hin0 Hcq). rewrite update_bit in Hin by done. rewrite Hin. clear Hin Hold.
    case_bool_decide; destruct v; cbn [negb]; intuition congruence.
  - assert (Hnr : ~ range p n q) by (intros Hr%range_contains; done).
    assert (Heq : page_free (<[i := set_bitmap a' r]> l) q <-> page_free l q).
    { split; intros (j & r' & Hj & Hcj & Hb).
      - destruct (update_lookup j r' Hj) as (r0 & Hj0 & _ & _ & [(-> & -> & ->)|[_ ->]]); [done|by exists j, r0].
      - exists j, r'. rewrite list_lookup_insert_ne; [done|]. intros ->. simplify_eq. done. }
    destruct v; tauto.
Qed.
Lemma update_count : (forall q, aligned q PAGE_SHIFT -> range p n q -> page_bit r q = v) ->
  free_count (<[i := set_bitmap a' r]> l) = free_count l + if v then n else - n.
Proof.
  intros Hold. rewrite (free_count_insert _ _ r) by done. pose proof (mo_aligned _ (ms_ok _ Hl _ _ Hi)) as [k Hk]. destruct Hp as [u Hu].
  change (2 ^ PAGE_SHIFT) with 4096 in *. assert (Hs : s = u - k) by (rewrite Hk, Hu; unfold PAGE_SIZE; rewrite <- Z.mul_sub_distr_r, Z.div_mul; lia).
  rewrite Hs in Hbits. unfold contains, memr_end, PAGE_SIZE in *.
  assert (Hr : forall j : nat, (Z.to_nat (u - k) <= j < Z.to_nat (u - k + n))%nat -> bit_at (mm_alloc_bitmap r) (Z.of_nat j) = v /\ bit_at a' (Z.of_nat j) = negb v).
  { intros j Hj. rewrite Hbits by lia. replace ((u - k <=? Z.of_nat j) && (Z.of_nat j <? u - k + n)) with true by lia. split; [|done].
    rewrite <- (Hold ((k + Z.of_nat j) * 4096)); [|by exists (k + Z.of_nat j)|unfold range, PAGE_SIZE; lia]. unfold page_bit.
    f_equal. rewrite Hk, <- Z.mul_sub_distr_r. unfold PAGE_SIZE. rewrite Z.div_mul by lia. lia. }
  assert (Ho : forall j : nat, ~ (Z.to_nat (u - k) <= j < Z.to_nat (u - k + n))%nat -> bit_at a' (Z.of_nat j) = bit_at (mm_alloc_bitmap r) (Z.of_nat j)).
  { intros j Hj. rewrite Hbits by lia. by replace ((u - k <=? Z.of_nat j) && (Z.of_nat j <? u - k + n)) with false by lia. }
  unfold memr_free. cbn [nr_pages mm_alloc_bitmap set_bitmap]. destruct v.
  - rewrite (cnt_range (fun i => negb (bit_at (mm_alloc_bitmap r) (Z.of_nat i))) (fun i => negb (bit_at a' (Z.of_nat i)))
      _ (Z.to_nat (u - k)) (Z.to_nat (u - k + n))); [lia|lia|intros j _ Hj; by rewrite Ho|intros j Hj; by destruct (Hr j Hj) as [-> ->]].
  - rewrite (cnt_range (fun i => negb (bit_at a' (Z.of_nat i))) (fun i => negb (bit_at (mm_alloc_bitmap r) (Z.of_nat i)))
      _ (Z.to_nat (u - k)) (Z.to_nat (u - k + n))); [lia|lia|intros j _ Hj; by rewrite Ho|intros j Hj; by destruct (Hr j Hj) as [-> ->]].
Qed.
End Update.

Lemma map_update_spec v words b p n :
  words_update v words -> memrs_ok (memrs b) -> aligned p PAGE_SHIFT -> 0 < n ->
  (forall q, aligned q PAGE_SHIFT -> range p n q -> in_mem (memrs b) q) ->
  wp (map_update words p n) (fun _ b' => exists l', b' = set_memrs l' b /\ updated v (range p n) (memrs b) l' /\
    ((forall q, aligned q PAGE_SHIFT -> range p n q -> page_free (memrs b) q <-> v = false) ->
     free_count l' = free_count (memrs b) + if v then n else - n)) b.
Proof.
  intros Hw Hl Hp Hn Hin. assert (Hpin : in_mem (memrs b) p) by (apply Hin; [done|unfold range, PAGE_SIZE; lia]).
  destruct (get_memr_spec b p Hl) as [(i & r & Hg & Hi & Hc)|(_ & Hno)]; [|done].
  assert (Hend : p + n * PAGE_SIZE <= memr_end r).
  { eapply (contains_run (memrs b) i r); try done. intros k Hk. apply Hin; [|unfold range, PAGE_SIZE; lia].
    destruct Hp as [m ->]. exists (m + k). unfold PAGE_SIZE. change (2 ^ PAGE_SHIFT) with 4096. lia. }
  pose proof (ms_ok _ Hl _ _ Hi) as Hr. destruct (page_index_spec r p Hr Hc) as [Hpi Hpb].
  assert (Hpn : page_index r p + n <= nr_pages r).
  { rewrite Hpi. destruct Hp as [m Hm]. destruct (mo_aligned _ Hr) as [k Hk]. change (2 ^ PAGE_SHIFT) with 4096 in *.
    replace ((p - first_page r) / PAGE_SIZE) with (m - k) by (rewrite Hm, Hk, <- Z.mul_sub_distr_r; unfold PAGE_SIZE; rewrite Z.div_mul; lia).
    unfold memr_end, PAGE_SIZE in *. lia. }
  pose proof Hr as [R1 R2 R3 R4 R5 R6]. assert (Hn64 : nr_pages r < 2 ^ 64) by (unfold memr_end, PAGE_SIZE in *; lia).
  destruct (Hw (mm_alloc_bitmap r) (page_index r p) (page_index r p + n)) as (a' & Ha & Hok & Hlen & Hbits); [done|lia| |].
  { apply Z.div_lt_upper_bound; lia. }
  apply wp_bind, wp_gets. unfold id. apply wp_bind. eapply wp_deref; [done|]. apply wp_bind, wp_assert.
  { rewrite memr_end_u64 by done. rewrite shl_pages by (unfold contains, memr_end, PAGE_SIZE in *; lia).
    rewrite wrap_small by (unfold contains, memr_end, PAGE_SIZE in *; lia). by apply Z.leb_le. }
  rewrite (wrap_small 64 (page_index r p + n)) by lia. apply wp_bind. eapply wp_deref; [exact Ha|]. apply wp_modify.
  rewrite Hpi in Hbits. exists (<[i := set_bitmap a' r]> (memrs b)). split; [done|]. split.
  - split; [by apply update_ok|by apply update_shape|]. intros q Hq. by apply update_free.
  - intros Hold. apply (update_count v (memrs b) i r a' p n); try done. intros q Hq Hrq. specialize (Hold q Hq Hrq).
    assert (Hcq : contains r q) by (unfold range, contains in *; lia).
    assert (Hpf : page_free (memrs b) q <-> page_bit r q = false).
    { split; [|intros; by exists i, r]. intros (j & r' & Hj & Hcj & Hb). by destruct (contains_unique _ j i r' r q Hl Hj Hi Hcj Hcq) as [_ ->]. }
    rewrite Hpf in Hold. destruct v, (page_bit r q); intuition congruence.
Qed.

(** ** The invariant *)

Definition linked (b : uk_bbpalloc) (a ord : Z) : Prop :=
  0 <= ord /\ exists fl, free_head b !! Z.to_nat ord = Some fl /\ a ∈ fl.
Definition chunk (a ord p : Z) : Prop := block a (ord + PAGE_SHIFT) p.
(** The pages [U] are in the hands of the operation that runs: they are in no chunk of the
    free lists.  All other free pages are. *)
Record buddy_inv (b : uk_bbpalloc) (U : Z -> Prop) : Prop := {
  bi_lists : zlen (free_head b) = FREELIST_SIZE;
  bi_memrs : memrs_ok (memrs b);
  bi_order a ord : linked b a ord -> page_order b !! a = Some ord;
  bi_aligned a ord : linked b a ord -> aligned a (ord + PAGE_SHIFT);
  bi_free a ord p : linked b a ord -> aligned p PAGE_SHIFT -> chunk a ord p -> page_free (memrs b) p /\ ~ U p;
  bi_cover p : aligned p PAGE_SHIFT -> page_free (memrs b) p -> ~ U p -> exists a ord, linked b a ord /\ chunk a ord p;
  bi_disjoint a ord a' ord' p : linked b a ord -> linked b a' ord' -> chunk a ord p -> chunk a' ord' p -> a = a' /\ ord = ord';
  bi_coalesced a ord : linked b a ord -> ord < FREELIST_SIZE - 1 -> ~ linked b (Z.lxor a (2 ^ (ord + PAGE_SHIFT))) ord;
  bi_count : nr_free_pages b = u64 (free_count (memrs b))
}.

Lemma linked_ord b U a ord : buddy_inv b U -> linked b a ord -> 0 <= ord < FREELIST_SIZE.
Proof.
  intros Hb (H0 & fl & Hfl & _). apply lookup_lt_Some in Hfl. pose proof (bi_lists _ _ Hb). unfold zlen in *. lia.
Qed.
Lemma is_linked_spec b a : is_linked a (free_head b) = true <-> exists ord, linked b a ord.
Proof.
  unfold is_linked. rewrite existsb_exists. split.
  - intros (fl & Hin & Ha%bool_decide_eq_true). apply list_elem_of_In, list_elem_of_lookup in Hin as [i Hi].
    exists (Z.of_nat i). split; [lia|]. exists fl. by rewrite Nat2Z.id.
  - intros (ord & H0 & fl & Hfl & Ha). exists fl. split; [by eapply list_elem_of_In, list_elem_of_lookup_2|by apply bool_decide_eq_true].
Qed.

(** ** Linking and unlinking *)

Definition unlink_chunk (a : Z) (b : uk_bbpalloc) : uk_bbpalloc := set_free_head (map (filter (fun x => x <> a)) (free_head b)) b.
Lemma unlink_linked a b x o : linked (unlink_chunk a b) x o <-> linked b x o /\ x <> a.
Proof.
  unfold linked, unlink_chunk. cbn [free_head set_free_head]. split.
  - intros (H0 & fl & Hfl & Hx). rewrite list_lookup_fmap in Hfl. apply fmap_Some in Hfl as (fl0 & Hfl0 & ->).
    apply list_elem_of_filter in Hx as [Hne Hx]. split; [|done]. split; [done|]. by exists fl0.
  - intros ((H0 & fl & Hfl & Hx) & Hne). split; [done|]. exists (filter (fun x => x <> a) fl). rewrite list_lookup_fmap, Hfl.
    split; [done|]. by apply list_elem_of_filter.
Qed.
Lemma unlink_inv b U a ord :
  buddy_inv b U -> linked b a ord -> buddy_inv (unlink_chunk a b) (fun p => U p \/ chunk a ord p).
Proof.
  intros Hb Hl. pose proof Hb as [B1 B2 B3 B4 B5 B6 B7 B8 B9]. split; try done.
  - unfold unlink_chunk, zlen in *. cbn [free_head set_free_head]. by rewrite length_fmap.
  - intros x o [Hx _]%unlink_linked. by apply B3.
  - intros x o [Hx _]%unlink_linked. by apply B4.
  - intros x o p [Hx Hne]%unlink_linked Hp Hc. destruct (B5 x o p Hx Hp Hc) as [Hf Hu]. split; [done|]. intros [?|Hc']; [done|].
    by destruct (B7 x o a ord p Hx Hl Hc Hc').
  - intros p Hp Hf Hu. destruct (B6 p Hp Hf) as (x & o & Hx & Hc); [tauto|]. exists x, o. split; [|done]. apply unlink_linked.
    split; [done|]. intros ->. apply Hu. right. pose proof (B3 _ _ Hx). pose proof (B3 _ _ Hl). by simplify_eq.
  - intros x o x' o' p [Hx _]%unlink_linked [Hx' _]%unlink_linked. by apply B7.
  - intros x o [Hx _]%unlink_linked Ho [Hx' _]%unlink_linked. by apply (B8 x o).
Qed.
Lemma hlist_del_spec b a ord (Q : unit -> uk_bbpalloc -> Prop) : linked b a ord -> Q tt (unlink_chunk a b) -> wp (hlist_del a) Q b.
Proof.
  intros Hl HQ. apply wp_bind, wp_gets, wp_bind, wp_assert; [apply is_linked_spec; by exists ord|]. by apply wp_modify.
Qed.

Definition link_chunk (a ord : Z) (b : uk_bbpalloc) : uk_bbpalloc :=
  set_free_head (alter (cons a) (Z.to_nat ord) (free_head b)) (set_page_order (<[a := ord]> (page_order b)) b).
Lemma link_linked a ord b x o : 0 <= ord < zlen (free_head b) ->
  linked (link_chunk a ord b) x o <-> linked b x o \/ (x = a /\ o = ord).
Proof.
  intros Ho. unfold linked, link_chunk. cbn [free_head set_free_head]. destruct (lookup_lt_is_Some_2 (free_head b) (Z.to_nat ord)) as [fl0 Hfl0].
  { unfold zlen in Ho. lia. }
  destruct (decide (o = ord)) as [->|Hne].
  - rewrite list_lookup_alter_eq, Hfl0. split.
    + intros (_ & fl & [= <-] & Hx). apply elem_of_cons in Hx as [->|Hx]; [by right|left]. split; [lia|]. by exists fl0.
    + intros [(_ & fl & [= <-] & Hx)|[-> _]]; (split; [lia|]); eexists; (split; [done|]); [by right|by left].
  - split.
    + intros (H0 & fl & Hfl & Hx). left. split; [done|]. exists fl. rewrite list_lookup_alter_ne in Hfl by lia. done.
    + intros [(H0 & fl & Hfl & Hx)|[_ ?]]; [|done]. split; [done|]. exists fl. by rewrite list_lookup_alter_ne by lia.
Qed.
Lemma aligned_head a ord : 0 <= ord -> aligned a (ord + PAGE_SHIFT) -> aligned a PAGE_SHIFT /\ chunk a ord a.
Proof.
  intros Ho Ha. unfold PAGE_SHIFT in *. split; [by apply (aligned_le _ _ (ord + 12)); [|lia]|].
  unfold chunk, block, PAGE_SHIFT. pose proof (pow2_pos (ord + 12) ltac:(lia)). lia.
Qed.
(** A page in two aligned chunks makes the head of the smaller a page of the bigger. *)
Lemma chunk_meet a ord a' ord' p :
  0 <= ord -> 0 <= ord' -> aligned a (ord + PAGE_SHIFT) -> aligned a' (ord' + PAGE_SHIFT) -> chunk a ord p -> chunk a' ord' p ->
  chunk a ord a' \/ chunk a' ord' a.
Proof.
  intros Ho Ho' Ha Ha' Hc Hc'. unfold chunk, PAGE_SHIFT in *. destruct (Z.le_ge_cases ord ord').
  - right. pose proof (block_nested a (ord + 12) a' (ord' + 12) p Ha Ha' ltac:(lia) Hc Hc'). pose proof (pow2_pos (ord + 12) ltac:(lia)).
    unfold block. lia.
  - left. pose proof (block_nested a' (ord' + 12) a (ord + 12) p Ha' Ha ltac:(lia) Hc' Hc). pose proof (pow2_pos (ord' + 12) ltac:(lia)).
    unfold block. lia.
Qed.
Lemma link_inv b U a ord :
  buddy_inv b U -> 0 <= ord < FREELIST_SIZE -> aligned a (ord + PAGE_SHIFT) ->
  (forall p, aligned p PAGE_SHIFT -> chunk a ord p -> page_free (memrs b) p /\ U p) ->
  (ord < FREELIST_SIZE - 1 -> ~ linked b (Z.lxor a (2 ^ (ord + PAGE_SHIFT))) ord) ->
  buddy_inv (link_chunk a ord b) (fun p => U p /\ ~ chunk a ord p).
Proof.
  intros Hb Ho Ha Hp Hbud. pose proof Hb as [B1 B2 B3 B4 B5 B6 B7 B8 B9]. destruct (aligned_head a ord ltac:(lia) Ha) as [Ha12 Hca].
  assert (Hlk : forall x o, linked (link_chunk a ord b) x o <-> linked b x o \/ (x = a /\ o = ord)) by (intros; apply link_linked; lia).
  assert (Hout : forall x o p, linked b x o -> chunk x o p -> chunk a ord p -> False).
  { intros x o p Hx Hcx Hc. pose proof (linked_ord _ _ _ _ Hb Hx) as Hox. pose proof (B4 x o Hx) as Hxa.
    destruct (aligned_head x o ltac:(lia) Hxa) as [Hx12 Hxx].
    destruct (chunk_meet x o a ord p) as [Hm|Hm]; [lia|lia|done..| |].
    - destruct (B5 x o a Hx Ha12 Hm) as [_ Hu]. by apply Hu, Hp.
    - destruct (B5 x o x Hx Hx12 Hxx) as [_ Hu]. by apply Hu, Hp. }
  split; try done.
  - unfold link_chunk, zlen in *. cbn [free_head set_free_head]. by rewrite length_alter.
  - intros x o [Hx|[-> ->]]%Hlk; cbn; [|apply lookup_insert_eq]. rewrite lookup_insert_ne; [by apply B3|]. intros <-.
    apply (Hout a o a Hx); [|done]. apply (aligned_head a o); [|by apply B4]. apply (linked_ord _ _ _ _ Hb Hx).
  - intros x o [Hx|[-> ->]]%Hlk; [by apply B4|done].
  - intros x o p [Hx|[-> ->]]%Hlk Hp12 Hc; [|split; [by apply Hp|tauto]]. destruct (B5 x o p Hx Hp12 Hc). split; [done|tauto].
  - intros p Hp12 Hf Hu. destruct (decide (a <= p < a + 2 ^ (ord + PAGE_SHIFT))) as [Hc|Hc].
    + exists a, ord. split; [apply Hlk; by right|done].
    + destruct (B6 p Hp12 Hf) as (x & o & Hx & Hcx); [tauto|]. exists x, o. split; [apply Hlk; by left|done].
  - intros x o x' o' p [Hx|[-> ->]]%Hlk [Hx'|[-> ->]]%Hlk Hc Hc'; [by apply (B7 x o x' o' p)| | |done]; exfalso; by eapply Hout.
  - intros x o [Hx|[-> ->]]%Hlk Hlt [Hx'|[Hxa Hoo]]%Hlk; [by apply (B8 x o)| |by apply Hbud|].
    + subst o. apply Hbud; [done|]. rewrite <- Hxa, Z.lxor_assoc, Z.lxor_nilpotent, Z.lxor_0_r. done.
    + destruct (buddy_spec a (ord + PAGE_SHIFT)) as [[Hb' _]|[Hb' _]]; [unfold PAGE_SHIFT; lia|done|..];
        pose proof (pow2_pos (ord + PAGE_SHIFT) ltac:(unfold PAGE_SHIFT; lia)); lia.
Qed.
Lemma used_unlinked b U a o : buddy_inv b U -> U a -> ~ linked b a o.
Proof.
  intros Hb Hu Hl. pose proof (linked_ord _ _ _ _ Hb Hl) as Ho. destruct (aligned_head a o ltac:(lia) (bi_aligned _ _ Hb _ _ Hl)) as [H1 H2].
  by destruct (bi_free _ _ Hb a o a Hl H1 H2).
Qed.
Lemma put_order_inv b U a o : buddy_inv b U -> U a -> buddy_inv (set_page_order (<[a := o]> (page_order b)) b) U.
Proof.
  intros Hb Hu. pose proof Hb as [B1 B2 B3 B4 B5 B6 B7 B8 B9]. split; try done. intros x ox Hl. cbn.
  rewrite lookup_insert_ne; [by apply B3|]. intros <-. by apply (used_unlinked b U a ox Hb Hu).
Qed.
Lemma hlist_add_spec {A} b U a ord (m : M uk_bbpalloc A) (Q : A -> uk_bbpalloc -> Prop) :
  buddy_inv b U -> 0 <= ord < FREELIST_SIZE -> U a -> page_order b !! a = Some ord ->
  wp m Q (link_chunk a ord b) -> wp (hlist_add_head a ord;; m) Q b.
Proof.
  intros Hb Ho Hu Hpo HQ. apply wp_bind, wp_bind, wp_gets, wp_bind, wp_assert.
  { apply negb_true_iff, not_true_iff_false. intros [o Hl]%(is_linked_spec b). by apply (used_unlinked b U a o). }
  destruct (lookup_lt_is_Some_2 (free_head b) (Z.to_nat ord)) as [fl Hfl]; [pose proof (bi_lists _ _ Hb); unfold zlen in *; lia|].
  apply wp_bind. eapply wp_deref; [rewrite (proj2 (Z.ltb_ge ord 0)) by lia; exact Hfl|]. apply wp_modify.
  replace (set_free_head _ _) with (link_chunk a ord b); [done|]. unfold link_chunk. cbn. rewrite insert_id by done. destruct b. unfold set_free_head. cbn in *. f_equal.
  apply list_eq. intros i. destruct (decide (i = Z.to_nat ord)) as [->|Hne].
  - rewrite list_lookup_alter_eq, Hfl, list_lookup_insert_eq by (by eapply lookup_lt_Some). done.
  - by rewrite list_lookup_alter_ne, list_lookup_insert_ne.
Qed.
Lemma link_spec {A} b U a ord (m : M uk_bbpalloc A) (Q : A -> uk_bbpalloc -> Prop) :
  buddy_inv b U -> 0 <= ord < FREELIST_SIZE -> U a ->
  wp m Q (link_chunk a ord b) -> wp (put_page_order a ord;; hlist_add_head a ord;; m) Q b.
Proof.
  intros Hb Ho Hu HQ. apply wp_bind, wp_modify. eapply (hlist_add_spec _ U); [by apply put_order_inv|done|done|apply lookup_insert_eq|].
  unfold link_chunk in *. cbn. by rewrite insert_insert_eq.
Qed.
Lemma inv_ext b U U' :
  buddy_inv b U -> (forall p, aligned p PAGE_SHIFT -> page_free (memrs b) p -> U p <-> U' p) -> buddy_inv b U'.
Proof.
  intros [B1 B2 B3 B4 B5 B6 B7 B8 B9] HU. split; try done.
  - intros a ord p Hl Hp Hc. destruct (B5 a ord p Hl Hp Hc) as [Hf Hu]. split; [done|]. by rewrite <- HU.
  - intros p Hp Hf Hu. apply B6; [done..|]. by rewrite HU.
Qed.

(** ** Marking pages *)

Lemma u64_u64_add a n : u64 (u64 a + n) = u64 (a + n).
Proof. apply Zplus_mod_idemp_l. Qed.
Lemma map_free_spec b U p n :
  buddy_inv b U -> aligned p PAGE_SHIFT -> 0 < n ->
  (forall q, aligned q PAGE_SHIFT -> range p n q -> in_mem (memrs b) q /\ ~ page_free (memrs b) q /\ U q) ->
  wp (map_free p n) (fun _ b' => buddy_inv b' U /\ free_head b' = free_head b /\ page_order b' = page_order b /\
    updated true (range p n) (memrs b) (memrs b')) b.
Proof.
  intros Hb Hp Hn Hq. apply wp_bind. eapply wp_mono; [|apply (map_update_spec true free_words b p n free_words_update (bi_memrs _ _ Hb) Hp Hn); intros; by apply Hq].
  intros [] b1 (l' & -> & Hup & Hcnt). apply wp_modify. split; [|done].
  pose proof Hb as [B1 B2 B3 B4 B5 B6 B7 B8 B9]. split; try done.
  - apply Hup.
  - intros a ord q Hl Hq12 Hc. destruct (B5 a ord q Hl Hq12 Hc). split; [|done]. apply (up_free _ _ _ _ Hup q Hq12). by left.
  - intros q Hq12 Hf Hu. apply (up_free _ _ _ _ Hup q Hq12) in Hf as [Hf|Hr]; [by apply B6|]. by destruct (Hq q Hq12 Hr) as (_ & _ & ?).
  - cbn. rewrite B9, u64_u64_add, Hcnt; [done|]. intros q Hq12 Hr. destruct (Hq q Hq12 Hr) as (_ & ? & _). done.
Qed.
Lemma map_alloc_spec b U p n :
  buddy_inv b U -> aligned p PAGE_SHIFT -> 0 < n ->
  (forall q, aligned q PAGE_SHIFT -> range p n q -> page_free (memrs b) q /\ U q) ->
  wp (map_alloc p n) (fun _ b' => buddy_inv b' (fun q => U q /\ ~ range p n q) /\ free_head b' = free_head b /\
    page_order b' = page_order b /\ updated false (range p n) (memrs b) (memrs b')) b.
Proof.
  intros Hb Hp Hn Hq. apply wp_bind.
  eapply wp_mono; [|apply (map_update_spec false alloc_words b p n alloc_words_update (bi_memrs _ _ Hb) Hp Hn); intros; by apply page_free_in, Hq].
  intros [] b1 (l' & -> & Hup & Hcnt). apply wp_modify. split; [|done].
  pose proof Hb as [B1 B2 B3 B4 B5 B6 B7 B8 B9]. split; try done.
  - apply Hup.
  - intros a ord q Hl Hq12 Hc. destruct (B5 a ord q Hl Hq12 Hc). split; [|tauto]. apply (up_free _ _ _ _ Hup q Hq12).
    split; [done|]. intros Hr. by destruct (Hq q Hq12 Hr).
  - intros q Hq12 Hf Hu. apply (up_free _ _ _ _ Hup q Hq12) in Hf as [Hf Hr]. apply B6; [done..|]. tauto.
  - cbn. rewrite B9, <- Z.add_opp_r, u64_u64_add, Hcnt; [done|]. intros q Hq12 Hr. by destruct (Hq q Hq12 Hr).
Qed.
Lemma hand_out_inv b U ch n : buddy_inv b U ->
  (forall q, aligned q PAGE_SHIFT -> range ch n q -> ~ page_free (memrs b) q) -> buddy_inv (hand_out ch (n * PAGE_SIZE) b) U.
Proof.
  intros Hb Hq. pose proof Hb as [B1 B2 B3 B4 B5 B6 B7 B8 B9]. split; try done. intros a ord Hl. cbn. rewrite map_lookup_filter_Some.
  split; [by apply B3|]. cbn. pose proof (linked_ord _ _ _ _ Hb Hl). destruct (aligned_head a ord ltac:(lia) (B4 _ _ Hl)) as [H1 H2].
  intros Hr. apply (Hq a H1); [done|]. by apply (B5 a ord).
Qed.

(** ** Orders *)

Lemma mssbl_range n m : 0 < n < 2 ^ 64 -> uk_mssbl n = Some m -> 0 <= m < 64 /\ 2 ^ m <= n < 2 ^ (m + 1).
Proof.
  intros Hn Hm. assert (m = Z.log2 n) as ->.
  { destruct n as [|p|p]; [done| |done]. change (Some (64 - 1 - (63 - Z.log2 (Zpos p))) = Some m) in Hm. assert (64 - 1 - (63 - Z.log2 (Zpos p)) = m) by congruence. lia. }
  pose proof (Z.log2_spec n ltac:(lia)). pose proof (Z.log2_nonneg n). assert (Z.log2 n < 64) by (apply Z.log2_lt_pow2; lia).
  unfold Z.succ in *. lia.
Qed.
Lemma npages_order_spec n b (Q : Z -> uk_bbpalloc -> Prop) :
  0 < n < 2 ^ 64 -> (forall m, 0 <= m < 64 -> 2 ^ m <= n < 2 ^ (m + 1) -> Q m b) -> wp (npages_order n) Q b.
Proof.
  intros Hn HQ. apply wp_bind, wp_assert; [rewrite negb_true_iff; lia|]. destruct (mssbl_spec n) as (m & Hm & _); [unfold word_ok; lia|lia|].
  eapply wp_deref; [exact Hm|]. destruct (mssbl_range n m Hn Hm). by apply HQ.
Qed.
Lemma num_pages_to_order_spec n b (Q : Z -> uk_bbpalloc -> Prop) :
  0 < n < 2 ^ 64 -> (forall o, 0 <= o <= 64 -> n <= 2 ^ o -> (forall o', 0 <= o' -> n <= 2 ^ o' -> o <= o') -> Q o b) ->
  wp (num_pages_to_order n) Q b.
Proof.
  intros Hn HQ. apply wp_bind, wp_assert; [rewrite negb_true_iff; lia|]. destruct (Z.eqb_spec n 1) as [->|Hne].
  - apply wp_ret, HQ; [lia|done|]. intros; lia.
  - destruct (mssbl_spec (n - 1)) as (m & Hm & _); [unfold word_ok; lia|lia|]. apply wp_bind. eapply wp_deref; [exact Hm|].
    destruct (mssbl_range (n - 1) m ltac:(lia) Hm). apply wp_ret, HQ; [lia|lia|]. intros o' Ho' Hle.
    destruct (Z.le_gt_cases (m + 1) o'); [done|]. pose proof (pow2_le o' m ltac:(lia)). lia.
Qed.
