(* ===== verification/BuddyOps.v ===== *)
(** * The operations of the page allocator

    Trimming, merging, allocating, freeing and adding memory keep the invariant, and
    change the set of free pages as they should. *)

From stdpp Require Import prelude gmap.
From S2P Require Import Prelude Bitmap Buddy BuddyLogic.

Lemma bbuddy_pages ord : 0 <= ord < 64 -> BBUDDY_PAGES ord = 2 ^ ord.
Proof. apply shl64_pow. Qed.
Lemma bbuddy_len ord : 0 <= ord < FREELIST_SIZE -> BBUDDY_LEN ord = 2 ^ (ord + PAGE_SHIFT).
Proof.
  unfold FREELIST_SIZE, PAGE_SHIFT. intros Ho. unfold BBUDDY_LEN. rewrite bbuddy_pages by lia.
  rewrite Z.pow_add_r by lia. apply shl_pages. change (64 - 12) with 52 in Ho. pose proof (pow2_pos ord ltac:(lia)).
  assert (2 ^ ord <= 2 ^ 51) by (apply pow2_le; lia). unfold PAGE_SIZE. lia.
Qed.
Lemma pow_pages ord : 0 <= ord -> 2 ^ (ord + PAGE_SHIFT) = 2 ^ ord * PAGE_SIZE.
Proof. intros. by rewrite Z.pow_add_r. Qed.
Definition between (lo hi q : Z) : Prop := lo <= q < hi.

(** ** Trimming *)

(** The last chunk of order [o] of a run of free pages that ends at [hi]. *)
Lemma trim_step b U a hi e o :
  buddy_inv b U -> 0 <= o < e -> e < FREELIST_SIZE -> aligned a (e + PAGE_SHIFT) -> aligned hi (e + PAGE_SHIFT) ->
  a < hi - 2 ^ (o + PAGE_SHIFT) -> (forall q, aligned q PAGE_SHIFT -> between a hi q -> page_free (memrs b) q /\ U q) ->
  let s := hi - 2 ^ (o + PAGE_SHIFT) in
  aligned s (o + PAGE_SHIFT) /\ buddy_inv (link_chunk s o b) (fun q => U q /\ ~ chunk s o q).
Proof.
  intros Hb Ho He Ha Hhi Has Hq s. assert (Ho13 : 0 <= o + PAGE_SHIFT /\ o + PAGE_SHIFT + 1 <= e + PAGE_SHIFT) by (unfold PAGE_SHIFT; lia).
  pose proof (pow2_pos (o + PAGE_SHIFT) ltac:(lia)) as HL. assert (Hsa : aligned s (o + PAGE_SHIFT)).
  { apply aligned_sub; [|lia]. apply (aligned_le _ _ (e + PAGE_SHIFT)); [done|lia]. }
  split; [done|]. apply link_inv; try done; [lia| |].
  - intros p Hp Hc. apply Hq; [done|]. unfold chunk, block, between, s in *. lia.
  - intros _ Hl. destruct (aligned_le a (o + PAGE_SHIFT + 1) _ Ha ltac:(lia)) as [ka Hka].
    destruct (aligned_le hi (o + PAGE_SHIFT + 1) _ Hhi ltac:(lia)) as [kh Hkh]. rewrite pow2_S in Hka, Hkh by lia.
    destruct (buddy_spec s (o + PAGE_SHIFT)) as [(Hbd & [ks Hks] & _)|(Hbd & [kb Hkb] & _)]; [lia|done|..]; rewrite pow2_S in * by lia.
    + unfold s in Hks. assert (Hx : 2 ^ (o + PAGE_SHIFT) * (2 * (kh - ks) - 1) = 0) by lia. apply Z.mul_eq_0 in Hx. lia.
    + rewrite Hbd in Hl. destruct (aligned_head _ o ltac:(lia) (bi_aligned _ _ Hb _ _ Hl)) as [H12 Hcb].
      destruct (bi_free _ _ Hb _ _ _ Hl H12 Hcb) as [_ Hu]. apply Hu, Hq; [done|]. rewrite Hbd in Hkb. unfold between.
      set (L := 2 ^ (o + PAGE_SHIFT)) in *. assert (Hx : ka <= kb) by (destruct (Z.le_gt_cases ka kb); [done|]; nia).
      assert (ka * (2 * L) <= kb * (2 * L)) by (apply Z.mul_le_mono_nonneg_r; lia). lia.
Qed.
Lemma trim_loop_spec fuel a lo k e b U :
  buddy_inv b U -> 0 <= a < lo -> lo + k * PAGE_SIZE < 2 ^ 64 -> aligned lo PAGE_SHIFT -> 0 <= k < 2 ^ Z.of_nat fuel ->
  0 <= e < FREELIST_SIZE -> k < 2 ^ e -> aligned a (e + PAGE_SHIFT) -> aligned (lo + k * PAGE_SIZE) (e + PAGE_SHIFT) ->
  (forall q, aligned q PAGE_SHIFT -> between a (lo + k * PAGE_SIZE) q -> page_free (memrs b) q /\ U q) ->
  wp (trim_loop fuel k (lo + k * PAGE_SIZE)) (fun _ b' =>
    buddy_inv b' (fun q => U q /\ ~ between lo (lo + k * PAGE_SIZE) q) /\ memrs b' = memrs b) b.
Proof.
  revert k e b U. induction fuel as [|fuel IH]; intros k e b U Hb Ha H64 Hlo Hk He Hke Haa Hae Hq.
  { cbn [trim_loop]. change (2 ^ Z.of_nat 0) with 1 in Hk. replace k with 0 in * by lia. apply wp_ret. split; [|done].
    eapply inv_ext; [done|]. intros p _ _. unfold between, PAGE_SIZE. split; [intros; split; [done|lia]|tauto]. }
  cbn [trim_loop]. destruct (Z.eqb_spec k 0) as [->|Hk0].
  { apply wp_ret. split; [|done]. eapply inv_ext; [done|]. intros p _ _. unfold between, PAGE_SIZE. split; [intros; split; [done|lia]|tauto]. }
  unfold FREELIST_SIZE, PAGE_SHIFT in He. change (64 - 12) with 52 in He.
  assert (Hk51 : 2 ^ e <= 2 ^ 51) by (apply pow2_le; lia).
  apply wp_bind, npages_order_spec; [lia|]. intros o Ho Hko.
  assert (Hoe : o < e). { destruct (Z.lt_ge_cases o e); [done|]. pose proof (pow2_le e o ltac:(lia)). lia. }
  assert (Hof : o <= Z.of_nat fuel).
  { destruct (Z.le_gt_cases o (Z.of_nat fuel)); [done|]. pose proof (pow2_le (Z.of_nat (S fuel)) o ltac:(lia)). lia. }
  rewrite bbuddy_len by (unfold FREELIST_SIZE, PAGE_SHIFT; lia). rewrite bbuddy_pages by lia.
  pose proof (pow_pages o ltac:(lia)) as Hpo. rewrite (pow2_S o) in Hko by lia. pose proof (pow2_pos o ltac:(lia)) as Hpos.
  pose proof (pow2_pos (o + PAGE_SHIFT) ltac:(unfold PAGE_SHIFT; lia)) as HposL.
  replace (lo + k * PAGE_SIZE - 2 ^ (o + PAGE_SHIFT)) with (lo + (k - 2 ^ o) * PAGE_SIZE) by (rewrite Hpo; unfold PAGE_SIZE; lia).
  set (s := lo + (k - 2 ^ o) * PAGE_SIZE). assert (Hs : a < s <= lo + k * PAGE_SIZE - 2 ^ (o + PAGE_SHIFT)) by (unfold s; rewrite Hpo; unfold PAGE_SIZE in *; lia).
  rewrite (wrap_small 64 s) by lia. apply wp_bind, wp_assert; [apply Z.ltb_lt; unfold FREELIST_SIZE, PAGE_SHIFT; lia|].
  apply wp_bind, wp_assert; [apply Z.leb_le; lia|].
  assert (Hse : lo + k * PAGE_SIZE - 2 ^ (o + PAGE_SHIFT) = s) by (unfold s; rewrite Hpo; unfold PAGE_SIZE; lia).
  destruct (trim_step b U a (lo + k * PAGE_SIZE) e o) as [Hsa Hb1]; try done; [lia|unfold FREELIST_SIZE, PAGE_SHIFT; lia|lia|].
  rewrite Hse in Hsa, Hb1. destruct (aligned_head s o ltac:(lia) Hsa) as [Hs12 Hcs].
  assert (Hin : forall q, chunk s o q <-> between s (lo + k * PAGE_SIZE) q) by (intros q; unfold chunk, block, between; lia).
  eapply link_spec; [done|unfold FREELIST_SIZE, PAGE_SHIFT; lia| |].
  { apply Hq; [done|]. unfold between. lia. }
  eapply wp_mono; [|apply (IH (k - 2 ^ o) o _ _ Hb1); try done].
  - intros [] b' [Hb' Hm]. split; [|done]. eapply inv_ext; [done|]. intros p _ _. cbn beta. rewrite Hin. fold s.
    assert (between lo (lo + k * PAGE_SIZE) p <-> between lo s p \/ between s (lo + k * PAGE_SIZE) p) by (unfold between, s, PAGE_SIZE in *; lia). tauto.
  - fold s. lia.
  - pose proof (pow2_le o (Z.of_nat fuel) ltac:(lia)). lia.
  - unfold FREELIST_SIZE, PAGE_SHIFT. lia.
  - lia.
  - apply (aligned_le _ _ (e + PAGE_SHIFT)); [done|unfold PAGE_SHIFT; lia].
  - intros q Hq12 Hqb. destruct (Hq q Hq12) as [Hf Hu]; [unfold between in *; fold s in Hqb; lia|]. split; [done|]. split; [done|].
    rewrite Hin. unfold between in *. fold s in Hqb. lia.
Qed.

(** ** Allocation *)

Definition nowhere (_ : Z) : Prop := False.
Lemma find_order_spec l o : let r := find_order l o in
  o <= r <= o + zlen l /\ (forall i, o <= i < r -> l !! Z.to_nat (i - o) = Some []) /\
  (r < o + zlen l -> exists x fl, l !! Z.to_nat (r - o) = Some (x :: fl)).
Proof.
  revert o. induction l as [|fl l IH]; intros o r; cbn [find_order] in r; subst r.
  { unfold zlen. cbn. split_and!; [lia..|intros; lia|lia]. }
  unfold zlen in *. cbn [length]. destruct fl as [|x fl].
  - destruct (IH (o + 1)) as (H1 & H2 & H3). split_and!; [lia|lia| |].
    + intros i Hi. destruct (Z.eq_dec i o) as [->|Hne]; [by rewrite Z.sub_diag|].
      replace (Z.to_nat (i - o)) with (S (Z.to_nat (i - (o + 1)))) by lia. cbn. apply H2. lia.
    + intros Hr. destruct H3 as (x & fl & H3); [lia|]. exists x, fl.
      replace (Z.to_nat (find_order l (o + 1) - o)) with (S (Z.to_nat (find_order l (o + 1) - (o + 1)))) by lia. done.
  - split_and!; [lia|lia|intros; lia|]. intros _. exists x, fl. by rewrite Z.sub_diag.
Qed.
Lemma linked_bound b U a o : buddy_inv b U -> linked b a o -> 0 < a /\ a + 2 ^ (o + PAGE_SHIFT) < 2 ^ 64.
Proof.
  intros Hb Hl. pose proof (linked_ord _ _ _ _ Hb Hl) as Ho. pose proof (bi_aligned _ _ Hb _ _ Hl) as Ha.
  destruct (aligned_head a o ltac:(lia) Ha) as [Ha12 Hca]. destruct (bi_free _ _ Hb a o a Hl Ha12 Hca) as [(i & r & Hi & Hc & _) _].
  pose proof (ms_ok _ (bi_memrs _ _ Hb) _ _ Hi) as Hr. rewrite pow_pages by lia. pose proof (pow2_pos o ltac:(lia)).
  assert (Hend : a + 2 ^ o * PAGE_SIZE <= memr_end r).
  { apply (contains_run (memrs b) i r); try done; [apply Hb|]. intros k Hk. apply page_free_in. apply (bi_free _ _ Hb a o); [done|..].
    - destruct Ha12 as [m ->]. exists (m + k). unfold PAGE_SIZE. change (2 ^ PAGE_SHIFT) with 4096. lia.
    - unfold chunk, block. rewrite pow_pages by lia. unfold PAGE_SIZE. lia. }
  destruct Hr as [H1 _ _ H4 _ _]. unfold contains in Hc. lia.
Qed.
Lemma freelist_aligned a o : 0 <= o < FREELIST_SIZE -> aligned a (o + PAGE_SHIFT) -> FREELIST_ALIGNED a o = true.
Proof.
  unfold FREELIST_SIZE, PAGE_SHIFT. intros Ho [k ->]. unfold FREELIST_ALIGNED, PAGE_SHIFT. rewrite shl64_pow by lia.
  pose proof (pow2_pos (o + 12) ltac:(lia)). assert (2 ^ (o + 12) <= 2 ^ 63) by (apply pow2_le; lia).
  rewrite wrap_small by lia. rewrite Z.sub_1_r, <- Z.ones_equiv, Z.land_ones, Z.mod_mul by lia. done.
Qed.

Lemma grab_spec b a o n :
  buddy_inv b nowhere -> linked b a o -> 0 < n <= 2 ^ o ->
  wp (hlist_del a;; UK_ASSERT (FREELIST_ALIGNED a o);; bbuddy_trim a o n;; map_alloc a n;;
      modify (hand_out a (shl64 n PAGE_SHIFT));; mret (Some a))
    (fun r b' => r = Some a /\ buddy_inv b' nowhere /\ updated false (range a n) (memrs b) (memrs b')) b.
Proof.
  intros Hb Hl Hn. pose proof (linked_ord _ _ _ _ Hb Hl) as Ho. pose proof (bi_aligned _ _ Hb _ _ Hl) as Ha.
  destruct (aligned_head a o ltac:(lia) Ha) as [Ha12 Hca]. destruct (linked_bound _ _ _ _ Hb Hl) as [Ha0 Ha64].
  unfold FREELIST_SIZE, PAGE_SHIFT in Ho. assert (Ho51 : 2 ^ o <= 2 ^ 51) by (apply pow2_le; lia).
  assert (Hlo : aligned (a + n * PAGE_SIZE) PAGE_SHIFT) by (apply Z.divide_add_r; [done|apply Z.divide_factor_r]).
  rewrite pow_pages in Ha64 by lia. pose proof (pow_pages o ltac:(lia)) as Hpo.
  apply wp_bind. eapply hlist_del_spec; [done|]. pose proof (unlink_inv _ _ _ _ Hb Hl) as Hb1.
  apply wp_bind, wp_assert; [by apply freelist_aligned|]. apply wp_bind. unfold bbuddy_trim. apply wp_bind.
  eapply wp_deref; [exact (bi_order _ _ Hb _ _ Hl)|]. apply wp_bind, wp_assert; [by apply Z.eqb_eq|].
  rewrite bbuddy_pages by lia. rewrite (wrap_small 64 (2 ^ o - n)) by lia. unfold CHUNK_END.
  rewrite shl64_pow by (unfold PAGE_SHIFT; lia). rewrite Hpo, (wrap_small 64) by (unfold PAGE_SIZE in *; lia).
  replace (a + 2 ^ o * PAGE_SIZE) with (a + n * PAGE_SIZE + (2 ^ o - n) * PAGE_SIZE) in * by (unfold PAGE_SIZE; lia).
  assert (Hchunk : forall q, chunk a o q <-> between a (a + n * PAGE_SIZE + (2 ^ o - n) * PAGE_SIZE) q)
    by (intros q; unfold chunk, block, between; rewrite Hpo; unfold PAGE_SIZE; lia).
  eapply wp_mono; [|apply (trim_loop_spec 64 a (a + n * PAGE_SIZE) (2 ^ o - n) o _ _ Hb1); try done].
  2: { unfold PAGE_SIZE. lia. }
  2: { change (2 ^ Z.of_nat 64) with (2 ^ 64). lia. }
  2: { lia. }
  2: { replace (a + n * PAGE_SIZE + (2 ^ o - n) * PAGE_SIZE) with (a + 2 ^ (o + PAGE_SHIFT)) by (rewrite Hpo; unfold PAGE_SIZE; lia).
       apply aligned_add; [done|unfold PAGE_SHIFT; lia]. }
  2: { intros q Hq12 Hq. rewrite <- Hchunk in Hq. split; [by apply (bi_free _ _ Hb a o)|by right]. }
  intros [] b2 [Hb2 Hm2]. cbn beta in Hb2. apply wp_bind.
  eapply wp_mono; [|apply (map_alloc_spec b2 _ a n Hb2 Ha12); [lia|]].
  2: { intros q Hq12 Hq. assert (Hc : chunk a o q) by (rewrite Hchunk; unfold range, between, PAGE_SIZE in *; lia). rewrite Hm2.
       split; [by apply (bi_free _ _ Hb a o)|]. split; [by right|]. unfold range, between, PAGE_SIZE in *. lia. }
  intros [] b3 (Hb3 & _ & _ & Hup). rewrite Hm2 in Hup. apply wp_bind, wp_modify, wp_ret. rewrite shl_pages by (unfold PAGE_SIZE in *; lia).
  split; [done|]. split; [|done]. apply hand_out_inv.
  - eapply inv_ext; [done|]. intros q Hq12 _. cbn beta. rewrite Hchunk. unfold nowhere, range, between, PAGE_SIZE. split; [|done]. intros [[[?|?] ?] ?]; [done|lia].
  - intros q Hq12 Hq Hf. apply (up_free _ _ _ _ Hup q Hq12) in Hf as [_ ?]. done.
Qed.
Lemma palloc_spec b n :
  buddy_inv b nowhere -> 0 < n < 2 ^ 64 ->
  wp (bbuddy_palloc n) (fun r b' => match r with
    | None => b' = b /\ forall a o, linked b a o -> 2 ^ o < n
    | Some p => buddy_inv b' nowhere /\ (exists o, linked b p o /\ n <= 2 ^ o) /\ aligned p PAGE_SHIFT /\ 0 < p /\
        (forall q, aligned q PAGE_SHIFT -> range p n q -> page_free (memrs b) q) /\ updated false (range p n) (memrs b) (memrs b')
    end) b.
Proof.
  intros Hb Hn. apply wp_bind, wp_assert; [rewrite negb_true_iff; lia|]. apply wp_bind, num_pages_to_order_spec; [done|]. intros o Ho Hno Hmin.
  apply wp_bind, wp_gets. pose proof (bi_lists _ _ Hb) as Hlen. destruct (find_order_spec (drop (Z.to_nat o) (free_head b)) o) as (H1 & H2 & H3).
  set (r := find_order _ o) in *. unfold zlen in *. rewrite length_drop in H1, H3. destruct (Z.leb_spec FREELIST_SIZE r) as [Hr|Hr].
  - apply wp_ret. split; [done|]. intros a o' Hl. destruct (Z.lt_ge_cases (2 ^ o') n) as [|Hge]; [done|]. exfalso.
    pose proof (linked_ord _ _ _ _ Hb Hl). destruct Hl as (H0 & fl & Hfl & Hin). specialize (Hmin o' ltac:(lia) Hge).
    specialize (H2 o' ltac:(lia)). rewrite lookup_drop in H2. replace (Z.to_nat o + Z.to_nat (o' - o))%nat with (Z.to_nat o') in H2 by lia.
    simplify_eq. by apply elem_of_nil in Hin.
  - destruct H3 as (x & fl & Hx); [lia|]. rewrite lookup_drop in Hx. replace (Z.to_nat o + Z.to_nat (r - o))%nat with (Z.to_nat r) in Hx by lia.
    assert (Hl : linked b x r) by (split; [lia|]; exists (x :: fl); split; [done|by left]).
    apply wp_bind. eapply wp_deref; [exact Hx|]. apply wp_bind. eapply wp_deref; [done|].
    assert (Hnr : n <= 2 ^ r) by (pose proof (pow2_le o r ltac:(lia)); lia).
    eapply wp_mono; [|by apply (grab_spec b x r n); [..|lia]]. intros p b' (-> & Hb' & Hup). split; [done|]. split; [by exists r|].
    destruct (aligned_head x r ltac:(lia) (bi_aligned _ _ Hb _ _ Hl)) as [Hx12 _]. split; [done|].
    split; [by eapply (linked_bound b nowhere x r)|]. split; [|done]. intros q Hq12 Hq. apply (bi_free _ _ Hb x r q Hl Hq12).
    unfold chunk, block, range in *. rewrite pow_pages by lia. unfold PAGE_SIZE in *. lia.
Qed.

(** ** Merging *)

(** The free buddy of a block that is in no chunk is the head of a chunk. *)
Lemma free_buddy_head b U ch o :
  buddy_inv b U -> 0 <= o < FREELIST_SIZE - 1 -> aligned ch (o + PAGE_SHIFT) ->
  (forall q, aligned q PAGE_SHIFT -> chunk ch o q -> U q) -> (forall q, U q -> chunk ch o q) ->
  let buddy := Z.lxor ch (2 ^ (o + PAGE_SHIFT)) in
  page_free (memrs b) buddy -> exists o', linked b buddy o'.
Proof.
  intros Hb Ho Ha HU HU' buddy Hf. assert (Ho12 : 0 <= o + PAGE_SHIFT) by (unfold PAGE_SHIFT; lia).
  pose proof (pow2_pos (o + PAGE_SHIFT) Ho12) as HL. destruct (aligned_head ch o ltac:(lia) Ha) as [Hch12 Hcc].
  assert (Hba : aligned buddy (o + PAGE_SHIFT)).
  { destruct (buddy_spec ch (o + PAGE_SHIFT) Ho12 Ha) as [(Hb' & _)|(Hb' & Hb'' & _)]; fold buddy in Hb'; rewrite Hb'; [by apply aligned_add|by apply aligned_sub]. }
  destruct (aligned_head buddy o ltac:(lia) Hba) as [Hb12 Hcb].
  assert (Hnu : ~ U buddy).
  { intros Hu%HU'. unfold chunk, block in Hu. destruct (buddy_spec ch (o + PAGE_SHIFT) Ho12 Ha) as [(Hb' & _)|(Hb' & _)]; fold buddy in Hb'; lia. }
  destruct (bi_cover _ _ Hb buddy Hb12 Hf Hnu) as (c & oc & Hl & Hc). pose proof (linked_ord _ _ _ _ Hb Hl) as Hoc.
  pose proof (bi_aligned _ _ Hb _ _ Hl) as Hca. destruct (Z.le_gt_cases oc o) as [Hle|Hgt].
  - assert (c = buddy) as <- by (apply (block_head c (oc + PAGE_SHIFT) buddy (o + PAGE_SHIFT)); [done|done|unfold PAGE_SHIFT; lia|done]). by exists oc.
  - exfalso. destruct (bi_free _ _ Hb c oc ch Hl Hch12) as [_ Hu]; [|by apply Hu, HU].
    assert (Hpar : exists par, aligned par (o + PAGE_SHIFT + 1) /\ block par (o + PAGE_SHIFT + 1) buddy /\ block par (o + PAGE_SHIFT + 1) ch).
    { unfold block. rewrite pow2_S by done.
      destruct (buddy_spec ch (o + PAGE_SHIFT) Ho12 Ha) as [(Hb' & Hp & _)|(Hb' & Hp & _)]; fold buddy in Hb', Hp; [exists ch|exists buddy]; split_and!; done || lia. }
    destruct Hpar as (par & Hpa & Hpb & Hpc).
    destruct (block_nested par (o + PAGE_SHIFT + 1) c (oc + PAGE_SHIFT) buddy Hpa Hca) as [N1 N2]; [unfold PAGE_SHIFT; lia|done|done|].
    unfold chunk, block in *. lia.
Qed.

(** A chunk, as far as merged. *)
Record merged (b0 : uk_bbpalloc) (base o0 : Z) (b : uk_bbpalloc) (ch o : Z) : Prop := {
  mg_inv : buddy_inv b (chunk ch o);
  mg_order : o0 <= o < FREELIST_SIZE;
  mg_aligned : aligned ch (o + PAGE_SHIFT);
  mg_base q : chunk base o0 q -> chunk ch o q;
  mg_free q : aligned q PAGE_SHIFT -> chunk ch o q -> ~ chunk base o0 q -> page_free (memrs b0) q;
  mg_memrs : memrs b = memrs b0
}.
Lemma merge_step b0 base o0 b ch o :
  0 <= o0 -> merged b0 base o0 b ch o -> o < FREELIST_SIZE - 1 ->
  let buddy := Z.lxor ch (2 ^ (o + PAGE_SHIFT)) in
  linked b buddy o ->
  merged b0 base o0 (unlink_chunk buddy b) (if Z.testbit buddy (o + PAGE_SHIFT) then ch else buddy) (o + 1).
Proof.
  intros Ho0 [M1 M2 M3 M4 M5 M6] Ho buddy Hl. assert (Ho12 : 0 <= o + PAGE_SHIFT) by (unfold PAGE_SHIFT; lia).
  pose proof (pow2_pos (o + PAGE_SHIFT) Ho12) as HL. pose proof (unlink_inv _ _ _ _ M1 Hl) as Hinv.
  set (ch' := if Z.testbit buddy (o + PAGE_SHIFT) then ch else buddy).
  assert (Hp : aligned ch' (o + 1 + PAGE_SHIFT) /\ forall q, chunk ch' (o + 1) q <-> chunk ch o q \/ chunk buddy o q).
  { replace (o + 1 + PAGE_SHIFT) with (o + PAGE_SHIFT + 1) by lia. unfold chunk, block, ch'.
    replace (o + 1 + PAGE_SHIFT) with (o + PAGE_SHIFT + 1) by lia. rewrite pow2_S by done.
    destruct (buddy_spec ch (o + PAGE_SHIFT) Ho12 M3) as [(Hb' & Hp & Ht)|(Hb' & Hp & Ht)]; fold buddy in Hb', Hp, Ht; rewrite Ht; (split; [done|]); intros q; lia. }
  destruct Hp as [Hpa Hpq]. split; try done.
  - eapply inv_ext; [done|]. intros q _ _. by rewrite Hpq.
  - lia.
  - intros q Hq. apply Hpq. left. by apply M4.
  - intros q Hq12 [Hq|Hq]%Hpq Hn; [by apply M5|]. rewrite <- M6. by apply (bi_free _ _ M1 buddy o).
Qed.
Lemma merge_loop_spec n b0 base o0 b ch o :
  0 <= o0 -> merged b0 base o0 b ch o -> Z.of_nat n = FREELIST_SIZE - 1 - o ->
  wp (merge_loop n ch o) (fun r b' => merged b0 base o0 b' r.1 r.2 /\
    (r.2 < FREELIST_SIZE - 1 -> ~ linked b' (Z.lxor r.1 (2 ^ (r.2 + PAGE_SHIFT))) r.2)) b.
Proof.
  intros Ho0. revert b ch o. induction n as [|n IH]; intros b ch o Hm Hn; cbn [merge_loop].
  { apply wp_ret. split; [done|]. cbn. lia. }
  pose proof Hm as [M1 M2 M3 M4 M5 M6]. unfold BBUDDY_BUDDY_ADDR. rewrite bbuddy_len by lia.
  set (buddy := Z.lxor ch (2 ^ (o + PAGE_SHIFT))).
  assert (Ho12 : 0 <= o + PAGE_SHIFT) by (unfold PAGE_SHIFT; lia).
  assert (Hlf : forall o', linked b buddy o' -> page_free (memrs b) buddy).
  { intros o' Hl. pose proof (linked_ord _ _ _ _ M1 Hl). destruct (aligned_head buddy o' ltac:(lia) (bi_aligned _ _ M1 _ _ Hl)) as [H1 H2].
    by apply (bi_free _ _ M1 buddy o'). }
  apply wp_bind, allocated_spec; [apply M1|]. intros a Haf. destruct a.
  { apply wp_ret. split; [done|]. intros _ Hl. apply Hlf, Haf in Hl. done. }
  destruct (free_buddy_head b (chunk ch o) ch o) as [o' Hl]; [done|lia|done|done|done|by apply Haf|]. fold buddy in Hl.
  apply wp_bind. eapply wp_deref; [by apply (bi_order _ _ M1)|]. destruct (Z.eqb_spec o' o) as [->|Hne]; cbn [negb].
  - apply wp_bind. eapply hlist_del_spec; [done|]. unfold BBUDDY_ISHEAD. rewrite bbuddy_len by lia.
    replace (if Z.land buddy (2 ^ (o + PAGE_SHIFT)) =? 0 then buddy else ch) with (if Z.testbit buddy (o + PAGE_SHIFT) then ch else buddy).
    { apply IH; [|lia]. apply merge_step; [done|done|lia|done]. }
    rewrite <- (land_bit buddy (o + PAGE_SHIFT)) by done. rewrite Z.shiftl_1_l. by destruct (_ =? 0).
  - apply wp_ret. split; [done|]. intros _ Hl'. apply Hne. cbn [fst snd] in Hl'. fold buddy in Hl'. pose proof (bi_order _ _ M1 _ _ Hl). pose proof (bi_order _ _ M1 _ _ Hl'). by simplify_eq.
Qed.

(** ** Freeing *)

Lemma page_align_down_id p : 0 <= p < 2 ^ 64 -> aligned p PAGE_SHIFT -> PAGE_ALIGN_DOWN p = p.
Proof.
  intros Hp [k Hk]. unfold PAGE_ALIGN_DOWN. apply Z.bits_inj'. intros i Hi. rewrite Z.land_spec.
  destruct (Z.lt_ge_cases i 64) as [Hlt|Hge].
  - rewrite lnot64_testbit by lia. change (PAGE_SIZE - 1) with (2 ^ 12 - 1). rewrite ones_testbit by lia.
    destruct (Z.ltb_spec i 12); cbn [negb]; [|apply andb_true_r]. rewrite Hk, Z.mul_pow2_bits_low by (unfold PAGE_SHIFT; lia). done.
  - rewrite (word_testbit p) by (unfold word_ok; lia || done). done.
Qed.
Lemma ptr_order_spec p maxord b (Q : Z -> uk_bbpalloc -> Prop) :
  0 <= p < 2 ^ 64 -> aligned p PAGE_SHIFT -> 0 <= maxord ->
  (forall o, 0 <= o <= maxord -> aligned p (o + PAGE_SHIFT) -> Q o b) -> wp (ptr_order p maxord) Q b.
Proof.
  intros Hp Ha Hm HQ. apply wp_bind, wp_assert; [apply Z.eqb_eq; by apply page_align_down_id|]. cbv zeta. rewrite Z.shiftr_div_pow2 by done.
  pose proof Ha as [k Hk]. change (2 ^ PAGE_SHIFT) with 4096 in *. destruct (Z.eqb_spec (p / 4096) 0) as [H0|Hn0].
  - apply wp_ret, HQ; [lia|]. rewrite Hk, Z.div_mul in H0 by lia. subst k. rewrite Hk, Z.mul_0_l. apply Z.divide_0_r.
  - rewrite Hk, Z.div_mul in * by lia. destruct (lssbl_spec k) as (l & Hl & (Hl0 & Hbit & Hlow)); [unfold word_ok; lia|done|].
    apply wp_bind. eapply wp_deref; [exact Hl|]. apply wp_ret, HQ; [lia|].
    apply (aligned_le _ _ (l + PAGE_SHIFT)); [|unfold PAGE_SHIFT; lia]. unfold PAGE_SHIFT.
    assert (Hkl : aligned k l). { apply Z.mod_divide; [apply Z.pow_nonzero; lia|]. rewrite <- Z.land_ones by lia. apply Z.bits_inj'. intros i Hi.
      rewrite Z.land_spec, Z.bits_0. destruct (Z.lt_ge_cases i l); [by rewrite Hlow by lia|].
      rewrite Z.ones_spec_high by lia. apply andb_false_r. }
    destruct Hkl as [m ->]. exists m. rewrite Z.pow_add_r by lia. lia.
Qed.
(** One turn of the loop: the block at [base] of order [o0] is freed. *)
Lemma pfree_step {A} b base o0 (m : M uk_bbpalloc A) (Q : A -> uk_bbpalloc -> Prop) :
  buddy_inv b nowhere -> 0 <= o0 < FREELIST_SIZE -> aligned base (o0 + PAGE_SHIFT) ->
  (forall q, aligned q PAGE_SHIFT -> chunk base o0 q -> in_mem (memrs b) q /\ ~ page_free (memrs b) q) ->
  (forall b', buddy_inv b' nowhere -> updated true (range base (2 ^ o0)) (memrs b) (memrs b') -> wp m Q b') ->
  wp ('(ch, ord) ← bbuddy_merge base o0; put_page_order ch ord;; map_free base (BBUDDY_PAGES o0);; hlist_add_head ch ord;; m) Q b.
Proof.
  intros Hb Ho Ha Hq HQ. assert (Hm0 : merged b base o0 b base o0).
  { split; try done; [|lia]. eapply inv_ext; [done|]. intros q Hq12 Hf. unfold nowhere. split; [done|]. intros Hc. by destruct (Hq q Hq12 Hc). }
  apply wp_bind. unfold bbuddy_merge. eapply wp_mono; [|apply (merge_loop_spec _ b base o0); [lia|done|rewrite Z2Nat.id; lia]].
  intros [ch o] b1 [[M1 M2 M3 M4 M5 M6] Hbud]. cbn [fst snd] in *.
  pose proof (pow2_pos o0 ltac:(lia)) as Hpos. unfold FREELIST_SIZE in *. rewrite bbuddy_pages by (unfold PAGE_SHIFT in *; lia).
  assert (Hrange : forall q, range base (2 ^ o0) q <-> chunk base o0 q) by (intros q; unfold range, chunk, block; by rewrite pow_pages by lia).
  destruct (aligned_head base o0 ltac:(lia) Ha) as [Hba12 _]. destruct (aligned_head ch o ltac:(lia) M3) as [Hc12 Hcc].
  apply wp_bind, wp_modify. pose proof (put_order_inv b1 _ ch o M1 Hcc) as Hb2. apply wp_bind.
  eapply wp_mono; [|apply (map_free_spec _ _ base (2 ^ o0) Hb2 Hba12 Hpos)].
  2: { intros q Hq12 Hr%Hrange. cbn. rewrite M6. destruct (Hq q Hq12 Hr). split_and!; [done..|by apply M4]. }
  intros [] b3 (Hb3 & Hfh & Hpo & Hup). cbn in Hup, Hfh. rewrite M6 in Hup.
  assert (Hl3 : forall x ox, linked b3 x ox <-> linked b1 x ox) by (intros x ox; unfold linked; by rewrite Hfh).
  eapply (hlist_add_spec b3); [done|unfold FREELIST_SIZE; lia|done|rewrite Hpo; apply lookup_insert_eq|]. apply HQ; [|done].
  eapply inv_ext; [eapply (link_inv b3 _ ch o Hb3); [unfold FREELIST_SIZE; lia|done|..]|].
  - intros q Hq12 Hc. split; [|done]. apply (up_free _ _ _ _ Hup q Hq12). destruct (decide (base <= q < base + 2 ^ (o0 + PAGE_SHIFT))); [right; by apply Hrange|left; by apply M5].
  - unfold FREELIST_SIZE. rewrite Hl3. done.
  - intros q _ _. unfold nowhere. tauto.
Qed.

Lemma updated_in_mem v R l l' q : updated v R l l' -> in_mem l' q <-> in_mem l q.
Proof.
  intros Hup. assert (Hlk : forall i, (exists r, l' !! i = Some r /\ contains r q) <-> (exists r, l !! i = Some r /\ contains r q)).
  { intros i. pose proof (up_shape _ _ _ _ Hup i) as Hs. unfold contains, memr_end.
    destruct (l' !! i) as [r'|], (l !! i) as [r|]; cbn in Hs; try done.
    injection Hs as H1 H2. split; intros (? & [= <-] & Hc); eexists; (split; [done|]); [rewrite <- H1, <- H2|rewrite H1, H2]; done. }
  split; intros (i & Hx); exists i; by apply Hlk.
Qed.
Lemma updated_trans l l1 l2 (R1 R2 R : Z -> Prop) :
  updated true R1 l l1 -> updated true R2 l1 l2 -> (forall q, R q <-> R1 q \/ R2 q) -> updated true R l l2.
Proof.
  intros [A1 A2 A3] [B1 B2 B3] HR. split; [done|intros i; by rewrite B2|]. intros q Hq. rewrite (B3 q Hq), (A3 q Hq), HR. tauto.
Qed.
Lemma run_bound b U p n :
  buddy_inv b U -> aligned p PAGE_SHIFT -> 0 < n -> (forall q, aligned q PAGE_SHIFT -> range p n q -> in_mem (memrs b) q) ->
  0 <= p /\ p + n * PAGE_SIZE < 2 ^ 64.
Proof.
  intros Hb Hp Hn Hq. destruct (Hq p Hp) as (i & r & Hi & Hc); [unfold range, PAGE_SIZE; lia|].
  assert (Hend : p + n * PAGE_SIZE <= memr_end r).
  { apply (contains_run (memrs b) i r); try done; [apply Hb|]. intros k Hk. apply Hq; [|unfold range, PAGE_SIZE; lia].
    destruct Hp as [m ->]. exists (m + k). unfold PAGE_SIZE. change (2 ^ PAGE_SHIFT) with 4096. lia. }
  destruct (ms_ok _ (bi_memrs _ _ Hb) _ _ Hi) as [H1 _ _ H4 _ _]. unfold contains in Hc. lia.
Qed.
Lemma pfree_loop_spec fuel b base n :
  buddy_inv b nowhere -> aligned base PAGE_SHIFT -> 0 < n <= Z.of_nat fuel ->
  (forall q, aligned q PAGE_SHIFT -> range base n q -> in_mem (memrs b) q /\ ~ page_free (memrs b) q) ->
  wp (pfree_loop fuel base n) (fun _ b' => buddy_inv b' nowhere /\ updated true (range base n) (memrs b) (memrs b')) b.
Proof.
  revert b base n. induction fuel as [|fuel IH]; intros b base n Hb Ha Hn Hq; [lia|]. cbn [pfree_loop].
  destruct (run_bound b nowhere base n Hb Ha) as [Hb0 Hb64]; [lia|intros; by apply Hq|]. unfold PAGE_SIZE in Hb64.
  apply wp_bind, npages_order_spec; [lia|]. intros mo Hmo Hmon. apply wp_bind, ptr_order_spec; [lia|done|lia|]. intros o Ho Hao.
  pose proof (pow2_le o mo ltac:(lia)) as Hle. pose proof (pow2_pos o ltac:(lia)) as Hpos.
  assert (Ho52 : o < 52). { destruct (Z.lt_ge_cases o 52); [done|]. pose proof (pow2_le 52 o ltac:(lia)). change (2 ^ 52) with 4503599627370496 in *. lia. }
  apply wp_bind, wp_assert; [apply Z.ltb_lt; unfold FREELIST_SIZE, PAGE_SHIFT; lia|]. rewrite (bbuddy_pages o) at 1 by lia.
  apply wp_bind, wp_assert; [apply Z.leb_le; lia|]. apply pfree_step; [done|unfold FREELIST_SIZE, PAGE_SHIFT; lia|done|..].
  { intros q Hq12 Hc. apply Hq; [done|]. unfold range, chunk, block in *. rewrite pow_pages in Hc by lia. unfold PAGE_SIZE in *. lia. }
  intros b' Hb' Hup. rewrite bbuddy_pages by lia. destruct (Z.eqb_spec (n - 2 ^ o) 0) as [Hz|Hz].
  - apply wp_ret. split; [done|]. by replace n with (2 ^ o) by lia.
  - rewrite wrap_small by (unfold PAGE_SIZE; lia).
    eapply wp_mono; [|apply (IH b' (base + 2 ^ o * PAGE_SIZE) (n - 2 ^ o) Hb'); [apply Z.divide_add_r; [done|apply Z.divide_factor_r]|lia|]].
    + intros [] b2 [Hb2 Hup2]. split; [done|]. eapply updated_trans; [done..|]. intros q. unfold range, PAGE_SIZE. lia.
    + intros q Hq12 Hr. destruct (Hq q Hq12) as [Hi Hf]; [unfold range, PAGE_SIZE in *; lia|].
      split; [by apply (updated_in_mem _ _ _ _ q Hup)|]. intros [?|Hx]%(up_free _ _ _ _ Hup q Hq12); [done|]. unfold range, PAGE_SIZE in *. lia.
Qed.
Lemma pfree_spec b p n :
  buddy_inv b nowhere -> 0 < p -> aligned p PAGE_SHIFT -> 0 < n ->
  (forall q, aligned q PAGE_SHIFT -> range p n q -> in_mem (memrs b) q /\ ~ page_free (memrs b) q) ->
  wp (bbuddy_pfree p n) (fun _ b' => buddy_inv b' nowhere /\ updated true (range p n) (memrs b) (memrs b')) b.
Proof.
  intros Hb Hp0 Hp Hn Hq. destruct (run_bound b nowhere p n Hb Hp Hn) as [_ Hp64]; [intros; by apply Hq|].
  apply wp_bind, wp_assert; [rewrite negb_true_iff; lia|]. apply wp_bind, wp_assert; [rewrite negb_true_iff; lia|].
  apply wp_bind, wp_assert; [apply Z.eqb_eq, page_align_down_id; [unfold PAGE_SIZE in *; lia|done]|]. apply pfree_loop_spec; try done. lia.
Qed.

(** ** Adding memory *)

Lemma page_align_down_spec x : 0 <= x < 2 ^ 64 -> PAGE_ALIGN_DOWN x = x / PAGE_SIZE * PAGE_SIZE.
Proof.
  intros Hx. unfold PAGE_ALIGN_DOWN. apply Z.bits_inj'. intros i Hi. rewrite Z.land_spec. change PAGE_SIZE with (2 ^ 12).
  destruct (Z.lt_ge_cases i 64) as [Hlt|Hge].
  - rewrite lnot64_testbit, ones_testbit by lia. destruct (Z.ltb_spec i 12); cbn [negb].
    + rewrite andb_false_r, Z.mul_pow2_bits_low by lia. done.
    + rewrite andb_true_r, Z.mul_pow2_bits by lia. rewrite <- Z.shiftr_div_pow2, Z.shiftr_spec by lia. f_equal. lia.
  - rewrite (word_testbit x) by (unfold word_ok; lia || done). cbn [andb]. rewrite Z.mul_pow2_bits by lia.
    rewrite <- Z.shiftr_div_pow2, Z.shiftr_spec by lia. rewrite (word_testbit x) by (unfold word_ok; lia || done). done.
Qed.
Lemma page_align_up_spec x : 0 <= x -> x + 4095 < 2 ^ 64 -> PAGE_ALIGN_UP x = (x + 4095) / PAGE_SIZE * PAGE_SIZE.
Proof. intros Hx H64. unfold PAGE_ALIGN_UP. change (PAGE_SIZE - 1) with 4095. rewrite wrap_small by lia. apply page_align_down_spec. lia. Qed.

Lemma unit_shift_spec n i min range :
  0 <= i -> 2 ^ i <= range -> aligned min i -> range < 2 ^ (i + Z.of_nat n + 1) ->
  let j := unit_shift n i min range in
  i <= j <= i + Z.of_nat n /\ 2 ^ j <= range /\ aligned min j /\ (Z.testbit min j = true \/ range < 2 ^ (j + 1)).
Proof.
  revert i. induction n as [|n IH]; intros i Hi Hr Ha Hn; cbn [unit_shift].
  { split_and!; [lia..|done|done|]. right. by replace (i + Z.of_nat 0 + 1) with (i + 1) in Hn by lia. }
  rewrite !Z.shiftl_1_l. destruct (Z.leb_spec (2 ^ (i + 1)) range) as [Hle|Hgt]; cbn [andb].
  2: { split_and!; [lia..|done|done|by right]. }
  pose proof (land_bit min i Hi) as Hb. rewrite Z.shiftl_1_l in Hb. destruct (Z.land min (2 ^ i) =? 0); cbn in Hb.
  - destruct (IH (i + 1)) as (H1 & H2 & H3 & H4); [lia|done|apply bit_aligned; done|by replace (i + 1 + Z.of_nat n + 1) with (i + Z.of_nat (S n) + 1) by lia|].
    split_and!; [lia|lia|done..].
  - split_and!; [lia..|done|done|by left].
Qed.
Lemma bit_flip a e : 0 <= e -> aligned a e -> Z.testbit (a + 2 ^ e) e = negb (Z.testbit a e).
Proof.
  intros He [k ->]. replace (k * 2 ^ e + 2 ^ e) with ((k + 1) * 2 ^ e) by lia. rewrite !Z.mul_pow2_bits by lia.
  rewrite Z.sub_diag, !Z.bit0_odd. rewrite Z.odd_add. by destruct (Z.odd k).
Qed.
(** The chunks made so far end at [min]; none of them can be the buddy of a chunk there. *)
Definition fresh_end (b : uk_bbpalloc) (min hi : Z) : Prop := forall o,
  linked b (min - 2 ^ (o + PAGE_SHIFT)) o -> Z.testbit min (o + PAGE_SHIFT) = true -> hi - min < 2 ^ (o + PAGE_SHIFT).
Lemma addmem_step b min hi o :
  buddy_inv b (between min hi) -> 0 <= o < FREELIST_SIZE -> aligned min (o + PAGE_SHIFT) -> min + 2 ^ (o + PAGE_SHIFT) <= hi ->
  aligned hi PAGE_SHIFT -> ~ page_free (memrs b) hi ->
  (forall q, aligned q PAGE_SHIFT -> between min hi q -> page_free (memrs b) q) -> fresh_end b min hi ->
  Z.testbit min (o + PAGE_SHIFT) = true \/ hi - min < 2 ^ (o + PAGE_SHIFT + 1) ->
  buddy_inv (link_chunk min o b) (between (min + 2 ^ (o + PAGE_SHIFT)) hi) /\ fresh_end (link_chunk min o b) (min + 2 ^ (o + PAGE_SHIFT)) hi.
Proof.
  intros Hb Ho Ha Hhi Hhi12 Hnf Hq Hfe Hstop. assert (Ho12 : 0 <= o + PAGE_SHIFT) by (unfold PAGE_SHIFT; lia).
  pose proof (pow2_pos _ Ho12) as HL. rewrite pow2_S in Hstop by done. split.
  - eapply inv_ext; [apply (link_inv b _ min o Hb Ho Ha)|].
    + intros p Hp Hc. assert (between min hi p) by (unfold between, chunk, block in *; lia). auto.
    + intros _ Hl. destruct (buddy_spec min (o + PAGE_SHIFT) Ho12 Ha) as [(Hbd & Hal & _)|(Hbd & Hal & Ht)]; rewrite Hbd in Hl.
      * assert (Hbit : Z.testbit min (o + PAGE_SHIFT) = false) by by apply bit_aligned.
        assert (Hmin : min + 2 ^ (o + PAGE_SHIFT) = hi \/ between min hi (min + 2 ^ (o + PAGE_SHIFT))) by (unfold between; lia).
        destruct Hmin as [Heq|Hbt]; [|by apply (used_unlinked b _ _ o Hb Hbt)]. rewrite Heq in Hl.
        destruct (aligned_head hi o ltac:(lia) (bi_aligned _ _ Hb _ _ Hl)) as [H1 H2]. apply Hnf. by apply (bi_free _ _ Hb hi o).
      * rewrite Hbd in Ht. assert (Hbit : Z.testbit min (o + PAGE_SHIFT) = true).
        { replace min with (min - 2 ^ (o + PAGE_SHIFT) + 2 ^ (o + PAGE_SHIFT)) by lia. rewrite bit_flip; [by rewrite Ht|done|by apply aligned_sub]. }
        specialize (Hfe o Hl Hbit). lia.
    + intros q _ _. unfold between, chunk, block. lia.
  - intros o' Hl Hbit. pose proof (bi_lists _ _ Hb) as Hlen. apply link_linked in Hl as [Hl|[Heq ->]]; [exfalso| |lia].
    + pose proof (linked_ord _ _ _ _ Hb Hl). assert (H12 : 0 <= o' + PAGE_SHIFT) by (unfold PAGE_SHIFT; lia).
      destruct Ha as [k Hk]. assert (Hp4 : 4096 <= 2 ^ (o + PAGE_SHIFT) /\ 4096 <= 2 ^ (o' + PAGE_SHIFT)).
      { change 4096 with (2 ^ 12). split; apply pow2_le; unfold PAGE_SHIFT in *; lia. }
      destruct (bi_free _ _ Hb _ o' (min + 2 ^ (o + PAGE_SHIFT) - 4096) Hl) as [_ Hu].
      * change 4096 with (2 ^ 12). apply aligned_sub; [|done]. apply aligned_add; [|unfold PAGE_SHIFT in *; lia].
        apply (aligned_le _ _ (o + PAGE_SHIFT)); [by exists k|unfold PAGE_SHIFT in *; lia].
      * unfold chunk, block. lia.
      * apply Hu. unfold between. lia.
    + rewrite bit_flip in Hbit by done. destruct Hstop as [Hs|Hs]; [rewrite Hs in Hbit; done|lia].
Qed.
Lemma addmem_loop_spec fuel b min hi :
  buddy_inv b (between min hi) -> aligned min PAGE_SHIFT -> aligned hi PAGE_SHIFT -> 0 <= min <= hi -> hi < 2 ^ 64 ->
  hi - min <= Z.of_nat fuel * PAGE_SIZE -> ~ page_free (memrs b) hi ->
  (forall q, aligned q PAGE_SHIFT -> between min hi q -> page_free (memrs b) q) -> fresh_end b min hi ->
  wp (addmem_loop fuel min (hi - min)) (fun _ b' => buddy_inv b' nowhere /\ memrs b' = memrs b) b.
Proof.
  revert b min. induction fuel as [|fuel IH]; intros b min Hb Hmin Hhi Hle H64 Hf Hnf Hq Hfe.
  { cbn [addmem_loop]. rewrite (proj2 (Z.eqb_eq (hi - min) 0)) by (unfold PAGE_SIZE in Hf; lia). apply wp_ret. split; [|done].
    eapply inv_ext; [done|]. intros q _ _. unfold between, nowhere, PAGE_SIZE in *. lia. }
  cbn [addmem_loop]. destruct (Z.eqb_spec (hi - min) 0) as [Hz|Hz].
  { apply wp_ret. split; [|done]. eapply inv_ext; [done|]. intros q _ _. unfold between, nowhere. lia. }
  pose proof Hmin as [km Hkm]. pose proof Hhi as [kh Hkh]. change (2 ^ PAGE_SHIFT) with 4096 in *.
  destruct (unit_shift_spec 51 PAGE_SHIFT min (hi - min)) as (Hj & Hjr & Hja & Hstop);
    [done|change (2 ^ PAGE_SHIFT) with 4096; lia|done|change (2 ^ (PAGE_SHIFT + Z.of_nat 51 + 1)) with (2 ^ 64); lia|].
  set (j := unit_shift 51 PAGE_SHIFT min (hi - min)) in *. assert (Hjo : j = j - PAGE_SHIFT + PAGE_SHIFT) by lia.
  assert (Ho : 0 <= j - PAGE_SHIFT < FREELIST_SIZE) by (unfold FREELIST_SIZE, PAGE_SHIFT in *; lia).
  destruct (addmem_step b min hi (j - PAGE_SHIFT)) as [Hb1 Hfe1]; rewrite <- ?Hjo; try done; [lia|].
  rewrite <- Hjo in Hb1, Hfe1. eapply (link_spec b); [done|done|unfold between; lia|].
  assert (Hp12 : 4096 <= 2 ^ j) by (change 4096 with (2 ^ 12); apply pow2_le; unfold PAGE_SHIFT in *; lia).
  rewrite shl64_pow by (unfold PAGE_SHIFT in *; lia). rewrite (wrap_small 64 (min + 2 ^ j)), (wrap_small 64 (hi - min - 2 ^ j)) by lia.
  replace (hi - min - 2 ^ j) with (hi - (min + 2 ^ j)) by lia. eapply wp_mono; [|apply IH; try done].
  - intros [] b' [Hb' Hm]. done.
  - apply aligned_add; [done|unfold PAGE_SHIFT in *; lia].
  - lia.
  - unfold PAGE_SIZE in *. lia.
  - intros q Hq12 Hbt. apply Hq; [done|]. unfold between in *. lia.
Qed.

(** A region whose pages are all marked allocated changes no free page and no count. *)
Lemma bit_at_full n i : 0 <= i < 64 * Z.of_nat n -> bit_at (replicate n ULONG_MAX) i = true.
Proof.
  intros Hi. unfold bit_at, load. pose proof (Z.div_pos i 64 ltac:(lia) ltac:(lia)). pose proof (Z.div_lt_upper_bound i 64 (Z.of_nat n) ltac:(lia) ltac:(lia)).
  rewrite (proj2 (Z.ltb_ge _ _)) by lia. rewrite lookup_replicate_2 by lia. unfold ULONG_MAX.
  pose proof (Z.mod_pos_bound i 64 ltac:(lia)). rewrite ones_testbit by lia. lia.
Qed.
Definition full_memr (first pages size : Z) : uk_bbpalloc_memr :=
  mk_memr first pages size (replicate (Z.to_nat (size / 8)) ULONG_MAX).
Section FullMemr.
  Context (first pages size : Z).
  Context (Hfirst : 0 < first) (Hal : aligned first PAGE_SHIFT) (Hpages : 0 < pages) (Hend : first + pages * PAGE_SIZE < 2 ^ 64).
  Context (Hsize : pages < 64 * (size / 8)).

Lemma full_memr_bit i : 0 <= i < pages -> bit_at (mm_alloc_bitmap (full_memr first pages size)) i = true.
Proof using Hsize Hpages. intros Hi. apply bit_at_full. lia. Qed.
Lemma full_memr_ok : memr_ok (full_memr first pages size).
Proof using Hfirst Hal Hpages Hend Hsize.
  split; unfold memr_end; cbn; try done; try lia.
  - apply Forall_replicate. apply ulong_max_ok.
  - unfold zlen. rewrite length_replicate. lia.
Qed.
Lemma full_memr_free : memr_free (full_memr first pages size) = 0.
Proof using Hpages Hsize.
  unfold memr_free. cbn [nr_pages full_memr]. assert (Hn : (Z.to_nat pages <= Z.to_nat pages)%nat) by done. revert Hn.
  generalize (Z.to_nat pages) at 1 3. induction n as [|n IH]; intros Hn; [done|]. cbn [cnt].
  rewrite IH by lia. rewrite full_memr_bit by lia. done.
Qed.
Lemma full_memr_page l p : page_free (full_memr first pages size :: l) p <-> page_free l p.
Proof using Hpages Hsize.
  split.
  - intros ([|i] & r & Hi & Hc & Hb); [|by exists i, r]. injection Hi as <-. unfold page_bit, contains, memr_end in *. cbn [first_page nr_pages full_memr] in *.
    rewrite full_memr_bit in Hb; [done|]. unfold PAGE_SIZE in *. split; [apply Z.div_pos; lia|apply Z.div_lt_upper_bound; lia].
  - intros (i & r & Hi). by exists (S i), r.
Qed.
Lemma grow_inv b U :
  buddy_inv b nowhere -> memrs_ok (full_memr first pages size :: memrs b) -> (forall q, in_mem (memrs b) q -> ~ U q) ->
  buddy_inv (set_memrs (full_memr first pages size :: memrs b) b) U.
Proof using Hpages Hsize.
  intros [B1 B2 B3 B4 B5 B6 B7 B8 B9] Hok HU. split; try done; cbn [memrs set_memrs].
  - intros a ord p Hl Hp Hc. destruct (B5 a ord p Hl Hp Hc) as [Hf _]. rewrite full_memr_page. split; [done|]. by apply HU, page_free_in.
  - intros p Hp Hf Hu. rewrite full_memr_page in Hf. apply (B6 p Hp Hf). by intros [].
  - cbn [nr_free_pages set_memrs free_count]. by rewrite full_memr_free, Z.add_0_l.
Qed.
End FullMemr.

Lemma map_free_pages b U p n :
  buddy_inv b U -> aligned p PAGE_SHIFT -> 0 < n ->
  (forall q, aligned q PAGE_SHIFT -> range p n q -> in_mem (memrs b) q /\ ~ page_free (memrs b) q /\ U q) ->
  wp (map_free p n) (fun _ b' => buddy_inv b' U /\ (forall a o, linked b' a o <-> linked b a o) /\
    updated true (range p n) (memrs b) (memrs b')) b.
Proof.
  intros Hb Hp Hn Hq. eapply wp_mono; [|by apply (map_free_spec b U)]. intros [] b' (Hb' & Hf & _ & Hup).
  split_and!; [done| |done]. intros a o. unfold linked. by rewrite Hf.
Qed.
(** The region is clear of the memory the allocator has. *)
Definition clear_of (l : list uk_bbpalloc_memr) (base len : Z) : Prop :=
  forall i r, l !! i = Some r -> memr_end r <= base \/ base + len < first_page r.
Definition addmem_first (base len : Z) : Z :=
  let min := PAGE_ALIGN_UP base in
  min + PAGE_ALIGN_UP (sizeof_memr + ((PAGE_ALIGN_DOWN (base + len) - min) / PAGE_SIZE + 7) / 8).
Record fits (base len first : Z) (pages : Z) : Prop := {
  fi_first : base < first;
  fi_aligned : aligned first PAGE_SHIFT;
  fi_pages : 0 < pages;
  fi_end : first + pages * PAGE_SIZE <= base + len;
  fi_gap : base <= first - PAGE_SIZE
}.
Lemma clear_ok b base len first pages size :
  memrs_ok (memrs b) -> clear_of (memrs b) base len -> fits base len first pages -> memr_ok (full_memr first pages size) ->
  memrs_ok (full_memr first pages size :: memrs b).
Proof.
  intros [H1 H2] Hcl [F1 F2 F3 F4 F5] Hok. assert (Ha : forall j r, memrs b !! j = Some r -> apart (full_memr first pages size) r).
  { intros j r Hj. destruct (Hcl _ _ Hj); unfold apart, memr_end in *; cbn [first_page nr_pages full_memr]; lia. }
  split.
  - intros [|i] r Hi; [by injection Hi as <-|by apply (H1 i)].
  - intros [|i] [|j] r r' Hi Hj Hne; [done|injection Hi as <-; by apply (Ha j)|injection Hj as <-|apply (H2 i j); [done..|congruence]].
    destruct (Ha i r Hi); unfold apart; tauto.
Qed.
Lemma clear_out l base len q : clear_of l base len -> base <= q <= base + len -> ~ in_mem l q.
Proof. intros Hcl Hq (i & r & Hi & Hc). destruct (Hcl _ _ Hi); unfold contains in *; lia. Qed.

(** Entering a region: the descriptor, the map, then the chunks. *)
Lemma enter_region b base len first pages size (Q : Z -> uk_bbpalloc -> Prop) :
  buddy_inv b nowhere -> 0 < base -> base + len < 2 ^ 64 -> clear_of (memrs b) base len -> fits base len first pages ->
  pages < 64 * (size / 8) ->
  (forall b', buddy_inv b' nowhere -> updated true (range first pages) (full_memr first pages size :: memrs b) (memrs b') -> Q 0 b') ->
  wp (modify (fun b => set_memrs (full_memr first pages size :: memrs b) b);; map_free first pages;;
      addmem_loop (Z.to_nat pages) first (pages * PAGE_SIZE);; mret 0) Q b.
Proof.
  intros Hb Hb0 H64 Hcl Hfit Hsz HQ. pose proof Hfit as [F1 F2 F3 F4 F5]. unfold PAGE_SIZE in F4, F5. set (hi := first + pages * PAGE_SIZE).
  assert (Hok : memr_ok (full_memr first pages size)) by (apply full_memr_ok; unfold PAGE_SIZE; lia || done).
  apply wp_bind, wp_modify. assert (Hg : buddy_inv (set_memrs (full_memr first pages size :: memrs b) b) (range first pages)).
  { apply grow_inv; [done|done|done|by apply (clear_ok b base len); [apply Hb|..]|].
    intros q Hm Hr. apply (clear_out _ base len q) in Hm; [done|done|]. unfold range, PAGE_SIZE in *. lia. }
  assert (Hout : forall q, base <= q <= base + len -> ~ page_free (full_memr first pages size :: memrs b) q).
  { intros q Hq Hf. apply full_memr_page in Hf; [|done|done]. exact (clear_out _ base len q Hcl Hq (page_free_in _ _ Hf)). }
  apply wp_bind. eapply wp_mono; [|apply (map_free_pages _ (range first pages)); [done|done|done|]].
  2: { intros q Hq Hr. split_and!; [|apply Hout; unfold range, PAGE_SIZE in Hr; lia|done]. exists O, (full_memr first pages size). done. }
  intros [] b1 (Hb1 & Hl1 & Hup). apply wp_bind. replace (pages * PAGE_SIZE) with (hi - first) by (unfold hi; lia).
  cbn [memrs set_memrs] in Hup. assert (Hhi : aligned hi PAGE_SHIFT) by (apply Z.divide_add_r; [done|apply Z.divide_factor_r]).
  unfold hi, PAGE_SIZE in *. eapply wp_mono; [|apply addmem_loop_spec; try done].
  - intros [] b' [Hb' Hm]. apply wp_ret, HQ; [done|]. by rewrite Hm.
  - lia.
  - lia.
  - unfold PAGE_SIZE. lia.
  - rewrite (up_free _ _ _ _ Hup _ Hhi). intros [Hf|Hr]; [by apply (Hout _) in Hf; [|lia]|unfold range, PAGE_SIZE in Hr; lia].
  - intros q Hq Hbt. rewrite (up_free _ _ _ _ Hup _ Hq). right. unfold range, between, PAGE_SIZE in *. lia.
  - intros o Hl _. exfalso. apply Hl1 in Hl. pose proof (linked_ord _ _ _ _ Hg Hl).
    assert (4096 <= 2 ^ (o + PAGE_SHIFT)) by (change 4096 with (2 ^ 12); apply pow2_le; unfold PAGE_SHIFT; lia).
    destruct (bi_free _ _ Hg _ o (first - 4096) Hl) as [Hf _]; [|unfold chunk, block; lia|by apply (Hout (first - 4096)) in Hf; [|lia]].
    change 4096 with (2 ^ 12). by apply aligned_sub.
Qed.

(** The pages a region gets after its descriptor and its map. *)
Lemma addmem_fits base len :
  0 < base -> base + 4095 < 2 ^ 64 -> 0 <= len -> base + len < 2 ^ 64 ->
  let min := PAGE_ALIGN_UP base in let max := PAGE_ALIGN_DOWN (base + len) in
  2 * PAGE_SIZE <= max - min ->
  let pages := (max - min) / PAGE_SIZE in let size := PAGE_ALIGN_UP (sizeof_memr + (pages + 7) / 8) in
  fits base len (min + size) (pages - size / PAGE_SIZE) /\ size mod PAGE_SIZE = 0 /\ 0 <= size /\
  max - min = pages * PAGE_SIZE /\ pages - size / PAGE_SIZE < 64 * ((size - sizeof_memr) / 8).
Proof.
  intros Hb Hb4 Hl H64 min max Hr pages size. change (2 ^ 64) with 18446744073709551616 in *.
  assert (Hmin : min = (base + 4095) / 4096 * 4096) by (apply page_align_up_spec; lia || (change (2 ^ 64) with 18446744073709551616; lia)).
  assert (Hmax : max = (base + len) / 4096 * 4096) by (apply page_align_down_spec; change (2 ^ 64) with 18446744073709551616; lia).
  pose proof (Z.div_mod (base + 4095) 4096 ltac:(lia)). pose proof (Z.mod_pos_bound (base + 4095) 4096 ltac:(lia)).
  pose proof (Z.div_mod (base + len) 4096 ltac:(lia)). pose proof (Z.mod_pos_bound (base + len) 4096 ltac:(lia)).
  set (km := (base + 4095) / 4096) in *. set (kM := (base + len) / 4096) in *. unfold PAGE_SIZE in *.
  assert (Hp : pages = kM - km). { unfold pages. replace (max - min) with ((kM - km) * 4096) by lia. apply Z.div_mul. lia. }
  pose proof (Z.div_mod (pages + 7) 8 ltac:(lia)). pose proof (Z.mod_pos_bound (pages + 7) 8 ltac:(lia)). set (by8 := (pages + 7) / 8) in *.
  assert (Hs : size = (sizeof_memr + by8 + 4095) / 4096 * 4096) by (apply page_align_up_spec; unfold sizeof_memr; change (2 ^ 64) with 18446744073709551616; lia).
  unfold sizeof_memr in *. pose proof (Z.div_mod (40 + by8 + 4095) 4096 ltac:(lia)). pose proof (Z.mod_pos_bound (40 + by8 + 4095) 4096 ltac:(lia)).
  set (c := (40 + by8 + 4095) / 4096) in *. assert (Hc : size / 4096 = c) by (rewrite Hs; apply Z.div_mul; lia). rewrite Hc.
  replace (size - 40) with ((c * 512 - 5) * 8) by lia. rewrite Z.div_mul by lia. split_and!; try lia.
  - split; unfold PAGE_SIZE; try lia. exists (km + c). change (2 ^ PAGE_SHIFT) with 4096. lia.
  - rewrite Hs. apply Z.mod_mul. lia.
Qed.
Lemma addmem_spec b base len :
  buddy_inv b nowhere -> 0 < base -> base + 4095 < 2 ^ 64 -> 0 <= len -> base + len < 2 ^ 64 -> clear_of (memrs b) base len ->
  wp (bbuddy_addmem base len) (fun rc b' =>
    if PAGE_ALIGN_DOWN (base + len) - PAGE_ALIGN_UP base <? 2 * PAGE_SIZE then rc = - EINVAL /\ b' = b
    else rc = 0 /\ buddy_inv b' nowhere /\
      let pages := (PAGE_ALIGN_DOWN (base + len) - addmem_first base len) / PAGE_SIZE in
      0 < pages /\ base < addmem_first base len /\ addmem_first base len + pages * PAGE_SIZE = PAGE_ALIGN_DOWN (base + len) /\
      exists r, first_page r = addmem_first base len /\ nr_pages r = pages /\ (forall p, page_free (r :: memrs b) p <-> page_free (memrs b) p) /\
        updated true (range (addmem_first base len) pages) (r :: memrs b) (memrs b')) b.
Proof.
  intros Hb H0 H4 Hl H64 Hcl. pose proof (addmem_fits base len H0 H4 Hl H64) as Hfit. unfold addmem_first.
  apply wp_bind, wp_assert; [rewrite negb_true_iff; lia|]. rewrite (wrap_small 64 (base + len)) by lia.
  set (min := PAGE_ALIGN_UP base) in *. set (max := PAGE_ALIGN_DOWN (base + len)) in *. cbn beta zeta iota in Hfit |- *.
  destruct (Z.ltb_spec max min) as [Hlt|Hge].
  { rewrite (proj2 (Z.ltb_lt _ _)) by (unfold PAGE_SIZE; lia). by apply wp_ret. }
  change (PAGE_ALIGN_UP (sizeof_memr + 8) + PAGE_SIZE) with (2 * PAGE_SIZE). destruct (Z.ltb_spec (max - min) (2 * PAGE_SIZE)) as [Hr|Hr]; [by apply wp_ret|].
  specialize (Hfit Hr). rewrite !Z.shiftr_div_pow2 by (unfold PAGE_SHIFT; lia). change (2 ^ PAGE_SHIFT) with PAGE_SIZE.
  set (pages := (max - min) / PAGE_SIZE) in *. set (size := PAGE_ALIGN_UP (sizeof_memr + (pages + 7) / 8)) in *.
  destruct Hfit as (Hfit & Hmod & Hs0 & Hmm & Hsz). pose proof (Z.div_mod size PAGE_SIZE ltac:(done)) as Hdm. rewrite Hmod in Hdm.
  assert (Hpg : max - min - size = (pages - size / PAGE_SIZE) * PAGE_SIZE) by (unfold PAGE_SIZE in *; lia). rewrite Hpg.
  assert (Hp2 : (max - (min + size)) / PAGE_SIZE = pages - size / PAGE_SIZE).
  { replace (max - (min + size)) with ((pages - size / PAGE_SIZE) * PAGE_SIZE) by lia. by apply Z.div_mul. }
  rewrite Hp2. apply (enter_region b base len (min + size) (pages - size / PAGE_SIZE) (size - sizeof_memr)); try done.
  intros b' Hb' Hup. pose proof (fi_first _ _ _ _ Hfit). pose proof (fi_pages _ _ _ _ Hfit). split_and!; try done; [lia|].
  exists (full_memr (min + size) (pages - size / PAGE_SIZE) (size - sizeof_memr)). split_and!; try done. intros p. by apply full_memr_page.
Qed.
