(* ===== verification/BuddyProps.v ===== *)
(** * What a client of the page allocator can rely on

    The chunks of the free lists are a function of the set of free pages, an allocation fails
    only when no aligned run of free pages is big enough, and any history of allocations and
    releases keeps the pages of the allocator split between the free ones and the blocks that
    are held. *)

From stdpp Require Import prelude gmap.
From S2P Require Import Prelude Bitmap Buddy BuddyLogic BuddyOps.

(** ** The chunks are a function of the free pages *)

Definition free_chunk (b : uk_bbpalloc) (a o : Z) : Prop :=
  forall q, aligned q PAGE_SHIFT -> chunk a o q -> page_free (memrs b) q.

Lemma chunk_inside a o a' o' q :
  0 <= o <= o' -> aligned a (o + PAGE_SHIFT) -> aligned a' (o' + PAGE_SHIFT) -> chunk a' o' a -> chunk a o q -> chunk a' o' q.
Proof.
  intros Ho Ha Ha' Hc Hq. unfold chunk, PAGE_SHIFT in *. pose proof (pow2_pos (o + 12) ltac:(lia)).
  destruct (block_nested a (o + 12) a' (o' + 12) a Ha Ha' ltac:(lia)); [unfold block; lia|done|]. unfold block in *. lia.
Qed.
Lemma chunk_same a a' o : 0 <= o -> aligned a (o + PAGE_SHIFT) -> aligned a' (o + PAGE_SHIFT) -> chunk a' o a -> a = a'.
Proof.
  intros Ho Ha Ha' Hc. unfold chunk, PAGE_SHIFT in *. pose proof (pow2_pos (o + 12) ltac:(lia)).
  destruct (block_nested a (o + 12) a' (o + 12) a Ha Ha' ltac:(lia)); [unfold block; lia|done|]. lia.
Qed.
(** A bigger chunk around [a] has the buddy of [a] too. *)
Lemma buddy_inside a o a' o' q :
  0 <= o < o' -> aligned a (o + PAGE_SHIFT) -> aligned a' (o' + PAGE_SHIFT) -> chunk a' o' a ->
  chunk (Z.lxor a (2 ^ (o + PAGE_SHIFT))) o q -> chunk a' o' q.
Proof.
  intros Ho Ha Ha' Hc Hq. assert (Ho12 : 0 <= o + PAGE_SHIFT) by (unfold PAGE_SHIFT; lia). pose proof (pow2_pos _ Ho12) as Hp.
  pose proof (pow2_S _ Ho12) as HS. unfold chunk in *. destruct (buddy_spec a (o + PAGE_SHIFT) Ho12 Ha) as [(Hb & Hal & _)|(Hb & Hal & _)]; rewrite Hb in *.
  - destruct (block_nested a (o + PAGE_SHIFT + 1) a' (o' + PAGE_SHIFT) a Hal Ha'); [unfold PAGE_SHIFT in *; lia|unfold block; lia|done|]. unfold block in *. lia.
  - destruct (block_nested (a - 2 ^ (o + PAGE_SHIFT)) (o + PAGE_SHIFT + 1) a' (o' + PAGE_SHIFT) a Hal Ha'); [unfold PAGE_SHIFT in *; lia|unfold block; lia|done|].
    unfold block in *. lia.
Qed.
Lemma lxor_aligned a e : 0 <= e -> aligned a e -> aligned (Z.lxor a (2 ^ e)) e.
Proof.
  intros He Ha. destruct (buddy_spec a e He Ha) as [(-> & _)|(-> & _)]; [by apply aligned_add|by apply aligned_sub].
Qed.
Lemma linked_free b a o : buddy_inv b nowhere -> linked b a o -> free_chunk b a o.
Proof. intros Hb Hl q Hq Hc. by apply (bi_free _ _ Hb a o q). Qed.

(** Free pages that make an aligned block are in one chunk, because buddies are merged. *)
Lemma free_block_linked b o : buddy_inv b nowhere -> 0 <= o -> forall a, o < FREELIST_SIZE -> aligned a (o + PAGE_SHIFT) -> free_chunk b a o ->
  exists a' o', linked b a' o' /\ o <= o' < FREELIST_SIZE /\ aligned a' (o' + PAGE_SHIFT) /\ chunk a' o' a.
Proof.
  intros Hb Ho. pattern o. revert o Ho. apply natlike_ind.
  - intros a _ Ha Hf. destruct (aligned_head a 0 ltac:(lia) Ha) as [Ha12 Hc]. destruct (bi_cover _ _ Hb a Ha12) as (a' & o' & Hl & Hc'); [by apply Hf|by intros []|].
    pose proof (linked_ord _ _ _ _ Hb Hl). exists a', o'. split_and!; try done; try lia. by apply (bi_aligned _ _ Hb).
  - intros o Ho IH a Hlt Ha Hf. assert (Ho12 : 0 <= o + PAGE_SHIFT) by (unfold PAGE_SHIFT; lia).
    replace (Z.succ o + PAGE_SHIFT) with (o + PAGE_SHIFT + 1) in Ha by lia. pose proof (pow2_S _ Ho12) as HS. pose proof (pow2_pos _ Ho12) as Hp.
    assert (Hao : aligned a (o + PAGE_SHIFT)) by (apply (aligned_le _ _ (o + PAGE_SHIFT + 1)); [done|lia]).
    assert (Hb0 : Z.lxor a (2 ^ (o + PAGE_SHIFT)) = a + 2 ^ (o + PAGE_SHIFT)).
    { pose proof (proj2 (bit_aligned a _ Ho12 Hao) Ha) as Hbit. destruct (buddy_spec a _ Ho12 Hao) as [(-> & _)|(Hs & Hal & Ht)]; [done|].
      rewrite Hs in Ht. replace a with (a - 2 ^ (o + PAGE_SHIFT) + 2 ^ (o + PAGE_SHIFT)) in Hbit by lia.
      rewrite bit_flip, Ht in Hbit; [done|done|by apply aligned_sub]. }
    assert (Hfc : forall x, (x = a \/ x = a + 2 ^ (o + PAGE_SHIFT)) -> free_chunk b x o).
    { intros x Hx q Hq Hc. apply Hf; [done|]. unfold chunk, block in *. replace (Z.succ o + PAGE_SHIFT) with (o + PAGE_SHIFT + 1) by lia. lia. }
    destruct (IH a) as (a1 & o1 & Hl1 & Ho1 & Ha1 & Hc1); [lia|done|by apply Hfc; left|].
    destruct (IH (a + 2 ^ (o + PAGE_SHIFT))) as (a2 & o2 & Hl2 & Ho2 & Ha2 & Hc2); [lia|by apply aligned_add|by apply Hfc; right|].
    destruct (decide (o1 = o)) as [->|Hne1]; [|exists a1, o1; split_and!; done || lia].
    destruct (decide (o2 = o)) as [->|Hne2].
    + apply (chunk_same a a1 o) in Hc1 as <-; [|done..]. apply (chunk_same _ a2 o) in Hc2 as <-; [|done|by apply aligned_add|done].
      exfalso. apply (bi_coalesced _ _ Hb a o Hl1); [lia|]. by rewrite Hb0.
    + exists a2, o2. split_and!; try done; try lia. apply (buddy_inside (a + 2 ^ (o + PAGE_SHIFT)) o); [lia|by apply aligned_add|done|done|].
      rewrite <- Hb0, Z.lxor_assoc, Z.lxor_nilpotent, Z.lxor_0_r. unfold chunk, block. lia.
Qed.
(** A chunk is a maximal aligned block of free pages. *)
Lemma linked_maximal b a o : buddy_inv b nowhere ->
  linked b a o <-> 0 <= o < FREELIST_SIZE /\ aligned a (o + PAGE_SHIFT) /\ free_chunk b a o /\
    (o < FREELIST_SIZE - 1 -> ~ free_chunk b (Z.lxor a (2 ^ (o + PAGE_SHIFT))) o).
Proof.
  intros Hb. assert (Hmax : forall o, 0 <= o -> 0 <= o + PAGE_SHIFT) by (unfold PAGE_SHIFT; lia). split.
  - intros Hl. pose proof (linked_ord _ _ _ _ Hb Hl) as Ho. pose proof (bi_aligned _ _ Hb _ _ Hl) as Ha.
    split_and!; [lia|lia|done|by apply linked_free|]. intros Ho51 Hf. pose proof (lxor_aligned a (o + PAGE_SHIFT) (Hmax o ltac:(lia)) Ha) as Hxa.
    destruct (free_block_linked b o Hb ltac:(lia) _ ltac:(lia) Hxa Hf) as (a' & o' & Hl' & Ho' & Ha' & Hc').
    destruct (decide (o' = o)) as [->|Hne].
    + apply chunk_same in Hc' as <-; [|lia|done|done]. by apply (bi_coalesced _ _ Hb a o Hl).
    + assert (Hin : chunk a' o' a).
      { apply (buddy_inside (Z.lxor a (2 ^ (o + PAGE_SHIFT))) o); [lia|done..|]. rewrite Z.lxor_assoc, Z.lxor_nilpotent, Z.lxor_0_r.
        by apply (aligned_head a o); [lia|]. }
      destruct (bi_disjoint _ _ Hb a o a' o' a Hl Hl'); [by apply (aligned_head a o); [lia|]|done|congruence].
  - intros (Ho & Ha & Hf & Hbud). destruct (free_block_linked b o Hb ltac:(lia) a ltac:(lia) Ha Hf) as (a' & o' & Hl' & Ho' & Ha' & Hc').
    destruct (decide (o' = o)) as [->|Hne]; [by apply chunk_same in Hc' as ->; [|lia|..]|]. exfalso. apply Hbud; [lia|].
    intros q Hq Hc. apply (linked_free b a' o' Hb Hl'); [done|]. by apply (buddy_inside a o); [lia|..].
Qed.
Lemma linked_canonical b b' : buddy_inv b nowhere -> buddy_inv b' nowhere ->
  (forall q, aligned q PAGE_SHIFT -> page_free (memrs b') q <-> page_free (memrs b) q) -> forall a o, linked b' a o <-> linked b a o.
Proof.
  intros Hb Hb' Hf a o. assert (Hfc : forall x, free_chunk b' x o <-> free_chunk b x o).
  { intros x. split; intros H q Hq Hc; specialize (Hf q Hq); specialize (H q Hq Hc); tauto. }
  rewrite !linked_maximal by done. rewrite !Hfc. done.
Qed.

(** ** The number of free pages *)

Lemma free_bit l i r q : memrs_ok l -> l !! i = Some r -> contains r q -> page_free l q <-> page_bit r q = false.
Proof.
  intros Hl Hi Hc. split; [|intros; by exists i, r]. intros (j & r' & Hj & Hcj & Hb).
  by destruct (contains_unique l j i r' r q Hl Hj Hi Hcj Hc) as [_ ->].
Qed.
Lemma free_count_ext l l' :
  memrs_ok l -> memrs_ok l' ->
  (forall i, (fun r => (first_page r, nr_pages r)) <$> l' !! i = (fun r => (first_page r, nr_pages r)) <$> l !! i) ->
  (forall q, aligned q PAGE_SHIFT -> page_free l' q <-> page_free l q) -> free_count l' = free_count l.
Proof.
  intros Hl Hl' Hsh Hf. assert (Hm : forall i, memr_free <$> l' !! i = memr_free <$> l !! i).
  { intros i. specialize (Hsh i). destruct (l' !! i) as [r'|] eqn:Hi', (l !! i) as [r|] eqn:Hi; try done. cbn in *. injection Hsh as H1 H2. f_equal.
    unfold memr_free. rewrite H2. apply cnt_ext. intros j Hj. pose proof (mo_aligned _ (ms_ok _ Hl _ _ Hi)) as [k Hk].
    set (q := first_page r + Z.of_nat j * PAGE_SIZE). assert (Hq : aligned q PAGE_SHIFT) by (exists (k + Z.of_nat j); unfold q; change (2 ^ PAGE_SHIFT) with PAGE_SIZE in *; lia).
    assert (Hj' : (q - first_page r) / PAGE_SIZE = Z.of_nat j) by (unfold q; rewrite Z.add_simpl_l; by apply Z.div_mul).
    specialize (Hf q Hq). rewrite (free_bit l' i r'), (free_bit l i r) in Hf; [|done|done|unfold contains, memr_end, q, PAGE_SIZE; lia|done|done|unfold contains, memr_end, q, PAGE_SIZE; lia].
    unfold page_bit in Hf. rewrite H1, Hj' in Hf. destruct (bit_at _ _), (bit_at _ _); intuition congruence. }
  clear - Hm. revert l' Hm. induction l as [|r l IH]; intros [|r' l'] Hm; [done|by specialize (Hm O)|by specialize (Hm O)|].
  cbn. rewrite (IH l') by (intros i; apply (Hm (S i))). specialize (Hm O). cbn in Hm. injection Hm as ->. done.
Qed.
Lemma updated_count v b b' p n :
  buddy_inv b nowhere -> aligned p PAGE_SHIFT -> 0 < n -> (forall q, aligned q PAGE_SHIFT -> range p n q -> in_mem (memrs b) q) ->
  (forall q, aligned q PAGE_SHIFT -> range p n q -> page_free (memrs b) q <-> v = false) ->
  updated v (range p n) (memrs b) (memrs b') -> free_count (memrs b') = free_count (memrs b) + if v then n else - n.
Proof.
  intros Hb Hp Hn Hin Hold Hup. assert (Hex : exists l1, updated v (range p n) (memrs b) l1 /\ free_count l1 = free_count (memrs b) + if v then n else - n).
  { destruct v; [pose proof (map_update_spec true free_words b p n free_words_update (bi_memrs _ _ Hb) Hp Hn Hin) as Hw
      |pose proof (map_update_spec false alloc_words b p n alloc_words_update (bi_memrs _ _ Hb) Hp Hn Hin) as Hw];
      unfold wp in Hw; destruct (map_update _ _ _ _) as [[[] b1]| |]; try done; destruct Hw as (l1 & _ & Hl & Hc); exists l1; auto. }
  destruct Hex as (l1 & Hl1 & <-). apply free_count_ext; [apply Hl1|apply Hup| |].
  - intros i. by rewrite (up_shape _ _ _ _ Hup), (up_shape _ _ _ _ Hl1).
  - intros q Hq. by rewrite (up_free _ _ _ _ Hup q Hq), (up_free _ _ _ _ Hl1 q Hq).
Qed.

(** ** A new allocator *)

Definition empty_alloc : uk_bbpalloc := mk_bbpalloc 0 (replicate (Z.to_nat FREELIST_SIZE) []) [] ∅.
Lemma empty_unlinked a o : ~ linked empty_alloc a o.
Proof. intros (_ & fl & Hfl & Hin). cbn [empty_alloc free_head] in Hfl. apply lookup_replicate in Hfl as [-> _]. by apply elem_of_nil in Hin. Qed.
Lemma empty_memrs i r : memrs empty_alloc !! i <> Some r.
Proof. cbn [empty_alloc memrs]. by rewrite lookup_nil. Qed.
Lemma empty_inv : buddy_inv empty_alloc nowhere.
Proof.
  split; try done; try (intros; by exfalso; eapply empty_unlinked).
  intros p _ (i & r & Hi & _). by apply empty_memrs in Hi.
Qed.
(** All the pages of a new allocator are free, and they come after its descriptor. *)
Record fresh (b : uk_bbpalloc) (lo hi : Z) : Prop := {
  fr_inv : buddy_inv b nowhere;
  fr_free q : aligned q PAGE_SHIFT -> page_free (memrs b) q <-> in_mem (memrs b) q;
  fr_in q : in_mem (memrs b) q -> lo < q < hi
}.
Lemma empty_fresh lo hi : fresh empty_alloc lo hi.
Proof. split; [apply empty_inv|intros q _|intros q]; [split|]; intros (i & r & Hi & _); by apply empty_memrs in Hi. Qed.
Lemma alloc_init_spec metalen base len :
  0 <= base -> 0 < metalen -> base + 4095 + metalen < 2 ^ 64 -> 0 <= len -> base + len < 2 ^ 64 ->
  let min := PAGE_ALIGN_UP base in let max := PAGE_ALIGN_DOWN (base + len) in
  (max <= min -> uk_allocbbuddy_init metalen base len = Abort) /\
  (min < max -> exists r, uk_allocbbuddy_init metalen base len = Done r /\
     match r with None => max < min + metalen | Some b => min + metalen <= max /\ fresh b (min + metalen) max end).
Proof.
  intros Hb Hm H4 Hl H64 min max. unfold uk_allocbbuddy_init. rewrite (wrap_small 64 (base + len)) by lia. fold min max. split.
  { intros Hle. by rewrite (proj2 (Z.ltb_ge min max) Hle). }
  intros Hlt. rewrite (proj2 (Z.ltb_lt min max) Hlt). cbn [negb].
  assert (Hmin : min = (base + 4095) / 4096 * 4096) by (apply page_align_up_spec; lia).
  assert (Hmax : max = (base + len) / 4096 * 4096) by (apply page_align_down_spec; lia).
  pose proof (Z.div_mod (base + 4095) 4096 ltac:(lia)). pose proof (Z.mod_pos_bound (base + 4095) 4096 ltac:(lia)).
  pose proof (Z.div_mod (base + len) 4096 ltac:(lia)). pose proof (Z.mod_pos_bound (base + len) 4096 ltac:(lia)).
  rewrite (wrap_small 64 (min + metalen)) by lia. destruct (Z.ltb_spec max (min + metalen)) as [Hn|Hge]; [by exists None|].
  fold empty_alloc. destruct (Z.ltb_spec (min + metalen) max) as [Hlt2|Hge2]; [|eexists; split; [done|]; split; [done|apply empty_fresh]].
  assert (Hadd : max = min + metalen + (max - (min + metalen))) by lia.
  destruct (proj1 (wp_elim _ _ _) (addmem_spec empty_alloc (min + metalen) (max - (min + metalen)) empty_inv
    ltac:(lia) ltac:(lia) ltac:(lia) ltac:(lia) ltac:(intros i r Hi; by apply empty_memrs in Hi))) as (rc & b & -> & Ha).
  eexists; split; [done|]. split; [done|]. destruct (_ <? _) in Ha; [destruct Ha as [_ ->]; apply empty_fresh|].
  destruct Ha as (_ & Hb' & Hp & Hfirst & Hend & r & Hr1 & Hr2 & Hfull & Hup). rewrite <- Hadd in *.
  assert (Hin : forall q, in_mem (memrs b) q <-> range (addmem_first (min + metalen) (max - (min + metalen)))
    ((PAGE_ALIGN_DOWN max - addmem_first (min + metalen) (max - (min + metalen))) / PAGE_SIZE) q).
  { intros q. rewrite (updated_in_mem _ _ _ _ q Hup). unfold range. split.
    - intros ([|i] & r' & Hi & Hc); [injection Hi as <-|done]. unfold contains, memr_end in Hc. by rewrite Hr1, Hr2 in Hc.
    - intros Hq. exists O, r. split; [done|]. unfold contains, memr_end. by rewrite Hr1, Hr2. }
  split; [done| |].
  - intros q Hq. rewrite Hin, (up_free _ _ _ _ Hup q Hq), Hfull. split; [|by right]. intros [(i & r' & Hi & _)|]; [by apply empty_memrs in Hi|done].
  - intros q Hq%Hin. unfold range in Hq. rewrite Hend in Hq. rewrite (page_align_down_id max) in Hq; [lia|lia|exists ((base + len) / 4096); by rewrite Hmax].
Qed.

(** ** A client *)

(** It asks for blocks, and gives back the first [k] pages of a block it holds. *)
Inductive request := Alloc (n : Z) | Free (i : nat) (k : Z).
Definition serve (held : list (Z * Z)) (c : request) : M uk_bbpalloc (list (Z * Z)) :=
  match c with
  | Alloc n =>
      if (0 <? n) && (n <? 2 ^ 64) then
        r ← bbuddy_palloc n; mret (match r with Some p => (p, n) :: held | None => held end)
      else mret held
  | Free i k =>
      match held !! i with
      | Some (p, n) =>
          if (0 <? k) && (k <=? n) then
            bbuddy_pfree p k;; mret (<[i := (p + k * PAGE_SIZE, n - k)]> held)
          else mret held
      | None => mret held
      end
  end.
Fixpoint serve_all (held : list (Z * Z)) (cs : list request) : M uk_bbpalloc (list (Z * Z)) :=
  match cs with [] => mret held | c :: cs => held ← serve held c; serve_all held cs end.

Definition held_page (held : list (Z * Z)) (q : Z) : Prop := exists i p n, held !! i = Some (p, n) /\ range p n q.
Definition held_pages (held : list (Z * Z)) : Z := foldr (fun b s => b.2 + s) 0 held.
(** The pages of [b0], all of them free there, are the free ones and the ones in the blocks held. *)
Record split_pages (b0 b : uk_bbpalloc) (held : list (Z * Z)) : Prop := {
  sp_inv : buddy_inv b nowhere;
  sp_block i p n : held !! i = Some (p, n) -> 0 < p /\ aligned p PAGE_SHIFT /\ 0 <= n;
  sp_disjoint i j p n p' n' q : aligned q PAGE_SHIFT -> held !! i = Some (p, n) -> held !! j = Some (p', n') -> range p n q -> range p' n' q -> i = j;
  sp_shape i : (fun r => (first_page r, nr_pages r)) <$> memrs b !! i = (fun r => (first_page r, nr_pages r)) <$> memrs b0 !! i;
  sp_mem q : in_mem (memrs b) q <-> in_mem (memrs b0) q;
  sp_free q : aligned q PAGE_SHIFT -> page_free (memrs b) q <-> in_mem (memrs b0) q /\ ~ held_page held q;
  sp_held q : aligned q PAGE_SHIFT -> held_page held q -> in_mem (memrs b0) q;
  sp_count : free_count (memrs b) = free_count (memrs b0) - held_pages held
}.

Section Client.
  Context (b0 : uk_bbpalloc).

Lemma split_start lo hi : fresh b0 lo hi -> split_pages b0 b0 [].
Proof.
  intros [H1 H2 H3]. split; try done.
  - intros q Hq. rewrite H2 by done. split; [|by intros []]. intros Hm. split; [done|]. by intros (i & p & n & Hi & _).
  - intros q _ (i & p & n & Hi & _). by rewrite lookup_nil in Hi.
  - cbn. lia.
Qed.
Lemma held_cons p n held q : held_page ((p, n) :: held) q <-> range p n q \/ held_page held q.
Proof.
  split.
  - intros ([|i] & p' & n' & Hi & Hr); [injection Hi as -> ->; by left|]. right. by exists i, p', n'.
  - intros [Hr|(i & p' & n' & Hi & Hr)]; [by exists O, p, n|by exists (S i), p', n'].
Qed.
Lemma split_alloc b b' held p n :
  split_pages b0 b held -> buddy_inv b' nowhere -> 0 < p -> aligned p PAGE_SHIFT -> 0 < n ->
  (forall q, aligned q PAGE_SHIFT -> range p n q -> page_free (memrs b) q) ->
  updated false (range p n) (memrs b) (memrs b') -> split_pages b0 b' ((p, n) :: held).
Proof.
  intros [S1 S2 S3 Ssh S4 S5 S6 S7] Hb' Hp Ha Hn Hf Hup.
  assert (Hsep : forall j p' n' q, aligned q PAGE_SHIFT -> held !! j = Some (p', n') -> range p n q -> range p' n' q -> False).
  { intros j p' n' q Hq Hj Hr Hr'. apply (Hf q Hq), S5 in Hr as [_ Hno]; [|done]. apply Hno. by exists j, p', n'. }
  split; try done.
  - intros [|i] p' n' Hi; [injection Hi as <- <-; split_and!; done || lia|by apply (S2 i)].
  - intros [|i] [|j] p1 n1 p2 n2 q Hq Hi Hj Hr1 Hr2; [done|injection Hi as <- <-; by exfalso; eapply Hsep|injection Hj as <- <-; by exfalso; eapply Hsep|].
    f_equal. by apply (S3 i j p1 n1 p2 n2 q).
  - intros i'. by rewrite (up_shape _ _ _ _ Hup).
  - intros q. by rewrite (updated_in_mem _ _ _ _ q Hup).
  - intros q Hq. rewrite (up_free _ _ _ _ Hup q Hq), held_cons, (S5 q Hq). tauto.
  - intros q Hq. rewrite held_cons. intros [Hr|Hh]; [by apply (Hf q Hq), S5 in Hr as [? _]|by apply S6].
  - rewrite (updated_count false b b' p n); try done.
    + cbn. unfold held_pages in S7. rewrite S7. lia.
    + intros q Hq Hr. by apply page_free_in, Hf.
    + intros q Hq Hr. split; [done|]. intros _. by apply Hf.
Qed.
Lemma held_rest held i p n k q : held !! i = Some (p, n) -> 0 < k <= n ->
  (forall j p' n', held !! j = Some (p', n') -> range p n q -> range p' n' q -> i = j) ->
  held_page (<[i := (p + k * PAGE_SIZE, n - k)]> held) q <-> held_page held q /\ ~ range p k q.
Proof.
  intros Hi Hk Hd. split.
  - intros (j & p' & n' & Hj & Hr). destruct (decide (j = i)) as [->|Hne].
    + rewrite list_lookup_insert_eq in Hj by (by eapply lookup_lt_Some). injection Hj as <- <-.
      split; [exists i, p, n; split; [done|]|]; unfold range, PAGE_SIZE in *; lia.
    + rewrite list_lookup_insert_ne in Hj by done. split; [by exists j, p', n'|]. intros Hr'. apply Hne. symmetry. apply (Hd j p' n'); [done| |done].
      unfold range, PAGE_SIZE in *. lia.
  - intros [(j & p' & n' & Hj & Hr) Hno]. destruct (decide (j = i)) as [->|Hne].
    + simplify_eq. exists i, (p + k * PAGE_SIZE), (n - k). rewrite list_lookup_insert_eq by (by eapply lookup_lt_Some).
      split; [done|]. unfold range, PAGE_SIZE in *. lia.
    + exists j, p', n'. by rewrite list_lookup_insert_ne.
Qed.
Lemma held_pages_insert held i p n p' n' : held !! i = Some (p, n) -> held_pages (<[i := (p', n')]> held) = held_pages held - n + n'.
Proof.
  revert i. induction held as [|[x y] held IH]; intros [|i] Hi; [done..|injection Hi as -> ->; cbn; lia|].
  change (y + held_pages (<[i := (p', n')]> held) = y + held_pages held - n + n'). rewrite (IH i) by done. lia.
Qed.
Lemma split_release b b' held i p n k :
  split_pages b0 b held -> held !! i = Some (p, n) -> 0 < k <= n -> buddy_inv b' nowhere ->
  updated true (range p k) (memrs b) (memrs b') -> split_pages b0 b' (<[i := (p + k * PAGE_SIZE, n - k)]> held).
Proof.
  intros [S1 S2 S3 Ssh S4 S5 S6 S7] Hi Hk Hb' Hup. destruct (S2 _ _ _ Hi) as (Hp & Ha & Hn).
  assert (Hrest : forall q, aligned q PAGE_SHIFT -> held_page (<[i := (p + k * PAGE_SIZE, n - k)]> held) q <-> held_page held q /\ ~ range p k q).
  { intros q Hq. apply (held_rest held i p n k q Hi Hk). intros j p' n' Hj Hr Hr'. by apply (S3 i j p n p' n' q). }
  assert (Hin : forall q, range p k q -> held_page held q) by (intros q Hr; exists i, p, n; split; [done|]; unfold range, PAGE_SIZE in *; lia).
  assert (Hnew : forall j p' n', <[i := (p + k * PAGE_SIZE, n - k)]> held !! j = Some (p', n') -> exists p1 n1, held !! j = Some (p1, n1) /\
    (forall q, range p' n' q -> range p1 n1 q) /\ 0 < p' /\ aligned p' PAGE_SHIFT /\ 0 <= n').
  { intros j p' n' Hj. destruct (decide (j = i)) as [->|Hne].
    - rewrite list_lookup_insert_eq in Hj by (by eapply lookup_lt_Some). injection Hj as <- <-. exists p, n. split; [done|].
      split; [intros q; unfold range, PAGE_SIZE; lia|]. split_and!; [unfold PAGE_SIZE; lia|apply Z.divide_add_r; [done|apply Z.divide_factor_r]|lia].
    - rewrite list_lookup_insert_ne in Hj by done. exists p', n'. split_and!; try done; by destruct (S2 _ _ _ Hj) as (? & ? & ?). }
  split; try done.
  - intros j p' n' Hj. by destruct (Hnew _ _ _ Hj) as (p1 & n1 & _ & _ & ?).
  - intros j1 j2 p1 n1 p2 n2 q Hq Hj1 Hj2 Hr1 Hr2. destruct (Hnew _ _ _ Hj1) as (p1' & n1' & H1 & H2 & _), (Hnew _ _ _ Hj2) as (p2' & n2' & H3 & H4 & _).
    apply (S3 j1 j2 p1' n1' p2' n2' q); auto.
  - intros i'. by rewrite (up_shape _ _ _ _ Hup).
  - intros q. by rewrite (updated_in_mem _ _ _ _ q Hup).
  - intros q Hq. rewrite (up_free _ _ _ _ Hup q Hq), (Hrest q Hq), (S5 q Hq). specialize (Hin q). specialize (S6 q Hq).
    destruct (decide (p <= q < p + k * PAGE_SIZE)) as [Hr|Hr]; fold (range p k q) in Hr; tauto.
  - intros q Hq [Hh _]%Hrest; [|done]. by apply S6.
  - rewrite (updated_count true b b' p k); try done; [rewrite (held_pages_insert _ _ p n) by done; rewrite S7; lia|lia|..].
    + intros q Hq Hr. apply S4, S6; auto.
    + intros q Hq Hr. rewrite (S5 q Hq). split; [|done]. intros [_ Hno]. by destruct Hno; apply Hin.
Qed.

Lemma serve_spec b held c : split_pages b0 b held -> wp (serve held c) (fun held' b' => split_pages b0 b' held') b.
Proof.
  intros Hs. pose proof Hs as [S1 S2 S3 Ssh S4 S5 S6 S7]. destruct c as [n|i k]; cbn [serve].
  - destruct (Z.ltb_spec 0 n), (Z.ltb_spec n (2 ^ 64)); cbn [andb]; try by apply wp_ret.
    apply wp_bind. eapply wp_mono; [|apply palloc_spec; [done|lia]]. intros [p|] b' Hr; apply wp_ret.
    + destruct Hr as (Hb' & _ & Ha & Hp & Hf & Hup). by apply (split_alloc b b' held p n).
    + by destruct Hr as [-> _].
  - destruct (held !! i) as [[p n]|] eqn:Hi; [|by apply wp_ret]. destruct (S2 _ _ _ Hi) as (Hp & Ha & Hn).
    destruct (Z.ltb_spec 0 k), (Z.leb_spec k n); cbn [andb]; try by apply wp_ret.
    assert (Hin : forall q, range p k q -> held_page held q) by (intros q Hr; exists i, p, n; split; [done|]; unfold range, PAGE_SIZE in *; lia).
    apply wp_bind. eapply wp_mono; [|apply (pfree_spec b p k); [done|done|done|done|]].
    + intros [] b' [Hb' Hup]. apply wp_ret. by apply (split_release b b' held i p n k).
    + intros q Hq Hr. split; [apply S4, S6; auto|]. rewrite (S5 q Hq). intros [_ Hno]. by destruct Hno; apply Hin.
Qed.
Lemma serve_all_spec cs b held : split_pages b0 b held -> wp (serve_all held cs) (fun held' b' => split_pages b0 b' held') b.
Proof.
  revert b held. induction cs as [|c cs IH]; intros b held Hs; cbn [serve_all]; [by apply wp_ret|].
  apply wp_bind. eapply wp_mono; [|by apply serve_spec]. intros held' b' Hs'. by apply IH.
Qed.
End Client.

Lemma init_fresh metalen base len b0 :
  0 <= base -> 0 < metalen -> base + 4095 + metalen < 2 ^ 64 -> 0 <= len -> base + len < 2 ^ 64 ->
  uk_allocbbuddy_init metalen base len = Done (Some b0) -> exists lo hi, fresh b0 lo hi.
Proof.
  intros H1 H2 H3 H4 H5 Hi. destruct (alloc_init_spec metalen base len H1 H2 H3 H4 H5) as [Ha Hd].
  destruct (Z.lt_ge_cases (PAGE_ALIGN_UP base) (PAGE_ALIGN_DOWN (base + len))) as [Hlt|Hge]; [|by rewrite Ha in Hi].
  destruct (Hd Hlt) as (r & Hr & Hf). rewrite Hi in Hr. injection Hr as <-. destruct Hf as [_ Hf]. by eexists _, _.
Qed.
Lemma split_count b0 b held lo hi : fresh b0 lo hi -> split_pages b0 b held -> nr_free_pages b = u64 (nr_free_pages b0 - held_pages held).
Proof.
  intros Hf Hs. rewrite (bi_count _ _ (sp_inv _ _ _ Hs)), (sp_count _ _ _ Hs), (bi_count _ _ (fr_inv _ _ _ Hf)).
  unfold wrap. by rewrite Zminus_mod_idemp_l.
Qed.
Lemma split_canonical b0 b1 b2 held1 held2 :
  split_pages b0 b1 held1 -> split_pages b0 b2 held2 -> (forall q, aligned q PAGE_SHIFT -> held_page held1 q <-> held_page held2 q) ->
  (forall a o, linked b1 a o <-> linked b2 a o) /\ nr_free_pages b1 = nr_free_pages b2.
Proof.
  intros S1 S2 Hh. assert (Hf : forall q, aligned q PAGE_SHIFT -> page_free (memrs b1) q <-> page_free (memrs b2) q).
  { intros q Hq. rewrite (sp_free _ _ _ S1 q Hq), (sp_free _ _ _ S2 q Hq). specialize (Hh q Hq). tauto. }
  split; [apply linked_canonical; [apply S2|apply S1|done]|]. rewrite (bi_count _ _ (sp_inv _ _ _ S1)), (bi_count _ _ (sp_inv _ _ _ S2)). f_equal.
  apply free_count_ext; [apply (sp_inv _ _ _ S2)|apply (sp_inv _ _ _ S1)| |done].
  intros i. by rewrite (sp_shape _ _ _ S1), (sp_shape _ _ _ S2).
Qed.
Lemma forallb_lookup {A} (f : A -> bool) l i x : List.forallb f l = true -> l !! i = Some x -> f x = true.
Proof. intros Hf Hi. apply (proj1 (List.forallb_forall _ _) Hf). apply list_elem_of_In, list_elem_of_lookup. by exists i. Qed.
(** An allocator with 38 pages. *)
Definition small : uk_bbpalloc :=
  match uk_allocbbuddy_init 4096 4096 (40 * 4096) with Done (Some b) => b | _ => empty_alloc end.
Lemma small_init : uk_allocbbuddy_init 4096 4096 (40 * 4096) = Done (Some small).
Proof. by vm_compute. Qed.
Lemma small_ends : List.forallb (fun r => memr_end r <=? 409601) (memrs small) = true.
Proof. vm_compute. reflexivity. Qed.
Lemma small_inv : buddy_inv small nowhere.
Proof. destruct (init_fresh 4096 4096 (40 * 4096) small) as (lo & hi & Hf); [done..|apply small_init|apply Hf]. Qed.

(** ** Theorems *)

(** C15: From a new allocator, any sequence of requests is served: no assertion of the allocator
    fails and every loop ends.  Afterwards the pages are split exactly between the free ones and
    the blocks held: no page is in two blocks, no page of a block is free, no page is lost, the
    free lists satisfy the invariant, and the count of available pages is right. *)
Theorem client_partition metalen base len b0 cs :
  0 <= base -> 0 < metalen -> base + 4095 + metalen < 2 ^ 64 -> 0 <= len -> base + len < 2 ^ 64 ->
  uk_allocbbuddy_init metalen base len = Done (Some b0) ->
  exists held b, serve_all [] cs b0 = Done (held, b) /\ split_pages b0 b held /\ nr_free_pages b = u64 (nr_free_pages b0 - held_pages held).
Proof.
  intros H1 H2 H3 H4 H5 Hi. destruct (init_fresh metalen base len b0) as [lo [hi Hf]]; try done.
  destruct (proj1 (wp_elim _ _ _) (serve_all_spec b0 cs b0 [] (split_start b0 lo hi Hf))) as (held & b & Hrun & Hs).
  exists held, b. split_and!; try done. apply (split_count b0 b held lo hi); done.
Qed.
Lemma client_partition_witness : exists b0 held b,
  uk_allocbbuddy_init 4096 4096 (40 * 4096) = Done (Some b0) /\
  serve_all [] [Alloc 3; Alloc 8; Free 1 2; Alloc 40; Alloc 1; Free 0 1] b0 = Done (held, b) /\ held_pages held = 9 /\ split_pages b0 b held.
Proof.
  destruct (client_partition 4096 4096 (40 * 4096) small [Alloc 3; Alloc 8; Free 1 2; Alloc 40; Alloc 1; Free 0 1]) as (held & b & H1 & H2 & _);
    [done..|exact small_init|].
  exists small, held, b. split; [exact small_init|]. split; [exact H1|]. split; [|exact H2].
  apply (f_equal (fun o => match o with Done (h, _) => held_pages h | _ => 0 end)) in H1. rewrite <- H1. by vm_compute.
Defined.

(** C17: The free lists do not depend on the history.  Two sequences of requests that leave the
    same pages held leave the same chunks in the free lists, with the same orders, and the same
    count of available pages.  So when everything is given back, every chunk of the new
    allocator is there again. *)
Theorem history_independent metalen base len b0 cs1 cs2 held1 held2 b1 b2 :
  0 <= base -> 0 < metalen -> base + 4095 + metalen < 2 ^ 64 -> 0 <= len -> base + len < 2 ^ 64 ->
  uk_allocbbuddy_init metalen base len = Done (Some b0) ->
  serve_all [] cs1 b0 = Done (held1, b1) -> serve_all [] cs2 b0 = Done (held2, b2) ->
  (forall q, aligned q PAGE_SHIFT -> held_page held1 q <-> held_page held2 q) ->
  (forall a o, linked b1 a o <-> linked b2 a o) /\ nr_free_pages b1 = nr_free_pages b2.
Proof.
  intros H1 H2 H3 H4 H5 Hi Hr1 Hr2 Hh. destruct (init_fresh metalen base len b0) as [lo [hi Hf]]; try done.
  pose proof (serve_all_spec b0 cs1 b0 [] (split_start b0 lo hi Hf)) as S1. pose proof (serve_all_spec b0 cs2 b0 [] (split_start b0 lo hi Hf)) as S2.
  unfold wp in S1, S2. rewrite Hr1 in S1. rewrite Hr2 in S2. by apply (split_canonical b0 b1 b2 held1 held2).
Qed.
Lemma history_independent_witness : exists held b,
  serve_all [] [Alloc 3; Alloc 8; Free 1 2; Alloc 1; Free 0 1; Free 2 1; Free 1 8] small = Done (held, b) /\
  (forall a o, linked b a o <-> linked small a o) /\ nr_free_pages b = 38.
Proof.
  pose (f := fun o : outcome (list (Z * Z) * uk_bbpalloc) => match o with Done r => r | _ => ([], small) end).
  set (cs := [Alloc 3; Alloc 8; Free 1 2; Alloc 1; Free 0 1; Free 2 1; Free 1 8]). exists (f (serve_all [] cs small)).1, (f (serve_all [] cs small)).2.
  assert (Hrun : serve_all [] cs small = Done ((f (serve_all [] cs small)).1, (f (serve_all [] cs small)).2)) by by vm_compute.
  split; [exact Hrun|].
  refine (history_independent 4096 4096 (40 * 4096) small cs [] _ [] _ small _ _ _ _ _ small_init Hrun eq_refl _); [done..|].
  intros q _. assert (Hh : (f (serve_all [] cs small)).1 = [(32768, 0); (163840, 0); (28672, 0)]) by by vm_compute. rewrite Hh.
  split; [|intros (i & p & n & Hi & _); by rewrite lookup_nil in Hi].
  intros (i & p & n & Hi & Hr). exfalso. destruct i as [|[|[|i]]]; [injection Hi as <- <-; unfold range in Hr; lia..|done].
Defined.

(** C16: An allocation of [n] pages always returns, and it succeeds exactly when there is an
    aligned block of free pages of an order that has at least [n] pages: no free block big enough
    is ever missed because it is in pieces.  When it fails nothing changes. *)
Theorem palloc_complete b n :
  buddy_inv b nowhere -> 0 < n < 2 ^ 64 ->
  exists r b', bbuddy_palloc n b = Done (r, b') /\ (r = None -> b' = b) /\
    (is_Some r <-> exists a o, 0 <= o < FREELIST_SIZE /\ n <= 2 ^ o /\ aligned a (o + PAGE_SHIFT) /\ free_chunk b a o).
Proof.
  intros Hb Hn. destruct (proj1 (wp_elim _ _ _) (palloc_spec b n Hb Hn)) as (r & b' & Hrun & Hr). exists r, b'. split; [done|].
  destruct r as [p|].
  - destruct Hr as (_ & (o & Hl & Hno) & _). split; [done|]. split; [|by eexists]. intros _. exists p, o.
    destruct (proj1 (linked_maximal b p o Hb) Hl) as (Ho & Ha & Hf & _). done.
  - destruct Hr as [-> Hno]. split; [done|]. split; [by intros []|]. intros (a & o & Ho & Hle & Ha & Hf). exfalso.
    destruct (free_block_linked b o Hb ltac:(lia) a ltac:(lia) Ha Hf) as (a' & o' & Hl & Ho' & _). specialize (Hno _ _ Hl).
    pose proof (pow2_le o o' ltac:(lia)). lia.
Qed.
Lemma palloc_complete_witness : exists b', bbuddy_palloc 40 small = Done (None, b') /\
  ~ exists a o, 0 <= o < FREELIST_SIZE /\ 40 <= 2 ^ o /\ aligned a (o + PAGE_SHIFT) /\ free_chunk small a o.
Proof.
  destruct (palloc_complete small 40 small_inv) as (r & b' & H1 & _ & H2); [lia|]. exists b'.
  assert (Hr : r = None). { apply (f_equal (fun o => match o with Done (r, _) => r | _ => Some 0 end)) in H1. rewrite <- H1. by vm_compute. }
  rewrite Hr in H1, H2. split; [exact H1|]. intros Hex. apply H2 in Hex. by destruct Hex.
Defined.

(** C18: Adding memory always returns.  A region with less than two whole pages is refused with
    [EINVAL] and nothing changes.  Otherwise the pages after the descriptor and the map of the
    region, up to the last whole page, become memory of the allocator, all of them free; the
    pages it had stay as they are, and the free lists satisfy the invariant with the new chunks
    in them. *)
Theorem addmem_outcome b base len :
  buddy_inv b nowhere -> 0 < base -> base + 4095 < 2 ^ 64 -> 0 <= len -> base + len < 2 ^ 64 -> clear_of (memrs b) base len ->
  exists rc b', bbuddy_addmem base len b = Done (rc, b') /\
    if PAGE_ALIGN_DOWN (base + len) - PAGE_ALIGN_UP base <? 2 * PAGE_SIZE then rc = - EINVAL /\ b' = b
    else rc = 0 /\ buddy_inv b' nowhere /\ base < addmem_first base len < PAGE_ALIGN_DOWN (base + len) /\
      forall q, aligned q PAGE_SHIFT ->
        (in_mem (memrs b') q <-> in_mem (memrs b) q \/ between (addmem_first base len) (PAGE_ALIGN_DOWN (base + len)) q) /\
        (page_free (memrs b') q <-> page_free (memrs b) q \/ between (addmem_first base len) (PAGE_ALIGN_DOWN (base + len)) q).
Proof.
  intros Hb H1 H2 H3 H4 Hcl. destruct (proj1 (wp_elim _ _ _) (addmem_spec b base len Hb H1 H2 H3 H4 Hcl)) as (rc & b' & Hrun & Hr).
  exists rc, b'. split; [done|]. destruct (_ <? _); [done|]. destruct Hr as (Hrc & Hb' & Hp & Hlt & Hend & r & Hr1 & Hr2 & Hfull & Hup).
  set (pages := (PAGE_ALIGN_DOWN (base + len) - addmem_first base len) / PAGE_SIZE) in *. rewrite <- Hend. split_and!; [done|done|done|unfold PAGE_SIZE; lia|].
  intros q Hq. split; [|by rewrite (up_free _ _ _ _ Hup q Hq), Hfull]. rewrite (updated_in_mem _ _ _ _ q Hup). split.
  - intros ([|i] & r' & Hi & Hc); [|left; by exists i, r']. injection Hi as <-. right. unfold contains, memr_end in Hc. by rewrite Hr1, Hr2 in Hc.
  - intros [(i & r' & Hi)|Hc]; [by exists (S i), r'|]. exists O, r. split; [done|]. unfold contains, memr_end. by rewrite Hr1, Hr2.
Qed.
Lemma addmem_outcome_witness : exists b', bbuddy_addmem 409601 (20 * 4096) small = Done (0, b') /\ buddy_inv b' nowhere /\
  page_free (memrs b') (105 * 4096).
Proof.
  destruct (addmem_outcome small 409601 (20 * 4096) small_inv) as (rc & b' & H1 & H2); [lia..| |].
  { intros i r Hi. left. exact (proj1 (Z.leb_le _ _) (forallb_lookup _ _ _ _ small_ends Hi)). }
  assert (Hc : (PAGE_ALIGN_DOWN (409601 + 20 * 4096) - PAGE_ALIGN_UP 409601 <? 2 * PAGE_SIZE) = false) by (vm_compute; reflexivity).
  rewrite Hc in H2. destruct H2 as (-> & Hb' & _ & Hq). exists b'. split; [exact H1|]. split; [exact Hb'|].
  apply Hq; [by exists 105|]. right. vm_compute. split; [discriminate|reflexivity].
Defined.

Lemma max_order_spec l i d : let r := max_order l i d in
  (r = d /\ forall j fl, l !! j = Some fl -> fl = []) \/
  (exists k x fl, r = i + Z.of_nat k /\ l !! k = Some (x :: fl) /\ forall j fl', (k < j)%nat -> l !! j = Some fl' -> fl' = []).
Proof.
  revert i d. induction l as [|fl l IH]; intros i d; cbn [max_order].
  { left. split; [done|]. intros j fl Hj. by rewrite lookup_nil in Hj. }
  destruct (IH (i + 1) (match fl with [] => d | _ => i end)) as [[-> Hall]|(k & x & fl' & -> & Hk & Hall)].
  - destruct fl as [|x fl].
    + left. split; [done|]. intros [|j] fl Hj; [by injection Hj as <-|by apply (Hall j)].
    + right. exists O, x, fl. split_and!; [lia|done|]. intros [|j] fl' Hj Hl; [lia|by apply (Hall j)].
  - right. exists (S k), x, fl'. split_and!; [lia|done|]. intros [|j] fl'' Hj Hl; [lia|]. apply (Hall j); [lia|done].
Qed.
(** While no chunk has 2^31 pages or more, the greatest allocation that is announced is
    exact: a request for [n] pages succeeds when [n] is at most the announced number, and
    fails when it is more. *)
Lemma pmaxalloc_exact b :
  buddy_inv b nowhere -> (forall a o, linked b a o -> o < 31) ->
  exists m, bbuddy_pmaxalloc b = Done (m, b) /\ 0 <= m < 2 ^ 31 /\
    forall n, 0 < n < 2 ^ 64 -> exists r b', bbuddy_palloc n b = Done (r, b') /\ (is_Some r <-> n <= m).
Proof.
  intros Hb H31. assert (Hpal : forall n, 0 < n < 2 ^ 64 -> exists r b', bbuddy_palloc n b = Done (r, b') /\ (is_Some r <-> exists a o, linked b a o /\ n <= 2 ^ o)).
  { intros n Hn. destruct (proj1 (wp_elim _ _ _) (palloc_spec b n Hb Hn)) as (r & b' & Hrun & Hr). exists r, b'. split; [done|]. destruct r as [p|].
    - destruct Hr as (_ & (o & Hl & Hno) & _). split; [|by eexists]. intros _. by exists p, o.
    - destruct Hr as [_ Hno]. split; [by intros []|]. intros (a & o & Hl & Hle). specialize (Hno _ _ Hl). lia. }
  unfold bbuddy_pmaxalloc. destruct (max_order_spec (free_head b) 0 FREELIST_SIZE) as [[Hm Hall]|(k & x & fl & Hm & Hk & Hall)].
  - exists 0. split_and!; [unfold mbind, gets; cbn; by rewrite Hm|lia|lia|]. intros n Hn. destruct (Hpal n Hn) as (r & b' & Hrun & Hr). exists r, b'. split; [done|].
    rewrite Hr. split; [|lia]. intros (a & o & (_ & fl & Hfl & Hin) & _). apply Hall in Hfl as ->. by apply elem_of_nil in Hin.
  - assert (Hl : linked b x (Z.of_nat k)) by (split; [lia|]; exists (x :: fl); rewrite Nat2Z.id; split; [done|by left]). specialize (H31 _ _ Hl).
    exists (2 ^ Z.of_nat k). pose proof (pow2_pos (Z.of_nat k) ltac:(lia)). split_and!; [|lia|apply Z.pow_lt_mono_r; lia|].
    + unfold mbind, gets. cbn. rewrite Hm, Z.add_0_l. rewrite (proj2 (Z.eqb_neq _ _)) by (unfold FREELIST_SIZE, PAGE_SHIFT; lia).
      unfold UK_ASSERT. rewrite (proj2 (Z.ltb_lt _ _)) by lia. by rewrite Z.shiftl_1_l.
    + intros n Hn. destruct (Hpal n Hn) as (r & b' & Hrun & Hr). exists r, b'. split; [done|]. rewrite Hr. split; [|intros; by exists x, (Z.of_nat k)].
      intros (a & o & (Ho & fl' & Hfl & Hin) & Hle). destruct (Z.le_gt_cases o (Z.of_nat k)); [pose proof (pow2_le o (Z.of_nat k) ltac:(lia)); lia|].
      apply Hall in Hfl as ->; [by apply elem_of_nil in Hin|lia].
Qed.
